(* ===== verification/_CoqProject ===== *)
-Q . S2P
Prelude.v
Hw.v
Genirq.v
Mp2520fIrq.v
Mp2520fBoard.v
Ktime.v
Time.v
Clockevent.v
Resource.v
Uart.v
Timer.v
TimerNext.v
Rwsem.v
Bitops.v
Kfifo.v
Sort.v
Bitmap.v
Crc.v
Vsprintf.v
Vsscanf.v
BitmapText.v
BitmapList.v
BitmapRemap.v
Rbtree.v
RbtreeRep.v
RbtreeOk.v
Hrtimer.v
HrtimerOk.v
HrtimerSpec.v
TickOneshot.v
Mmc.v
Display.v
Mtdpart.v
NandEcc.v
Nand.v
Dma.v
