(* ===== verification/Prelude.v ===== *)
(** Verification of the Linux 2.6.24 port to the GP2X (MagicEyes MP2520F).

    * The program

    The repository is a Linux kernel tree (src/kernel/linux) with the support
    for one handheld: the machine code in arch/arm/mach-mp2520f, the drivers of
    its peripherals, and the kernel core they run on, configured by
    src/kernel/mmsp2_config: ARM920T (no [clz], so generic bit operations),
    32-bit little-endian, uniprocessor, HZ = 100, NO_HZ, generic rwsems,
    BASE_SMALL = 0, DEBUG_SHIRQ.  The development models the port itself and the core
    routines it relies on.

    * How the parts interact, and where they are

    The devices are not in the sources: a driver is a state transformer over a
    device state [D] with loads and stores (class [Bus] of Hw.v); what the
    drivers rely on is stated by classes over it ([BusModel], [IrqRegs],
    [GpioRegs], [TimerRegs], [UartTx], [UartRx], [SdFifo], [MmcRegs],
    [DisplayRegs], [NandRegs]; [Master] and [FlashModel] for the flash device
    under the partitions), each with a concrete instance.

    - Prelude.v (this file): machine words with their wrap-around, error
      numbers, the two state monads ([St], and [Sf] whose [None] is a kernel
      oops: a NULL call, an access outside an array, BUG), Hoare triples, bit
      lemmas, hint databases and tactics.
    - Hw.v: the register map of include/asm-arm/arch-mp25xxf and the bus.
    - Genirq.v: kernel/irq: chips, descriptors, request/free, nested
      disable/enable with resend, the level, edge and simple flows, spurious
      accounting; a shared handler is called when it is registered and removed.
    - Mp2520fIrq.v: arch/arm/mach-mp2520f/irq.c on top of Genirq: the three
      chips, the two demultiplexers, the boot-time table, asm_do_IRQ.
    - Mp2520fBoard.v: generic.c: GPIO, PLL clock tree, platform devices,
      static I/O map; platform_get_resource/irq of drivers/base.
    - Ktime.v: include/linux/ktime.h (the union of seconds and nanoseconds) with
      its arithmetic in kernel/hrtimer.c and hrtimer_forward; Time.v: the
      conversions of kernel/time.c with the constants of jiffies.h.
    - Clockevent.v: timecs.c and kernel/time/clockevents.c.
    - Hrtimer.v: the queues of kernel/hrtimer.c on Rbtree.v; the tick device and
      the clocks are the class [TickDev].  HrtimerOk.v: the invariant of the
      queues and what each operation does to them, with timer functions
      described by the classes [LockedCalls] and [SoftCalls]; HrtimerSpec.v: the
      theorems and a concrete machine.
    - TickOneshot.v: kernel/time/tick-oneshot.c on Clockevent.v, the instance of
      [TickDev] for this board.
    - Resource.v: kernel/resource.c on the pointer structure it uses.
    - Uart.v: drivers/serial/mp25xxf_uart.c on Genirq and Mp2520fIrq.
    - Mmc.v: drivers/mmc/host/mp2520f.c on the board functions.
    - Display.v: drivers/video/mmsp2fb.c, drivers/uio/mp25xxf_mlc.c and the LCD
      pins of gp2x.c, on the board functions and the resource tree.
    - Dma.v: drivers/dma/mmsp2.c on Genirq and the platform devices.
    - Mtdpart.v: drivers/mtd/mtdpart.c; NandEcc.v: the error correcting code of
      drivers/mtd/nand/nand_ecc.c; Nand.v: pages with software error correction
      of nand_base.c, and the board's driver drivers/mtd/nand/mmsp2.c.
    - Timer.v: the timer wheel of kernel/timer.c; TimerNext.v: its search for
      the next event, before the idle loop stops the tick, and its comparison
      with the next high-resolution timer.
    - Rwsem.v: lib/rwsem-spinlock.c.
    - Bitops.v, Bitmap.v: asm-generic bit searches, lib/hweight.c,
      lib/bitmap.c.
    - Kfifo.v, Sort.v, Crc.v: kernel/kfifo.c, lib/sort.c, lib/crc*.c with
      gen_crc32table.c and lib/bitrev.c.
    - Vsprintf.v, Vsscanf.v: lib/vsprintf.c: numbers to text and back, vsnprintf
      and vsscanf; BitmapText.v, BitmapList.v, BitmapRemap.v: the text formats and
      the remapping of lib/bitmap.c, with the bit searches of findbit.S.
    - Rbtree.v: lib/rbtree.c on a memory of nodes; RbtreeRep.v: trees, paths
      and their representation, and what each operation does to them;
      RbtreeOk.v: the balance, and the contract for callers.

    State is a record per component with the fields of the C structures; an
    operation is one definition of the same name (a trailing underscore stands
    for the leading double underscore of C); loops are structural or take fuel.

    * What the theorems show

    - Interrupts: in every state that operations and interrupts lead to from the
      static table, a line with a disable depth is marked disabled (no line may
      be given IRQF_NOAUTOEN); nesting of disable/enable, request/free, the level
      flow, the demultiplexers, the boot table; and that the UART 3 lines
      cannot be masked.
    - Time: program_event converts delays within two ticks and never programs
      a comparison that the wrapping counter misses; the timer wheel runs each
      timer once, never early, at its tick, across cascades and the wrap of
      the clock, whatever the timer functions do; the wheel invariant; a run
      ends; the search for the next event misses no timer.
    - High-resolution timers: in every reachable state the trees, the pointers
      to the first timers and the callback list are those of one sequence per
      clock; starting and cancelling a timer on these sequences, with exactly
      what the event device is told and what happens when it refuses; the interrupt
      expires exactly the due timers, in order, and programs the device for the
      next; hrtimer_forward is exact while its count fits a word; and the softirq
      loses an event that is refused.
      The conversions of times to ticks round up exactly (the one of
      microseconds does not), and mktime is the calendar.
    - Resources, boards and drivers: first fit, where rounding up cannot wrap,
      and round trips on the resource tree; exact clock tree; consistent device
      table; what the UART, SD/MMC and display drivers do, and where they go
      wrong (closing a port leaks its lines; a silent card hangs the driver).
    - Flash: the error correcting code corrects one error and detects two; a
      page comes back with one error per block; partitions in a row tile the
      flash and do not reach into each other by reading and writing (by erasing
      they do); the DMA driver takes line 0 and mixes up its registers.
    - Text: vsnprintf stores the part of one text that fits its buffer and
      returns the length of the text, for the formats and arguments it accepts
      ([accepts]: an argument for each conversion, no overflow of the int
      counters of number()); its fast conversions equal the division
      loop; what it prints, simple_strtoull and vsscanf read back.  Bitmaps
      survive being printed and parsed, in hexadecimal and, when a bit is set, as
      lists of ranges, and bitmap_remap follows its map (its operands may share
      storage).
    - Synchronisation and data structures: exclusion, FIFO order and progress
      of rwsems in every interleaving; the FIFO refines a bounded queue, also
      with one unlocked reader and writer interleaved byte by byte; the byte
      heapsort sorts; red-black trees refine the sequence of their nodes, in
      memory and in logarithmic time; the bitmap allocator; word-parallel
      counts, searches, shifts and table-driven CRCs equal their bit-serial
      references.

    Where the code does not do what it means to, a theorem states what it does
    (the manifest lists these as findings).

    * Bounds and fuel

    Integers keep their width ([u8], [u16], [u32], [u64], [s32], ...); range
    hypotheses are written [in_u w x].  Fuel is either discharged by the
    theorem (sorting, region search, resource chains, timer runs, FIFO copies,
    red-black trees, expiry: enough fuel is computed from the input) or the
    subject of the theorem (the unbounded busy wait of the SD/MMC driver).  The
    searches in the trees of timers have the constant fuel 62: the nodes of a
    32-bit machine are fewer than 2^30, and a red-black tree of so many is less
    deep.  The retries of the timer interrupt are as many as the device refuses
    an event.

    * Not modelled

    Locks, memory barriers and preemption on this uniprocessor carry no state
    and appear as the atomicity or the order of steps; console output, /proc
    and registration with the driver core are left out; so is arch time.c,
    which is not built; so are time keeping (the clocks are parameters), nanosleep
    and the switch of the tick device.  Of the flash layer the command sequences
    and bad block tables of nand_base.c and the registry of partition parsers
    are left out; the callbacks of the DMA driver only print.  The rest of the
    kernel (scheduler, memory management, file systems, networking, sound, the
    other architectures and drivers) is out of scope except for the routines
    above. *)

From stdpp Require Export prelude gmap list fin_maps strings.
From Stdlib Require Export ZArith Lia.

#[export] Set Warnings "-clear-no-such-hyp".

Global Open Scope Z_scope.

(** * Fixed-width integers

    A C integer of width [w] is a [Z] in [0 <= x < 2^w]; every C operation
    that can leave the range is followed by the wrap-around written out. *)

Definition wrap (w x : Z) : Z := x mod 2 ^ w.
Definition u8 (x : Z) : Z := wrap 8 x.
Definition u16 (x : Z) : Z := wrap 16 x.
Definition u32 (x : Z) : Z := wrap 32 x.
Definition u64 (x : Z) : Z := wrap 64 x.

(** The two's complement reading of the low [w] bits ([int], [short]). *)
Definition sx (w x : Z) : Z :=
  let y := wrap w x in if y <? 2 ^ (w - 1) then y else y - 2 ^ w.
Definition s16 (x : Z) : Z := sx 16 x.
Definition s32 (x : Z) : Z := sx 32 x.
Definition s64 (x : Z) : Z := sx 64 x.

Definition in_u (w x : Z) : Prop := 0 <= x < 2 ^ w.

#[export] Instance in_u_dec w x : Decision (in_u w x).
Proof. unfold in_u; apply _. Defined.

(** [1 << n] and the C truth value of [v & m]. *)
Definition BIT (n : Z) : Z := Z.shiftl 1 n.
Definition tst (v m : Z) : bool := negb (Z.land v m =? 0).

(** [v & ~m] on [w]-bit operands: clearing never leaves the range, so the
    complement needs no width. *)
Definition clr (v m : Z) : Z := Z.ldiff v m.

(** * Error numbers (include/asm-generic/errno-base.h and errno.h) *)

Definition ENXIO : Z := 6.
Definition EAGAIN : Z := 11.
Definition ENOMEM : Z := 12.
Definition EBUSY : Z := 16.
Definition ENODEV : Z := 19.
Definition EFAULT : Z := 14.
Definition EINVAL : Z := 22.
Definition EROFS : Z := 30.
Definition ERANGE : Z := 34.
Definition ENOSYS : Z := 38.
Definition ETIME : Z := 62.
Definition EBADMSG : Z := 74.
Definition EOVERFLOW : Z := 75.
Definition EILSEQ : Z := 84.
Definition ETIMEDOUT : Z := 110.
Definition EUCLEAN : Z := 117.

(** * A state monad *)

Definition St (S A : Type) : Type := S -> A * S.

#[export] Instance St_ret {S} : MRet (St S) := λ A x s, (x, s).
#[export] Instance St_bind {S} : MBind (St S) :=
  λ A B k m s, let '(x, s1) := m s in k x s1.

Definition get_st {S} : St S S := λ s, (s, s).
Definition put_st {S} (s : S) : St S unit := λ _, (tt, s).
Definition modify {S} (f : S -> S) : St S unit := λ s, (tt, f s).
Definition gets {S A} (f : S -> A) : St S A := λ s, (f s, s).
Definition exec {S A} (m : St S A) (s : S) : S := (m s).2.
Definition eval {S A} (m : St S A) (s : S) : A := (m s).1.

(** Sequencing with a single step lemma, so that [simpl] exposes states in
    execution order. *)
Lemma exec_bind {S A B} (m : St S A) (k : A -> St S B) s :
  exec (m ≫= k) s = exec (k (eval m s)) (exec m s).
Proof. unfold exec, eval, mbind, St_bind. by destruct (m s). Qed.

Lemma eval_bind {S A B} (m : St S A) (k : A -> St S B) s :
  eval (m ≫= k) s = eval (k (eval m s)) (exec m s).
Proof. unfold exec, eval, mbind, St_bind. by destruct (m s). Qed.

(** State with faults: [None] is a kernel oops (a NULL function pointer is
    called, an array is indexed out of range, [BUG()] is reached). *)
Definition Sf (S A : Type) : Type := S -> option (A * S).

#[export] Instance Sf_ret {S} : MRet (Sf S) := λ A x s, Some (x, s).
#[export] Instance Sf_bind {S} : MBind (Sf S) :=
  λ A B k m s, match m s with Some (x, s1) => k x s1 | None => None end.

Definition oops {S A} : Sf S A := λ _, None.
Definition fget {S A} (f : S -> A) : Sf S A := λ s, Some (f s, s).
(** A read that can fault. *)
Definition ftry {S A} (f : S -> option A) : Sf S A := λ s,
  match f s with Some x => Some (x, s) | None => None end.
Definition fmodify {S} (f : S -> S) : Sf S unit := λ s, Some (tt, f s).
Definition fwhen {S} (b : bool) (m : Sf S unit) : Sf S unit := if b then m else mret tt.

Lemma Sf_bind_Some {S A B} (m : Sf S A) (k : A -> Sf S B) s r :
  (m ≫= k) s = Some r <-> ∃ x s1, m s = Some (x, s1) ∧ k x s1 = Some r.
Proof.
  unfold mbind, Sf_bind. split.
  - destruct (m s) as [[x s1]|]; [eauto|done].
  - by intros (x & s1 & -> & ?).
Qed.

Lemma ftry_Some {S A} (f : S -> option A) s x s' : ftry f s = Some (x, s') -> f s = Some x ∧ s' = s.
Proof. unfold ftry. destruct (f s); [|done]. by intros [= <- <-]. Qed.

(** One step of a run. *)
Lemma bind_run {S A B} (m : Sf S A) (k : A -> Sf S B) s x s1 :
  m s = Some (x, s1) -> (m ≫= k) s = k x s1.
Proof. intros Hm. unfold mbind, Sf_bind. by rewrite Hm. Qed.

(** Partial-correctness triples: what a run that does not fault establishes. *)
Definition hoare {S A} (P : S -> Prop) (m : Sf S A) (Q : A -> S -> Prop) : Prop :=
  ∀ s x s', P s -> m s = Some (x, s') -> Q x s'.

Section Hoare.
Context {S : Type}.
Implicit Types (P : S -> Prop).

Lemma hoare_ret {A} P (x : A) : hoare P (mret x) (λ _, P).
Proof. intros s y s' HP [= <- <-]. done. Qed.

Lemma hoare_bind {A B} P Q R (m : Sf S A) (k : A -> Sf S B) :
  hoare P m Q -> (∀ x, hoare (Q x) (k x) R) -> hoare P (m ≫= k) R.
Proof.
  intros Hm Hk s y s' HP (x & s1 & H1 & H2)%Sf_bind_Some. eapply Hk; [|done]. by eapply Hm.
Qed.

Lemma hoare_seq {A B} P P' R (m : Sf S A) (k : Sf S B) :
  hoare P m (λ _, P') -> hoare P' k R -> hoare P (m ;; k) R.
Proof. intros Hm Hk. by apply (hoare_bind P (λ _, P')). Qed.

Lemma hoare_weaken {A} P P' Q Q' (m : Sf S A) :
  hoare P m Q -> (∀ s, P' s -> P s) -> (∀ x s, Q x s -> Q' x s) -> hoare P' m Q'.
Proof. intros Hm HP HQ s x s' H1 H2. apply HQ. eapply Hm; [|done]. by apply HP. Qed.

Lemma hoare_oops {A} P (Q : A -> S -> Prop) : hoare P oops Q.
Proof. by intros s x s'. Qed.

Lemma hoare_fwhen P (b : bool) (m : Sf S unit) :
  (b = true -> hoare P m (λ _, P)) -> hoare P (fwhen b m) (λ _, P).
Proof. destruct b; intros Hm; [by apply Hm|]. apply hoare_ret. Qed.

Lemma hoare_fget {A} P (f : S -> A) : hoare P (fget f) (λ _, P).
Proof. intros s y s' HP [= <- <-]. done. Qed.

Lemma hoare_fmodify P Q (f : S -> S) :
  (∀ s, P s -> Q (f s)) -> hoare P (fmodify f) (λ _, Q).
Proof. intros Hf s y s' HP [= <- <-]. by apply Hf. Qed.

Lemma hoare_ftry {A} P (f : S -> option A) :
  hoare P (ftry f) (λ x s, P s ∧ f s = Some x).
Proof.
  intros s y s' HP. unfold ftry. destruct (f s) eqn:Hf; [|done]. by intros [= <- <-].
Qed.

Lemma hoare_ftry_keep {A} P (f : S -> option A) : hoare P (ftry f) (λ _, P).
Proof. intros s y s' HP Hf. by destruct (hoare_ftry P f s y s' HP Hf). Qed.

Lemma hoare_pure {A} P (φ : Prop) Q (m : Sf S A) :
  (φ -> hoare P m Q) -> hoare (λ s, P s ∧ φ) m Q.
Proof. intros Hm s x s' [HP Hφ] H2. by eapply Hm. Qed.
End Hoare.

(** [n] calls in a row. *)
Fixpoint times {S} (n : nat) (m : Sf S unit) : Sf S unit :=
  match n with O => mret tt | S n => m ;; times n m end.

Lemma times_S {S} n (m : Sf S unit) s s1 :
  m s = Some (tt, s1) -> times (Datatypes.S n) m s = times n m s1.
Proof. intros Hm. cbn [times]. unfold mbind, Sf_bind. by rewrite Hm. Qed.

Lemma times_add {S} a b (m : Sf S unit) s s1 :
  times a m s = Some (tt, s1) -> times (a + b) m s = times b m s1.
Proof.
  revert s. induction a as [|a IH]; intros s; [by intros [= <-]|].
  cbn [times Nat.add]. unfold mbind, Sf_bind. destruct (m s) as [[[] s']|]; [apply IH|done].
Qed.

(** [for x in l] loops. *)
Fixpoint for_each {S X} (f : X -> St S unit) (l : list X) : St S unit :=
  match l with
  | [] => mret tt
  | x :: l => f x ;; for_each f l
  end.

Lemma exec_for_each {S X} (f : X -> St S unit) l s :
  exec (for_each f l) s = foldl (λ s x, exec (f x) s) s l.
Proof.
  revert s. induction l as [|x l IH]; intros s; [done|].
  cbn [for_each foldl]. by rewrite exec_bind, IH.
Qed.

(** Splits on the boolean comparisons of the goal and closes by [lia]. *)
Ltac case_cmp :=
  repeat match goal with
  | |- context [Z.eqb ?a ?b] => destruct (Z.eqb_spec a b)
  | |- context [Z.ltb ?a ?b] => destruct (Z.ltb_spec a b)
  | |- context [Z.leb ?a ?b] => destruct (Z.leb_spec a b)
  end.

(** * Lists *)

Lemma list_filter_ext_in {A} (P Q : A -> Prop) `{∀ x, Decision (P x), ∀ x, Decision (Q x)} (l : list A) :
  (∀ x, x ∈ l -> P x <-> Q x) -> filter P l = filter Q l.
Proof.
  induction l as [|x l IH]; intros HPQ; [done|]. rewrite !filter_cons, IH by set_solver.
  assert (P x <-> Q x) by set_solver. repeat case_decide; tauto.
Qed.

(** * Word and bit lemmas *)

Create HintDb word.

Lemma wrap_range w x : 0 <= w -> in_u w (wrap w x).
Proof. intros. apply Z.mod_pos_bound. lia. Qed.

Lemma wrap_id w x : in_u w x -> wrap w x = x.
Proof. apply Z.mod_small. Qed.

Lemma wrap_wrap w x : 0 <= w -> wrap w (wrap w x) = wrap w x.
Proof. intros. by apply wrap_id, wrap_range. Qed.

Lemma wrap_add_l w x y : wrap w (wrap w x + y) = wrap w (x + y).
Proof. unfold wrap. by rewrite Zplus_mod_idemp_l. Qed.

Lemma wrap_add_r w x y : wrap w (x + wrap w y) = wrap w (x + y).
Proof. unfold wrap. by rewrite Zplus_mod_idemp_r. Qed.

Lemma wrap_sub_l w x y : wrap w (wrap w x - y) = wrap w (x - y).
Proof. unfold wrap. by rewrite Zminus_mod_idemp_l. Qed.

Lemma wrap_sub_r w x y : wrap w (x - wrap w y) = wrap w (x - y).
Proof. unfold wrap. by rewrite Zminus_mod_idemp_r. Qed.

Lemma wrap_land w x : 0 <= w -> wrap w x = Z.land x (Z.ones w).
Proof. intros. unfold wrap. by rewrite Z.land_ones. Qed.

Lemma wrap_testbit w x i : 0 <= w ->
  Z.testbit (wrap w x) i = (i <? w) && Z.testbit x i.
Proof.
  intros Hw. unfold wrap. destruct (decide (0 <= i)) as [Hi|Hi].
  - destruct (Z.ltb_spec i w).
    + by rewrite Z.mod_pow2_bits_low.
    + rewrite Z.mod_pow2_bits_high by lia. done.
  - rewrite !Z.testbit_neg_r by lia. by rewrite andb_false_r.
Qed.

(** A word is below [2^w] exactly when its bits from [w] on are clear. *)
Lemma in_u_bits w x : 0 <= w -> 0 <= x ->
  (∀ i, w <= i -> Z.testbit x i = false) -> in_u w x.
Proof.
  intros Hw Hx Hb. split; [done|].
  assert (x = wrap w x) as ->; [|by apply Z.mod_pos_bound; lia].
  apply Z.bits_inj'. intros n Hn. rewrite wrap_testbit by done.
  destruct (Z.ltb_spec n w); [done|]. by rewrite Hb.
Qed.

Lemma testbit_high w x i : in_u w x -> 0 <= w <= i -> Z.testbit x i = false.
Proof.
  intros Hx Hi. rewrite <- (wrap_id w x Hx), wrap_testbit by lia.
  destruct (Z.ltb_spec i w); [lia|done].
Qed.

Lemma lor_in_u w x y : 0 <= w -> in_u w x -> in_u w y -> in_u w (Z.lor x y).
Proof.
  intros Hw Hx Hy. apply in_u_bits; [done|apply Z.lor_nonneg; split; apply Hx || apply Hy|].
  intros i Hi. rewrite Z.lor_spec, (testbit_high w x), (testbit_high w y); auto.
Qed.

Lemma land_in_u w x y : 0 <= w -> in_u w x -> 0 <= y -> in_u w (Z.land x y).
Proof.
  intros Hw Hx Hy. apply in_u_bits; [done|apply Z.land_nonneg; auto|].
  intros i Hi. by rewrite Z.land_spec, (testbit_high w x).
Qed.

Lemma clr_in_u w x y : 0 <= w -> in_u w x -> in_u w (clr x y).
Proof.
  intros Hw Hx. unfold clr. apply in_u_bits; [done| |].
  - apply Z.ldiff_nonneg. left. apply Hx.
  - intros i Hi. by rewrite Z.ldiff_spec, (testbit_high w x).
Qed.

Lemma BIT_in_u w n : 0 <= n < w -> in_u w (BIT n).
Proof.
  intros Hn. unfold BIT, in_u. rewrite Z.shiftl_1_l. split; [lia|].
  apply Z.pow_lt_mono_r; lia.
Qed.

Lemma BIT_testbit n i : 0 <= n -> 0 <= i -> Z.testbit (BIT n) i = (n =? i).
Proof. intros Hn Hi. unfold BIT. rewrite Z.shiftl_1_l. by apply Z.pow2_bits_eqb. Qed.

Lemma clr_testbit x m i : Z.testbit (clr x m) i = Z.testbit x i && negb (Z.testbit m i).
Proof. apply Z.ldiff_spec. Qed.

Lemma tst_BIT v n : 0 <= n -> tst v (BIT n) = Z.testbit v n.
Proof.
  intros Hn. unfold tst. destruct (Z.testbit v n) eqn:Hb.
  - apply negb_true_iff, Z.eqb_neq. intros H0.
    assert (Z.testbit (Z.land v (BIT n)) n = true) as H1.
    { rewrite Z.land_spec, Hb, BIT_testbit, Z.eqb_refl by lia. done. }
    rewrite H0, Z.bits_0 in H1. done.
  - apply negb_false_iff, Z.eqb_eq. apply Z.bits_inj'. intros i Hi.
    rewrite Z.land_spec, BIT_testbit, Z.bits_0 by lia.
    destruct (Z.eqb_spec n i) as [->|]; [by rewrite Hb|by rewrite andb_false_r].
Qed.

Lemma tst_lor a b m : tst (Z.lor a b) m = tst a m || tst b m.
Proof.
  unfold tst. rewrite Z.land_lor_distr_l, <- negb_andb. f_equal.
  destruct (Z.eqb_spec (Z.land a m) 0) as [Ha|Ha], (Z.eqb_spec (Z.land b m) 0) as [Hb|Hb]; simpl;
    try (apply Z.eqb_neq; rewrite Z.lor_eq_0_iff; tauto).
  apply Z.eqb_eq. by rewrite Ha, Hb.
Qed.

Lemma tst_clr_sub a b m : Z.land m b = m -> tst (clr a b) m = false.
Proof.
  intros Hm. unfold tst. apply negb_false_iff, Z.eqb_eq. rewrite <- Hm. unfold clr.
  apply Z.bits_inj'. intros i Hi. rewrite !Z.land_spec, Z.ldiff_spec, Z.bits_0.
  destruct (Z.testbit a i), (Z.testbit b i), (Z.testbit m i); done.
Qed.

Lemma tst_clr_disj a b m : Z.land m b = 0 -> tst (clr a b) m = tst a m.
Proof.
  intros Hm. unfold tst, clr. do 2 f_equal. apply Z.bits_inj'. intros i Hi.
  assert (Z.testbit (Z.land m b) i = false) as Hb by by rewrite Hm, Z.bits_0.
  rewrite Z.land_spec in Hb. rewrite !Z.land_spec, Z.ldiff_spec.
  destruct (Z.testbit a i), (Z.testbit b i), (Z.testbit m i); done.
Qed.

Lemma tst_false v m : tst v m = false <-> Z.land v m = 0.
Proof. unfold tst. rewrite negb_false_iff. apply Z.eqb_eq. Qed.

Lemma u16_range x : in_u 16 (u16 x).
Proof. by apply wrap_range. Qed.
Lemma u32_range x : in_u 32 (u32 x).
Proof. by apply wrap_range. Qed.
Lemma u8_range x : in_u 8 (u8 x).
Proof. by apply wrap_range. Qed.

#[export] Hint Resolve wrap_range lor_in_u land_in_u clr_in_u BIT_in_u
  u8_range u16_range u32_range : word.

(** A contiguous field of ones, and a field placed above a smaller value. *)
Lemma field_testbit n k i : 0 <= n -> 0 <= k -> 0 <= i ->
  Z.testbit (Z.shiftl (Z.ones n) k) i = (k <=? i) && (i <? k + n).
Proof.
  intros. rewrite Z.shiftl_spec, Z.testbit_ones by lia. case_cmp; try lia; done.
Qed.

Lemma shiftl_land_0 c k o : in_u k o -> 0 <= k -> Z.land (Z.shiftl c k) o = 0.
Proof.
  intros Ho Hk. apply Z.bits_inj'. intros i Hi. rewrite Z.land_spec, Z.bits_0.
  destruct (decide (i < k)); [by rewrite Z.shiftl_spec_low|].
  rewrite (testbit_high k o) by (done || lia). apply andb_false_r.
Qed.

Lemma shiftl_add_lor c k o : in_u k o -> 0 <= k -> Z.shiftl c k + o = Z.lor (Z.shiftl c k) o.
Proof. intros. apply Z.add_nocarry_lor. by apply shiftl_land_0. Qed.

(** Signed readings. *)
Lemma sx_range w x : 0 < w -> - 2 ^ (w - 1) <= sx w x < 2 ^ (w - 1).
Proof.
  intros Hw. unfold sx. assert (in_u w (wrap w x)) as [? ?] by (apply wrap_range; lia).
  assert (2 ^ w = 2 * 2 ^ (w - 1)) by (rewrite <- Z.pow_succ_r by lia; f_equal; lia).
  case_match eqn:E; lia.
Qed.

Lemma sx_id w x : 0 < w -> - 2 ^ (w - 1) <= x < 2 ^ (w - 1) -> sx w x = x.
Proof.
  intros Hw Hx. unfold sx, wrap.
  assert (2 ^ w = 2 * 2 ^ (w - 1)) as Hp by (rewrite <- Z.pow_succ_r by lia; f_equal; lia).
  destruct (decide (0 <= x)).
  - rewrite Z.mod_small by lia. case_match; lia.
  - assert (x mod 2 ^ w = x + 2 ^ w) as ->.
    { symmetry. apply (Z.mod_unique_pos _ _ (-1)); lia. }
    case_match; lia.
Qed.

Lemma sx_wrap w x : 0 <= w -> sx w (wrap w x) = sx w x.
Proof. intros. unfold sx. by rewrite wrap_wrap. Qed.

Lemma s32_range x : - 2 ^ 31 <= s32 x < 2 ^ 31.
Proof. by apply (sx_range 32). Qed.

Lemma s32_id x : - 2 ^ 31 <= x < 2 ^ 31 -> s32 x = x.
Proof. by apply (sx_id 32). Qed.

Lemma s32_u32 x : s32 (u32 x) = s32 x.
Proof. by apply sx_wrap. Qed.

(** * Tactics *)

Ltac no_vars t := tryif match t with context [?x] => is_var x end then fail else idtac.

(** Evaluates flag tests of symbolic status words against constant masks. *)
Ltac flags :=
  repeat first
    [ rewrite tst_lor
    | rewrite tst_clr_sub by reflexivity
    | rewrite tst_clr_disj by reflexivity
    | match goal with |- context [tst ?a ?b] =>
        no_vars a; let v := eval vm_compute in (tst a b) in change (tst a b) with v
      end ];
  rewrite ?orb_true_r, ?orb_false_r; cbn [orb andb negb].

Create Rewrite HintDb bits.
#[export] Hint Rewrite Z.lor_spec Z.land_spec clr_testbit Z.ldiff_spec Z.lxor_spec
  Z.bits_0 : bits.

(** Reduces an equality of words to an equality of bits. *)
Ltac bitwise :=
  apply Z.bits_inj'; intros ?i ?Hi; autorewrite with bits.

Ltac word := eauto 6 with word; try lia.
