(* ===== verification/Hw.v ===== *)
(** Memory-mapped hardware of the MP2520F: the physical-to-virtual address map
    of include/asm-arm/arch-mp25xxf/hardware.h, the register names of
    mmsp2-regs.h, regs-gpio.h, regs-uart.h and regs-sdi.h, and the interface
    between drivers and devices.

    The devices themselves are not part of the sources: a driver is a state
    transformer over an abstract device state [D] that offers loads and stores
    ([Bus]).  What the drivers rely on is the class [BusModel]: a register is
    plain storage, or its set bits are cleared by writing ones to them, or
    nothing is known about it.  [RegFile] is a concrete device that satisfies
    the interface. *)

From S2P Require Import Prelude.

(** * Addresses *)

(** [io_p2v(x)]: [(((x & 0xff000000) >> 4) | 0xf0000000) | (x & 0x000ffff)]. *)
Definition io_p2v (x : Z) : Z :=
  Z.lor (Z.lor (Z.shiftr (Z.land x 0xff000000) 4) 0xf0000000) (Z.land x 0x000ffff).

(** [io_v2p(x)]: [((x & 0x0ff00000) << 4) | (x & 0x000fffff)] in 32 bits. *)
Definition io_v2p (x : Z) : Z :=
  Z.lor (u32 (Z.shiftl (Z.land x 0x0ff00000) 4)) (Z.land x 0x000fffff).

(** A register is an access width in bits and a virtual address. *)
Record reg := Reg { reg_width : Z; reg_addr : Z }.

#[export] Instance reg_eq_dec : EqDecision reg.
Proof. solve_decision. Defined.

Definition REG (x : Z) : reg := Reg 32 (io_p2v x).
Definition REGW (x : Z) : reg := Reg 16 (io_p2v x).
Definition REGB (x : Z) : reg := Reg 8 (io_p2v x).

(** Two registers that share no byte. *)
Definition reg_disj (r r' : reg) : Prop :=
  reg_addr r + reg_width r / 8 <= reg_addr r' \/
  reg_addr r' + reg_width r' / 8 <= reg_addr r.

#[export] Instance reg_disj_dec r r' : Decision (reg_disj r r').
Proof. unfold reg_disj; apply _. Defined.

#[export] Instance reg_disj_sym : Symmetric reg_disj.
Proof. intros r r'. unfold reg_disj. tauto. Qed.

(** * Register names *)

(** mmsp2-regs.h: interrupt controller. *)
Definition SRCPEND : reg := REG 0xc0000800.
Definition INTMOD : reg := REG 0xc0000804.
Definition INTMASK : reg := REG 0xc0000808.
Definition IPRIORITY : reg := REG 0xc000080c.
Definition INTPEND : reg := REG 0xc0000810.

(** mmsp2-regs.h: timer. *)
Definition TCOUNT : reg := REG 0xc0000a00.
Definition TMATCH0 : reg := REG 0xc0000a04.
Definition TCONTROL : reg := REGW 0xc0000a14.
Definition TSTATUS : reg := REGW 0xc0000a16.
Definition TINTEN : reg := REGW 0xc0000a18.
Definition TIMER_EN : Z := BIT 0.

(** mmsp2-regs.h: clocks and power. *)
Definition CPW_START : Z := 0xc0000900.
Definition FPLLVSETREG : reg := REGW (CPW_START + 0x12).
Definition UPLLVSETREG : reg := REGW (CPW_START + 0x16).
Definition APLLVSETREG : reg := REGW (CPW_START + 0x1a).
Definition SYSCSETREG : reg := REGW (CPW_START + 0x1c).

(** regs-gpio.h. *)
Definition GPIOB : Z := 0x2.
Definition GPIOH : Z := 0xe.
Definition GPIOL : Z := 0x16.
Definition GPIOO : Z := 0x1c.
Definition GPIO_FN_OUTPUT : Z := 1.
Definition GPIO_FN_ALT1 : Z := 2.
Definition GPIOxALTFNHI (x : Z) : reg := REGW (0xc0001020 + 0x20 + x).
Definition GPIOxALTFNLOW (x : Z) : reg := REGW (0xc0001020 + x).
Definition GPIOxOUT (x : Z) : reg := REGW (0xc0001060 + x).

(** regs-uart.h. *)
Definition UCONx (x : Z) : reg := REGW (x + 0x2).
Definition FCONx (x : Z) : reg := REGW (x + 0x4).
Definition MCONx (x : Z) : reg := REGW (x + 0x6).
Definition TRSTATUSx (x : Z) : reg := REGW (x + 0x8).
Definition ESTATUSx (x : Z) : reg := REGW (x + 0xa).
Definition FSTATUSx (x : Z) : reg := REGW (x + 0xc).
Definition MSTATUSx (x : Z) : reg := REGW (x + 0xe).
Definition THBx (x : Z) : reg := REGW (x + 0x10).
Definition RHBx (x : Z) : reg := REGW (x + 0x12).
Definition UCONn (n : Z) : reg := REGW (0xc0001202 + 0x20 * n).
Definition MCONn (n : Z) : reg := REGW (0xc0001206 + 0x20 * n).
Definition INTSTATREG : reg := REGW 0xc0001280.

(** regs-sdi.h. *)
Definition MP25XXF_MMC_START : Z := 0xc0001500.
Definition SDICON : reg := REGW (MP25XXF_MMC_START + 0x00).
Definition SDIPRE : reg := REGW (MP25XXF_MMC_START + 0x02).
Definition SDICMDARG : reg := REG (MP25XXF_MMC_START + 0x04).
Definition SDICMDCON : reg := REGW (MP25XXF_MMC_START + 0x08).
Definition SDICMDSTA : reg := REGW (MP25XXF_MMC_START + 0x0a).
Definition SDIRSP (n : Z) : reg := REGW (MP25XXF_MMC_START + 0x0c + 2 * n).
Definition SDIBSIZE : reg := REGW (MP25XXF_MMC_START + 0x1e).
Definition SDIDATCON : reg := REG (MP25XXF_MMC_START + 0x20).
Definition SDIDATSTA : reg := REGW (MP25XXF_MMC_START + 0x28).
Definition SDIFSTA : reg := REGW (MP25XXF_MMC_START + 0x2a).
Definition SDIDAT : reg := REGB (MP25XXF_MMC_START + 0x2c).
Definition SDIINTENB1 : reg := REGW (MP25XXF_MMC_START + 0x30).
Definition SDIINTENB0 : reg := REGW (MP25XXF_MMC_START + 0x32).
Definition SDIDTIMERL : reg := REGW (MP25XXF_MMC_START + 0x36).
Definition SDIDTIMERH : reg := REGW (MP25XXF_MMC_START + 0x38).

(** * The bus *)

Class Bus (D : Type) := {
  bus_load : reg -> D -> Z * D;
  bus_store : reg -> Z -> D -> D;
}.

Section Access.
Context {D : Type} `{Bus D}.

(** Reading an lvalue of [volatile uN] type yields an [N]-bit value; assigning
    to it truncates the value to [N] bits. *)
Definition rd (r : reg) : St D Z :=
  λ d, let '(v, d1) := bus_load r d in (wrap (reg_width r) v, d1).
Definition wr (r : reg) (v : Z) : St D unit :=
  λ d, (tt, bus_store r (wrap (reg_width r) v) d).

(** [r |= m], [r &= m] and [r &= ~m]: one load, then one store. *)
Definition or_reg (r : reg) (m : Z) : St D unit := v ← rd r; wr r (Z.lor v m).
Definition and_reg (r : reg) (m : Z) : St D unit := v ← rd r; wr r (Z.land v m).
Definition clr_reg (r : reg) (m : Z) : St D unit := v ← rd r; wr r (clr v m).
End Access.

(** * What the drivers rely on *)

Inductive reg_kind := Storage | WriteOneClear | Opaque.

#[export] Instance reg_kind_eq_dec : EqDecision reg_kind.
Proof. solve_decision. Defined.

Class BusModel (D : Type) `{Bus D} := {
  kind_of : reg -> reg_kind;
  peek : reg -> D -> Z;
  width_pos : ∀ r, kind_of r <> Opaque -> 8 <= reg_width r;
  peek_range : ∀ r d, kind_of r <> Opaque -> in_u (reg_width r) (peek r d);
  load_known : ∀ r d, kind_of r <> Opaque -> bus_load r d = (peek r d, d);
  store_storage : ∀ r v d, kind_of r = Storage -> in_u (reg_width r) v ->
    peek r (bus_store r v d) = v;
  store_w1c : ∀ r v d, kind_of r = WriteOneClear -> in_u (reg_width r) v ->
    peek r (bus_store r v d) = clr (peek r d) v;
  store_frame : ∀ r r' v d, kind_of r <> Opaque -> kind_of r' <> Opaque ->
    reg_disj r r' -> peek r' (bus_store r v d) = peek r' d;
}.

Section Laws.
Context {D : Type} `{BusModel D}.
Implicit Types (r : reg) (d : D).

Lemma width_nonneg r : kind_of r <> Opaque -> 0 <= reg_width r.
Proof. intros Hk. pose proof (width_pos r Hk). lia. Qed.

Lemma storage_known r : kind_of r = Storage -> kind_of r <> Opaque.
Proof. congruence. Qed.
Lemma w1c_known r : kind_of r = WriteOneClear -> kind_of r <> Opaque.
Proof. congruence. Qed.

Lemma rd_known r d : kind_of r <> Opaque -> rd r d = (peek r d, d).
Proof.
  intros Hk. unfold rd. rewrite load_known by done.
  by rewrite wrap_id by (by apply peek_range).
Qed.

Lemma wr_storage r v d : kind_of r = Storage ->
  peek r (exec (wr r v) d) = wrap (reg_width r) v.
Proof.
  intros Hk. unfold exec, wr; simpl. apply store_storage; [done|].
  by apply wrap_range, width_nonneg, storage_known.
Qed.

Lemma wr_w1c r v d : kind_of r = WriteOneClear ->
  peek r (exec (wr r v) d) = clr (peek r d) (wrap (reg_width r) v).
Proof.
  intros Hk. unfold exec, wr; simpl. apply store_w1c; [done|].
  by apply wrap_range, width_nonneg, w1c_known.
Qed.

Lemma wr_frame r r' v d :
  kind_of r <> Opaque -> kind_of r' <> Opaque -> reg_disj r r' ->
  peek r' (exec (wr r v) d) = peek r' d.
Proof. intros. unfold exec, wr; simpl. by apply store_frame. Qed.

(** The read-modify-write idioms, on registers whose behaviour is known. *)
Lemma exec_rmw r (f : Z -> Z) d : kind_of r <> Opaque ->
  exec (v ← rd r; wr r (f v)) d = exec (wr r (f (peek r d))) d.
Proof.
  intros Hk. rewrite exec_bind. unfold exec at 2, eval. by rewrite rd_known.
Qed.

Lemma or_reg_storage r m d : kind_of r = Storage -> in_u (reg_width r) m ->
  peek r (exec (or_reg r m) d) = Z.lor (peek r d) m.
Proof.
  intros Hk Hm. unfold or_reg. rewrite exec_rmw, wr_storage by congruence.
  apply wrap_id, lor_in_u; [apply width_nonneg; congruence| |done].
  apply peek_range. congruence.
Qed.

Lemma clr_reg_storage r m d : kind_of r = Storage ->
  peek r (exec (clr_reg r m) d) = clr (peek r d) m.
Proof.
  intros Hk. unfold clr_reg. rewrite exec_rmw, wr_storage by congruence.
  apply wrap_id, clr_in_u; [apply width_nonneg; congruence|].
  apply peek_range. congruence.
Qed.

(** [r &= m] on a status register that clears the bits written as one clears
    exactly the set bits selected by [m]. *)
Lemma and_reg_w1c r m d : kind_of r = WriteOneClear -> 0 <= m ->
  peek r (exec (and_reg r m) d) = clr (peek r d) m.
Proof.
  intros Hk Hm. unfold and_reg. rewrite exec_rmw, wr_w1c by congruence.
  rewrite wrap_id.
  - bitwise. destruct (Z.testbit (peek r d) i), (Z.testbit m i); done.
  - apply land_in_u; [apply width_nonneg; congruence| |done].
    apply peek_range. congruence.
Qed.

Lemma or_reg_frame r r' m d :
  kind_of r <> Opaque -> kind_of r' <> Opaque -> reg_disj r r' ->
  peek r' (exec (or_reg r m) d) = peek r' d.
Proof. intros. unfold or_reg. rewrite exec_rmw by done. by apply wr_frame. Qed.

Lemma clr_reg_frame r r' m d :
  kind_of r <> Opaque -> kind_of r' <> Opaque -> reg_disj r r' ->
  peek r' (exec (clr_reg r m) d) = peek r' d.
Proof. intros. unfold clr_reg. rewrite exec_rmw by done. by apply wr_frame. Qed.

Lemma and_reg_frame r r' m d :
  kind_of r <> Opaque -> kind_of r' <> Opaque -> reg_disj r r' ->
  peek r' (exec (and_reg r m) d) = peek r' d.
Proof. intros. unfold and_reg. rewrite exec_rmw by done. by apply wr_frame. Qed.
End Laws.

Create HintDb hw.
#[export] Hint Resolve storage_known w1c_known : hw.

(** * A concrete register file

    Used to run the drivers on concrete inputs and to show that the interface
    can be implemented.  The free-running counter is left opaque; the status
    registers that the sources clear by writing ones are write-one-to-clear,
    every other 8, 16 or 32 bit register is storage. *)

Module RegFile.

Record t := { contents : list (reg * Z) }.

Fixpoint lookup (r : reg) (l : list (reg * Z)) : Z :=
  match l with
  | [] => 0
  | (r', v) :: l => if decide (r = r') then v else lookup r l
  end.

Definition get (r : reg) (d : t) : Z := wrap (reg_width r) (lookup r (contents d)).
Definition set (r : reg) (v : Z) (d : t) : t := {| contents := (r, v) :: contents d |}.

Definition kind (r : reg) : reg_kind :=
  if decide (r ∈ [SRCPEND; INTPEND; TSTATUS; INTSTATREG; SDICMDSTA; SDIDATSTA; SDIFSTA])
  then WriteOneClear
  else if decide (r = TCOUNT) then Opaque
  else if decide (reg_width r ∈ [8; 16; 32]) then Storage else Opaque.

Definition store (r : reg) (v : Z) (d : t) : t :=
  match kind r with
  | WriteOneClear => set r (clr (get r d) v) d
  | _ => set r v d
  end.

#[export] Instance bus : Bus t := {|
  bus_load := λ r d, (get r d, d);
  bus_store := store |}.

Lemma kind_width r : kind r <> Opaque -> 8 <= reg_width r.
Proof.
  unfold kind. case_decide as Hin.
  - intros _. repeat (apply elem_of_cons in Hin as [->|Hin]; [cbn; lia|]).
    by apply not_elem_of_nil in Hin.
  - case_decide; [done|]. case_decide as Hw; [|done]. intros _.
    repeat (apply elem_of_cons in Hw as [->|Hw]; [lia|]).
    by apply not_elem_of_nil in Hw.
Qed.

Lemma get_set_eq r v d : get r (set r v d) = wrap (reg_width r) v.
Proof. unfold get, set; simpl. by rewrite decide_True. Qed.

Lemma get_set_ne r r' v d : r <> r' -> get r' (set r v d) = get r' d.
Proof. intros. unfold get, set; simpl. by rewrite decide_False. Qed.

#[export] Program Instance model : BusModel t := {|
  kind_of := kind;
  peek := get |}.
Next Obligation. apply kind_width. Qed.
Next Obligation.
  intros r d Hk. apply wrap_range. pose proof (kind_width r Hk). lia.
Qed.
Next Obligation. done. Qed.
Next Obligation.
  intros r v d Hk Hv. simpl in *. unfold store. rewrite Hk.
  rewrite get_set_eq. by apply wrap_id.
Qed.
Next Obligation.
  intros r v d Hk Hv. simpl in *. unfold store. rewrite Hk, get_set_eq.
  assert (8 <= reg_width r) by (apply kind_width; congruence).
  apply wrap_id, clr_in_u; [lia|]. apply wrap_range. lia.
Qed.
Next Obligation.
  intros r r' v d Hk Hk' Hd. simpl in *.
  assert (r <> r') as Hne.
  { intros <-. pose proof (kind_width r Hk).
    assert (1 <= reg_width r / 8) by (apply Z.div_le_lower_bound; lia).
    unfold reg_disj in Hd. lia. }
  unfold store. by destruct (kind r); rewrite get_set_ne.
Qed.

End RegFile.
