(* ===== verification/Genirq.v ===== *)
(** The generic interrupt layer: kernel/irq/chip.c, handle.c, manage.c,
    resend.c and spurious.c, with the ARM entry points of
    arch/arm/kernel/irq.c, as configured for the GP2X (uniprocessor,
    CONFIG_HARDIRQS_SW_RESEND, CONFIG_DEBUG_SHIRQ, no per-cpu interrupts).

    State: the table of [irq_chip] structures (their function pointers are
    filled in by [irq_chip_set_defaults]), the [irq_desc] array, the interrupt
    counters, the software-resend bitmap and the machine [D] that the chip
    callbacks and the interrupt handlers act on.  A call through a NULL
    function pointer or past the end of [irq_desc] is a fault ([oops]).

    Locks, the CPU interrupt flag, /proc entries, entropy and messages carry
    no state here.  [irqfixup] is 0: neither irqfixup nor irqpoll is on the
    command line of the configuration. *)

From S2P Require Import Prelude.

(** include/asm-arm/arch-mp25xxf/irqs.h *)
Definition NR_IRQS : Z := 53.

(** include/linux/irq.h *)
Definition IRQ_INPROGRESS : Z := 0x00000100.
Definition IRQ_DISABLED : Z := 0x00000200.
Definition IRQ_PENDING : Z := 0x00000400.
Definition IRQ_REPLAY : Z := 0x00000800.
Definition IRQ_AUTODETECT : Z := 0x00001000.
Definition IRQ_WAITING : Z := 0x00002000.
Definition IRQ_LEVEL : Z := 0x00004000.
Definition IRQ_MASKED : Z := 0x00008000.
Definition IRQ_NOPROBE : Z := 0x00020000.
Definition IRQ_NOREQUEST : Z := 0x00040000.
Definition IRQ_NOAUTOEN : Z := 0x00080000.
Definition IRQ_WAKEUP : Z := 0x00100000.
Definition IRQ_NO_BALANCING : Z := 0x00400000.

(** include/linux/interrupt.h *)
Definition IRQF_TRIGGER_MASK : Z := 0x0000000f.
Definition IRQF_SHARED : Z := 0x00000080.
Definition IRQF_NOBALANCING : Z := 0x00000800.

(** include/asm-arm/mach/irq.h *)
Definition IRQF_VALID : Z := BIT 0.
Definition IRQF_PROBE : Z := BIT 1.
Definition IRQF_NOAUTOEN : Z := BIT 2.

(** include/linux/irqreturn.h *)
Definition IRQ_NONE : Z := 0.
Definition IRQ_HANDLED : Z := 1.

Definition HZ : Z := 100.

(** * Data *)

(** A function pointer of a chip: one of the defaults of chip.c, or a routine
    of the chip driver acting on the machine. *)
Inductive enable_op (D : Type) := default_enable_op | enable_fn (f : Z -> D -> D).
Inductive disable_op (D : Type) := default_disable_op | disable_fn (f : Z -> D -> D).
Inductive startup_op (D : Type) := default_startup_op | startup_fn (f : Z -> D -> D).
Arguments default_enable_op {D}.
Arguments enable_fn {D} _.
Arguments default_disable_op {D}.
Arguments disable_fn {D} _.
Arguments default_startup_op {D}.
Arguments startup_fn {D} _.

Record irq_chip (D : Type) := IrqChip {
  chip_startup : option (startup_op D);
  chip_shutdown : option (disable_op D);
  chip_enable : option (enable_op D);
  chip_disable : option (disable_op D);
  chip_ack : option (Z -> D -> D);
  chip_mask : option (Z -> D -> D);
  chip_mask_ack : option (Z -> D -> D);
  chip_unmask : option (Z -> D -> D);
  chip_retrigger : option (Z -> D -> Z * D);
  chip_set_type : option (Z -> Z -> D -> D);
}.
Arguments IrqChip {D}.
Arguments chip_startup {D}.
Arguments chip_shutdown {D}.
Arguments chip_enable {D}.
Arguments chip_disable {D}.
Arguments chip_ack {D}.
Arguments chip_mask {D}.
Arguments chip_mask_ack {D}.
Arguments chip_unmask {D}.
Arguments chip_retrigger {D}.
Arguments chip_set_type {D}.

(** [irq_flow_handler_t]: the flow handlers of chip.c and handle.c and the
    chained demultiplexers [C] of the board. *)
Inductive flow_handler (C : Type) :=
  | handle_bad | handle_simple | handle_level | handle_edge | handle_chained (c : C).
Arguments handle_bad {C}.
Arguments handle_simple {C}.
Arguments handle_level {C}.
Arguments handle_edge {C}.
Arguments handle_chained {C}.

Record irqaction (H : Type) := IrqAction {
  act_handler : H;
  act_flags : Z;
  act_dev_id : Z;
}.
Arguments IrqAction {H}.
Arguments act_handler {H}.
Arguments act_flags {H}.
Arguments act_dev_id {H}.

(** [chip] is the address of the chip structure, here its key in the chip
    table.  The action chain linked through [next] is a list. *)
Record irq_desc (C H : Type) := IrqDesc {
  handle_irq : option (flow_handler C);
  chip : string;
  action : list (irqaction H);
  status : Z;
  depth : Z;
  irq_count : Z;
  irqs_unhandled : Z;
  last_unhandled : Z;
}.
Arguments IrqDesc {C H}.
Arguments handle_irq {C H}.
Arguments chip {C H}.
Arguments action {C H}.
Arguments status {C H}.
Arguments depth {C H}.
Arguments irq_count {C H}.
Arguments irqs_unhandled {C H}.
Arguments last_unhandled {C H}.

Record irqsys (C H D : Type) := IrqSys {
  chips : gmap string (irq_chip D);
  descs : list (irq_desc C H);
  kstat_irqs : list Z;
  irqs_resend : list bool;
  jiffies : Z;
  noirqdebug : bool;
  mach : D;
}.
Arguments IrqSys {C H D}.
Arguments chips {C H D}.
Arguments descs {C H D}.
Arguments kstat_irqs {C H D}.
Arguments irqs_resend {C H D}.
Arguments jiffies {C H D}.
Arguments noirqdebug {C H D}.
Arguments mach {C H D}.

Definition no_irq_chip : string := "none".
Definition dummy_irq_chip : string := "dummy".

Section Ops.
Context {C H D : Type}.
Implicit Types (s : irqsys C H D) (d : irq_desc C H) (irq : Z).

Definition noop : Z -> D -> D := λ _ m, m.

(** handle.c: the two generic chips.  [ack_bad] only prints and counts. *)
Definition no_irq_chip_struct : irq_chip D :=
  IrqChip (Some (startup_fn noop)) (Some (disable_fn noop)) (Some (enable_fn noop))
    (Some (disable_fn noop)) (Some noop) None None None None None.
Definition dummy_irq_chip_struct : irq_chip D :=
  IrqChip (Some (startup_fn noop)) (Some (disable_fn noop)) (Some (enable_fn noop))
    (Some (disable_fn noop)) (Some noop) (Some noop) None (Some noop) None None.

(** handle.c: the static initialiser of [irq_desc]. *)
Definition irq_desc_init : irq_desc C H :=
  IrqDesc (Some handle_bad) no_irq_chip [] IRQ_DISABLED 1 0 0 0.

(** Field updates. *)
Definition set_handle h d : irq_desc C H :=
  IrqDesc h (chip d) (action d) (status d) (depth d) (irq_count d) (irqs_unhandled d) (last_unhandled d).
Definition set_chip c d : irq_desc C H :=
  IrqDesc (handle_irq d) c (action d) (status d) (depth d) (irq_count d) (irqs_unhandled d) (last_unhandled d).
Definition set_action a d : irq_desc C H :=
  IrqDesc (handle_irq d) (chip d) a (status d) (depth d) (irq_count d) (irqs_unhandled d) (last_unhandled d).
Definition set_status st d : irq_desc C H :=
  IrqDesc (handle_irq d) (chip d) (action d) st (depth d) (irq_count d) (irqs_unhandled d) (last_unhandled d).
Definition set_depth n d : irq_desc C H :=
  IrqDesc (handle_irq d) (chip d) (action d) (status d) n (irq_count d) (irqs_unhandled d) (last_unhandled d).
Definition set_counts c u l d : irq_desc C H :=
  IrqDesc (handle_irq d) (chip d) (action d) (status d) (depth d) c u l.

Definition or_status m d := set_status (Z.lor (status d) m) d.
Definition clr_status m d := set_status (clr (status d) m) d.

Definition set_chips c s : irqsys C H D :=
  IrqSys c (descs s) (kstat_irqs s) (irqs_resend s) (jiffies s) (noirqdebug s) (mach s).
Definition set_descs ds s : irqsys C H D :=
  IrqSys (chips s) ds (kstat_irqs s) (irqs_resend s) (jiffies s) (noirqdebug s) (mach s).
Definition set_kstat k s : irqsys C H D :=
  IrqSys (chips s) (descs s) k (irqs_resend s) (jiffies s) (noirqdebug s) (mach s).
Definition set_resend r s : irqsys C H D :=
  IrqSys (chips s) (descs s) (kstat_irqs s) r (jiffies s) (noirqdebug s) (mach s).
Definition set_mach m s : irqsys C H D :=
  IrqSys (chips s) (descs s) (kstat_irqs s) (irqs_resend s) (jiffies s) (noirqdebug s) m.

(** [irq_desc + irq], read and updated in place. *)
Definition desc_of irq : Sf (irqsys C H D) (irq_desc C H) :=
  ftry (λ s, descs s !! Z.to_nat irq).
Definition upd_desc irq (f : irq_desc C H -> irq_desc C H) : Sf (irqsys C H D) unit := λ s,
  match descs s !! Z.to_nat irq with
  | Some d => Some (tt, set_descs (<[Z.to_nat irq := f d]> (descs s)) s)
  | None => None
  end.

(** [*desc->chip] *)
Definition chip_of irq : Sf (irqsys C H D) (irq_chip D) :=
  d ← desc_of irq;
  ftry (λ s, chips s !! chip d).

(** A call through a chip function pointer that acts on the machine. *)
Definition call (f : option (Z -> D -> D)) irq : Sf (irqsys C H D) unit :=
  match f with
  | Some f => fmodify (λ s, set_mach (f irq (mach s)) s)
  | None => oops
  end.

(** chip.c: default_enable, default_disable, default_startup *)
Definition default_enable irq : Sf (irqsys C H D) unit :=
  c ← chip_of irq;
  call (chip_unmask c) irq ;;
  upd_desc irq (clr_status IRQ_MASKED).

Definition default_disable irq : Sf (irqsys C H D) unit := mret tt.

Definition call_enable irq : Sf (irqsys C H D) unit :=
  c ← chip_of irq;
  match chip_enable c with
  | Some default_enable_op => default_enable irq
  | Some (enable_fn f) => call (Some f) irq
  | None => oops
  end.

Definition default_startup irq : Sf (irqsys C H D) unit := call_enable irq.

Definition call_disable_op (o : option (disable_op D)) irq : Sf (irqsys C H D) unit :=
  match o with
  | Some default_disable_op => default_disable irq
  | Some (disable_fn f) => call (Some f) irq
  | None => oops
  end.
Definition call_disable irq : Sf (irqsys C H D) unit :=
  c ← chip_of irq; call_disable_op (chip_disable c) irq.

(** chip.c: irq_chip_set_defaults *)
Definition irq_chip_set_defaults (c : irq_chip D) : irq_chip D :=
  let enable := match chip_enable c with None => Some default_enable_op | o => o end in
  let disable := match chip_disable c with None => Some default_disable_op | o => o end in
  let startup := match chip_startup c with None => Some default_startup_op | o => o end in
  let shutdown := match chip_shutdown c with None => disable | o => o end in
  IrqChip startup shutdown enable disable (chip_ack c) (chip_mask c) (chip_mask_ack c)
    (chip_unmask c) (chip_retrigger c) (chip_set_type c).

Definition upd_chip (name : string) (f : irq_chip D -> irq_chip D) : Sf (irqsys C H D) unit := λ s,
  match chips s !! name with
  | Some c => Some (tt, set_chips (<[name := f c]> (chips s)) s)
  | None => None
  end.

(** chip.c: set_irq_chip; the NULL chip is [no_irq_chip]. *)
Definition set_irq_chip irq (c : option string) : Sf (irqsys C H D) Z :=
  if NR_IRQS <=? irq then mret (- EINVAL)
  else
    let c := default no_irq_chip c in
    upd_chip c irq_chip_set_defaults ;;
    upd_desc irq (set_chip c) ;;
    mret 0.

(** chip.c: mask_ack_irq *)
Definition mask_ack_irq irq : Sf (irqsys C H D) unit :=
  c ← chip_of irq;
  match chip_mask_ack c with
  | Some f => call (Some f) irq
  | None => call (chip_mask c) irq ;; call (chip_ack c) irq
  end.

(** chip.c: __set_irq_handler; [None] is a NULL handler. *)
Definition set_irq_handler_ irq (handle : option (flow_handler C)) (is_chained : bool) :
    Sf (irqsys C H D) unit :=
  if NR_IRQS <=? irq then mret tt
  else
    d ← desc_of irq;
    let bad := match handle with None | Some handle_bad => true | _ => false end in
    fwhen (match handle with Some _ => bool_decide (chip d = no_irq_chip) | None => false end)
      (upd_desc irq (set_chip dummy_irq_chip)) ;;
    fwhen bad
      (d ← desc_of irq;
       fwhen (negb (bool_decide (chip d = no_irq_chip))) (mask_ack_irq irq) ;;
       upd_desc irq (or_status IRQ_DISABLED) ;;
       upd_desc irq (set_depth 1)) ;;
    upd_desc irq (set_handle (Some (default handle_bad handle))) ;;
    fwhen (negb bad && is_chained)
      (upd_desc irq (clr_status IRQ_DISABLED) ;;
       upd_desc irq (or_status (Z.lor IRQ_NOREQUEST IRQ_NOPROBE)) ;;
       upd_desc irq (set_depth 0) ;;
       c ← chip_of irq;
       call (chip_unmask c) irq).

Definition set_irq_handler irq h := set_irq_handler_ irq (Some h) false.
Definition set_irq_chained_handler irq h := set_irq_handler_ irq (Some h) true.

(** arch/arm/kernel/irq.c: set_irq_flags *)
Definition set_irq_flags irq (iflags : Z) : Sf (irqsys C H D) unit :=
  if NR_IRQS <=? irq then mret tt
  else
    upd_desc irq (or_status (Z.lor (Z.lor IRQ_NOREQUEST IRQ_NOPROBE) IRQ_NOAUTOEN)) ;;
    fwhen (tst iflags IRQF_VALID) (upd_desc irq (clr_status IRQ_NOREQUEST)) ;;
    fwhen (tst iflags IRQF_PROBE) (upd_desc irq (clr_status IRQ_NOPROBE)) ;;
    fwhen (negb (tst iflags IRQF_NOAUTOEN)) (upd_desc irq (clr_status IRQ_NOAUTOEN)).

(** manage.c: disable_irq_nosync *)
Definition disable_irq_nosync irq : Sf (irqsys C H D) unit :=
  if NR_IRQS <=? irq then mret tt
  else
    d ← desc_of irq;
    upd_desc irq (set_depth (u32 (depth d + 1))) ;;
    fwhen (depth d =? 0)
      (upd_desc irq (or_status IRQ_DISABLED) ;; call_disable irq).

(** manage.c: disable_irq; on a uniprocessor [synchronize_irq] is a barrier. *)
Definition disable_irq irq : Sf (irqsys C H D) unit :=
  if NR_IRQS <=? irq then mret tt else disable_irq_nosync irq.

(** resend.c: check_irq_resend *)
Definition check_irq_resend irq : Sf (irqsys C H D) unit :=
  d ← desc_of irq;
  let st := status d in
  call_enable irq ;;
  fwhen (Z.land st (Z.lor (Z.lor IRQ_LEVEL IRQ_PENDING) IRQ_REPLAY) =? IRQ_PENDING)
    (upd_desc irq (set_status (Z.lor (clr st IRQ_PENDING) IRQ_REPLAY)) ;;
     c ← chip_of irq;
     let soft := fmodify (λ s, set_resend (<[Z.to_nat irq := true]> (irqs_resend s)) s) in
     match chip_retrigger c with
     | None => soft
     | Some f =>
         r ← (λ s, let '(r, m) := f irq (mach s) in Some (r, set_mach m s)) : Sf _ _;
         fwhen (r =? 0) soft
     end).

(** manage.c: enable_irq *)
Definition enable_irq irq : Sf (irqsys C H D) unit :=
  if NR_IRQS <=? irq then mret tt
  else
    d ← desc_of irq;
    if depth d =? 0 then mret tt
    else
      fwhen (depth d =? 1)
        (upd_desc irq (set_status (Z.lor (clr (status d) IRQ_DISABLED) IRQ_NOPROBE)) ;;
         check_irq_resend irq) ;;
      upd_desc irq (λ d, set_depth (u32 (depth d - 1)) d).

(** manage.c: can_request_irq *)
Definition can_request_irq irq (irqflags : Z) : Sf (irqsys C H D) bool :=
  if NR_IRQS <=? irq then mret false
  else
    d ← desc_of irq;
    if tst (status d) IRQ_NOREQUEST then mret false
    else mret
      (match action d with
       | [] => true
       | a :: _ => tst (Z.land irqflags (act_flags a)) IRQF_SHARED
       end).

(** manage.c: compat_irq_chip_set_default_handler *)
Definition compat_irq_chip_set_default_handler (d : irq_desc C H) : irq_desc C H :=
  set_handle (match handle_irq d with Some handle_bad => None | h => h end) d.

(** manage.c: setup_irq *)
Definition setup_irq irq (new : irqaction H) : Sf (irqsys C H D) Z :=
  if NR_IRQS <=? irq then mret (- EINVAL)
  else
    d ← desc_of irq;
    if bool_decide (chip d = no_irq_chip) then mret (- ENOSYS)
    else
      let mismatch :=
        match action d with
        | old :: _ =>
            negb (tst (Z.land (act_flags old) (act_flags new)) IRQF_SHARED)
            || tst (Z.lxor (act_flags old) (act_flags new)) IRQF_TRIGGER_MASK
        | [] => false
        end in
      if mismatch then mret (- EBUSY)
      else
        let shared := match action d with [] => false | _ => true end in
        upd_desc irq (λ d, set_action (action d ++ [new]) d) ;;
        fwhen (tst (act_flags new) IRQF_NOBALANCING) (upd_desc irq (or_status IRQ_NO_BALANCING)) ;;
        fwhen (negb shared)
          (upd_chip (chip d) irq_chip_set_defaults ;;
           (if tst (act_flags new) IRQF_TRIGGER_MASK then
              c ← chip_of irq;
              match chip_set_type c with
              | Some f => fmodify (λ s, set_mach (f irq (Z.land (act_flags new) IRQF_TRIGGER_MASK) (mach s)) s)
              | None => mret tt
              end
            else upd_desc irq compat_irq_chip_set_default_handler) ;;
           upd_desc irq (clr_status (Z.lor (Z.lor IRQ_AUTODETECT IRQ_WAITING) IRQ_INPROGRESS)) ;;
           d ← desc_of irq;
           if negb (tst (status d) IRQ_NOAUTOEN) then
             upd_desc irq (set_depth 0) ;;
             upd_desc irq (clr_status IRQ_DISABLED) ;;
             c ← chip_of irq;
             match chip_startup c with
             | Some default_startup_op => default_startup irq
             | Some (startup_fn f) => call (Some f) irq
             | None => call_enable irq
             end
           else upd_desc irq (set_depth 1)) ;;
        upd_desc irq (λ d, set_counts 0 0 (last_unhandled d) d) ;;
        mret 0.

(** The [for (;;)] loop of free_irq: the first action of this device, and the
    chain without it. *)
Fixpoint unlink_action (dev_id : Z) (l : list (irqaction H)) : option (irqaction H * list (irqaction H)) :=
  match l with
  | [] => None
  | a :: l =>
      if act_dev_id a =? dev_id then Some (a, l)
      else match unlink_action dev_id l with Some (b, l') => Some (b, a :: l') | None => None end
  end.

Section Debug.
(** The handlers registered by drivers: code outside this file. *)
Context (run_handler : H -> Z -> Z -> Sf (irqsys C H D) Z).

(** CONFIG_DEBUG_SHIRQ: a shared handler is called once before it is registered
    and once after it was removed. *)
Definition debug_shirq (a : irqaction H) irq : Sf (irqsys C H D) unit :=
  fwhen (tst (act_flags a) IRQF_SHARED) (_ ← run_handler (act_handler a) irq (act_dev_id a); mret tt).

(** manage.c: free_irq *)
Definition free_irq irq (dev_id : Z) : Sf (irqsys C H D) unit :=
  if NR_IRQS <=? irq then mret tt
  else
    d ← desc_of irq;
    match unlink_action dev_id (action d) with
    | Some (a, l) =>
        upd_desc irq (set_action l) ;;
        match l with
        | [] =>
            upd_desc irq (or_status IRQ_DISABLED) ;;
            c ← chip_of irq;
            match chip_shutdown c with
            | Some o => call_disable_op (Some o) irq
            | None => call_disable irq
            end
        | _ => mret tt
        end ;;
        debug_shirq a irq
    | None => mret tt
    end.

(** manage.c: request_irq; [handler = None] is NULL, [mem] is whether the
    [kmalloc] of the irqaction succeeds. *)
Definition request_irq (mem : bool) irq (handler : option H) (irqflags dev_id : Z) :
    Sf (irqsys C H D) Z :=
  if tst irqflags IRQF_SHARED && (dev_id =? 0) then mret (- EINVAL)
  else if NR_IRQS <=? irq then mret (- EINVAL)
  else
    d ← desc_of irq;
    if tst (status d) IRQ_NOREQUEST then mret (- EINVAL)
    else match handler with
      | None => mret (- EINVAL)
      | Some h =>
          if negb mem then mret (- ENOMEM)
          else
            let action := IrqAction h irqflags dev_id in
            debug_shirq action irq ;;
            setup_irq irq action
      end.
End Debug.

(** spurious.c: note_interrupt (with [irqfixup == 0]) *)
Definition note_interrupt irq (action_ret : Z) : Sf (irqsys C H D) unit :=
  j ← fget jiffies;
  fwhen (negb (action_ret =? IRQ_HANDLED))
    (upd_desc irq (λ d,
       let n := if HZ / 10 <? u32 (j - last_unhandled d) then 1 else u32 (irqs_unhandled d + 1) in
       set_counts (irq_count d) n j d)) ;;
  upd_desc irq (λ d, set_counts (u32 (irq_count d + 1)) (irqs_unhandled d) (last_unhandled d) d) ;;
  d ← desc_of irq;
  if irq_count d <? 100000 then mret tt
  else
    upd_desc irq (λ d, set_counts 0 (irqs_unhandled d) (last_unhandled d) d) ;;
    fwhen (99900 <? irqs_unhandled d)
      (upd_desc irq (or_status IRQ_DISABLED) ;;
       upd_desc irq (set_depth 1) ;;
       call_disable irq) ;;
    upd_desc irq (λ d, set_counts (irq_count d) 0 (last_unhandled d) d).

Definition kstat_inc irq : Sf (irqsys C H D) unit :=
  fmodify (λ s, set_kstat (alter (λ n, u32 (n + 1)) (Z.to_nat irq) (kstat_irqs s)) s).

(** handle.c: handle_bad_irq ([ack_bad_irq] counts a bad interrupt). *)
Definition handle_bad_irq irq : Sf (irqsys C H D) unit := kstat_inc irq.
End Ops.

Section Flow.
Context {C H D : Type}.
(** The handlers registered by drivers: code outside this file. *)
Context (run_handler : H -> Z -> Z -> Sf (irqsys C H D) Z).
Implicit Types (irq : Z).

(** handle.c: handle_IRQ_event, on the chain the caller read. *)
Fixpoint handle_IRQ_chain irq (l : list (irqaction H)) (retval : Z) : Sf (irqsys C H D) Z :=
  match l with
  | [] => mret retval
  | a :: l =>
      ret ← run_handler (act_handler a) irq (act_dev_id a);
      handle_IRQ_chain irq l (Z.lor retval ret)
  end.
Definition handle_IRQ_event irq (l : list (irqaction H)) : Sf (irqsys C H D) Z :=
  handle_IRQ_chain irq l IRQ_NONE.

Definition note_unless_noirqdebug irq ret : Sf (irqsys C H D) unit :=
  nd ← fget noirqdebug; fwhen (negb nd) (note_interrupt irq ret).

(** chip.c: handle_simple_irq *)
Definition handle_simple_irq irq : Sf (irqsys C H D) unit :=
  d ← desc_of irq;
  if tst (status d) IRQ_INPROGRESS then mret tt
  else
    upd_desc irq (clr_status (Z.lor IRQ_REPLAY IRQ_WAITING)) ;;
    kstat_inc irq ;;
    d ← desc_of irq;
    match action d with
    | [] => mret tt
    | l =>
        if tst (status d) IRQ_DISABLED then mret tt
        else
          upd_desc irq (or_status IRQ_INPROGRESS) ;;
          ret ← handle_IRQ_event irq l;
          note_unless_noirqdebug irq ret ;;
          upd_desc irq (clr_status IRQ_INPROGRESS)
    end.

(** chip.c: handle_level_irq *)
Definition handle_level_irq irq : Sf (irqsys C H D) unit :=
  mask_ack_irq irq ;;
  d ← desc_of irq;
  if tst (status d) IRQ_INPROGRESS then mret tt
  else
    upd_desc irq (clr_status (Z.lor IRQ_REPLAY IRQ_WAITING)) ;;
    kstat_inc irq ;;
    d ← desc_of irq;
    match action d with
    | [] => mret tt
    | l =>
        if tst (status d) IRQ_DISABLED then mret tt
        else
          upd_desc irq (or_status IRQ_INPROGRESS) ;;
          ret ← handle_IRQ_event irq l;
          note_unless_noirqdebug irq ret ;;
          upd_desc irq (clr_status IRQ_INPROGRESS) ;;
          d ← desc_of irq;
          if tst (status d) IRQ_DISABLED then mret tt
          else
            c ← chip_of irq;
            match chip_unmask c with Some f => call (Some f) irq | None => mret tt end
    end.

(** chip.c: the do-while of handle_edge_irq.  A handler can make the line
    pending again, so the loop has no bound of its own: [fuel] counts its
    turns, and running out of it is a fault. *)
Fixpoint handle_edge_loop (fuel : nat) irq : Sf (irqsys C H D) unit :=
  match fuel with
  | O => oops
  | S fuel =>
      d ← desc_of irq;
      match action d with
      | [] => c ← chip_of irq; call (chip_mask c) irq
      | l =>
          fwhen (Z.land (status d) (Z.lor (Z.lor IRQ_PENDING IRQ_MASKED) IRQ_DISABLED)
                 =? Z.lor IRQ_PENDING IRQ_MASKED)
            (c ← chip_of irq; call (chip_unmask c) irq ;; upd_desc irq (clr_status IRQ_MASKED)) ;;
          upd_desc irq (clr_status IRQ_PENDING) ;;
          ret ← handle_IRQ_event irq l;
          note_unless_noirqdebug irq ret ;;
          d ← desc_of irq;
          if Z.land (status d) (Z.lor IRQ_PENDING IRQ_DISABLED) =? IRQ_PENDING
          then handle_edge_loop fuel irq
          else upd_desc irq (clr_status IRQ_INPROGRESS)
      end
  end.

Definition handle_edge_irq (fuel : nat) irq : Sf (irqsys C H D) unit :=
  upd_desc irq (clr_status (Z.lor IRQ_REPLAY IRQ_WAITING)) ;;
  d ← desc_of irq;
  if tst (status d) (Z.lor IRQ_INPROGRESS IRQ_DISABLED)
     || match action d with [] => true | _ => false end then
    upd_desc irq (or_status (Z.lor IRQ_PENDING IRQ_MASKED)) ;;
    mask_ack_irq irq
  else
    kstat_inc irq ;;
    c ← chip_of irq;
    call (chip_ack c) irq ;;
    upd_desc irq (or_status IRQ_INPROGRESS) ;;
    handle_edge_loop fuel irq.
End Flow.

(** * Symbolic execution on one line

    [put n d k r m s]: the state [s] with descriptor [n], the counters, the
    resend bitmap and the machine replaced.  Every primitive maps such a state
    to such a state, so a run on one line is computed by rewriting. *)

Section Run.
Context {C H D : Type}.
Implicit Types (s : irqsys C H D) (d : irq_desc C H) (irq : Z).

Definition put (n : nat) d (k : list Z) (r : list bool) (m : D) s : irqsys C H D :=
  IrqSys (chips s) (<[n := d]> (descs s)) k r (jiffies s) (noirqdebug s) m.

Definition has_line irq s : Prop := (Z.to_nat irq < length (descs s))%nat.

Lemma put_id irq d s : descs s !! Z.to_nat irq = Some d ->
  put (Z.to_nat irq) d (kstat_irqs s) (irqs_resend s) (mach s) s = s.
Proof. intros Hd. destruct s. unfold put; simpl in *. by rewrite list_insert_id. Qed.

Lemma run_put {A} (f : Sf (irqsys C H D) A) irq d s : descs s !! Z.to_nat irq = Some d ->
  f s = f (put (Z.to_nat irq) d (kstat_irqs s) (irqs_resend s) (mach s) s).
Proof. intros Hd. by rewrite put_id. Qed.

Lemma lookup_has_line irq d s : descs s !! Z.to_nat irq = Some d -> has_line irq s.
Proof. intros Hd%lookup_lt_Some. unfold has_line. lia. Qed.

Lemma run_bind {A B} (m : Sf (irqsys C H D) A) (f : A -> Sf (irqsys C H D) B) s x s1 :
  m s = Some (x, s1) -> (m ≫= f) s = f x s1.
Proof. intros Hm. unfold mbind, Sf_bind. by rewrite Hm. Qed.

Lemma run_assoc {A A' B} (m : Sf (irqsys C H D) A) (f : A -> Sf (irqsys C H D) A')
    (g : A' -> Sf (irqsys C H D) B) s :
  ((m ≫= f) ≫= g) s = (m ≫= λ x, f x ≫= g) s.
Proof. unfold mbind, Sf_bind. by destruct (m s) as [[]|]. Qed.

Lemma run_desc_of irq d k r m s : has_line irq s ->
  desc_of irq (put (Z.to_nat irq) d k r m s) = Some (d, put (Z.to_nat irq) d k r m s).
Proof.
  intros Hl. unfold has_line in Hl. unfold desc_of, ftry; simpl.
  by rewrite list_lookup_insert_eq by lia.
Qed.

Lemma run_upd_desc irq f d k r m s : has_line irq s ->
  upd_desc irq f (put (Z.to_nat irq) d k r m s) = Some (tt, put (Z.to_nat irq) (f d) k r m s).
Proof.
  intros Hl. unfold has_line in Hl. unfold upd_desc; simpl.
  rewrite list_lookup_insert_eq by lia. unfold put, set_descs; simpl.
  by rewrite list_insert_insert_eq.
Qed.

Lemma or_status_0 d : or_status 0 d = d.
Proof. destruct d. unfold or_status, set_status; simpl. by rewrite Z.lor_0_r. Qed.

Lemma run_when_or irq (b : bool) f d k r m s : has_line irq s ->
  fwhen b (upd_desc irq (or_status f)) (put (Z.to_nat irq) d k r m s)
  = Some (tt, put (Z.to_nat irq) (or_status (if b then f else 0) d) k r m s).
Proof.
  intros Hl. destruct b; simpl; [by apply run_upd_desc|]. by rewrite or_status_0.
Qed.

Lemma run_chip_of irq d c k r m s : has_line irq s -> chips s !! chip d = Some c ->
  chip_of irq (put (Z.to_nat irq) d k r m s) = Some (c, put (Z.to_nat irq) d k r m s).
Proof.
  intros Hl Hc. unfold chip_of. rewrite (run_bind _ _ _ _ _ (run_desc_of irq d k r m s Hl)).
  unfold ftry; simpl. by rewrite Hc.
Qed.

Lemma run_call irq f n d k r m s :
  call (Some f) irq (put n d k r m s) = Some (tt, put n d k r (f irq m) s).
Proof. done. Qed.

Lemma run_kstat irq n d k r m s :
  kstat_inc irq (put n d k r m s)
  = Some (tt, put n d (alter (λ c, u32 (c + 1)) (Z.to_nat irq) k) r m s).
Proof. done. Qed.

Lemma run_upd_chip name f c n d k r m s : chips s !! name = Some c -> f c = c ->
  upd_chip name f (put n d k r m s) = Some (tt, put n d k r m s).
Proof.
  intros Hc Hf. unfold upd_chip; simpl. rewrite Hc, Hf. unfold set_chips, put; simpl.
  by rewrite insert_id.
Qed.

(** The chips of the board: acknowledge, mask and unmask given, the rest left
    to the defaults. *)
Definition simple_chip (ack mask unmask : Z -> D -> D) : irq_chip D :=
  irq_chip_set_defaults
    (IrqChip None None None None (Some ack) (Some mask) None (Some unmask) None None).

Lemma simple_chip_defaults ack mask unmask :
  irq_chip_set_defaults (simple_chip ack mask unmask) = simple_chip ack mask unmask.
Proof. done. Qed.

Lemma run_enable_simple irq d ack mask unmask k r m s :
  has_line irq s -> chips s !! chip d = Some (simple_chip ack mask unmask) ->
  call_enable irq (put (Z.to_nat irq) d k r m s)
  = Some (tt, put (Z.to_nat irq) (clr_status IRQ_MASKED d) k r (unmask irq m) s).
Proof.
  intros Hl Hc. unfold call_enable.
  rewrite (run_bind _ _ _ _ _ (run_chip_of irq d _ k r m s Hl Hc)). simpl.
  unfold default_enable. rewrite (run_bind _ _ _ _ _ (run_chip_of irq d _ k r m s Hl Hc)). simpl.
  rewrite (run_bind _ _ _ _ _ (run_call irq unmask _ d k r m s)). by apply run_upd_desc.
Qed.

Lemma run_disable_simple irq d ack mask unmask k r m s :
  has_line irq s -> chips s !! chip d = Some (simple_chip ack mask unmask) ->
  call_disable irq (put (Z.to_nat irq) d k r m s) = Some (tt, put (Z.to_nat irq) d k r m s).
Proof.
  intros Hl Hc. unfold call_disable.
  by rewrite (run_bind _ _ _ _ _ (run_chip_of irq d _ k r m s Hl Hc)).
Qed.

Lemma run_mask_ack_simple irq d ack mask unmask k r m s :
  has_line irq s -> chips s !! chip d = Some (simple_chip ack mask unmask) ->
  mask_ack_irq irq (put (Z.to_nat irq) d k r m s)
  = Some (tt, put (Z.to_nat irq) d k r (ack irq (mask irq m)) s).
Proof.
  intros Hl Hc. unfold mask_ack_irq.
  by rewrite (run_bind _ _ _ _ _ (run_chip_of irq d _ k r m s Hl Hc)).
Qed.
End Run.

(** Executes the next primitive of a run on a canonical state. *)
Ltac irq_step :=
  cbv beta;
  lazymatch goal with
  | |- context [((?m ≫= ?f) ≫= ?g) ?s] => rewrite (run_assoc m f g s)
  | |- context [(desc_of ?i ≫= ?f) ?s] =>
      erewrite (run_bind (desc_of i) f s) by (eapply run_desc_of; eassumption)
  | |- context [(chip_of ?i ≫= ?f) ?s] =>
      erewrite (run_bind (chip_of i) f s) by (eapply run_chip_of; eassumption)
  | |- context [(upd_desc ?i ?g ≫= ?f) ?s] =>
      erewrite (run_bind (upd_desc i g) f s) by (eapply run_upd_desc; eassumption)
  | |- context [(fwhen ?b (upd_desc ?i (or_status ?g)) ≫= ?f) ?s] =>
      erewrite (run_bind (fwhen b (upd_desc i (or_status g))) f s)
        by (eapply run_when_or; eassumption)
  | |- context [(upd_chip ?c ?g ≫= ?f) ?s] =>
      erewrite (run_bind (upd_chip c g) f s) by (eapply run_upd_chip; [eassumption|reflexivity])
  | |- context [(call (Some ?h) ?i ≫= ?f) ?s] =>
      erewrite (run_bind (call (Some h) i) f s) by (eapply run_call)
  | |- context [(kstat_inc ?i ≫= ?f) ?s] =>
      erewrite (run_bind (kstat_inc i) f s) by (eapply run_kstat)
  | |- context [(call_enable ?i ≫= ?f) ?s] =>
      erewrite (run_bind (call_enable i) f s) by (eapply run_enable_simple; eassumption)
  | |- context [(call_disable ?i ≫= ?f) ?s] =>
      erewrite (run_bind (call_disable i) f s) by (eapply run_disable_simple; eassumption)
  | |- context [(mask_ack_irq ?i ≫= ?f) ?s] =>
      erewrite (run_bind (mask_ack_irq i) f s) by (eapply run_mask_ack_simple; eassumption)
  | |- context [upd_desc ?i ?g (put _ _ _ _ _ _)] =>
      rewrite (run_upd_desc i g) by eassumption
  | |- context [call_enable ?i (put _ _ _ _ _ _)] =>
      erewrite (run_enable_simple i) by eassumption
  | |- context [call_disable ?i (put _ _ _ _ _ _)] =>
      erewrite (run_disable_simple i) by eassumption
  | |- context [((mret ?x) ≫= ?f) ?s] =>
      rewrite (run_bind (mret x) f s x s eq_refl)
  end.

(** Exposes the status word of an updated descriptor. *)
Ltac unfold_status :=
  cbn [status clr_status or_status set_status set_action set_handle set_depth set_counts set_chip
       compat_irq_chip_set_default_handler].

(** * Behaviour of the driver interface *)

Section Spec.
Context {C H D : Type}.
Implicit Types (s : irqsys C H D) (d : irq_desc C H) (irq : Z).

(** A line that a driver can request: in range, free, requestable, enabled on
    request, behind a chip with the default callbacks. *)
Record free_line irq (ack mask unmask : Z -> D -> D) d s : Prop := FreeLine {
  fl_range : irq < NR_IRQS;
  fl_desc : descs s !! Z.to_nat irq = Some d;
  fl_chip : chips s !! chip d = Some (simple_chip ack mask unmask);
  fl_real : chip d <> no_irq_chip;
  fl_action : action d = [];
  fl_request : tst (status d) IRQ_NOREQUEST = false;
  fl_autoen : tst (status d) IRQ_NOAUTOEN = false;
}.

(** The descriptor of a line that was just requested. *)
Definition requested d (a : irqaction H) : irq_desc C H :=
  IrqDesc (handle_irq (compat_irq_chip_set_default_handler d)) (chip d) [a]
    (clr (clr (clr (Z.lor (status d) (if tst (act_flags a) IRQF_NOBALANCING then IRQ_NO_BALANCING else 0))
       (Z.lor (Z.lor IRQ_AUTODETECT IRQ_WAITING) IRQ_INPROGRESS)) IRQ_DISABLED) IRQ_MASKED)
    0 0 0 (last_unhandled d).

Lemma request_irq_free run_handler irq ack mask unmask d s h fl dev :
  free_line irq ack mask unmask d s ->
  tst fl IRQF_SHARED = false -> tst fl IRQF_TRIGGER_MASK = false ->
  request_irq run_handler true irq (Some h) fl dev s
  = Some (0, put (Z.to_nat irq) (requested d (IrqAction h fl dev))
               (kstat_irqs s) (irqs_resend s) (unmask irq (mach s)) s).
Proof.
  intros [Hr Hd Hc Hne Ha Hq Hn] Hs Ht.
  pose proof (lookup_has_line _ _ _ Hd) as Hl.
  rewrite (run_put (request_irq run_handler true irq (Some h) fl dev) irq d s Hd).
  unfold request_irq. rewrite Hs. cbn [andb]. destruct (Z.leb_spec NR_IRQS irq); [lia|].
  irq_step. rewrite Hq. cbn [negb]. unfold debug_shirq. cbn [act_flags]. rewrite Hs. cbn [fwhen]. irq_step.
  unfold setup_irq. destruct (Z.leb_spec NR_IRQS irq); [lia|]. irq_step.
  rewrite bool_decide_false by done. rewrite Ha. cbn [act_flags].
  repeat irq_step. cbn [negb fwhen]. repeat irq_step. rewrite Ht. repeat irq_step.
  assert (tst (if tst fl IRQF_NOBALANCING then IRQ_NO_BALANCING else 0) IRQ_NOAUTOEN = false)
    as Hb by by destruct (tst fl IRQF_NOBALANCING).
  unfold_status. flags. rewrite Hn, Hb. cbn [orb negb].
  repeat irq_step. cbn [chip_startup simple_chip irq_chip_set_defaults].
  unfold default_startup. repeat irq_step. unfold mret, Sf_ret. do 2 f_equal.
  unfold requested, put. simpl. by rewrite Ha.
Qed.

(** A second driver asking for an exclusive line is turned away, and nothing
    changes. *)
Lemma request_irq_busy run_handler irq d s h fl dev old l :
  irq < NR_IRQS -> descs s !! Z.to_nat irq = Some d -> chip d <> no_irq_chip ->
  action d = old :: l -> tst (status d) IRQ_NOREQUEST = false ->
  tst fl IRQF_SHARED = false -> request_irq run_handler true irq (Some h) fl dev s = Some (- EBUSY, s).
Proof.
  intros Hr Hd Hne Ha Hq Hs.
  pose proof (lookup_has_line _ _ _ Hd) as Hl.
  rewrite (run_put (request_irq run_handler true irq (Some h) fl dev) irq d s Hd).
  unfold request_irq. rewrite Hs. cbn [andb]. destruct (Z.leb_spec NR_IRQS irq); [lia|].
  irq_step. rewrite Hq. cbn [negb]. unfold debug_shirq. cbn [act_flags]. rewrite Hs. cbn [fwhen]. irq_step.
  unfold setup_irq. destruct (Z.leb_spec NR_IRQS irq); [lia|]. irq_step.
  rewrite bool_decide_false by done. rewrite Ha. cbn [act_flags].
  assert (tst (Z.land (act_flags old) fl) IRQF_SHARED = false) as ->.
  { unfold tst in *. rewrite negb_false_iff, Z.eqb_eq in *. by rewrite <- Z.land_assoc, Hs, Z.land_0_r. }
  cbn [negb orb]. unfold mret, Sf_ret. by rewrite put_id.
Qed.

(** Freeing the only handler of a line disables it; the chip's default
    shutdown leaves the hardware alone. *)
Lemma free_irq_last run_handler irq ack mask unmask d s a :
  tst (act_flags a) IRQF_SHARED = false -> irq < NR_IRQS -> descs s !! Z.to_nat irq = Some d ->
  chips s !! chip d = Some (simple_chip ack mask unmask) -> action d = [a] ->
  free_irq run_handler irq (act_dev_id a) s
  = Some (tt, put (Z.to_nat irq) (or_status IRQ_DISABLED (set_action [] d))
               (kstat_irqs s) (irqs_resend s) (mach s) s).
Proof.
  intros Hs Hr Hd Hc Ha. pose proof (lookup_has_line _ _ _ Hd) as Hl.
  rewrite (run_put (free_irq run_handler irq (act_dev_id a)) irq d s Hd).
  unfold free_irq. destruct (Z.leb_spec NR_IRQS irq); [lia|]. irq_step.
  rewrite Ha. cbn [unlink_action]. rewrite Z.eqb_refl. unfold debug_shirq. rewrite Hs. by repeat irq_step.
Qed.

(** A device that is not on the chain is not removed. *)
Lemma unlink_action_None dev (l : list (irqaction H)) :
  Forall (λ a, act_dev_id a <> dev) l -> unlink_action dev l = None.
Proof.
  induction 1 as [|a l Ha _ IH]; [done|]. cbn [unlink_action].
  destruct (Z.eqb_spec (act_dev_id a) dev); [done|]. by rewrite IH.
Qed.

Lemma unlink_action_Some dev (l1 : list (irqaction H)) a l2 :
  Forall (λ a, act_dev_id a <> dev) l1 -> act_dev_id a = dev ->
  unlink_action dev (l1 ++ a :: l2) = Some (a, l1 ++ l2).
Proof.
  intros Hl1 Ha. induction Hl1 as [|b l1 Hb _ IH]; simpl.
  - by rewrite Ha, Z.eqb_refl.
  - destruct (Z.eqb_spec (act_dev_id b) dev); [done|]. by rewrite IH.
Qed.

(** ** Nested disables *)

Definition disabled_once d : irq_desc C H :=
  if depth d =? 0 then or_status IRQ_DISABLED (set_depth 1 d)
  else set_depth (u32 (depth d + 1)) d.

Lemma run_disable_irq irq ack mask unmask d k r m s :
  irq < NR_IRQS -> has_line irq s -> chips s !! chip d = Some (simple_chip ack mask unmask) ->
  disable_irq irq (put (Z.to_nat irq) d k r m s)
  = Some (tt, put (Z.to_nat irq) (disabled_once d) k r m s).
Proof.
  intros Hr Hl Hc. unfold disable_irq, disable_irq_nosync.
  destruct (Z.leb_spec NR_IRQS irq); [lia|]. repeat irq_step. unfold disabled_once.
  destruct (Z.eqb_spec (depth d) 0) as [->|]; [|done]. cbn [fwhen]. by repeat irq_step.
Qed.

Lemma run_enable_irq_nested irq d k r m s :
  irq < NR_IRQS -> has_line irq s -> 1 < depth d ->
  enable_irq irq (put (Z.to_nat irq) d k r m s)
  = Some (tt, put (Z.to_nat irq) (set_depth (u32 (depth d - 1)) d) k r m s).
Proof.
  intros Hr Hl Hd. unfold enable_irq. destruct (Z.leb_spec NR_IRQS irq); [lia|].
  repeat irq_step. destruct (Z.eqb_spec (depth d) 0); [lia|].
  destruct (Z.eqb_spec (depth d) 1); [lia|]. cbn [fwhen]. by repeat irq_step.
Qed.

(** The enable that balances the first disable, on a line with nothing to
    resend. *)
Lemma run_enable_irq_last irq ack mask unmask d k r m s :
  irq < NR_IRQS -> has_line irq s -> chips s !! chip d = Some (simple_chip ack mask unmask) ->
  depth d = 1 -> tst (status d) IRQ_PENDING = false ->
  enable_irq irq (put (Z.to_nat irq) d k r m s)
  = Some (tt, put (Z.to_nat irq)
      (set_depth 0 (set_status (clr (Z.lor (clr (status d) IRQ_DISABLED) IRQ_NOPROBE) IRQ_MASKED) d))
      k r (unmask irq m) s).
Proof.
  intros Hr Hl Hc Hd Hp. unfold enable_irq. destruct (Z.leb_spec NR_IRQS irq); [lia|].
  repeat irq_step. rewrite Hd. cbn [Z.eqb Pos.eqb fwhen]. unfold check_irq_resend. repeat irq_step.
  unfold_status.
  assert ((Z.land (Z.lor (clr (status d) IRQ_DISABLED) IRQ_NOPROBE)
            (Z.lor (Z.lor IRQ_LEVEL IRQ_PENDING) IRQ_REPLAY) =? IRQ_PENDING) = false) as ->.
  { apply Z.eqb_neq. intros He. apply (f_equal (λ x, Z.testbit x 10)) in He.
    rewrite !Z.land_spec in He. change IRQ_PENDING with (BIT 10) in Hp. rewrite tst_BIT in Hp by lia.
    rewrite Z.lor_spec, clr_testbit, Hp in He. done. }
  cbn [fwhen]. repeat irq_step. cbn [depth set_depth clr_status set_status]. by rewrite Hd.
Qed.

Lemma times_disable n irq ack mask unmask d k r m s :
  irq < NR_IRQS -> has_line irq s -> chips s !! chip d = Some (simple_chip ack mask unmask) ->
  0 < depth d -> depth d + Z.of_nat n < 2 ^ 32 ->
  times n (disable_irq irq) (put (Z.to_nat irq) d k r m s)
  = Some (tt, put (Z.to_nat irq) (set_depth (depth d + Z.of_nat n) d) k r m s).
Proof.
  intros Hr Hl. revert d. induction n as [|n IH]; intros d Hc Hd Hn.
  - cbn. rewrite Z.add_0_r. by destruct d.
  - erewrite times_S by (eapply run_disable_irq; eassumption).
    unfold disabled_once. destruct (Z.eqb_spec (depth d) 0); [lia|].
    unfold u32. rewrite wrap_id by (unfold in_u; lia).
    rewrite IH by (cbn [chip depth set_depth]; done || lia). cbn [depth set_depth].
    replace (depth d + Z.of_nat (S n)) with (depth d + 1 + Z.of_nat n) by lia. done.
Qed.

Lemma times_enable n irq d k r m s :
  irq < NR_IRQS -> has_line irq s -> Z.of_nat n < depth d < 2 ^ 32 ->
  times n (enable_irq irq) (put (Z.to_nat irq) d k r m s)
  = Some (tt, put (Z.to_nat irq) (set_depth (depth d - Z.of_nat n) d) k r m s).
Proof.
  intros Hr Hl. revert d. induction n as [|n IH]; intros d Hd.
  - cbn. rewrite Z.sub_0_r. by destruct d.
  - erewrite times_S by (eapply run_enable_irq_nested; [eassumption..|lia]).
    unfold u32. rewrite wrap_id by (unfold in_u; lia).
    rewrite IH by (cbn [depth set_depth]; lia). cbn [depth set_depth].
    replace (depth d - Z.of_nat (S n)) with (depth d - 1 - Z.of_nat n) by lia. done.
Qed.
End Spec.

(** * The disable-depth invariant

    A line whose disable count is positive carries IRQ_DISABLED, so that the
    flow handlers leave it alone.  IRQ_NOAUTOEN is never set on this board
    ([set_irq_flags] is only called without IRQF_NOAUTOEN), and is part of the
    invariant because [setup_irq] relies on it. *)

Section Invariant.
Context {C H D : Type}.
Implicit Types (s : irqsys C H D) (d : irq_desc C H) (irq : Z).

Definition autoen d : Prop := tst (status d) IRQ_NOAUTOEN = false.
Definition desc_ok d : Prop :=
  (depth d <> 0 -> tst (status d) IRQ_DISABLED = true) ∧ autoen d.

Definition irq_ok s : Prop := Forall desc_ok (descs s).

(** The invariant with line [n] described by [P] instead. *)
Definition except (n : nat) (P : irq_desc C H -> Prop) s : Prop :=
  ∀ i d, descs s !! i = Some d -> if decide (i = n) then P d else desc_ok d.

Lemma except_ok n s : irq_ok s <-> except n desc_ok s.
Proof.
  unfold irq_ok, except. rewrite Forall_lookup. split.
  - intros Hs i d Hd. case_decide; by eapply Hs.
  - intros Hs i d Hd. specialize (Hs i d Hd). by case_decide.
Qed.

Lemma except_weaken n (P Q : irq_desc C H -> Prop) s :
  (∀ d, P d -> Q d) -> except n P s -> except n Q s.
Proof. intros HPQ Hs i d Hd. specialize (Hs i d Hd). case_decide; auto. Qed.

Lemma hoare_desc_of irq P :
  hoare (except (Z.to_nat irq) P) (desc_of irq)
    (λ d s, except (Z.to_nat irq) (λ d', d' = d) s ∧ P d).
Proof.
  intros s d s' Hs Hd. unfold desc_of, ftry in Hd. destruct (descs s !! _) as [d0|] eqn:He; [|done].
  injection Hd as <- <-. pose proof (Hs _ _ He) as HP. rewrite decide_True in HP by done.
  split; [|done]. intros i d' Hd'. specialize (Hs i d' Hd').
  case_decide; [subst; congruence|done].
Qed.

Lemma hoare_upd_desc irq f (P Q : irq_desc C H -> Prop) : (∀ d, P d -> Q (f d)) ->
  hoare (except (Z.to_nat irq) P) (upd_desc irq f) (λ _, except (Z.to_nat irq) Q).
Proof.
  intros Hf s [] s' Hs Hu. unfold upd_desc in Hu. destruct (descs s !! _) as [d0|] eqn:He; [|done].
  injection Hu as <-. intros i d. cbn [descs set_descs].
  destruct (decide (i = Z.to_nat irq)) as [->|Hne].
  - rewrite list_lookup_insert_eq by (by eapply lookup_lt_Some). intros [= <-].
    apply Hf. specialize (Hs _ _ He). by rewrite decide_True in Hs.
  - rewrite list_lookup_insert_ne by done. intros Hd. specialize (Hs _ _ Hd).
    by rewrite decide_False in Hs.
Qed.

Lemma except_frame n P s s' : descs s' = descs s -> except n P s -> except n P s'.
Proof. intros Hd Hs i d. rewrite Hd. apply Hs. Qed.

Lemma hoare_frame {A} n P (m : Sf (irqsys C H D) A) :
  (∀ s x s', m s = Some (x, s') -> descs s' = descs s) ->
  hoare (except n P) m (λ _, except n P).
Proof. intros Hm s x s' Hs Hr. apply (except_frame n P s); [by eapply Hm|done]. Qed.

Lemma chip_of_frame irq s x s' : chip_of irq s = Some (x, s') -> s' = s.
Proof.
  unfold chip_of, desc_of, mbind, Sf_bind, ftry. intros Hc.
  destruct (descs s !! _); [|done]. destruct (chips s !! _); [|done]. congruence.
Qed.

Lemma hoare_chip_of irq n P : hoare (except n P) (chip_of irq) (λ _, except n P).
Proof. apply hoare_frame. by intros s x s' ->%chip_of_frame. Qed.

Lemma hoare_call o irq n P : hoare (except n P) (call o irq) (λ _, except n P).
Proof.
  apply hoare_frame. destruct o as [f|]; [|done]. by intros s x s' [= <- <-].
Qed.

Lemma hoare_upd_chip c f n P : hoare (except n P) (upd_chip c f) (λ _, except n P).
Proof.
  apply hoare_frame. intros s x s'. unfold upd_chip. destruct (chips s !! c); [|done].
  by intros [= <- <-].
Qed.

(** Predicates that survive the chip's default enable. *)
Definition mask_closed (P : irq_desc C H -> Prop) : Prop :=
  ∀ d, P d -> P (clr_status IRQ_MASKED d).

Lemma hoare_call_enable irq P : mask_closed P ->
  hoare (except (Z.to_nat irq) P) (call_enable irq) (λ _, except (Z.to_nat irq) P).
Proof.
  intros HP. unfold call_enable. eapply hoare_bind; [apply hoare_chip_of|]. intros c.
  destruct (chip_enable c) as [[|f]|]; [|apply hoare_call|apply hoare_oops].
  unfold default_enable. eapply hoare_bind; [apply hoare_chip_of|]. intros c'.
  eapply hoare_seq; [apply hoare_call|]. by apply hoare_upd_desc.
Qed.

Lemma hoare_call_disable_op o irq n P :
  hoare (except n P) (call_disable_op o irq) (λ _, except n P).
Proof. destruct o as [[|f]|]; [apply hoare_ret|apply hoare_call|apply hoare_oops]. Qed.

Lemma hoare_call_disable irq n P : hoare (except n P) (call_disable irq) (λ _, except n P).
Proof.
  unfold call_disable. eapply hoare_bind; [apply hoare_chip_of|]. intros. apply hoare_call_disable_op.
Qed.

Lemma hoare_mask_ack irq n P : hoare (except n P) (mask_ack_irq irq) (λ _, except n P).
Proof.
  unfold mask_ack_irq. eapply hoare_bind; [apply hoare_chip_of|]. intros c.
  destruct (chip_mask_ack c); [apply hoare_call|]. eapply hoare_seq; apply hoare_call.
Qed.

Lemma autoen_mask_closed : mask_closed autoen.
Proof. intros d Hd. unfold autoen, clr_status in *. unfold_status. by flags. Qed.

Lemma desc_ok_mask_closed : mask_closed desc_ok.
Proof.
  intros d [Hd Ha]. split; [|by apply autoen_mask_closed].
  unfold clr_status. cbn [depth set_status]. unfold_status. intros Hp. flags. auto.
Qed.

End Invariant.

(** Predicate transformers of the status word are discharged by evaluating
    the flag tests. *)
Ltac solve_desc_ok :=
  intros; unfold desc_ok, autoen in *; destruct_and?; split_and?; intros;
  cbn [depth set_depth set_status clr_status or_status set_action set_handle set_chip set_counts
       compat_irq_chip_set_default_handler] in *;
  unfold_status; flags; auto; try done; try lia.

(** One step of a triple about a line. *)
Ltac irq_hoare :=
  lazymatch goal with
  | |- hoare _ (mret _) _ => apply hoare_ret
  | |- hoare _ oops _ => apply hoare_oops
  | |- hoare _ (upd_desc _ _ ;; _) _ => eapply hoare_seq; [eapply hoare_upd_desc|]
  | |- hoare _ (upd_desc _ _) _ => eapply hoare_upd_desc
  | |- hoare _ (call_disable _ ;; _) _ => eapply hoare_seq; [apply hoare_call_disable|]
  | |- hoare _ (call_disable _) _ => apply hoare_call_disable
  | |- hoare _ (mask_ack_irq _ ;; _) _ => eapply hoare_seq; [apply hoare_mask_ack|]
  | |- hoare _ (mask_ack_irq _) _ => apply hoare_mask_ack
  | |- hoare _ (call _ _) _ => apply hoare_call
  | |- hoare _ (chip_of _ ≫= _) _ => eapply hoare_bind; [apply hoare_chip_of|intros ?c]
  | |- hoare _ (upd_chip _ _ ;; _) _ => eapply hoare_seq; [apply hoare_upd_chip|]
  end.

Section Preserve.
Context {C H D : Type}.
Implicit Types (s : irqsys C H D) (d : irq_desc C H) (irq : Z).

(** A run on line [irq] keeps the invariant when it does so through [except]. *)
Lemma hoare_irq_ok {A} n (m : Sf (irqsys C H D) A) :
  hoare (except n desc_ok) m (λ _, except n desc_ok) -> hoare irq_ok m (λ _, irq_ok).
Proof.
  intros Hm. eapply hoare_weaken; [exact Hm|..]; [by intros s ?%(except_ok n)|].
  intros x s. apply except_ok.
Qed.

Lemma desc_of_known irq (P : irq_desc C H -> Prop) {A} (k : irq_desc C H -> Sf (irqsys C H D) A) Q :
  (∀ d, P d -> hoare (except (Z.to_nat irq) (λ d', d' = d)) (k d) Q) ->
  hoare (except (Z.to_nat irq) P) (desc_of irq ≫= k) Q.
Proof.
  intros Hk. eapply hoare_bind; [apply hoare_desc_of|]. intros d. apply hoare_pure. apply Hk.
Qed.

Lemma disable_irq_nosync_ok irq :
  hoare irq_ok (disable_irq_nosync (D:=D) irq) (λ _, irq_ok (C:=C) (H:=H)).
Proof.
  apply (hoare_irq_ok (Z.to_nat irq)). unfold disable_irq_nosync.
  destruct (NR_IRQS <=? irq); [apply hoare_ret|]. apply desc_of_known. intros d Hd.
  destruct (Z.eqb_spec (depth d) 0) as [Hz|Hz]; cbn [fwhen].
  - eapply hoare_seq; [apply (hoare_upd_desc irq _ _ autoen); intros d' ->; solve_desc_ok|].
    repeat irq_hoare; solve_desc_ok.
  - eapply hoare_seq; [|apply hoare_ret]. irq_hoare. intros d' ->. solve_desc_ok.
Qed.

Lemma disable_irq_ok irq :
  hoare irq_ok (disable_irq (D:=D) irq) (λ _, irq_ok (C:=C) (H:=H)).
Proof.
  unfold disable_irq. destruct (NR_IRQS <=? irq); [apply hoare_ret|]. apply disable_irq_nosync_ok.
Qed.

Lemma hoare_fmodify_frame n P (f : irqsys C H D -> irqsys C H D) :
  (∀ s, descs (f s) = descs s) -> hoare (except n P) (fmodify f) (λ _, except n P).
Proof. intros Hf. apply hoare_frame. intros s x s' [= <- <-]. apply Hf. Qed.

(** An enabled-on-request line at a known depth. *)
Definition at_depth (n : Z) d : Prop := autoen d ∧ depth d = n.

Lemma at_depth_mask_closed n : mask_closed (at_depth n).
Proof. intros d [Hd Hn]. split; [by apply autoen_mask_closed|done]. Qed.

Lemma check_irq_resend_depth irq n :
  hoare (except (Z.to_nat irq) (at_depth n)) (check_irq_resend (C:=C) (H:=H) (D:=D) irq)
    (λ _, except (Z.to_nat irq) (at_depth n)).
Proof.
  unfold check_irq_resend. apply desc_of_known. intros d Hd.
  eapply hoare_seq.
  { eapply hoare_weaken; [apply (hoare_call_enable irq (at_depth n)), at_depth_mask_closed|..]; [|done].
    intros s. apply except_weaken. by intros d' ->. }
  apply hoare_fwhen. intros _.
  eapply hoare_seq.
  { apply (hoare_upd_desc irq _ _ (at_depth n)). intros d' Hd'. unfold at_depth in *. solve_desc_ok. }
  irq_hoare. destruct (chip_retrigger c) as [f|]; [|by apply hoare_fmodify_frame].
  eapply hoare_bind; [apply (hoare_frame _ (at_depth n))|
    intros x; apply hoare_fwhen; intros _; by apply hoare_fmodify_frame].
  intros s x s'. destruct (f irq (mach s)). by intros [= <- <-].
Qed.

Lemma enable_irq_ok irq :
  hoare irq_ok (enable_irq (D:=D) irq) (λ _, irq_ok (C:=C) (H:=H)).
Proof.
  apply (hoare_irq_ok (Z.to_nat irq)). unfold enable_irq.
  destruct (NR_IRQS <=? irq); [apply hoare_ret|]. apply desc_of_known. intros d Hd.
  destruct (Z.eqb_spec (depth d) 0) as [Hz|Hz].
  { eapply hoare_weaken; [apply hoare_ret|done|]. intros x s. apply except_weaken. by intros d' ->. }
  destruct (Z.eqb_spec (depth d) 1) as [H1|H1]; cbn [fwhen].
  - eapply (hoare_seq _ (except (Z.to_nat irq) (at_depth 1))).
    + eapply hoare_seq; [|apply check_irq_resend_depth].
      irq_hoare. intros d' ->. unfold at_depth. solve_desc_ok.
    + irq_hoare. intros d' [Ha H1']. rewrite H1'. solve_desc_ok.
  - eapply hoare_seq; [apply hoare_ret|]. irq_hoare. intros d' ->. solve_desc_ok.
Qed.

Lemma setup_irq_ok irq new :
  hoare irq_ok (setup_irq (D:=D) irq new) (λ _, irq_ok (C:=C) (H:=H)).
Proof.
  apply (hoare_irq_ok (Z.to_nat irq)). unfold setup_irq.
  destruct (NR_IRQS <=? irq); [apply hoare_ret|]. apply desc_of_known. intros d Hd.
  assert (∀ x, hoare (except (Z.to_nat irq) (λ d', d' = d)) (mret (M:=Sf (irqsys C H D)) x)
            (λ _ : Z, except (Z.to_nat irq) desc_ok)) as Hret.
  { intros x. eapply hoare_weaken; [apply hoare_ret|done|]. intros y s. apply except_weaken. by intros d' ->. }
  case_match; [apply Hret|]. case_match; [apply Hret|].
  eapply hoare_seq; [apply (hoare_upd_desc irq _ _ desc_ok); intros d' ->; solve_desc_ok|].
  eapply hoare_seq; [apply hoare_fwhen; intros _; apply hoare_upd_desc; solve_desc_ok|].
  eapply (hoare_seq _ (except (Z.to_nat irq) desc_ok)).
  - apply hoare_fwhen. intros _. irq_hoare.
    eapply (hoare_seq _ (except (Z.to_nat irq) desc_ok)).
    { destruct (tst (act_flags new) IRQF_TRIGGER_MASK); [|apply hoare_upd_desc; solve_desc_ok].
      irq_hoare. destruct (chip_set_type c); [by apply hoare_fmodify_frame|apply hoare_ret]. }
    eapply hoare_seq; [apply (hoare_upd_desc irq _ _ desc_ok); solve_desc_ok|].
    apply desc_of_known. intros d1 [Hd1 Ha1]. rewrite Ha1. cbn [negb].
    eapply hoare_seq; [apply (hoare_upd_desc irq _ _ (at_depth 0)); intros d' ->; unfold at_depth; solve_desc_ok|].
    eapply hoare_seq; [apply (hoare_upd_desc irq _ _ desc_ok); unfold at_depth; solve_desc_ok|].
    irq_hoare. destruct (chip_startup c) as [[|f]|].
    + apply hoare_call_enable, desc_ok_mask_closed.
    + apply hoare_call.
    + apply hoare_call_enable, desc_ok_mask_closed.
  - eapply hoare_seq; [apply (hoare_upd_desc irq _ _ desc_ok); solve_desc_ok|]. apply hoare_ret.
Qed.

Lemma note_interrupt_ok irq ret :
  hoare irq_ok (note_interrupt (D:=D) irq ret) (λ _, irq_ok (C:=C) (H:=H)).
Proof.
  apply (hoare_irq_ok (Z.to_nat irq)). unfold note_interrupt.
  eapply hoare_bind; [apply hoare_fget|]. intros j.
  eapply hoare_seq; [apply hoare_fwhen; intros _; apply hoare_upd_desc; solve_desc_ok|].
  eapply hoare_seq; [apply (hoare_upd_desc irq _ _ desc_ok); solve_desc_ok|].
  apply desc_of_known. intros d Hd. destruct (irq_count d <? 100000).
  { eapply hoare_weaken; [apply hoare_ret|done|]. intros x s. apply except_weaken. by intros d' ->. }
  eapply hoare_seq; [apply (hoare_upd_desc irq _ _ desc_ok); intros d' ->; solve_desc_ok|].
  eapply (hoare_seq _ (except (Z.to_nat irq) desc_ok)); [|apply hoare_upd_desc; solve_desc_ok].
  apply hoare_fwhen. intros _.
  eapply hoare_seq; [apply (hoare_upd_desc irq _ _ (λ d, autoen d ∧ tst (status d) IRQ_DISABLED = true)); solve_desc_ok|].
  eapply hoare_seq; [apply (hoare_upd_desc irq _ _ desc_ok); solve_desc_ok|]. apply hoare_call_disable.
Qed.
End Preserve.

Section FlowSpec.
Context {C H D : Type}.
Context (run_handler : H -> Z -> Z -> Sf (irqsys C H D) Z).
Implicit Types (s : irqsys C H D) (d : irq_desc C H) (irq : Z).

Lemma hoare_upd_ok irq f : (∀ d, desc_ok d -> desc_ok (f d)) ->
  hoare irq_ok (upd_desc (D:=D) irq f) (λ _, irq_ok (C:=C) (H:=H)).
Proof. intros Hf. apply (hoare_irq_ok (Z.to_nat irq)). by apply hoare_upd_desc. Qed.

Lemma hoare_kstat irq : hoare irq_ok (kstat_inc (D:=D) irq) (λ _, irq_ok (C:=C) (H:=H)).
Proof. apply (hoare_irq_ok (Z.to_nat irq)). by apply hoare_fmodify_frame. Qed.

(** The flow handlers keep the invariant when the drivers' handlers do. *)
Section Handlers.
Context (handlers_ok : ∀ h irq dev, hoare irq_ok (run_handler h irq dev) (λ _, irq_ok)).

Lemma handle_IRQ_chain_ok irq l ret :
  hoare irq_ok (handle_IRQ_chain run_handler irq l ret) (λ _, irq_ok).
Proof.
  revert ret. induction l as [|a l IH]; intros ret; [apply hoare_ret|].
  cbn [handle_IRQ_chain]. eapply hoare_bind; [apply handlers_ok|]. intros r. apply IH.
Qed.

Lemma note_unless_ok irq ret :
  hoare irq_ok (note_unless_noirqdebug (D:=D) irq ret) (λ _, irq_ok (C:=C) (H:=H)).
Proof.
  unfold note_unless_noirqdebug. eapply hoare_bind; [apply hoare_fget|]. intros nd.
  apply hoare_fwhen. intros _. apply note_interrupt_ok.
Qed.

Lemma debug_shirq_ok a irq : hoare irq_ok (debug_shirq run_handler a irq) (λ _, irq_ok).
Proof. apply hoare_fwhen. intros _. eapply hoare_bind; [apply handlers_ok|]. intros r. apply hoare_ret. Qed.

Lemma request_irq_ok mem irq h fl dev :
  hoare irq_ok (request_irq run_handler mem irq h fl dev) (λ _, irq_ok).
Proof.
  unfold request_irq. case_match; [apply hoare_ret|].
  destruct (NR_IRQS <=? irq) eqn:E; [apply hoare_ret|].
  eapply hoare_bind; [apply hoare_ftry_keep|].
  intros d. case_match; [apply hoare_ret|]. destruct h as [h|]; [|apply hoare_ret].
  destruct mem; [|apply hoare_ret]. eapply hoare_seq; [apply debug_shirq_ok|apply setup_irq_ok].
Qed.

Lemma free_irq_ok irq dev : hoare irq_ok (free_irq run_handler irq dev) (λ _, irq_ok).
Proof.
  unfold free_irq. destruct (NR_IRQS <=? irq); [apply hoare_ret|].
  eapply hoare_bind; [apply hoare_ftry_keep|]. intros d.
  destruct (unlink_action dev (action d)) as [[a l]|]; [|apply hoare_ret].
  eapply hoare_seq; [apply hoare_upd_ok; solve_desc_ok|].
  eapply hoare_seq; [|apply debug_shirq_ok]. destruct l; [|apply hoare_ret].
  eapply hoare_seq; [apply hoare_upd_ok; solve_desc_ok|].
  eapply hoare_bind; [apply (hoare_irq_ok (Z.to_nat irq)), hoare_chip_of|]. intros c.
  apply (hoare_irq_ok (Z.to_nat irq)). destruct (chip_shutdown c); [apply hoare_call_disable_op|apply hoare_call_disable].
Qed.

Lemma handle_level_irq_ok irq :
  hoare irq_ok (handle_level_irq run_handler irq) (λ _, irq_ok).
Proof.
  unfold handle_level_irq.
  eapply hoare_seq; [apply (hoare_irq_ok (Z.to_nat irq)), hoare_mask_ack|].
  eapply hoare_bind; [apply hoare_ftry_keep|]. intros d. case_match; [apply hoare_ret|].
  eapply hoare_seq; [apply hoare_upd_ok; solve_desc_ok|].
  eapply hoare_seq; [apply hoare_kstat|].
  eapply hoare_bind; [apply hoare_ftry_keep|]. intros d1. destruct (action d1) as [|a l]; [apply hoare_ret|].
  case_match; [apply hoare_ret|].
  eapply hoare_seq; [apply hoare_upd_ok; solve_desc_ok|].
  eapply hoare_bind; [apply handle_IRQ_chain_ok|]. intros r.
  eapply hoare_seq; [apply note_unless_ok|].
  eapply hoare_seq; [apply hoare_upd_ok; solve_desc_ok|].
  eapply hoare_bind; [apply hoare_ftry_keep|]. intros d2. case_match; [apply hoare_ret|].
  eapply hoare_bind; [apply (hoare_irq_ok (Z.to_nat irq)), hoare_chip_of|]. intros c.
  destruct (chip_unmask c); [apply (hoare_irq_ok (Z.to_nat irq)), hoare_call|apply hoare_ret].
Qed.

Lemma handle_simple_irq_ok irq : hoare irq_ok (handle_simple_irq run_handler irq) (λ _, irq_ok).
Proof.
  unfold handle_simple_irq. eapply hoare_bind; [apply hoare_ftry_keep|]. intros d. case_match; [apply hoare_ret|].
  eapply hoare_seq; [apply hoare_upd_ok; solve_desc_ok|].
  eapply hoare_seq; [apply hoare_kstat|].
  eapply hoare_bind; [apply hoare_ftry_keep|]. intros d1. destruct (action d1) as [|a l]; [apply hoare_ret|].
  case_match; [apply hoare_ret|].
  eapply hoare_seq; [apply hoare_upd_ok; solve_desc_ok|].
  eapply hoare_bind; [apply handle_IRQ_chain_ok|]. intros r.
  eapply hoare_seq; [apply note_unless_ok|]. apply hoare_upd_ok; solve_desc_ok.
Qed.

Lemma chip_call_ok irq (f : irq_chip D -> option (Z -> D -> D)) :
  hoare irq_ok (c ← chip_of irq; call (f c) irq) (λ _, irq_ok (C:=C) (H:=H)).
Proof. apply (hoare_irq_ok (Z.to_nat irq)). irq_hoare. apply hoare_call. Qed.

Lemma handle_edge_loop_ok fuel irq : hoare irq_ok (handle_edge_loop run_handler fuel irq) (λ _, irq_ok).
Proof.
  induction fuel as [|fuel IH]; [apply hoare_oops|]. cbn [handle_edge_loop].
  eapply hoare_bind; [apply hoare_ftry_keep|]. intros d. destruct (action d) as [|a l]; [apply chip_call_ok|].
  eapply hoare_seq.
  { apply hoare_fwhen. intros _. eapply hoare_bind; [apply (hoare_irq_ok (Z.to_nat irq)), hoare_chip_of|]. intros c.
    eapply hoare_seq; [apply (hoare_irq_ok (Z.to_nat irq)), hoare_call|]. apply hoare_upd_ok; solve_desc_ok. }
  eapply hoare_seq; [apply hoare_upd_ok; solve_desc_ok|].
  eapply hoare_bind; [apply handle_IRQ_chain_ok|]. intros r. eapply hoare_seq; [apply note_unless_ok|].
  eapply hoare_bind; [apply hoare_ftry_keep|]. intros d1. case_match; [apply IH|]. apply hoare_upd_ok; solve_desc_ok.
Qed.

Lemma handle_edge_irq_ok fuel irq : hoare irq_ok (handle_edge_irq run_handler fuel irq) (λ _, irq_ok).
Proof.
  unfold handle_edge_irq. eapply hoare_seq; [apply hoare_upd_ok; solve_desc_ok|].
  eapply hoare_bind; [apply hoare_ftry_keep|]. intros d. case_match.
  - eapply hoare_seq; [apply hoare_upd_ok; solve_desc_ok|]. apply (hoare_irq_ok (Z.to_nat irq)), hoare_mask_ack.
  - eapply hoare_seq; [apply hoare_kstat|].
    eapply hoare_bind; [apply (hoare_irq_ok (Z.to_nat irq)), hoare_chip_of|]. intros c.
    eapply hoare_seq; [apply (hoare_irq_ok (Z.to_nat irq)), hoare_call|].
    eapply hoare_seq; [apply hoare_upd_ok; solve_desc_ok|apply handle_edge_loop_ok].
Qed.
End Handlers.

(** The board's side of the interface. *)
Lemma set_irq_chip_ok irq c : hoare irq_ok (set_irq_chip (D:=D) irq c) (λ _, irq_ok (C:=C) (H:=H)).
Proof.
  unfold set_irq_chip. destruct (NR_IRQS <=? irq); [apply hoare_ret|]. cbv zeta.
  eapply hoare_seq; [apply (hoare_irq_ok (Z.to_nat irq)), hoare_upd_chip|].
  eapply hoare_seq; [apply hoare_upd_ok; solve_desc_ok|]. apply hoare_ret.
Qed.

Lemma set_irq_handler_ok irq h chained :
  hoare irq_ok (set_irq_handler_ (D:=D) irq h chained) (λ _, irq_ok (C:=C) (H:=H)).
Proof.
  unfold set_irq_handler_. destruct (NR_IRQS <=? irq); [apply hoare_ret|].
  eapply hoare_bind; [apply hoare_ftry_keep|]. intros d. cbv zeta. set (bad := match h with None | Some handle_bad => true | _ => false end).
  eapply hoare_seq; [apply hoare_fwhen; intros _; apply hoare_upd_ok; solve_desc_ok|].
  eapply hoare_seq.
  { apply hoare_fwhen. intros _. eapply hoare_bind; [apply hoare_ftry_keep|]. intros d1.
    eapply hoare_seq; [apply hoare_fwhen; intros _; apply (hoare_irq_ok (Z.to_nat irq)), hoare_mask_ack|].
    apply (hoare_irq_ok (Z.to_nat irq)).
    eapply hoare_seq; [apply (hoare_upd_desc irq _ _ (λ d, autoen d ∧ tst (status d) IRQ_DISABLED = true)); solve_desc_ok|].
    apply (hoare_upd_desc irq _ _ desc_ok). solve_desc_ok. }
  eapply hoare_seq; [apply hoare_upd_ok; solve_desc_ok|]. apply hoare_fwhen. intros _.
  apply (hoare_irq_ok (Z.to_nat irq)).
  eapply hoare_seq; [apply (hoare_upd_desc irq _ _ autoen); solve_desc_ok|].
  eapply hoare_seq; [apply (hoare_upd_desc irq _ _ autoen); solve_desc_ok|].
  eapply hoare_seq; [apply (hoare_upd_desc irq _ _ desc_ok); solve_desc_ok|]. irq_hoare. apply hoare_call.
Qed.

Lemma set_irq_flags_ok irq fl : tst fl IRQF_NOAUTOEN = false ->
  hoare irq_ok (set_irq_flags (D:=D) irq fl) (λ _, irq_ok (C:=C) (H:=H)).
Proof.
  intros Hfl. unfold set_irq_flags. destruct (NR_IRQS <=? irq); [apply hoare_ret|]. rewrite Hfl. cbn [negb].
  apply (hoare_irq_ok (Z.to_nat irq)). set (marked := λ d : irq_desc C H, depth d <> 0 -> tst (status d) IRQ_DISABLED = true).
  eapply hoare_seq; [apply (hoare_upd_desc irq _ _ marked); unfold marked; solve_desc_ok|].
  eapply hoare_seq; [apply hoare_fwhen; intros _; apply (hoare_upd_desc irq _ _ marked); unfold marked; solve_desc_ok|].
  eapply hoare_seq; [apply hoare_fwhen; intros _; apply (hoare_upd_desc irq _ _ marked); unfold marked; solve_desc_ok|].
  cbn [fwhen]. apply (hoare_upd_desc irq _ _ desc_ok); unfold marked; solve_desc_ok.
Qed.

(** An interrupt on a disabled line, or on one without handler, runs no driver
    code: the line is masked and acknowledged, and stays masked. *)
Lemma handle_level_disabled irq ack mask unmask d s :
  descs s !! Z.to_nat irq = Some d -> chips s !! chip d = Some (simple_chip ack mask unmask) ->
  tst (status d) IRQ_INPROGRESS = false ->
  tst (status d) IRQ_DISABLED = true \/ action d = [] ->
  handle_level_irq run_handler irq s
  = Some (tt, put (Z.to_nat irq) (clr_status (Z.lor IRQ_REPLAY IRQ_WAITING) d)
               (alter (λ c, u32 (c + 1)) (Z.to_nat irq) (kstat_irqs s)) (irqs_resend s)
               (ack irq (mask irq (mach s))) s).
Proof.
  intros Hd Hc Hi Hx. pose proof (lookup_has_line _ _ _ Hd) as Hl.
  rewrite (run_put (handle_level_irq run_handler irq) irq d s Hd).
  unfold handle_level_irq. repeat irq_step. rewrite Hi. repeat irq_step.
  cbn [action clr_status set_status]. destruct Hx as [Hx|Hx].
  - destruct (action d); [done|]. unfold_status. flags. by rewrite Hx.
  - by rewrite Hx.
Qed.

(** Line state while the handlers of a level interrupt run. *)
Definition in_progress d : irq_desc C H :=
  or_status IRQ_INPROGRESS (clr_status (Z.lor IRQ_REPLAY IRQ_WAITING) d).

Definition counted d : irq_desc C H :=
  set_counts (u32 (irq_count d + 1)) (irqs_unhandled d) (last_unhandled d) d.

Lemma run_note_handled irq d s :
  descs s !! Z.to_nat irq = Some d -> u32 (irq_count d + 1) < 100000 -> noirqdebug s = false ->
  note_unless_noirqdebug irq IRQ_HANDLED s
  = Some (tt, put (Z.to_nat irq) (counted d) (kstat_irqs s) (irqs_resend s) (mach s) s).
Proof.
  intros Hd Hn Hnd. pose proof (lookup_has_line _ _ _ Hd) as Hl.
  rewrite (run_put (note_unless_noirqdebug irq IRQ_HANDLED) irq d s Hd).
  unfold note_unless_noirqdebug, note_interrupt, mbind at 1, Sf_bind at 1, fget at 1. cbn [noirqdebug put].
  rewrite Hnd. cbn [negb fwhen]. unfold mbind at 1, Sf_bind at 1, fget at 1. cbn beta iota.
  cbn [fwhen negb Z.eqb IRQ_HANDLED Pos.eqb]. repeat irq_step.
  cbn [irq_count set_counts]. destruct (Z.ltb_spec (u32 (irq_count d + 1)) 100000); [done|lia].
Qed.

(** An interrupt on an enabled line: the handlers run with the line masked,
    acknowledged and marked in progress; afterwards the line is unmasked
    unless a handler disabled it. *)
Lemma handle_level_enabled irq ack mask unmask d d2 s s2 a l :
  descs s !! Z.to_nat irq = Some d -> chips s !! chip d = Some (simple_chip ack mask unmask) ->
  tst (status d) IRQ_INPROGRESS = false -> tst (status d) IRQ_DISABLED = false ->
  action d = a :: l ->
  handle_IRQ_event run_handler irq (action d)
    (put (Z.to_nat irq) (in_progress d) (alter (λ c, u32 (c + 1)) (Z.to_nat irq) (kstat_irqs s))
       (irqs_resend s) (ack irq (mask irq (mach s))) s) = Some (IRQ_HANDLED, s2) ->
  descs s2 !! Z.to_nat irq = Some d2 -> chips s2 !! chip d2 = Some (simple_chip ack mask unmask) ->
  u32 (irq_count d2 + 1) < 100000 -> noirqdebug s2 = false ->
  handle_level_irq run_handler irq s
  = Some (tt, put (Z.to_nat irq) (clr_status IRQ_INPROGRESS (counted d2))
       (kstat_irqs s2) (irqs_resend s2)
       (if tst (status d2) IRQ_DISABLED then mach s2 else unmask irq (mach s2)) s2).
Proof.
  intros Hd Hc Hi Hx Ha Hrun Hd2 Hc2 Hn Hnd. pose proof (lookup_has_line _ _ _ Hd) as Hl.
  pose proof (lookup_has_line _ _ _ Hd2) as Hl2.
  rewrite (run_put (handle_level_irq run_handler irq) irq d s Hd).
  unfold handle_level_irq. repeat irq_step. rewrite Hi. repeat irq_step.
  cbn [action clr_status set_status]. rewrite Ha. unfold_status. flags. rewrite Hx.
  repeat irq_step. rewrite <- Ha. rewrite (run_bind _ _ _ _ _ Hrun).
  rewrite (run_bind _ _ _ _ _ (run_note_handled irq d2 s2 Hd2 Hn Hnd)).
  repeat irq_step. unfold counted. unfold_status. flags.
  destruct (tst (status d2) IRQ_DISABLED); [done|]. irq_step. done.
Qed.
End FlowSpec.

(** * Properties *)

Section Properties.
Context {C H D : Type}.
Implicit Types (s : irqsys C H D) (d : irq_desc C H) (irq : Z).

Definition line irq s : option (irq_desc C H) := descs s !! Z.to_nat irq.

Lemma line_put irq d k r m s : has_line irq s -> line irq (put (Z.to_nat irq) d k r m s) = Some d.
Proof. intros Hl. unfold line; cbn [descs put]. by apply list_lookup_insert_eq. Qed.

(** C3: requesting a free interrupt line succeeds, enables and unmasks it and
    installs exactly the given handler; while it is held any exclusive request
    is refused with -EBUSY and changes nothing; freeing it with the same
    device id disables the line and makes it requestable again. *)
Theorem request_free_roundtrip (run_handler : H -> Z -> Z -> Sf (irqsys C H D) Z) irq ack mask unmask d s h fl dev :
  free_line irq ack mask unmask d s ->
  tst fl IRQF_SHARED = false -> tst fl IRQF_TRIGGER_MASK = false ->
  ∃ s1 s2 d1,
    request_irq run_handler true irq (Some h) fl dev s = Some (0, s1) ∧
    line irq s1 = Some d1 ∧ action d1 = [IrqAction h fl dev] ∧ depth d1 = 0 ∧
    tst (status d1) IRQ_DISABLED = false ∧ mach s1 = unmask irq (mach s) ∧
    (∀ h' fl' dev', tst fl' IRQF_SHARED = false ->
       request_irq run_handler true irq (Some h') fl' dev' s1 = Some (- EBUSY, s1)) ∧
    free_irq run_handler irq dev s1 = Some (tt, s2) ∧ mach s2 = mach s1 ∧
    free_line irq ack mask unmask (or_status IRQ_DISABLED (set_action [] d1)) s2.
Proof.
  intros Hf Hs Ht. pose proof (request_irq_free run_handler _ _ _ _ _ _ h _ dev Hf Hs Ht) as Hreq.
  destruct Hf as [Hr Hd Hc Hne Ha Hq Hn]. pose proof (lookup_has_line _ _ _ Hd) as Hl.
  set (d1 := requested d (IrqAction h fl dev)) in *.
  set (s1 := put _ d1 _ _ _ _) in Hreq.
  assert (line irq s1 = Some d1) as Hd1 by by apply line_put.
  assert (tst (if tst fl IRQF_NOBALANCING then IRQ_NO_BALANCING else 0) IRQ_NOREQUEST = false ∧
          tst (if tst fl IRQF_NOBALANCING then IRQ_NO_BALANCING else 0) IRQ_NOAUTOEN = false) as [Hb1 Hb2]
    by by destruct (tst fl IRQF_NOBALANCING).
  assert (tst (status d1) IRQ_NOREQUEST = false) as Hq1.
  { unfold d1, requested. cbn [status act_flags]. flags. by rewrite Hq, Hb1. }
  assert (tst (status d1) IRQ_NOAUTOEN = false) as Hn1.
  { unfold d1, requested. cbn [status act_flags]. flags. by rewrite Hn, Hb2. }
  pose proof (free_irq_last run_handler irq ack mask unmask d1 s1 (IrqAction h fl dev) Hs Hr Hd1 Hc eq_refl) as Hfree.
  assert (tst (status d1) IRQ_DISABLED = false) as Hx1.
  { unfold d1, requested. cbn [status act_flags]. by flags. }
  eexists s1, _, d1. split_and!;
    [exact Hreq|exact Hd1|done|done|exact Hx1|done| |exact Hfree|done|].
  - intros h' fl' dev' Hs'.
    by eapply (request_irq_busy run_handler irq d1 s1 h' fl' dev' (IrqAction h fl dev) []).
  - split; try done.
    + by apply line_put, (lookup_has_line _ _ _ Hd1).
    + unfold_status. flags. by rewrite Hq1.
    + unfold_status. flags. by rewrite Hn1.
Qed.

(** C2: disables nest.  On an enabled line, after [n] disables the line is
    disabled and every balancing enable but the last leaves it so, without
    touching the hardware; the [n]-th enable re-enables and unmasks it. *)
Theorem disable_enable_nesting irq ack mask unmask d s (n : nat) :
  irq < NR_IRQS -> line irq s = Some d -> chips s !! chip d = Some (simple_chip ack mask unmask) ->
  depth d = 0 -> tst (status d) IRQ_PENDING = false -> 0 < Z.of_nat n < 2 ^ 32 ->
  ∃ s1, times n (disable_irq irq) s = Some (tt, s1) ∧
    (∀ k : nat, (k < n)%nat -> ∃ s2 d2,
       times k (enable_irq irq) s1 = Some (tt, s2) ∧ line irq s2 = Some d2 ∧
       depth d2 = Z.of_nat (n - k) ∧ tst (status d2) IRQ_DISABLED = true ∧ mach s2 = mach s) ∧
    (∃ s3 d3, times n (enable_irq irq) s1 = Some (tt, s3) ∧ line irq s3 = Some d3 ∧
       depth d3 = 0 ∧ tst (status d3) IRQ_DISABLED = false ∧ mach s3 = unmask irq (mach s)).
Proof.
  intros Hr Hd Hc Hz Hp Hn. pose proof (lookup_has_line _ _ _ Hd) as Hl.
  set (d1 := or_status IRQ_DISABLED (set_depth 1 d)).
  set (dn := set_depth (Z.of_nat n) d1).
  set (s1 := put (Z.to_nat irq) dn (kstat_irqs s) (irqs_resend s) (mach s) s).
  assert (times n (disable_irq irq) s = Some (tt, s1)) as Hdis.
  { destruct n as [|n]; [lia|]. rewrite (run_put (times _ _) irq d s Hd).
    erewrite times_S by (eapply run_disable_irq; eassumption).
    unfold disabled_once. rewrite Hz, Z.eqb_refl. fold d1.
    erewrite (times_disable n irq ack mask unmask d1) by (try eassumption; cbn; lia).
    unfold s1, dn. do 4 f_equal. cbn [depth d1 or_status set_status set_depth]. lia. }
  assert (tst (status dn) IRQ_DISABLED = true) as Hdd.
  { unfold dn, d1. unfold_status. flags. done. }
  exists s1. split; [done|]. split.
  - intros k Hk. eexists _, (set_depth (Z.of_nat n - Z.of_nat k) dn). split_and!.
    + apply (times_enable k irq dn); [done..|]. cbn [depth dn set_depth]. lia.
    + by apply line_put.
    + cbn [depth set_depth]. lia.
    + done.
    + done.
  - destruct n as [|n]; [lia|].
    eexists _, _. split_and!.
    + replace (S n) with (n + 1)%nat by lia.
      erewrite times_add by (apply (times_enable n irq dn); [done..|]; cbn [depth dn set_depth]; lia).
      erewrite times_S; [reflexivity|]. eapply run_enable_irq_last; try eassumption.
      * cbn [depth dn set_depth]. lia.
      * unfold dn, d1. unfold_status. flags. by rewrite Hp.
    + by apply line_put.
    + done.
    + unfold_status. by flags.
    + done.
Qed.

(** The level flow handler and a disabled line.  With a positive disable
    count (under the depth invariant), or with no handler installed, no driver
    code runs: the machine state is exactly that of the chip masking and
    acknowledging the line, which stays masked. *)
Theorem level_irq_gating (run_handler : H -> Z -> Z -> Sf (irqsys C H D) Z) irq ack mask unmask d s :
  irq_ok s -> line irq s = Some d -> chips s !! chip d = Some (simple_chip ack mask unmask) ->
  tst (status d) IRQ_INPROGRESS = false -> depth d <> 0 \/ action d = [] ->
  ∃ s', handle_level_irq run_handler irq s = Some (tt, s') ∧
    mach s' = ack irq (mask irq (mach s)) ∧ line irq s' = Some (clr_status (Z.lor IRQ_REPLAY IRQ_WAITING) d).
Proof.
  intros Hok Hd Hc Hi Hx. pose proof (lookup_has_line _ _ _ Hd) as Hl.
  unfold irq_ok in Hok. rewrite Forall_lookup in Hok. destruct (Hok _ _ Hd) as [Hdep _].
  eexists. split; [apply (handle_level_disabled _ irq ack mask unmask d s Hd Hc Hi); tauto|].
  split; [done|]. by apply line_put.
Qed.

(** The level flow handler and an enabled line.  The installed chain runs
    once, with the line masked, acknowledged and marked in progress; when it
    returns IRQ_HANDLED the line is unmasked, unless a handler disabled it
    meanwhile, in which case the hardware is left as the handlers left it. *)
Theorem level_irq_run (run_handler : H -> Z -> Z -> Sf (irqsys C H D) Z)
    irq ack mask unmask d d2 s s2 a l :
  line irq s = Some d -> chips s !! chip d = Some (simple_chip ack mask unmask) ->
  tst (status d) IRQ_INPROGRESS = false -> tst (status d) IRQ_DISABLED = false ->
  action d = a :: l ->
  handle_IRQ_event run_handler irq (action d)
    (put (Z.to_nat irq) (in_progress d) (alter (λ c, u32 (c + 1)) (Z.to_nat irq) (kstat_irqs s))
       (irqs_resend s) (ack irq (mask irq (mach s))) s) = Some (IRQ_HANDLED, s2) ->
  line irq s2 = Some d2 -> chips s2 !! chip d2 = Some (simple_chip ack mask unmask) ->
  u32 (irq_count d2 + 1) < 100000 -> noirqdebug s2 = false ->
  ∃ s' d', handle_level_irq run_handler irq s = Some (tt, s') ∧ line irq s' = Some d' ∧
    tst (status d') IRQ_INPROGRESS = false ∧
    mach s' = (if tst (status d2) IRQ_DISABLED then mach s2 else unmask irq (mach s2)).
Proof.
  intros Hd Hc Hi Hx Ha Hrun Hd2 Hc2 Hn Hnd. pose proof (lookup_has_line _ _ _ Hd2) as Hl2.
  eexists _, _. split_and!.
  - by eapply (handle_level_enabled run_handler irq ack mask unmask d d2 s s2 a l).
  - by apply line_put.
  - unfold_status. by flags.
  - done.
Qed.

(** The operations of the layer: the drivers' interface, the board's set-up
    calls and the flow handlers. *)
Inductive irq_op :=
  | op_set_chip (irq : Z) (c : option string)
  | op_set_handler (irq : Z) (h : option (flow_handler C)) (chained : bool)
  | op_set_flags (irq iflags : Z)
  | op_disable_nosync (irq : Z)
  | op_disable (irq : Z)
  | op_enable (irq : Z)
  | op_setup (irq : Z) (new : irqaction H)
  | op_request (mem : bool) (irq : Z) (h : option H) (fl dev : Z)
  | op_free (irq dev : Z)
  | op_bad (irq : Z)
  | op_simple (irq : Z)
  | op_level (irq : Z)
  | op_edge (fuel : nat) (irq : Z).

Definition run_op (run_handler : H -> Z -> Z -> Sf (irqsys C H D) Z) (o : irq_op) : Sf (irqsys C H D) unit :=
  match o with
  | op_set_chip irq c => _ ← set_irq_chip irq c; mret tt
  | op_set_handler irq h chained => set_irq_handler_ irq h chained
  | op_set_flags irq iflags => set_irq_flags irq iflags
  | op_disable_nosync irq => disable_irq_nosync irq
  | op_disable irq => disable_irq irq
  | op_enable irq => enable_irq irq
  | op_setup irq new => _ ← setup_irq irq new; mret tt
  | op_request mem irq h fl dev => _ ← request_irq run_handler mem irq h fl dev; mret tt
  | op_free irq dev => free_irq run_handler irq dev
  | op_bad irq => handle_bad_irq irq
  | op_simple irq => handle_simple_irq run_handler irq
  | op_level irq => handle_level_irq run_handler irq
  | op_edge fuel irq => handle_edge_irq run_handler fuel irq
  end.

(** No line of the board is marked IRQF_NOAUTOEN. *)
Definition op_autoen (o : irq_op) : Prop :=
  match o with op_set_flags _ iflags => tst iflags IRQF_NOAUTOEN = false | _ => True end.

Definition irq_event (run_handler : H -> Z -> Z -> Sf (irqsys C H D) Z) s s' : Prop :=
  ∃ o, op_autoen o ∧ run_op run_handler o s = Some (tt, s').

Lemma run_op_ok run_handler o : (∀ h irq dev, hoare irq_ok (run_handler h irq dev) (λ _, irq_ok)) -> op_autoen o ->
  hoare irq_ok (run_op run_handler o) (λ _, irq_ok).
Proof.
  intros Hh Ho. assert (∀ {A} (m : Sf (irqsys C H D) A), hoare irq_ok m (λ _, irq_ok) -> hoare irq_ok (_ ← m; mret tt) (λ _, irq_ok)) as Hdrop.
  { intros A m Hm. eapply hoare_bind; [exact Hm|]. intros x. apply hoare_ret. }
  destruct o; cbn [run_op].
  - apply Hdrop, set_irq_chip_ok.
  - apply set_irq_handler_ok.
  - by apply set_irq_flags_ok.
  - apply disable_irq_nosync_ok.
  - apply disable_irq_ok.
  - apply enable_irq_ok.
  - apply Hdrop, setup_irq_ok.
  - by apply Hdrop, request_irq_ok.
  - by apply free_irq_ok.
  - apply hoare_kstat.
  - by apply handle_simple_irq_ok.
  - by apply handle_level_irq_ok.
  - by apply handle_edge_irq_ok.
Qed.

(** C1: the disable-depth invariant.  Start from the static table of
    descriptors and let any sequence of set_irq_chip, __set_irq_handler,
    set_irq_flags (without IRQF_NOAUTOEN, which this board never passes),
    disable_irq, disable_irq_nosync, enable_irq, setup_irq, request_irq,
    free_irq and interrupts through handle_bad_irq, handle_simple_irq,
    handle_level_irq and handle_edge_irq happen, whatever the chips do and with
    handlers that keep the invariant themselves.  Then a line with a non-zero
    disable count carries IRQ_DISABLED, and no line carries IRQ_NOAUTOEN. *)
Theorem irq_depth_invariant (run_handler : H -> Z -> Z -> Sf (irqsys C H D) Z) n s0 s irq d :
  (∀ h irq dev, hoare irq_ok (run_handler h irq dev) (λ _, irq_ok)) ->
  descs s0 = replicate n irq_desc_init -> rtc (irq_event run_handler) s0 s -> line irq s = Some d ->
  (depth d <> 0 -> tst (status d) IRQ_DISABLED = true) ∧ tst (status d) IRQ_NOAUTOEN = false.
Proof.
  intros Hh Hinit Hrun Hd. assert (irq_ok s0) as Hok by (unfold irq_ok; rewrite Hinit; by apply Forall_replicate).
  assert (irq_ok s) as Hs.
  { clear Hd Hinit. induction Hrun as [s|s1 s2 s3 (o & Ho & Hstep) _ IH]; [done|].
    apply IH. by apply (run_op_ok run_handler o Hh Ho s1 tt s2). }
  unfold irq_ok in Hs. rewrite Forall_lookup in Hs. exact (Hs _ _ Hd).
Qed.
End Properties.

(** * Witnesses: a controller whose machine state is its mask word *)

Module Demo.

Definition unmask_bit : Z -> Z -> Z := λ irq m, clr m (BIT irq).
Definition mask_bit : Z -> Z -> Z := λ irq m, Z.lor m (BIT irq).
Definition ack_bit : Z -> Z -> Z := λ _ m, m.

Definition desc0 : irq_desc unit unit := set_chip "MAIN" (set_handle (Some handle_level) irq_desc_init).

Definition sys0 : irqsys unit unit Z :=
  IrqSys {["MAIN" := simple_chip ack_bit mask_bit unmask_bit]} (replicate 53 desc0)
    (replicate 53 0) (replicate 53 false) 0 false 0xffffffff.

Definition handler : unit -> Z -> Z -> Sf (irqsys unit unit Z) Z := λ _ _ _, mret IRQ_HANDLED.

Lemma sys0_free : free_line 14 ack_bit mask_bit unmask_bit desc0 sys0.
Proof. by split. Qed.

(** The state after requesting line 14. *)
Definition sys1 : irqsys unit unit Z :=
  put 14 (requested desc0 (IrqAction tt 0 7)) (replicate 53 0) (replicate 53 false)
    (unmask_bit 14 0xffffffff) sys0.

Lemma sys0_ok : irq_ok sys0.
Proof. apply Forall_replicate. by split. Qed.

Lemma request_free_roundtrip_witness :
  ∃ s1 s2, request_irq handler true 14 (Some tt) 0 7 sys0 = Some (0, s1) ∧
           free_irq handler 14 7 s1 = Some (tt, s2) ∧ mach s1 = 0xffffbfff.
Proof.
  destruct (request_free_roundtrip handler 14 ack_bit mask_bit unmask_bit desc0 sys0 tt 0 7
    sys0_free eq_refl eq_refl)
    as (s1 & s2 & d1 & H1 & _ & _ & _ & _ & H2 & _ & H3 & _).
  exists s1, s2. split; [exact H1|split; [exact H3|exact H2]].
Defined.

Lemma disable_enable_nesting_witness :
  ∃ s1 s3, times 3 (disable_irq 14) sys1 = Some (tt, s1) ∧
           times 3 (enable_irq 14) s1 = Some (tt, s3) ∧ mach s3 = 0xffffbfff.
Proof.
  destruct (disable_enable_nesting 14 ack_bit mask_bit unmask_bit
    (requested desc0 (IrqAction tt 0 7)) sys1 3)
    as (s1 & H1 & _ & s3 & d3 & H3 & _ & _ & _ & Hm);
    [reflexivity|reflexivity|reflexivity|reflexivity|reflexivity|split; reflexivity|].
  exists s1, s3. split; [exact H1|split; [exact H3|exact Hm]].
Defined.

Lemma level_irq_gating_witness :
  ∃ s', handle_level_irq handler 14 sys0 = Some (tt, s') ∧ mach s' = 0xffffffff.
Proof.
  destruct (level_irq_gating handler 14 ack_bit mask_bit unmask_bit desc0 sys0 sys0_ok eq_refl
    eq_refl eq_refl (or_intror eq_refl)) as (s' & H1 & H2 & _).
  exists s'. split; [exact H1|exact H2].
Defined.

Lemma level_irq_run_witness :
  ∃ s', handle_level_irq handler 14 sys1 = Some (tt, s') ∧ mach s' = 0xffffbfff.
Proof.
  set (d := requested desc0 (IrqAction tt 0 7)).
  destruct (level_irq_run handler 14 ack_bit mask_bit unmask_bit d (in_progress d) sys1
    (put 14 (in_progress d) (alter (λ c, u32 (c + 1)) 14%nat (replicate 53 0)) (replicate 53 false)
      (ack_bit 14 (mask_bit 14 (mach sys1))) sys1) (IrqAction tt 0 7) [])
    as (s' & d' & H1 & _ & _ & H2); try reflexivity.
  exists s'. split; [exact H1|exact H2].
Defined.

(** The static table behind one chip. *)
Definition boot : irqsys unit unit Z :=
  IrqSys {["MAIN" := simple_chip ack_bit mask_bit unmask_bit]} (replicate 53 irq_desc_init)
    (replicate 53 0) (replicate 53 false) 0 false 0xffffffff.
Definition ops : list (irq_op (C := unit) (H := unit)) :=
  [op_set_chip 14 (Some "MAIN"); op_set_handler 14 (Some handle_level) false; op_set_flags 14 IRQF_VALID;
   op_request true 14 (Some tt) 0 7; op_level 14; op_disable 14; op_disable 14; op_level 14; op_enable 14].
Fixpoint run_ops (l : list (irq_op (C := unit) (H := unit))) (s : irqsys unit unit Z) : option (irqsys unit unit Z) :=
  match l with
  | [] => Some s
  | o :: l => match run_op handler o s with Some (_, s') => run_ops l s' | None => None end
  end.
Lemma run_ops_rtc l s s' : Forall op_autoen l -> run_ops l s = Some s' -> rtc (irq_event handler) s s'.
Proof.
  intros Hl. revert s. induction Hl as [|o l Ho _ IH]; intros s; cbn [run_ops]; [by intros [= ->]|].
  destruct (run_op handler o s) as [[[] s1]|] eqn:E; [|done]. intros Hr. apply (rtc_l _ s s1); [by exists o|by apply IH].
Qed.

(** Line 14 is set up, requested, interrupted, disabled twice, interrupted and
    enabled once: it is still disabled. *)
Lemma irq_depth_invariant_witness :
  ∃ s d, run_ops ops boot = Some s ∧ line 14 s = Some d ∧ depth d = 1 ∧ tst (status d) IRQ_DISABLED = true.
Proof.
  destruct (run_ops ops boot) as [s|] eqn:E; [|vm_compute in E; discriminate].
  destruct (line 14 s) as [d|] eqn:Hd; [|vm_compute in E; injection E as <-; vm_compute in Hd; discriminate].
  assert (depth d = 1) as H1 by (vm_compute in E; injection E as <-; vm_compute in Hd; injection Hd as <-; reflexivity).
  exists s, d. split; [reflexivity|]. split; [exact Hd|]. split; [exact H1|].
  apply (irq_depth_invariant handler 53 boot s 14 d (λ h irq dev, hoare_ret irq_ok IRQ_HANDLED) eq_refl); [|exact Hd|rewrite H1; discriminate].
  apply (run_ops_rtc ops); [|exact E]. repeat constructor.
Defined.

(** Why IRQ_NOAUTOEN is excluded: setup_irq counts such a line as disabled once
    without marking it, here on a line that was enabled before. *)
Example noautoen_unmarked :
  ∃ s d, setup_irq 14 (IrqAction tt 0 7) (put 14 (set_depth 0 (set_status IRQ_NOAUTOEN desc0)) (replicate 53 0) (replicate 53 false) 0xffffffff sys0)
           = Some (0, s) ∧ line 14 s = Some d ∧ depth d = 1 ∧ tst (status d) IRQ_DISABLED = false.
Proof. eexists _, _. split; [vm_compute; reflexivity|]. by vm_compute. Qed.

End Demo.
