(* ===== verification/Mp2520fIrq.v ===== *)
(** arch/arm/mach-mp2520f/irq.c: the interrupt controller of the MP2520F.

    Three chips (main controller, timer sub-interrupts, UART sub-interrupts),
    the two chained demultiplexers and the boot-time setup, on top of the
    generic layer of [Genirq].  Interrupt numbers are those of
    include/asm-arm/arch-mp25xxf/irqs.h. *)

From S2P Require Import Prelude.
From S2P Require Import Hw.
From S2P Require Import Genirq.

Definition IRQ_TIMER : Z := 5.
Definition IRQ_UART : Z := 10.
Definition IRQ_SD : Z := 14.
Definition MMSP2_IRQS : Z := 32.
Definition IRQ_TIMER_START : Z := MMSP2_IRQS.
Definition IRQ_TIMER_END : Z := IRQ_TIMER_START + 4.
Definition IRQ_TIMER_0 : Z := IRQ_TIMER_START.
Definition IRQ_UART_START : Z := IRQ_TIMER_END.
Definition IRQ_UART_END : Z := IRQ_UART_START + 16.
Definition IRQ_UART_TXD0 : Z := IRQ_UART_START.

(** include/asm-arm/arch-mp25xxf/regs-uart.h *)
Definition UCON_TX_INT : Z := BIT 9.
Definition UCON_RX_INT : Z := BIT 8.
Definition UCON_RX_TIMEOUT : Z := BIT 7.
Definition MCON_MODEM_INT : Z := BIT 3.

(** The chained handlers of this board. *)
Inductive demux := mmsp2_timer_demux | mmsp2_uart_demux.

Section Chips.
Context {D : Type} `{Bus D}.

Definition mmsp2_main_ack_irq (irq : Z) : St D unit :=
  let ofs := u32 (BIT irq) in
  wr SRCPEND ofs ;; wr INTPEND ofs.

Definition mmsp2_main_mask_irq (irq : Z) : St D unit := or_reg INTMASK (BIT irq).
Definition mmsp2_main_unmask_irq (irq : Z) : St D unit := clr_reg INTMASK (BIT irq).

Definition mmsp2_timer_ack_irq (irq : Z) : St D unit := and_reg TSTATUS (BIT (irq - IRQ_TIMER_0)).
Definition mmsp2_timer_mask_irq (irq : Z) : St D unit := clr_reg TINTEN (BIT (irq - IRQ_TIMER_0)).
Definition mmsp2_timer_unmask_irq (irq : Z) : St D unit := or_reg TINTEN (BIT (irq - IRQ_TIMER_0)).

Definition mmsp2_uart_ack_irq (irq : Z) : St D unit := wr INTSTATREG (BIT (irq - IRQ_UART_TXD0)).

(** [port = ((irq & 0xf) >> 2) - 1] in an [unsigned short]. *)
Definition uart_port (irq : Z) : Z := u16 (Z.shiftr (Z.land irq 0xf) 2 - 1).
Definition uart_type (irq : Z) : Z := u16 (Z.land irq 0x3).

Definition mmsp2_uart_mask_irq (irq : Z) : St D unit :=
  let port := uart_port irq in
  match uart_type irq with
  | 0 => clr_reg (UCONn port) UCON_TX_INT
  | 1 => clr_reg (UCONn port) UCON_RX_INT
  | 2 => clr_reg (UCONn port) 0x40
  | 3 => clr_reg (MCONn port) MCON_MODEM_INT
  | _ => mret tt
  end.

Definition mmsp2_uart_unmask_irq (irq : Z) : St D unit :=
  let port := uart_port irq in
  match uart_type irq with
  | 0 => or_reg (UCONn port) UCON_TX_INT
  | 1 => or_reg (UCONn port) (Z.lor UCON_RX_INT UCON_RX_TIMEOUT)
  | 2 => or_reg (UCONn port) 0x40
  | 3 => or_reg (MCONn port) MCON_MODEM_INT
  | _ => mret tt
  end.

(** The [struct irq_chip] initialisers: [.ack], [.mask] and [.unmask]. *)
Definition board_chip (ack mask unmask : Z -> St D unit) : irq_chip D :=
  IrqChip None None None None (Some (λ i, exec (ack i))) (Some (λ i, exec (mask i))) None
    (Some (λ i, exec (unmask i))) None None.
Definition mmsp2_main_chip : irq_chip D :=
  board_chip mmsp2_main_ack_irq mmsp2_main_mask_irq mmsp2_main_unmask_irq.
Definition mmsp2_timer_chip : irq_chip D :=
  board_chip mmsp2_timer_ack_irq mmsp2_timer_mask_irq mmsp2_timer_unmask_irq.
Definition mmsp2_uart_chip : irq_chip D :=
  board_chip mmsp2_uart_ack_irq mmsp2_uart_mask_irq mmsp2_uart_unmask_irq.
End Chips.

Section Demux.
Context {H D : Type} `{Bus D}.
Abbreviation sys := (irqsys demux H D).

(** Register accesses from code that runs on the interrupt layer. *)
Definition hw {A} (m : St D A) : Sf sys A := λ s,
  let '(x, d) := m (mach s) in Some (x, set_mach d s).

(** [desc_handle_irq] for the sub-interrupts. *)
Context (handle : Z -> Sf sys unit).

(** The [while (mask)] loops: [mask] is an [unsigned short], so sixteen turns
    exhaust it.  They return the mask the loop is left with. *)
Fixpoint timer_demux_loop (n : nat) (mask irq : Z) : Sf sys Z :=
  match n with
  | O => mret mask
  | S n =>
      if mask =? 0 then mret mask
      else
        fwhen (tst mask 1) (handle irq) ;;
        timer_demux_loop n (Z.shiftr mask 1) (irq + 1)
  end.

Definition mmsp2_timer_demux_handler : Sf sys unit :=
  mask ← hw (rd TSTATUS);
  mask ← timer_demux_loop 16 mask IRQ_TIMER_0;
  fwhen (mask =? 0)
    (hw (and_reg SRCPEND (BIT IRQ_TIMER)) ;; hw (and_reg INTPEND (BIT IRQ_TIMER))).

Fixpoint uart_demux_loop (n : nat) (mask irq : Z) : Sf sys Z :=
  match n with
  | O => mret mask
  | S n =>
      if mask =? 0 then mret mask
      else if tst mask 1 then handle irq ;; mret mask
      else uart_demux_loop n (Z.shiftr mask 1) (irq + 1)
  end.

Definition mmsp2_uart_demux_handler : Sf sys unit :=
  mask ← hw (rd INTSTATREG);
  mask ← uart_demux_loop 16 mask IRQ_UART_TXD0;
  fwhen (mask =? 0)
    (hw (and_reg SRCPEND (BIT IRQ_UART)) ;; hw (and_reg INTPEND (BIT IRQ_UART))).
End Demux.

Section Entry.
Context {H D : Type} `{Bus D}.
Abbreviation sys := (irqsys demux H D).
Context (run_handler : H -> Z -> Z -> Sf sys Z).

(** [desc_handle_irq(irq, desc)]: a call through [desc->handle_irq].  Chained
    handlers call it again on sub-interrupts; [depth] bounds that nesting. *)
Fixpoint desc_handle_irq (depth : nat) (irq : Z) : Sf sys unit :=
  match depth with
  | O => oops
  | S depth =>
      d ← desc_of irq;
      match handle_irq d with
      | None => oops
      | Some handle_bad => handle_bad_irq irq
      | Some handle_simple => handle_simple_irq run_handler irq
      | Some handle_level => handle_level_irq run_handler irq
      | Some handle_edge => handle_edge_irq run_handler depth irq
      | Some (handle_chained mmsp2_timer_demux) => mmsp2_timer_demux_handler (desc_handle_irq depth)
      | Some (handle_chained mmsp2_uart_demux) => mmsp2_uart_demux_handler (desc_handle_irq depth)
      end
  end.

(** arch/arm/kernel/irq.c: asm_do_IRQ; [bad_irq_desc] has the flow handler
    [handle_bad_irq]. *)
Definition asm_do_IRQ (depth : nat) (irq : Z) : Sf sys unit :=
  if NR_IRQS <=? irq then handle_bad_irq irq else desc_handle_irq depth irq.
End Entry.

Section Init.
Context {H D : Type} `{Bus D}.
Abbreviation sys := (irqsys demux H D).

Definition MAIN : string := "MAIN".
Definition TIMER : string := "TIMER".
Definition UART : string := "UART".

Fixpoint sf_each (f : Z -> Sf sys unit) (l : list Z) : Sf sys unit :=
  match l with [] => mret tt | i :: l => f i ;; sf_each f l end.

Definition install (c : string) (irq : Z) : Sf sys unit :=
  _ ← set_irq_chip irq (Some c);
  set_irq_handler irq handle_level ;;
  set_irq_flags irq (Z.lor IRQF_VALID IRQF_PROBE).

Definition reserved_irq (irq : Z) : bool :=
  (irq =? 3) || (irq =? 4) || (irq =? 21) || (irq =? 22).

Definition mmsp2_init_irq : Sf sys unit :=
  hw (wr INTMASK 0xffffffff) ;;
  hw (wr INTMOD 0x00000000) ;;
  hw (wr IPRIORITY 0x0) ;;
  hw (wr TSTATUS 0xffff) ;;
  hw (wr INTSTATREG 0xffff) ;;
  hw (wr SRCPEND 0xffffffff) ;;
  hw (wr INTPEND 0xffffffff) ;;
  sf_each (λ irq, if reserved_irq irq then mret tt else install MAIN irq) (seqZ 0 MMSP2_IRQS) ;;
  sf_each (install TIMER) (seqZ IRQ_TIMER_START (IRQ_TIMER_END + 1 - IRQ_TIMER_START)) ;;
  set_irq_chained_handler IRQ_TIMER (handle_chained mmsp2_timer_demux) ;;
  sf_each (install UART) (seqZ IRQ_UART_START (IRQ_UART_END + 1 - IRQ_UART_START)) ;;
  set_irq_chained_handler IRQ_UART (handle_chained mmsp2_uart_demux).

(** arch/arm/kernel/irq.c: init_IRQ; the board's hook is [mmsp2_init_irq]. *)
Definition init_IRQ : Sf sys unit :=
  fmodify (λ s, set_descs (map (or_status (Z.lor IRQ_NOREQUEST IRQ_NOPROBE)) (descs s)) s) ;;
  mmsp2_init_irq.

(** The interrupt layer before [init_IRQ] runs. *)
Definition boot_sys (m : D) : sys :=
  IrqSys (<[no_irq_chip := no_irq_chip_struct]> (<[dummy_irq_chip := dummy_irq_chip_struct]>
            (<[MAIN := mmsp2_main_chip]> (<[TIMER := mmsp2_timer_chip]>
               {[UART := mmsp2_uart_chip]}))))
    (replicate 53 irq_desc_init) (replicate 53 0) (replicate 53 false) 0 false m.
End Init.

(** * The chips *)

(** What the sources say about the controller's registers: INTMASK and the
    enable registers hold what is written; pending and status flags are
    cleared by writing ones ("source pending flag clear", "clear status on all
    timers"). *)
Class IrqRegs (D : Type) `{BusModel D} := {
  INTMASK_storage : kind_of INTMASK = Storage;
  INTMOD_storage : kind_of INTMOD = Storage;
  IPRIORITY_storage : kind_of IPRIORITY = Storage;
  TINTEN_storage : kind_of TINTEN = Storage;
  SRCPEND_w1c : kind_of SRCPEND = WriteOneClear;
  INTPEND_w1c : kind_of INTPEND = WriteOneClear;
  TSTATUS_w1c : kind_of TSTATUS = WriteOneClear;
  INTSTATREG_w1c : kind_of INTSTATREG = WriteOneClear;
  UCON_storage : ∀ n, 0 <= n < 4 -> kind_of (UCONn n) = Storage;
  MCON_storage : ∀ n, 0 <= n < 4 -> kind_of (MCONn n) = Storage;
}.

#[export] Hint Resolve INTMASK_storage INTMOD_storage IPRIORITY_storage TINTEN_storage
  SRCPEND_w1c INTPEND_w1c TSTATUS_w1c INTSTATREG_w1c UCON_storage MCON_storage : hw.

(** The registers of the interrupt controller proper. *)
Definition ctrl_regs : list reg := [SRCPEND; INTMOD; INTMASK; IPRIORITY; INTPEND; TSTATUS; TINTEN; INTSTATREG].

Ltac ctrl := first [apply (bool_decide_unpack _); vm_compute; exact I | discriminate].

Section ChipSpec.
Context {D : Type} `{IrqRegs D}.
Implicit Types d : D.

Lemma ctrl_known r : r ∈ ctrl_regs -> kind_of r <> Opaque.
Proof.
  intros Hr. unfold ctrl_regs in Hr.
  repeat (apply elem_of_cons in Hr as [->|Hr]; [auto with hw|]).
  by apply not_elem_of_nil in Hr.
Qed.

(** Distinct controller registers share no byte. *)
Lemma ctrl_disj r r' : r ∈ ctrl_regs -> r' ∈ ctrl_regs -> r <> r' -> reg_disj r r'.
Proof.
  intros Hr Hr'.
  assert (Forall (λ a, Forall (λ b, a <> b -> reg_disj a b) ctrl_regs) ctrl_regs) as HF
    by (apply (bool_decide_unpack _); vm_compute; exact I).
  rewrite Forall_forall in HF. specialize (HF r Hr). rewrite Forall_forall in HF. by apply HF.
Qed.

Lemma ctrl_wr_frame r r' v d : r ∈ ctrl_regs -> r' ∈ ctrl_regs -> r <> r' ->
  peek r' (exec (wr r v) d) = peek r' d.
Proof. intros. apply wr_frame; auto using ctrl_known, ctrl_disj. Qed.

Lemma main_mask_intmask irq d : 0 <= irq < 32 ->
  peek INTMASK (exec (mmsp2_main_mask_irq irq) d) = Z.lor (peek INTMASK d) (BIT irq).
Proof. intros. apply or_reg_storage; [auto with hw|]. by apply BIT_in_u. Qed.

Lemma main_unmask_intmask irq d :
  peek INTMASK (exec (mmsp2_main_unmask_irq irq) d) = clr (peek INTMASK d) (BIT irq).
Proof. apply clr_reg_storage. auto with hw. Qed.

Lemma main_ack_pend irq d : 0 <= irq < 32 ->
  peek SRCPEND (exec (mmsp2_main_ack_irq irq) d) = clr (peek SRCPEND d) (BIT irq) ∧
  peek INTPEND (exec (mmsp2_main_ack_irq irq) d) = clr (peek INTPEND d) (BIT irq).
Proof.
  intros Hi. unfold mmsp2_main_ack_irq. rewrite exec_bind.
  rewrite (ctrl_wr_frame INTPEND SRCPEND) by ctrl.
  rewrite !wr_w1c by auto with hw.
  rewrite (ctrl_wr_frame SRCPEND INTPEND) by ctrl.
  unfold u32. rewrite !wrap_wrap by (cbn; lia).
  by rewrite (wrap_id 32) by by apply BIT_in_u.
Qed.

(** Masking, unmasking and acknowledging a line of the main controller
    change exactly that line's bit of INTMASK (resp. of SRCPEND and INTPEND):
    every other bit and every other register of the controller keeps its
    value, and unmasking after masking restores an unmasked line. *)
Theorem main_chip_bits irq d : 0 <= irq < 32 ->
  let m := exec (mmsp2_main_mask_irq irq) d in
  let u := exec (mmsp2_main_unmask_irq irq) d in
  let a := exec (mmsp2_main_ack_irq irq) d in
  (∀ i, 0 <= i < 32 ->
     Z.testbit (peek INTMASK m) i = ((i =? irq) || Z.testbit (peek INTMASK d) i) ∧
     Z.testbit (peek INTMASK u) i = (negb (i =? irq) && Z.testbit (peek INTMASK d) i) ∧
     Z.testbit (peek SRCPEND a) i = (negb (i =? irq) && Z.testbit (peek SRCPEND d) i) ∧
     Z.testbit (peek INTPEND a) i = (negb (i =? irq) && Z.testbit (peek INTPEND d) i)) ∧
  (∀ r, r ∈ ctrl_regs -> r <> INTMASK -> peek r m = peek r d ∧ peek r u = peek r d) ∧
  (∀ r, r ∈ ctrl_regs -> r <> SRCPEND -> r <> INTPEND -> peek r a = peek r d) ∧
  (Z.testbit (peek INTMASK d) irq = false ->
     peek INTMASK (exec (mmsp2_main_unmask_irq irq) m) = peek INTMASK d).
Proof.
  intros Hi m u a. subst m u a. split_and!.
  - intros i Hb. destruct (main_ack_pend irq d Hi) as [-> ->].
    rewrite main_mask_intmask, main_unmask_intmask by done. autorewrite with bits.
    rewrite BIT_testbit, (Z.eqb_sym i) by lia.
    destruct (irq =? i), (Z.testbit (peek INTMASK d) i), (Z.testbit (peek SRCPEND d) i),
      (Z.testbit (peek INTPEND d) i); done.
  - intros r Hr Hne. unfold mmsp2_main_mask_irq, mmsp2_main_unmask_irq.
    split; [apply or_reg_frame|apply clr_reg_frame]; auto with hw;
      auto using ctrl_known; apply ctrl_disj; first [ctrl|done|by apply not_eq_sym].
  - intros r Hr Hs Hp. unfold mmsp2_main_ack_irq. rewrite exec_bind.
    by rewrite !ctrl_wr_frame by first [ctrl|done|by apply not_eq_sym].
  - intros Hm. rewrite main_unmask_intmask, main_mask_intmask by done. bitwise.
    rewrite BIT_testbit by lia. destruct (Z.eqb_spec irq i) as [<-|]; [by rewrite Hm|].
    by destruct (Z.testbit (peek INTMASK d) i).
Qed.

(** * UART sub-interrupts *)

(** The line of UART [port] and kind [type] (0 transmit, 1 receive, 2 error,
    3 modem), in the numbering of irqs.h. *)
Definition uart_irq (port type : Z) : Z := IRQ_UART_TXD0 + 4 * port + type.

Lemma uart_decode port type : 0 <= port < 4 -> 0 <= type < 4 ->
  uart_type (uart_irq port type) = type ∧
  uart_port (uart_irq port type) = (if port =? 3 then 0xffff else port).
Proof.
  intros Hp Ht.
  assert (port = 0 ∨ port = 1 ∨ port = 2 ∨ port = 3) as Hp' by lia.
  assert (type = 0 ∨ type = 1 ∨ type = 2 ∨ type = 3) as Ht' by lia.
  by destruct_or! Hp'; destruct_or! Ht'; subst.
Qed.

(** The register and the bits that gate a sub-interrupt. *)
Definition uart_gate (port type : Z) : reg := if type =? 3 then MCONn port else UCONn port.
Definition uart_gate_bit (type : Z) : Z :=
  if type =? 0 then UCON_TX_INT else if type =? 1 then UCON_RX_INT
  else if type =? 2 then 0x40 else MCON_MODEM_INT.

Lemma uart_mask_eq port type : 0 <= port < 4 -> 0 <= type < 4 ->
  mmsp2_uart_mask_irq (D:=D) (uart_irq port type) =
  clr_reg (uart_gate (if port =? 3 then 0xffff else port) type) (uart_gate_bit type).
Proof.
  intros Hp Ht. unfold mmsp2_uart_mask_irq, uart_gate.
  destruct (uart_decode port type Hp Ht) as [-> ->].
  assert (type = 0 ∨ type = 1 ∨ type = 2 ∨ type = 3) as Ht' by lia.
  by destruct_or! Ht'; subst.
Qed.

Lemma uart_unmask_eq port type : 0 <= port < 4 -> 0 <= type < 4 ->
  mmsp2_uart_unmask_irq (D:=D) (uart_irq port type) =
  or_reg (uart_gate (if port =? 3 then 0xffff else port) type)
    (Z.lor (uart_gate_bit type) (if type =? 1 then UCON_RX_TIMEOUT else 0)).
Proof.
  intros Hp Ht. unfold mmsp2_uart_unmask_irq, uart_gate.
  destruct (uart_decode port type Hp Ht) as [-> ->].
  assert (type = 0 ∨ type = 1 ∨ type = 2 ∨ type = 3) as Ht' by lia.
  by destruct_or! Ht'; subst.
Qed.

Lemma uart_gate_storage port type : 0 <= port < 4 -> kind_of (uart_gate port type) = Storage.
Proof. intros. unfold uart_gate. case_match; auto with hw. Qed.

Lemma uart_gate_width port type : reg_width (uart_gate port type) = 16.
Proof. unfold uart_gate. by case_match. Qed.

(** On UART 0 to 2 masking a sub-interrupt clears exactly its gate bit in
    the port's own control register, and unmasking sets it (the receive line
    together with its time-out bit). *)
Theorem uart_chip_gates port type d : 0 <= port < 3 -> 0 <= type < 4 ->
  let r := uart_gate port type in
  let b := uart_gate_bit type in
  let irq := uart_irq port type in
  peek r (exec (mmsp2_uart_mask_irq irq) d) = clr (peek r d) b ∧
  peek r (exec (mmsp2_uart_unmask_irq irq) d)
    = Z.lor (peek r d) (Z.lor b (if type =? 1 then UCON_RX_TIMEOUT else 0)) ∧
  tst (peek r (exec (mmsp2_uart_mask_irq irq) d)) b = false ∧
  tst (peek r (exec (mmsp2_uart_unmask_irq irq) d)) b = true.
Proof.
  intros Hp Ht r b irq. subst irq.
  rewrite uart_mask_eq, uart_unmask_eq by lia.
  replace (if port =? 3 then 65535 else port) with port by (case_cmp; lia).
  fold r. rewrite clr_reg_storage by (apply uart_gate_storage; lia).
  assert (type = 0 ∨ type = 1 ∨ type = 2 ∨ type = 3) as Ht' by lia.
  rewrite or_reg_storage; [|apply uart_gate_storage; lia|].
  - split_and!; [done..| |]; subst b; destruct_or! Ht'; subst type; cbn [uart_gate_bit Z.eqb Pos.eqb];
      by flags.
  - subst r. rewrite uart_gate_width. subst b. destruct_or! Ht'; subst type; done.
Qed.

(** The port decode of [mmsp2_uart_mask_irq] is wrong for UART 3: the
    register it changes is not a register of UART 3, so the gate of every
    sub-interrupt of that port keeps its value. *)
Theorem uart3_mask_misses type d : 0 <= type < 4 ->
  kind_of (uart_gate 0xffff type) <> Opaque ->
  uart_port (uart_irq 3 type) = 0xffff ∧
  ∀ t, 0 <= t < 4 ->
    peek (uart_gate 3 t) (exec (mmsp2_uart_mask_irq (uart_irq 3 type)) d) = peek (uart_gate 3 t) d ∧
    peek (uart_gate 3 t) (exec (mmsp2_uart_unmask_irq (uart_irq 3 type)) d) = peek (uart_gate 3 t) d.
Proof.
  intros Ht Hk. split; [by apply (uart_decode 3 type)|]. intros t Htt.
  assert (reg_disj (uart_gate 0xffff type) (uart_gate 3 t)) as Hd.
  { unfold uart_gate. do 2 case_match; apply (bool_decide_unpack _); vm_compute; exact I. }
  assert (kind_of (uart_gate 3 t) <> Opaque) by (apply storage_known, uart_gate_storage; lia).
  rewrite uart_mask_eq, uart_unmask_eq by lia. cbn [Z.eqb Pos.eqb].
  by rewrite clr_reg_frame, or_reg_frame.
Qed.
End ChipSpec.

(** * The demultiplexers *)

Section DemuxSpec.
Context {H D : Type} `{IrqRegs D}.
Abbreviation sys := (irqsys demux H D).
Implicit Types s : sys.

(** The lines whose bit is set in [mask], lowest first. *)
Definition pending_lines (n : nat) (base mask : Z) : list Z :=
  filter (λ irq, Z.testbit mask (irq - base) = true) (seqZ base (Z.of_nat n)).

Lemma in_u_shiftr n mask : in_u (Z.of_nat (S n)) mask -> in_u (Z.of_nat n) (Z.shiftr mask 1).
Proof.
  unfold in_u. rewrite Nat2Z.inj_succ, Z.pow_succ_r, Z.shiftr_div_pow2 by lia. intros ?.
  change (2 ^ 1) with 2. split; [apply Z.div_pos|apply Z.div_lt_upper_bound]; lia.
Qed.

Lemma pending_lines_S n base mask : 0 <= mask ->
  pending_lines (S n) base mask =
  (if tst mask 1 then [base] else []) ++ pending_lines n (base + 1) (Z.shiftr mask 1).
Proof.
  intros Hm. unfold pending_lines. rewrite seqZ_cons by lia.
  replace (Z.pred (Z.of_nat (S n))) with (Z.of_nat n) by lia.
  rewrite <- Z.add_1_r, filter_cons. change (tst mask 1) with (tst mask (BIT 0)). rewrite tst_BIT by done.
  assert (filter (λ irq, Z.testbit mask (irq - base) = true) (seqZ (base + 1) (Z.of_nat n)) =
          filter (λ irq, Z.testbit (Z.shiftr mask 1) (irq - (base + 1)) = true) (seqZ (base + 1) (Z.of_nat n)))
    as ->.
  { apply list_filter_ext_in. intros i Hi%elem_of_seqZ.
    rewrite Z.shiftr_spec by lia. by replace (i - (base + 1) + 1) with (i - base) by lia. }
  rewrite Z.sub_diag. by destruct (Z.testbit mask 0).
Qed.

Lemma pending_lines_0 n base : pending_lines n base 0 = [].
Proof.
  unfold pending_lines. induction (seqZ base (Z.of_nat n)) as [|x l IH]; [done|].
  rewrite filter_cons, Z.bits_0. done.
Qed.

Lemma timer_demux_loop_spec handle n mask base s : in_u (Z.of_nat n) mask ->
  timer_demux_loop handle n mask base s =
  (sf_each handle (pending_lines n base mask) ;; mret 0 : Sf sys Z) s.
Proof.
  revert mask base s. induction n as [|n IH]; intros mask base s Hm.
  - assert (mask = 0) as -> by (unfold in_u in Hm; change (2 ^ Z.of_nat 0) with 1 in Hm; lia). done.
  - cbn [timer_demux_loop]. destruct (Z.eqb_spec mask 0) as [->|Hne].
    { by rewrite pending_lines_0. }
    rewrite pending_lines_S by apply Hm. pose proof (in_u_shiftr n mask Hm) as Hs.
    destruct (tst mask 1); cbn [app sf_each fwhen].
    + unfold mbind, Sf_bind. destruct (handle base s) as [[[] s1]|]; [|done]. by apply IH.
    + by apply IH.
Qed.

Lemma uart_demux_loop_spec handle n mask base s : in_u (Z.of_nat n) mask ->
  uart_demux_loop handle n mask base s =
  match pending_lines n base mask with
  | [] => Some (0, s)
  | irq :: _ => (handle irq ;; mret (Z.shiftr mask (irq - base)) : Sf sys Z) s
  end.
Proof.
  revert mask base s. induction n as [|n IH]; intros mask base s Hm.
  - assert (mask = 0) as -> by (unfold in_u in Hm; change (2 ^ Z.of_nat 0) with 1 in Hm; lia). done.
  - cbn [uart_demux_loop]. destruct (Z.eqb_spec mask 0) as [->|Hne].
    { by rewrite pending_lines_0. }
    rewrite pending_lines_S by apply Hm. pose proof (in_u_shiftr n mask Hm) as Hs.
    destruct (tst mask 1) eqn:Ht; cbn [app].
    + by rewrite Z.sub_diag, Z.shiftr_0_r.
    + rewrite IH by done. destruct (pending_lines n _ _) as [|irq l] eqn:Hp; [done|].
      assert (irq ∈ pending_lines n (base + 1) (Z.shiftr mask 1)) as Hin by (rewrite Hp; set_solver).
      apply list_elem_of_filter in Hin as [_ Hin%elem_of_seqZ].
      rewrite Z.shiftr_shiftr by lia. by replace (1 + (irq - (base + 1))) with (irq - base) by lia.
Qed.

Lemma pending_lines_nil n base mask : in_u (Z.of_nat n) mask ->
  pending_lines n base mask = [] <-> mask = 0.
Proof.
  intros Hm. split; [|intros ->; apply pending_lines_0].
  intros Hp. apply Z.bits_inj'. intros i Hi. rewrite Z.bits_0.
  destruct (Z.testbit mask i) eqn:Hb; [|done].
  destruct (decide (i < Z.of_nat n)); [|rewrite (testbit_high (Z.of_nat n) mask) in Hb; [done|done|lia]].
  assert (base + i ∈ pending_lines n base mask) as Hin; [|rewrite Hp in Hin; set_solver].
  apply list_elem_of_filter. split; [by replace (base + i - base) with i by lia|].
  apply elem_of_seqZ. lia.
Qed.

Lemma pending_lines_shift n base mask irq l : in_u (Z.of_nat n) mask ->
  pending_lines n base mask = irq :: l -> Z.shiftr mask (irq - base) <> 0.
Proof.
  intros Hm Hp Hz.
  assert (irq ∈ pending_lines n base mask) as Hin by (rewrite Hp; set_solver).
  apply list_elem_of_filter in Hin as [Hb Hin%elem_of_seqZ].
  assert (Z.testbit (Z.shiftr mask (irq - base)) 0 = true) as Hb0.
  { rewrite Z.shiftr_spec by lia. by replace (0 + (irq - base)) with (irq - base) by lia. }
  rewrite Hz in Hb0. done.
Qed.

(** [SRCPEND &= (1 << n); INTPEND &= (1 << n)]: the acknowledge of a
    chained main line. *)
Definition ack_main (n : Z) : Sf sys unit :=
  hw (and_reg SRCPEND (BIT n)) ;; hw (and_reg INTPEND (BIT n)).

Lemma hw_rd r s : kind_of r <> Opaque -> hw (H:=H) (rd r) s = Some (peek r (mach s), s).
Proof. intros Hk. unfold hw. rewrite rd_known by done. by destruct s. Qed.

Lemma hw_exec (m : St D unit) s : hw (H:=H) m s = Some (tt, set_mach (exec m (mach s)) s).
Proof. unfold hw, exec. by destruct (m (mach s)) as [[] ?]. Qed.

Lemma ack_main_spec n s : 0 <= n < 32 -> ∃ d, ack_main n s = Some (tt, set_mach d s) ∧
  peek SRCPEND d = clr (peek SRCPEND (mach s)) (BIT n) ∧
  peek INTPEND d = clr (peek INTPEND (mach s)) (BIT n).
Proof.
  intros Hn. assert (0 <= BIT n) by (apply (BIT_in_u 32 n Hn)).
  eexists. unfold ack_main, mbind, Sf_bind. rewrite !hw_exec. split; [by destruct s|].
  cbn [mach set_mach]. rewrite (and_reg_w1c INTPEND), (and_reg_frame INTPEND SRCPEND) by
    (auto with hw; ctrl).
  by rewrite (and_reg_w1c SRCPEND), (and_reg_frame SRCPEND INTPEND) by (auto with hw; ctrl).
Qed.

(** The timer demultiplexer runs the flow handler of exactly the timer
    lines whose bit is set in TSTATUS, each once and lowest first, and then
    acknowledges the main timer line and no other. *)
Theorem timer_demux_dispatch handle s s1 :
  sf_each handle (pending_lines 16 IRQ_TIMER_0 (peek TSTATUS (mach s))) s = Some (tt, s1) ->
  ∃ d, mmsp2_timer_demux_handler handle s = Some (tt, set_mach d s1) ∧
    peek SRCPEND d = clr (peek SRCPEND (mach s1)) (BIT IRQ_TIMER) ∧
    peek INTPEND d = clr (peek INTPEND (mach s1)) (BIT IRQ_TIMER).
Proof.
  intros Hrun. destruct (ack_main_spec IRQ_TIMER s1) as (d & Hd & Hpend); [done|].
  exists d. split; [|done]. unfold mmsp2_timer_demux_handler, mbind at 1, Sf_bind at 1.
  rewrite hw_rd by auto with hw. unfold mbind at 1, Sf_bind at 1.
  rewrite timer_demux_loop_spec by (apply (peek_range TSTATUS); auto with hw).
  unfold mbind at 1, Sf_bind at 1. rewrite Hrun. apply Hd.
Qed.

(** One pass of the UART demultiplexer serves only the lowest pending
    sub-interrupt and leaves the main UART line pending; the main line is
    acknowledged by the pass that finds no sub-interrupt pending. *)
Theorem uart_demux_dispatch handle s :
  match pending_lines 16 IRQ_UART_TXD0 (peek INTSTATREG (mach s)) with
  | irq :: _ => mmsp2_uart_demux_handler handle s = handle irq s
  | [] => peek INTSTATREG (mach s) = 0 ∧
      ∃ d, mmsp2_uart_demux_handler handle s = Some (tt, set_mach d s) ∧
        peek SRCPEND d = clr (peek SRCPEND (mach s)) (BIT IRQ_UART) ∧
        peek INTPEND d = clr (peek INTPEND (mach s)) (BIT IRQ_UART)
  end.
Proof.
  assert (in_u (Z.of_nat 16) (peek INTSTATREG (mach s))) as Hm
    by (apply (peek_range INTSTATREG); auto with hw).
  assert (mmsp2_uart_demux_handler handle s =
    (mask ← uart_demux_loop handle 16 (peek INTSTATREG (mach s)) IRQ_UART_TXD0;
     fwhen (mask =? 0) (ack_main IRQ_UART)) s) as ->.
  { unfold mmsp2_uart_demux_handler, mbind at 1, Sf_bind at 1. by rewrite hw_rd by auto with hw. }
  unfold mbind at 1 2, Sf_bind at 1 2. rewrite uart_demux_loop_spec by done.
  destruct (pending_lines 16 _ _) as [|irq l] eqn:Hp.
  - split; [by apply (pending_lines_nil 16 IRQ_UART_TXD0)|]. by apply (ack_main_spec IRQ_UART).
  - pose proof (pending_lines_shift 16 _ _ _ _ Hm Hp) as Hne%Z.eqb_neq.
    unfold mbind, Sf_bind. destruct (handle irq s) as [[[] s1]|]; [|done]. cbn. by rewrite Hne.
Qed.
End DemuxSpec.

(** * The boot-time table *)

Section InitSpec.
Context {H D : Type} `{IrqRegs D}.
Abbreviation sys := (irqsys demux H D).

(** What each line is after [init_IRQ]. *)
Definition board_chip_of (irq : Z) : string :=
  if irq <? MMSP2_IRQS then MAIN else if irq <? IRQ_TIMER_END then TIMER else UART.
Definition board_line (irq : Z) : irq_desc demux H :=
  if reserved_irq irq
  then IrqDesc (Some handle_bad) no_irq_chip []
         (Z.lor IRQ_DISABLED (Z.lor IRQ_NOREQUEST IRQ_NOPROBE)) 1 0 0 0
  else if irq =? IRQ_TIMER
  then IrqDesc (Some (handle_chained mmsp2_timer_demux)) MAIN [] (Z.lor IRQ_NOREQUEST IRQ_NOPROBE) 0 0 0 0
  else if irq =? IRQ_UART
  then IrqDesc (Some (handle_chained mmsp2_uart_demux)) MAIN [] (Z.lor IRQ_NOREQUEST IRQ_NOPROBE) 0 0 0 0
  else IrqDesc (Some handle_level) (board_chip_of irq) [] IRQ_DISABLED 1 0 0 0.

(** The register writes of [mmsp2_init_irq], and the two unmasks of the
    chained lines. *)
Definition board_mach (m : D) : D :=
  exec (mmsp2_main_unmask_irq IRQ_UART) (exec (mmsp2_main_unmask_irq IRQ_TIMER)
    (exec (wr INTPEND 0xffffffff) (exec (wr SRCPEND 0xffffffff) (exec (wr INTSTATREG 0xffff)
      (exec (wr TSTATUS 0xffff) (exec (wr IPRIORITY 0) (exec (wr INTMOD 0)
        (exec (wr INTMASK 0xffffffff) m)))))))).

Lemma init_IRQ_descs m :
  (λ r, descs r.2) <$> init_IRQ (H:=H) (boot_sys m) = Some (board_line <$> seqZ 0 NR_IRQS).
Proof. vm_compute. reflexivity. Qed.

(** The same for chips with arbitrary callbacks: only the main chip's unmask
    is called. *)
Lemma init_IRQ_mach_any (main timer uart : irq_chip D) (unmask : Z -> D -> D) (m : D) :
  chip_unmask main = Some unmask ->
  (λ r, mach r.2) <$> init_IRQ (H:=H) (set_chips (<[no_irq_chip := no_irq_chip_struct]>
     (<[dummy_irq_chip := dummy_irq_chip_struct]>
       (<[MAIN := main]> (<[TIMER := timer]> {[UART := uart]})))) (boot_sys m))
  = Some (unmask IRQ_UART (unmask IRQ_TIMER (exec (wr INTPEND 0xffffffff)
      (exec (wr SRCPEND 0xffffffff) (exec (wr INTSTATREG 0xffff) (exec (wr TSTATUS 0xffff)
        (exec (wr IPRIORITY 0) (exec (wr INTMOD 0) (exec (wr INTMASK 0xffffffff) m))))))))).
Proof. destruct main; simpl. intros ->. vm_compute. reflexivity. Qed.

Lemma init_IRQ_mach m :
  (λ r, mach r.2) <$> init_IRQ (H:=H) (boot_sys m) = Some (board_mach m).
Proof.
  exact (init_IRQ_mach_any mmsp2_main_chip mmsp2_timer_chip mmsp2_uart_chip
    (λ i, exec (mmsp2_main_unmask_irq i)) m eq_refl).
Qed.

Lemma init_IRQ_run m : ∃ s, init_IRQ (H:=H) (boot_sys m) = Some (tt, s) ∧
  descs s = board_line <$> seqZ 0 NR_IRQS ∧ mach s = board_mach m.
Proof.
  pose proof (init_IRQ_descs m) as Hd. pose proof (init_IRQ_mach m) as Hm.
  destruct (init_IRQ (boot_sys m)) as [[[] s]|]; [|done].
  exists s. by injection Hd as ->; injection Hm as ->.
Qed.

Lemma unmask_frame irq r d : r ∈ ctrl_regs -> r <> INTMASK ->
  peek r (exec (mmsp2_main_unmask_irq (D:=D) irq) d) = peek r d.
Proof.
  intros Hr Hne. apply clr_reg_frame; auto using ctrl_known with hw.
  apply ctrl_disj; [ctrl|done|by apply not_eq_sym].
Qed.

Lemma wr_w1c_all r v d : kind_of r = WriteOneClear -> v = Z.ones (reg_width r) ->
  peek r (exec (wr r v) d) = 0.
Proof.
  intros Hk ->. pose proof (width_pos r (w1c_known r Hk)).
  assert (in_u (reg_width r) (peek r d)) as Hr by (apply peek_range; auto with hw).
  rewrite wr_w1c by done.
  assert (wrap (reg_width r) (Z.ones (reg_width r)) = Z.ones (reg_width r)) as ->.
  { apply wrap_id. unfold in_u. rewrite Z.ones_equiv. lia. }
  unfold clr. rewrite Z.ldiff_ones_r by lia.
  rewrite Z.shiftr_div_pow2, Z.div_small by (lia || apply Hr). by rewrite Z.shiftl_0_l.
Qed.

Lemma board_mach_regs m :
  peek INTMASK (board_mach m) = clr (clr 0xffffffff (BIT IRQ_TIMER)) (BIT IRQ_UART) ∧
  peek INTMOD (board_mach m) = 0 ∧
  Forall (λ r, peek r (board_mach m) = 0) [SRCPEND; INTPEND; TSTATUS; INTSTATREG].
Proof.
  unfold board_mach. split_and!; [| |repeat constructor].
  - rewrite !main_unmask_intmask. do 2 f_equal. do 6 rewrite (ctrl_wr_frame _ INTMASK) by ctrl.
    apply wr_storage. auto with hw.
  - rewrite !unmask_frame by ctrl. do 5 rewrite (ctrl_wr_frame _ INTMOD) by ctrl.
    apply wr_storage. auto with hw.
  - rewrite !unmask_frame by ctrl. rewrite (ctrl_wr_frame _ SRCPEND) by ctrl.
    apply wr_w1c_all; auto with hw.
  - rewrite !unmask_frame by ctrl. apply wr_w1c_all; auto with hw.
  - rewrite !unmask_frame by ctrl. do 3 rewrite (ctrl_wr_frame _ TSTATUS) by ctrl.
    apply wr_w1c_all; auto with hw.
  - rewrite !unmask_frame by ctrl. do 2 rewrite (ctrl_wr_frame _ INTSTATREG) by ctrl.
    apply wr_w1c_all; auto with hw.
Qed.

(** C12: [init_IRQ] runs without a fault from any machine state and leaves
    every line of the table as its description says: the 28 main lines, the
    timer and the UART lines with their chip, the level flow handler and
    requestable but disabled; the reserved lines unusable; the two chained
    lines enabled and not requestable.  No interrupt is pending, exactly the
    two chained lines are unmasked, and the layer's invariant holds. *)
Theorem init_IRQ_table m : ∃ s, init_IRQ (H:=H) (boot_sys m) = Some (tt, s) ∧
  (∀ irq, 0 <= irq < NR_IRQS -> line irq s = Some (board_line irq)) ∧
  irq_ok s ∧
  (∀ i, 0 <= i < 32 -> Z.testbit (peek INTMASK (mach s)) i = negb ((i =? IRQ_TIMER) || (i =? IRQ_UART))) ∧
  Forall (λ r, peek r (mach s) = 0) [INTMOD; SRCPEND; INTPEND; TSTATUS; INTSTATREG].
Proof.
  destruct (init_IRQ_run m) as (s & Hs & Hd & Hm). exists s. rewrite Hm.
  destruct (board_mach_regs m) as (Hmask & Hmod & Hpend).
  split; [done|]. split_and!.
  - intros irq Hi. unfold line. rewrite Hd.
    rewrite list_lookup_fmap, lookup_seqZ_lt by lia. simpl. by rewrite Z2Nat.id by lia.
  - unfold irq_ok. rewrite Hd. repeat constructor; vm_compute; congruence.
  - intros i Hi. rewrite Hmask. clear - Hi.
    rewrite !clr_testbit, (BIT_testbit IRQ_TIMER), (BIT_testbit IRQ_UART) by (unfold IRQ_TIMER, IRQ_UART; lia).
    change 0xffffffff with (Z.ones 32). rewrite Z.ones_spec_low by lia.
    rewrite !(Z.eqb_sym i). by destruct (IRQ_TIMER =? i), (IRQ_UART =? i).
  - by constructor.
Qed.
End InitSpec.

(** * Runs on the concrete register file *)

Module Board.
Import RegFile.

#[export] Instance regs : IrqRegs RegFile.t.
Proof.
  split; try reflexivity; intros n Hn;
    assert (n = 0 ∨ n = 1 ∨ n = 2 ∨ n = 3) as Hn' by lia; by destruct_or! Hn'; subst.
Defined.

Definition blank : RegFile.t := {| contents := [] |}.

(** Timer lines 0 and 2 pending. *)
Definition timers : RegFile.t :=
  {| contents := [(TSTATUS, 5); (SRCPEND, 0x20); (INTPEND, 0x20)] |}.

(** A flow handler that only counts. *)
Definition count (irq : Z) : Sf (irqsys demux unit RegFile.t) unit := kstat_inc irq.

Lemma main_chip_bits_witness :
  Z.testbit (peek INTMASK (exec (mmsp2_main_mask_irq 14) blank)) 14 = true.
Proof. destruct (main_chip_bits 14 blank) as [Hb _]; [lia|]. by apply (Hb 14). Defined.

Lemma uart_chip_gates_witness :
  peek (UCONn 1) (exec (mmsp2_uart_unmask_irq 41) blank) = Z.lor UCON_RX_INT UCON_RX_TIMEOUT.
Proof. destruct (uart_chip_gates 1 1 blank) as (_ & Hu & _); [lia..|]. exact Hu. Defined.

Lemma uart3_mask_misses_witness :
  peek (UCONn 3) (exec (mmsp2_uart_unmask_irq 48) blank) = 0.
Proof.
  destruct (uart3_mask_misses 0 blank) as [_ Hu]; [lia|done|]. by apply (Hu 0).
Defined.

Lemma timers_pending :
  pending_lines 16 IRQ_TIMER_0 (peek TSTATUS (mach (boot_sys (H:=unit) timers))) = [32; 34].
Proof. vm_compute. reflexivity. Qed.

Definition timers_counted : irqsys demux unit RegFile.t :=
  set_kstat (<[34%nat := 1]> (<[32%nat := 1]> (replicate 53 0))) (boot_sys timers).

Lemma timer_demux_dispatch_witness :
  ∃ d, mmsp2_timer_demux_handler count (boot_sys timers) = Some (tt, set_mach d timers_counted) ∧
    peek SRCPEND d = 0.
Proof.
  destruct (timer_demux_dispatch count (boot_sys timers) timers_counted) as (d & Hd & Hs & _).
  - rewrite timers_pending. reflexivity.
  - exists d. split; [exact Hd|]. rewrite Hs. vm_compute. reflexivity.
Defined.

(** Receive and transmit of UART 1 pending. *)
Definition uarts : RegFile.t := {| contents := [(INTSTATREG, 0x30)] |}.

Lemma uarts_pending :
  pending_lines 16 IRQ_UART_TXD0 (peek INTSTATREG (mach (boot_sys (H:=unit) uarts))) = [40; 41].
Proof. vm_compute. reflexivity. Qed.

Lemma uart_demux_dispatch_witness :
  mmsp2_uart_demux_handler count (boot_sys uarts) = count 40 (boot_sys uarts).
Proof.
  pose proof (uart_demux_dispatch count (boot_sys uarts)) as Hu. rewrite uarts_pending in Hu. exact Hu.
Defined.

Lemma init_IRQ_table_witness :
  ∃ s, init_IRQ (boot_sys (H:=unit) blank) = Some (tt, s) ∧ line 14 s = Some (board_line 14).
Proof.
  destruct (init_IRQ_table (H:=unit) blank) as (s & Hs & Hl & _).
  exists s. split; [exact Hs|]. clear Hs. apply Hl. unfold NR_IRQS. lia.
Defined.

End Board.
