(* ===== verification/Mp2520fBoard.v ===== *)
(** arch/arm/mach-mp2520f/generic.c: GPIO pin configuration, the PLL clock
    tree, the table of platform devices and the static I/O mapping. *)

From S2P Require Import Prelude.
From S2P Require Import Hw.
From S2P Require Import Genirq.
From S2P Require Import Mp2520fIrq.

(** * Operations *)

Section Gpio.
Context {D : Type} `{Bus D}.

(** [value = R & ~(0x3 << offset); value |= (mode & 0x3) << offset] in an
    [unsigned short]; the arithmetic is done in [int]. *)
Definition altfn_value (old offset mode : Z) : Z :=
  let value := u16 (clr old (Z.shiftl 3 offset)) in
  u16 (Z.lor value (Z.shiftl (Z.land mode 0x3) offset)).

(** The register reads of the [printk] calls are kept. *)
Definition mmsp2_gpio_mode (group pin mode : Z) : St D unit :=
  if GPIOO <? group then mret tt
  else if 16 <? pin then mret tt
  else if 8 <? pin then
    let offset := u16 (2 * (pin - 8)) in
    _ ← rd (GPIOxALTFNHI group); _ ← rd (GPIOxALTFNLOW group);
    v ← rd (GPIOxALTFNHI group);
    wr (GPIOxALTFNHI group) (altfn_value v offset mode)
  else
    let offset := u16 (2 * pin) in
    _ ← rd (GPIOxALTFNHI group); _ ← rd (GPIOxALTFNLOW group);
    v ← rd (GPIOxALTFNLOW group);
    wr (GPIOxALTFNLOW group) (altfn_value v offset mode).

Definition mmsp2_gpio_write (group pin data : Z) : St D unit :=
  _ ← rd (GPIOxOUT group);
  v ← rd (GPIOxOUT group);
  let value := u16 (clr v (BIT pin)) in
  let value := u16 (Z.lor value (Z.shiftl data pin)) in
  wr (GPIOxOUT group) value ;;
  _ ← rd (GPIOxOUT group);
  mret tt.
End Gpio.

Section Clock.
Context {D : Type} `{Bus D}.

(** include/asm-arm/arch-mp25xxf/timex.h *)
Definition CLOCK_TICK_RATE : Z := 7372800.

Definition GET_MDIV (x : Z) : Z := Z.shiftr (Z.land x 0xff00) 8.
Definition GET_PDIV (x : Z) : Z := Z.shiftr (Z.land x 0x00fc) 2.
Definition GET_SDIV (x : Z) : Z := Z.land x 0x0003.

(** [unsigned long] arithmetic: 32 bits. *)
Definition calc_clk (v : Z) : Z :=
  let m := GET_MDIV v in let p := GET_PDIV v in let s := GET_SDIV v in
  u32 (u32 (m + 8) * CLOCK_TICK_RATE) / u32 (u32 (p + 2) * BIT s).

Definition mmsp2_get_fclk : St D Z := v ← rd FPLLVSETREG; mret (calc_clk v).
Definition mmsp2_get_uclk : St D Z := v ← rd UPLLVSETREG; mret (calc_clk v).
Definition mmsp2_get_aclk : St D Z := v ← rd APLLVSETREG; mret (calc_clk v).

(** [GET_DDIV - 1], the divisor of DCLK, as an [unsigned long]. *)
Definition dclk_div (sysc : Z) : Z := u32 (Z.shiftr (Z.land sysc 0x01f000) 6 - 1).

(** [None] is the division by zero of the DCLK line. *)
Definition mmsp2_get_pclk : St D (option Z) :=
  v ← rd FPLLVSETREG;
  let c := calc_clk v in
  sysc ← rd SYSCSETREG;
  if dclk_div sysc =? 0 then mret None
  else
    let d := c / dclk_div sysc in
    let b := c / 2 in
    let p := b / 2 in
    mret (Some p).
End Clock.

(** * Platform devices *)

(** include/linux/ioport.h *)
Definition IORESOURCE_MEM : Z := 0x00000200.
Definition IORESOURCE_IRQ : Z := 0x00000400.

Record pres := PRes { pr_start : Z; pr_end : Z; pr_flags : Z }.
Record platform_device := PDev { pd_name : string; pd_id : Z; pd_resource : list pres }.

Definition res_irq (irq : Z) : pres := PRes irq irq IORESOURCE_IRQ.
Definition res_mem (first last : Z) : pres := PRes first last IORESOURCE_MEM.

Definition IRQ_DMA : Z := 9.

Definition mmsp2_mmcsd_resources : list pres :=
  [res_mem MP25XXF_MMC_START 0xc000153c; res_irq IRQ_SD].
Definition mmsp2_mmcsd_device : platform_device := PDev "mmsp2_mmcsd" (-1) mmsp2_mmcsd_resources.

(** Receive, transmit, error and modem lines, then the register block. *)
Definition mp25xxf_uart0_resources : list pres :=
  [res_irq (1 + IRQ_UART_START); res_irq (0 + IRQ_UART_START); res_irq (2 + IRQ_UART_START);
   res_irq (3 + IRQ_UART_START); res_mem 0xc0001200 0xc000121f].
Definition mp25xxf_uart0_device : platform_device := PDev "mp25xxf_uart" 0 mp25xxf_uart0_resources.
Definition mp25xxf_uart1_resources : list pres :=
  [res_irq (5 + IRQ_UART_START); res_irq (4 + IRQ_UART_START); res_irq (6 + IRQ_UART_START);
   res_irq (7 + IRQ_UART_START); res_mem 0xc0001220 0xc000123f].
Definition mp25xxf_uart1_device : platform_device := PDev "mp25xxf_uart" 1 mp25xxf_uart1_resources.
Definition mp25xxf_uart2_resources : list pres :=
  [res_irq (9 + IRQ_UART_START); res_irq (8 + IRQ_UART_START); res_irq (10 + IRQ_UART_START);
   res_irq (11 + IRQ_UART_START); res_mem 0xc0001240 0xc000125f].
Definition mp25xxf_uart2_device : platform_device := PDev "mp25xxf_uart" 2 mp25xxf_uart2_resources.
Definition mp25xxf_uart3_resources : list pres :=
  [res_irq (13 + IRQ_UART_START); res_irq (12 + IRQ_UART_START); res_irq (14 + IRQ_UART_START);
   res_irq (15 + IRQ_UART_START); res_mem 0xc0001260 0xc000127f].
Definition mp25xxf_uart3_device : platform_device := PDev "mp25xxf_uart" 3 mp25xxf_uart3_resources.
Definition mmsp2_dma_resources : list pres := [res_irq IRQ_DMA].
Definition mmsp2_dma_device : platform_device := PDev "mmsp2_dma" (-1) mmsp2_dma_resources.
Definition mp25xxf_mlc_resources : list pres := [res_mem 0xc0002880 0xc00029c0].
Definition mp25xxf_mlc_device : platform_device := PDev "mp25xxf_mlc" (-1) mp25xxf_mlc_resources.

Definition mmsp2_devices : list platform_device :=
  [mmsp2_mmcsd_device; mp25xxf_uart0_device; mp25xxf_uart1_device; mp25xxf_uart2_device;
   mp25xxf_uart3_device; mp25xxf_mlc_device; mmsp2_dma_device].

(** drivers/base/platform.c: the [n]-th resource of a type. *)
Definition IORESOURCE_TYPES : Z := 0x00000f00.

Fixpoint platform_get_resource (l : list pres) (type : Z) (n : nat) : option pres :=
  match l with
  | [] => None
  | r :: l =>
      if Z.land (pr_flags r) IORESOURCE_TYPES =? type
      then match n with O => Some r | S n => platform_get_resource l type n end
      else platform_get_resource l type n
  end.

Definition platform_get_irq (l : list pres) (n : nat) : Z :=
  match platform_get_resource l IORESOURCE_IRQ n with Some r => pr_start r | None => - ENXIO end.

(** * The static mapping *)

Record map_desc := MapDesc { md_virtual : Z; md_pfn : Z; md_length : Z }.

Definition PAGE_SHIFT : Z := 12.
Definition phys_to_pfn (p : Z) : Z := Z.shiftr p PAGE_SHIFT.

Definition MMSP2_NIO_START : Z := 0xc0000000.
Definition FIO_START : Z := 0xe0000000.
(** [MMSP2_IO(0x1c000000)] without and with the shadow pin. *)
Definition NF_IO_START (shadow : bool) : Z := if shadow then 0x1c000000 + 0x80000000 else 0x1c000000.

(** The NAND window is mapped when CONFIG_MTD_NAND_MMSP2 is set. *)
Definition mmsp2_io_desc (nand shadow : bool) : list map_desc :=
  [MapDesc (io_p2v MMSP2_NIO_START) (phys_to_pfn MMSP2_NIO_START) 0x00010000;
   MapDesc (io_p2v FIO_START) (phys_to_pfn FIO_START) 0x00010000] ++
  (if nand then [MapDesc (io_p2v (NF_IO_START shadow)) (phys_to_pfn (NF_IO_START shadow)) 0x00010000]
   else []).

(** * GPIO *)

(** The pin-function and output registers hold what is written. *)
Class GpioRegs (D : Type) `{BusModel D} := {
  ALTFNHI_storage : ∀ k, 0 <= k <= 14 -> kind_of (GPIOxALTFNHI (2 * k)) = Storage;
  ALTFNLOW_storage : ∀ k, 0 <= k <= 14 -> kind_of (GPIOxALTFNLOW (2 * k)) = Storage;
  OUT_storage : ∀ k, 0 <= k <= 14 -> kind_of (GPIOxOUT (2 * k)) = Storage;
}.

#[export] Hint Resolve ALTFNHI_storage ALTFNLOW_storage OUT_storage : hw.

Lemma testbit_3 i : 0 <= i -> Z.testbit 3 i = (i <? 2).
Proof.
  intros Hi. change 3 with (Z.ones 2). case_cmp; [apply Z.ones_spec_low|apply Z.ones_spec_high]; lia.
Qed.

(** The two bits of pin [k] take the mode, the others stay. *)
Lemma altfn_value_bits old k mode i : in_u 16 old -> 0 <= k -> 0 <= i ->
  Z.testbit (altfn_value old (2 * k) mode) i =
  (i <? 16) && (if i / 2 =? k then Z.testbit mode (i - 2 * k) else Z.testbit old i).
Proof.
  intros Ho Hk Hi. unfold altfn_value, u16.
  rewrite wrap_testbit, Z.lor_spec, wrap_testbit, clr_testbit, !Z.shiftl_spec, Z.land_spec by lia.
  destruct (Z.ltb_spec i 16); [|done]. cbn [andb].
  pose proof (Z.div_mod i 2 ltac:(lia)). pose proof (Z.mod_pos_bound i 2 ltac:(lia)).
  destruct (decide (i < 2 * k)).
  - rewrite !(Z.testbit_neg_r _ (i - 2 * k)) by lia. case_cmp; [lia|].
    by rewrite andb_true_r, orb_false_r.
  - rewrite testbit_3 by lia. case_cmp; try lia.
    + by rewrite andb_false_r, andb_true_r.
    + by rewrite andb_true_r, andb_false_r, orb_false_r.
Qed.

Lemma altfn_value_range old o mode : in_u 16 (altfn_value old o mode).
Proof. apply u16_range. Qed.

(** A field beyond the register: nothing changes. *)
Lemma altfn_value_16 old mode : in_u 16 old -> altfn_value old 16 mode = old.
Proof.
  intros Ho. apply Z.bits_inj'. intros i Hi.
  rewrite (altfn_value_bits old 8) by (done || lia).
  pose proof (Z.div_mod i 2 ltac:(lia)). pose proof (Z.mod_pos_bound i 2 ltac:(lia)).
  destruct (Z.ltb_spec i 16) as [|Hge]; [case_cmp; [lia|done]|].
  by rewrite (testbit_high 16 old).
Qed.

Section GpioSpec.
Context {D : Type} `{GpioRegs D}.
Implicit Types d : D.

(** A read before the code that uses the device. *)
Lemma exec_rd_skip {A} r (k : Z -> St D A) d : kind_of r <> Opaque ->
  exec (v ← rd r; k v) d = exec (k (peek r d)) d.
Proof. intros Hk. rewrite exec_bind. unfold exec at 2, eval. by rewrite rd_known. Qed.

Lemma gpio_mode_low k pin mode d : 0 <= k <= 14 -> 0 <= pin <= 8 ->
  exec (mmsp2_gpio_mode (2 * k) pin mode) d =
  exec (wr (GPIOxALTFNLOW (2 * k)) (altfn_value (peek (GPIOxALTFNLOW (2 * k)) d) (2 * pin) mode)) d.
Proof.
  intros Hk Hp. unfold mmsp2_gpio_mode, GPIOO. case_cmp; try lia.
  rewrite !exec_rd_skip by auto with hw. unfold u16. rewrite (wrap_id 16) by (unfold in_u; lia). done.
Qed.

Lemma gpio_mode_high k pin mode d : 0 <= k <= 14 -> 8 < pin <= 16 ->
  exec (mmsp2_gpio_mode (2 * k) pin mode) d =
  exec (wr (GPIOxALTFNHI (2 * k)) (altfn_value (peek (GPIOxALTFNHI (2 * k)) d) (2 * (pin - 8)) mode)) d.
Proof.
  intros Hk Hp. unfold mmsp2_gpio_mode, GPIOO. case_cmp; try lia.
  rewrite !exec_rd_skip by auto with hw. unfold u16. rewrite (wrap_id 16) by (unfold in_u; lia). done.
Qed.

Lemma gpio_regs_disj j k : 0 <= j <= 14 -> 0 <= k <= 14 ->
  reg_disj (GPIOxALTFNLOW (2 * j)) (GPIOxALTFNHI (2 * k)).
Proof.
  intros Hj Hk. assert (j ∈ seqZ 0 15) as Hj' by (apply elem_of_seqZ; lia).
  assert (k ∈ seqZ 0 15) as Hk' by (apply elem_of_seqZ; lia).
  assert (Forall (λ j, Forall (λ k, reg_disj (GPIOxALTFNLOW (2 * j)) (GPIOxALTFNHI (2 * k)))
    (seqZ 0 15)) (seqZ 0 15)) as HF by (apply (bool_decide_unpack _); vm_compute; exact I).
  rewrite Forall_forall in HF. specialize (HF j Hj'). rewrite Forall_forall in HF. by apply HF.
Qed.

Lemma peek_wr_altfn r old o mode d : kind_of r = Storage -> reg_width r = 16 ->
  peek r (exec (wr r (altfn_value old o mode)) d) = altfn_value old o mode.
Proof. intros Hk Hw. rewrite wr_storage, Hw by done. apply wrap_id, altfn_value_range. Qed.

(** For every pin but 8 of every group, [mmsp2_gpio_mode] writes the two
    mode bits of that pin (low register for pins 0 to 7, high register for
    pins 9 to 15), keeps the other pins of the register, and leaves the
    group's other register alone. *)
Theorem gpio_mode_sets_pin k pin mode d : 0 <= k <= 14 -> 0 <= pin < 16 -> pin <> 8 ->
  let low := GPIOxALTFNLOW (2 * k) in
  let high := GPIOxALTFNHI (2 * k) in
  let r := if pin <? 8 then low else high in
  let other := if pin <? 8 then high else low in
  let d' := exec (mmsp2_gpio_mode (2 * k) pin mode) d in
  (∀ i, 0 <= i < 16 -> Z.testbit (peek r d') i =
     if i / 2 =? pin mod 8 then Z.testbit mode (i mod 2) else Z.testbit (peek r d) i) ∧
  peek other d' = peek other d.
Proof.
  intros Hk Hp H8 low high. subst low high. destruct (Z.ltb_spec pin 8) as [Hl|Hl]; cbn zeta.
  - rewrite gpio_mode_low by lia. rewrite Z.mod_small by lia.
    split; [|apply wr_frame; auto with hw; apply gpio_regs_disj; lia].
    intros i Hi. rewrite peek_wr_altfn by auto with hw.
    rewrite altfn_value_bits by (lia || apply (peek_range (GPIOxALTFNLOW (2 * k))); auto with hw).
    destruct (Z.ltb_spec i 16); [|lia]. case_cmp; [|done]. cbn. f_equal. pose proof (Z.div_mod i 2). lia.
  - rewrite gpio_mode_high by lia.
    assert (pin mod 8 = pin - 8) as -> by (symmetry; apply (Z.mod_unique_pos _ _ 1); lia).
    split; [|apply wr_frame; auto with hw; symmetry; apply gpio_regs_disj; lia].
    intros i Hi. rewrite peek_wr_altfn by auto with hw.
    rewrite altfn_value_bits by (lia || apply (peek_range (GPIOxALTFNHI (2 * k))); auto with hw).
    destruct (Z.ltb_spec i 16); [|lia]. case_cmp; [|done]. cbn. f_equal. pose proof (Z.div_mod i 2). lia.
Qed.

(** Pin 8 (the first pin of the high register) cannot be configured: the
    test [pin > 8] sends it to a field beyond the low register, and neither
    register changes; nor does pin 16, which the range check lets through. *)
Theorem gpio_mode_pin8_lost k pin mode d : 0 <= k <= 14 -> pin = 8 \/ pin = 16 ->
  let d' := exec (mmsp2_gpio_mode (2 * k) pin mode) d in
  peek (GPIOxALTFNLOW (2 * k)) d' = peek (GPIOxALTFNLOW (2 * k)) d ∧
  peek (GPIOxALTFNHI (2 * k)) d' = peek (GPIOxALTFNHI (2 * k)) d.
Proof.
  intros Hk Hp. cbn zeta.
  assert (in_u 16 (peek (GPIOxALTFNLOW (2 * k)) d)) by (apply (peek_range (GPIOxALTFNLOW (2 * k))); auto with hw).
  assert (in_u 16 (peek (GPIOxALTFNHI (2 * k)) d)) by (apply (peek_range (GPIOxALTFNHI (2 * k))); auto with hw).
  destruct Hp as [-> | ->].
  - rewrite gpio_mode_low by lia. rewrite peek_wr_altfn by auto with hw.
    rewrite wr_frame by (auto with hw; apply gpio_regs_disj; lia). by rewrite altfn_value_16.
  - rewrite gpio_mode_high by lia. rewrite peek_wr_altfn by auto with hw.
    rewrite wr_frame by (auto with hw; symmetry; apply gpio_regs_disj; lia). by rewrite altfn_value_16.
Qed.

(** [mmsp2_gpio_write] drives the pin to the level given and keeps the
    other pins of the group. *)
Theorem gpio_write_sets_pin k pin (level : bool) d : 0 <= k <= 14 -> 0 <= pin < 16 ->
  ∀ i, 0 <= i < 16 ->
    Z.testbit (peek (GPIOxOUT (2 * k)) (exec (mmsp2_gpio_write (2 * k) pin (Z.b2z level)) d)) i =
    if i =? pin then level else Z.testbit (peek (GPIOxOUT (2 * k)) d) i.
Proof.
  intros Hk Hp i Hi. unfold mmsp2_gpio_write.
  rewrite !exec_rd_skip by auto with hw. rewrite exec_bind, exec_rd_skip by auto with hw.
  change (exec (mret ()) ?x) with x. rewrite wr_storage by auto with hw.
  rewrite (wrap_testbit (reg_width (GPIOxOUT (2 * k)))) by (cbn; lia).
  unfold u16. rewrite !wrap_testbit, Z.lor_spec, !wrap_testbit, clr_testbit, BIT_testbit by lia.
  rewrite Z.shiftl_spec by lia. change (reg_width (GPIOxOUT (2 * k))) with 16.
  destruct (Z.ltb_spec i 16); [|lia]. cbn [andb].
  destruct (Z.eqb_spec i pin) as [->|Hne].
  - rewrite Z.eqb_refl, andb_false_r, Z.sub_diag. by destruct level.
  - destruct (Z.eqb_spec pin i); [lia|]. rewrite andb_true_r. 
    assert (Z.testbit (Z.b2z level) (i - pin) = false) as ->; [|by rewrite orb_false_r].
    destruct (decide (i < pin)); [by rewrite Z.testbit_neg_r by lia|].
    destruct level; [|by rewrite Z.bits_0]. change (Z.b2z true) with (BIT 0). rewrite BIT_testbit by lia. case_cmp; lia.
Qed.
End GpioSpec.

(** * Clocks *)

(** Every divider field by division: the fields are at bits 15:8, 7:2 and 1:0. *)
Lemma pll_fields v : in_u 16 v ->
  GET_MDIV v = v / 256 ∧ GET_PDIV v = (v / 4) mod 64 ∧ GET_SDIV v = v mod 4.
Proof.
  intros Hv. unfold GET_MDIV, GET_PDIV, GET_SDIV. split_and!.
  - rewrite Z.shiftr_land. change (Z.shiftr 0xff00 8) with (Z.ones 8).
    rewrite Z.land_ones, Z.shiftr_div_pow2 by lia. apply Z.mod_small. unfold in_u in Hv.
    split; [apply Z.div_pos; lia|apply Z.div_lt_upper_bound; lia].
  - rewrite Z.shiftr_land. change (Z.shiftr 0x00fc 2) with (Z.ones 6).
    by rewrite Z.land_ones, Z.shiftr_div_pow2 by lia.
  - change 0x0003 with (Z.ones 2). by rewrite Z.land_ones by lia.
Qed.

(** The documented formula, in unbounded arithmetic. *)
Definition pll_hz (v : Z) : Z :=
  ((v / 256 + 8) * CLOCK_TICK_RATE) / (((v / 4) mod 64 + 2) * 2 ^ (v mod 4)).

(** On every value of a PLL register the 32-bit arithmetic of [calc_clk]
    neither overflows nor divides by zero: the result is the documented
    [(M + 8) * Fin / ((P + 2) * 2^S)], and it is below 1 GHz. *)
Lemma calc_clk_spec v : in_u 16 v ->
  calc_clk v = pll_hz v ∧ 0 < ((v / 4) mod 64 + 2) * 2 ^ (v mod 4) ∧ 0 <= calc_clk v < 1000000000.
Proof.
  intros Hv. unfold calc_clk, pll_hz. destruct (pll_fields v Hv) as (-> & -> & ->).
  unfold in_u in Hv. pose proof (Z.mod_pos_bound (v / 4) 64 ltac:(lia)) as Hp.
  pose proof (Z.mod_pos_bound v 4 ltac:(lia)) as Hs.
  assert (0 <= v / 256 < 256) as Hm
    by (split; [apply Z.div_pos; lia|apply Z.div_lt_upper_bound; lia]).
  assert (1 <= 2 ^ (v mod 4) <= 8) as He.
  { split; [apply (Z.pow_le_mono_r 2 0); lia|apply (Z.pow_le_mono_r 2 _ 3); lia]. }
  unfold BIT. rewrite Z.shiftl_1_l. generalize dependent (2 ^ (v mod 4)).
  generalize dependent (v / 256). generalize dependent ((v / 4) mod 64).
  intros p Hp m Hm e He. unfold u32, CLOCK_TICK_RATE.
  rewrite !(wrap_id 32) by (unfold in_u; repeat rewrite (wrap_id 32) by (unfold in_u; lia); nia).
  split_and!; [done|nia|apply Z.div_pos; nia|]. apply Z.div_lt_upper_bound; nia.
Qed.

Section ClockSpec.
Context {D : Type} `{BusModel D}.

(** The DCLK divisor is one below a multiple of 64: never zero. *)
Lemma dclk_div_pos sysc : in_u 16 sysc -> 0 < dclk_div sysc.
Proof.
  intros Hs. unfold dclk_div.
  assert (∃ k, 0 <= k < 16 ∧ Z.shiftr (Z.land sysc 0x01f000) 6 = 64 * k) as (k & Hk & ->).
  { exists (sysc / 2 ^ 12). unfold in_u in Hs. split.
    - split; [apply Z.div_pos; lia|apply Z.div_lt_upper_bound; lia].
    - rewrite <- Z.shiftr_div_pow2, (Z.mul_comm 64) by lia. change 64 with (2 ^ 6).
      rewrite <- Z.shiftl_mul_pow2 by lia. apply Z.bits_inj'. intros i Hi.
      rewrite Z.shiftr_spec, Z.land_spec by lia. destruct (decide (i < 6)).
      + rewrite Z.shiftl_spec_low by lia. change 0x01f000 with (Z.shiftl 31 12).
        rewrite Z.shiftl_spec_low by lia. apply andb_false_r.
      + rewrite Z.shiftl_spec, Z.shiftr_spec by lia. replace (i - 6 + 12) with (i + 6) by lia.
        destruct (decide (i + 6 < 16)).
        * change 0x01f000 with (Z.shiftl (Z.ones 5) 12).
          rewrite Z.shiftl_spec, Z.ones_spec_low by lia. apply andb_true_r.
        * by rewrite (testbit_high 16 sysc) by (done || lia). }
  unfold u32, wrap. destruct (decide (k = 0)) as [->|]; [vm_compute; done|].
  rewrite Z.mod_small by lia. lia.
Qed.

Lemma pclk_value (d : D) : kind_of FPLLVSETREG = Storage -> kind_of SYSCSETREG = Storage ->
  mmsp2_get_pclk d = (Some (pll_hz (peek FPLLVSETREG d) / 4), d).
Proof.
  intros Hf Hs. unfold mmsp2_get_pclk, mbind, St_bind. rewrite !rd_known by auto with hw.
  destruct (calc_clk_spec (peek FPLLVSETREG d)) as (-> & _ & _);
    [apply (peek_range FPLLVSETREG); auto with hw|].
  assert (0 < dclk_div (peek SYSCSETREG d)) by (apply dclk_div_pos, (peek_range SYSCSETREG); auto with hw).
  destruct (Z.eqb_spec (dclk_div (peek SYSCSETREG d)) 0); [lia|].
  cbv zeta. unfold mret, St_ret. by rewrite Z.div_div by lia.
Qed.

(** On every PLL setting the 32-bit clock computation equals the
    documented formula (no overflow, no division by zero); the getters read
    the registers without changing the device; the division of the DCLK line
    never faults, and PCLK is a quarter of FCLK. *)
Theorem clock_tree_exact (d : D) :
  kind_of FPLLVSETREG = Storage -> kind_of SYSCSETREG = Storage ->
  (∀ v, in_u 16 v -> calc_clk v = pll_hz v ∧ 0 <= pll_hz v < 1000000000) ∧
  mmsp2_get_fclk d = (pll_hz (peek FPLLVSETREG d), d) ∧
  mmsp2_get_pclk d = (Some (pll_hz (peek FPLLVSETREG d) / 4), d).
Proof.
  intros Hf Hs. split; [by intros v Hv; destruct (calc_clk_spec v Hv) as (<- & _ & ?)|].
  split; [|by apply pclk_value]. unfold mmsp2_get_fclk, mbind, St_bind. rewrite rd_known by auto with hw.
  destruct (calc_clk_spec (peek FPLLVSETREG d)) as (-> & _ & _); [|done].
  apply (peek_range FPLLVSETREG); auto with hw.
Qed.
End ClockSpec.

(** * The device table *)

Definition res_disj (r r' : pres) : Prop := pr_end r < pr_start r' \/ pr_end r' < pr_start r.
#[export] Instance res_disj_dec r r' : Decision (res_disj r r').
Proof. unfold res_disj; apply _. Defined.

Definition res_of (flags : Z) : list pres :=
  filter (λ r, pr_flags r = flags) (mmsp2_devices ≫= pd_resource).

(** Every pair of distinct positions of a list is related. *)
Fixpoint pairwise {A} (R : A -> A -> Prop) (l : list A) : Prop :=
  match l with [] => True | x :: l => Forall (R x) l ∧ pairwise R l end.
#[export] Instance pairwise_dec {A} (R : A -> A -> Prop) `{∀ x y, Decision (R x y)} l :
  Decision (pairwise R l).
Proof. induction l; simpl; apply _. Defined.

(** The platform device table is consistent with the rest of the board:
    the register blocks do not overlap and lie in the mapped I/O window, no
    interrupt line is given to two devices, and after [init_IRQ] every line
    of the table is a valid, requestable level line that is still disabled. *)
Theorem device_table_consistent {H D : Type} `{Bus D} (m : D) s :
  init_IRQ (H:=H) (boot_sys m) = Some (tt, s) ->
  pairwise res_disj (res_of IORESOURCE_MEM) ∧
  pairwise res_disj (res_of IORESOURCE_IRQ) ∧
  Forall (λ r, MMSP2_NIO_START <= pr_start r <= pr_end r ∧ pr_end r < MMSP2_NIO_START + 0x10000)
    (res_of IORESOURCE_MEM) ∧
  Forall (λ r, pr_start r = pr_end r ∧ ∃ d, line (pr_start r) s = Some d ∧
     handle_irq d = Some handle_level ∧ chip d = board_chip_of (pr_start r) ∧ action d = [] ∧
     status d = IRQ_DISABLED ∧ depth d = 1) (res_of IORESOURCE_IRQ).
Proof.
  intros Hs. pose proof (init_IRQ_descs (H:=H) m) as Hd. rewrite Hs in Hd. injection Hd as Hd. clear Hs.
  split_and!; [apply (bool_decide_unpack _); vm_compute; exact I..|].
  unfold line. rewrite Hd. vm_compute. repeat constructor; eexists; split_and!; reflexivity.
Qed.

(** * The static mapping *)

Lemma io_p2v_bits x i : 0 <= i -> in_u 32 x ->
  Z.testbit (io_p2v x) i =
  (if i <? 16 then Z.testbit x i
   else if i <? 20 then false
   else if i <? 28 then Z.testbit x (i + 4)
   else i <? 32).
Proof.
  intros Hi Hx. unfold io_p2v. rewrite !Z.lor_spec, Z.shiftr_spec, !Z.land_spec by lia.
  change 0xff000000 with (Z.shiftl (Z.ones 8) 24). change 0xf0000000 with (Z.shiftl (Z.ones 4) 28).
  change 0x000ffff with (Z.ones 16). rewrite !field_testbit, Z.testbit_ones by lia.
  case_cmp; try lia; rewrite ?andb_true_r, ?andb_false_r, ?orb_false_r, ?orb_true_r; try done;
    by rewrite (testbit_high 32 x).
Qed.

Lemma io_v2p_bits y i : 0 <= i -> Z.testbit (io_v2p y) i =
  (if i <? 20 then Z.testbit y i else if i <? 24 then false
   else if i <? 32 then Z.testbit y (i - 4) else false).
Proof.
  intros Hi. unfold io_v2p, u32. rewrite Z.lor_spec, wrap_testbit, Z.shiftl_spec, !Z.land_spec by lia.
  change 0x0ff00000 with (Z.shiftl (Z.ones 8) 20). change 0x000fffff with (Z.ones 20).
  rewrite Z.testbit_ones by lia. destruct (decide (i < 4)).
  - rewrite !(Z.testbit_neg_r _ (i - 4)) by lia. case_cmp; try lia.
    by rewrite ?andb_true_r, ?andb_false_r.
  - rewrite field_testbit by lia.
    case_cmp; try lia; by rewrite ?andb_true_r, ?andb_false_r, ?orb_false_r, ?orb_true_r.
Qed.

Definition mappable (x : Z) : Prop := in_u 32 x ∧ Z.land x 0x00ff0000 = 0.

Lemma mappable_mid x i : mappable x -> 16 <= i < 24 -> Z.testbit x i = false.
Proof.
  intros [_ Hm] Hi. assert (Z.testbit (Z.land x 0x00ff0000) i = false) as Hb by by rewrite Hm, Z.bits_0.
  rewrite Z.land_spec in Hb. change 0x00ff0000 with (Z.shiftl (Z.ones 8) 16) in Hb.
  rewrite field_testbit in Hb by lia. destruct (Z.leb_spec 16 i), (Z.ltb_spec i (16 + 8)); try lia.
  by rewrite andb_true_r in Hb.
Qed.

Lemma io_v2p_p2v x : mappable x -> io_v2p (io_p2v x) = x.
Proof.
  intros Hx. pose proof Hx as [Hr _]. apply Z.bits_inj'. intros i Hi.
  rewrite io_v2p_bits, !io_p2v_bits by (done || lia).
  case_cmp; try lia; try done; try (symmetry; apply mappable_mid; [done|lia]).
  - destruct (decide (4 <= i)); [|lia]. rewrite io_p2v_bits by (done || lia). case_cmp; try lia. f_equal. lia.
  - by rewrite (testbit_high 32 x).
Qed.

Lemma io_p2v_top x : in_u 32 x -> 0xf0000000 <= io_p2v x < 2 ^ 32.
Proof.
  intros Hx. assert (0 <= io_p2v x) as H0.
  { unfold io_p2v. rewrite !Z.lor_nonneg, Z.shiftr_nonneg, !Z.land_nonneg. lia. }
  assert (in_u 32 (io_p2v x)) as [_ Hu].
  { apply in_u_bits; [lia|done|]. intros i Hi. rewrite io_p2v_bits by (done || lia). case_cmp; lia || done. }
  split; [|done]. assert (Z.shiftr (io_p2v x) 28 = Z.ones 4) as Hs.
  { apply Z.bits_inj'. intros i Hi. rewrite Z.shiftr_spec, io_p2v_bits, Z.testbit_ones by (done || lia).
    case_cmp; try lia; done. }
  rewrite Z.shiftr_div_pow2 in Hs by lia. change (Z.ones 4) with 15 in Hs.
  pose proof (Z.mul_div_le (io_p2v x) (2 ^ 28) ltac:(lia)). lia.
Qed.

(** An address in the window of tag [t]. *)
Lemma io_p2v_window t o : 0 <= t < 256 -> 0 <= o < 2 ^ 16 ->
  mappable (Z.shiftl t 24 + o) ∧
  io_p2v (Z.shiftl t 24 + o) = Z.lor (Z.shiftl t 20) 0xf0000000 + o.
Proof.
  intros Ht Ho.
  assert (in_u 24 o) as Ho24 by (unfold in_u; lia).
  assert (in_u 32 (Z.shiftl t 24 + o)) as Hr
    by (unfold in_u; rewrite Z.shiftl_mul_pow2 by lia; lia).
  rewrite shiftl_add_lor in * by (done || lia). split; [split; [done|]|].
  - apply Z.bits_inj'. intros i Hi. rewrite Z.land_spec, Z.lor_spec, Z.bits_0.
    change 0x00ff0000 with (Z.shiftl (Z.ones 8) 16). rewrite field_testbit by lia.
    destruct (Z.leb_spec 16 i); [|apply andb_false_r].
    rewrite (testbit_high 16 o) by (done || lia). destruct (Z.ltb_spec i (16 + 8)); [|apply andb_false_r].
    by rewrite Z.shiftl_spec_low by lia.
  - assert (Z.lor (Z.shiftl t 20) 0xf0000000 = Z.shiftl (Z.lor t (Z.shiftl 15 8)) 20) as Hc.
    { rewrite Z.shiftl_lor, Z.shiftl_shiftl by lia. done. }
    rewrite Hc, shiftl_add_lor by (unfold in_u; lia). rewrite <- Hc.
    apply Z.bits_inj'. intros i Hi. rewrite io_p2v_bits by done. rewrite !Z.lor_spec.
    change 0xf0000000 with (Z.shiftl (Z.ones 4) 28). rewrite field_testbit by lia.
    case_cmp; try lia; cbn [andb]; rewrite ?orb_false_r, ?orb_true_r; try done.
    + by rewrite !Z.shiftl_spec_low by lia.
    + rewrite Z.shiftl_spec_low, (testbit_high 16 o) by (done || lia). done.
    + rewrite !(testbit_high 16 o), !Z.shiftl_spec by (done || lia). rewrite !orb_false_r. f_equal. lia.
    + rewrite (testbit_high 16 o), Z.shiftl_spec, (testbit_high 8 t) by (done || (unfold in_u; lia)). done.
Qed.

(** The physical-to-virtual map is invertible on the addresses whose bits
    23:16 are clear (every I/O window is one such 64 KiB area), sends them to
    the top 256 MiB, and keeps the offset inside a window, so each entry of
    the static mapping covers exactly the image of its physical window. *)
Theorem io_map_faithful nand shadow :
  (∀ x, mappable x -> io_v2p (io_p2v x) = x ∧ 0xf0000000 <= io_p2v x < 2 ^ 32) ∧
  Forall (λ e, ∀ o, 0 <= o < md_length e ->
    mappable (Z.shiftl (md_pfn e) PAGE_SHIFT + o) ∧
    io_p2v (Z.shiftl (md_pfn e) PAGE_SHIFT + o) = md_virtual e + o) (mmsp2_io_desc nand shadow) ∧
  pairwise (λ a b, md_virtual a + md_length a <= md_virtual b ∨
                   md_virtual b + md_length b <= md_virtual a) (mmsp2_io_desc nand shadow).
Proof.
  assert (∀ t v, 0 <= t < 256 -> v = Z.lor (Z.shiftl t 20) 0xf0000000 ->
    ∀ o, 0 <= o < 0x10000 ->
      mappable (Z.shiftl (phys_to_pfn (Z.shiftl t 24)) PAGE_SHIFT + o) ∧
      io_p2v (Z.shiftl (phys_to_pfn (Z.shiftl t 24)) PAGE_SHIFT + o) = v + o) as Hw.
  { intros t v Ht -> o Ho. unfold phys_to_pfn, PAGE_SHIFT.
    rewrite Z.shiftr_shiftl_l, Z.shiftl_shiftl by lia. by apply io_p2v_window. }
  split; [|split].
  - intros x Hx. split; [by apply io_v2p_p2v|apply io_p2v_top, Hx].
  - apply Forall_cons_2; [exact (Hw 0xc0 _ ltac:(lia) eq_refl)|].
    apply Forall_cons_2; [exact (Hw 0xe0 _ ltac:(lia) eq_refl)|].
    destruct nand; [|constructor]. apply Forall_cons_2; [|constructor].
    destruct shadow; [exact (Hw 0x9c _ ltac:(lia) eq_refl)|exact (Hw 0x1c _ ltac:(lia) eq_refl)].
  - destruct nand, shadow; apply (bool_decide_unpack _); vm_compute; exact I.
Qed.

Module BoardDemo.
Import RegFile.

#[export] Instance gpio_regs : GpioRegs RegFile.t.
Proof.
  split; intros k Hk; assert (k ∈ seqZ 0 15) as Hin by (apply elem_of_seqZ; lia);
    repeat (apply elem_of_cons in Hin as [->|Hin]; [reflexivity|]); by apply not_elem_of_nil in Hin.
Defined.

(** GPIOB pin 11 becomes an output; the other pins keep alternate function 2. *)
Definition gpiob : RegFile.t := {| contents := [(GPIOxALTFNHI 2, 0xffff); (FPLLVSETREG, 0x6902)] |}.

Lemma gpio_mode_sets_pin_witness :
  Z.testbit (peek (GPIOxALTFNHI 2) (exec (mmsp2_gpio_mode 2 11 GPIO_FN_OUTPUT) gpiob)) 7 = false.
Proof. destruct (gpio_mode_sets_pin 1 11 GPIO_FN_OUTPUT gpiob) as [Hb _]; [lia..|]. by apply (Hb 7). Defined.

Lemma gpio_mode_pin8_lost_witness :
  peek (GPIOxALTFNHI 2) (exec (mmsp2_gpio_mode 2 8 GPIO_FN_OUTPUT) gpiob) = 0xffff.
Proof. destruct (gpio_mode_pin8_lost 1 8 GPIO_FN_OUTPUT gpiob) as [_ Hh]; [lia|by left|]. exact Hh. Defined.

Lemma gpio_write_sets_pin_witness :
  Z.testbit (peek (GPIOxOUT 14) (exec (mmsp2_gpio_write 14 1 1) gpiob)) 1 = true.
Proof. exact (gpio_write_sets_pin 7 1 true gpiob ltac:(lia) ltac:(lia) 1 ltac:(lia)). Defined.

Lemma clock_tree_exact_witness : mmsp2_get_pclk gpiob = (Some 26035200, gpiob).
Proof. destruct (clock_tree_exact gpiob) as (_ & _ & ->); [done..|]. vm_compute. reflexivity. Defined.

Lemma device_table_consistent_witness :
  ∃ s, init_IRQ (H:=unit) (boot_sys gpiob) = Some (tt, s) ∧ pairwise res_disj (res_of IORESOURCE_MEM).
Proof.
  destruct (init_IRQ_run (H:=unit) gpiob) as (s & Hs & _). exists s. split; [exact Hs|].
  destruct (device_table_consistent gpiob s Hs) as [Hp _]. exact Hp.
Defined.
End BoardDemo.
