(* ===== verification/Ktime.v ===== *)
(** include/linux/ktime.h and kernel/hrtimer.c: times of the high-resolution
    timers, and moving a periodic timer forward.

    On this machine a [ktime_t] is a 64-bit word that is also a pair of 32-bit
    seconds (upper half) and nanoseconds; sums and differences are computed on
    the word and corrected.  A time is its word [tv64] here. *)

From S2P Require Import Prelude.

Definition NSEC_PER_SEC : Z := 1000000000.
Definition NSEC_PER_USEC : Z := 1000.
Definition KTIME_MAX : Z := 2 ^ 63 - 1.
Definition KTIME_SEC_MAX : Z := 2 ^ 31 - 1.

(** ** The union *)

Definition tv_nsec (t : Z) : Z := s32 t.
Definition tv_sec (t : Z) : Z := s32 (Z.shiftr t 32).
Definition tv_pack (sec nsec : Z) : Z := s64 (Z.shiftl sec 32 + u32 nsec).

(** ** Arithmetic *)

Definition ktime_set (secs nsecs : Z) : Z := tv_pack secs nsecs.

Definition ktime_sub (lhs rhs : Z) : Z :=
  let res := s64 (lhs - rhs) in
  if tv_nsec res <? 0 then tv_pack (tv_sec res) (tv_nsec res + NSEC_PER_SEC) else res.

Definition ktime_add (add1 add2 : Z) : Z :=
  let res := s64 (add1 + add2) in
  if NSEC_PER_SEC <=? tv_nsec res then s64 (res + u32 (- NSEC_PER_SEC)) else res.

Definition timespec_to_ktime (sec nsec : Z) : Z := tv_pack (s32 sec) (s32 nsec).
Definition timeval_to_ktime (sec usec : Z) : Z := tv_pack (s32 sec) (s32 (s32 usec * 1000)).
Definition ktime_to_timespec (kt : Z) : Z * Z := (tv_sec kt, tv_nsec kt).
Definition ktime_to_timeval (kt : Z) : Z * Z := (tv_sec kt, Z.quot (tv_nsec kt) NSEC_PER_USEC).
Definition ktime_to_ns (kt : Z) : Z := s64 (tv_sec kt * NSEC_PER_SEC + tv_nsec kt).
Definition ktime_equal (a b : Z) : bool := a =? b.

(** [nsec] is an unsigned 64-bit number; do_div leaves the quotient in it. *)
Definition ns_part (nsec : Z) : Z :=
  if nsec <? NSEC_PER_SEC then nsec else ktime_set (s32 (nsec / NSEC_PER_SEC)) (nsec mod NSEC_PER_SEC).
Definition ktime_add_ns (kt nsec : Z) : Z := ktime_add kt (ns_part nsec).
Definition ktime_sub_ns (kt nsec : Z) : Z := ktime_sub kt (ns_part nsec).

(** [while (div >> 32) ...]: 32 rounds are enough for a positive divisor; the
    loop does not end for a negative one. *)
Fixpoint divns_shift (fuel : nat) (div sft : Z) : option (Z * Z) :=
  if Z.shiftr div 32 =? 0 then Some (div, sft)
  else match fuel with O => None | S fuel => divns_shift fuel (Z.shiftr div 1) (sft + 1) end.

(** [None]: no end, or a division by zero. *)
Definition ktime_divns (kt div : Z) : option Z :=
  '(div, sft) ← divns_shift 32 div 0;
  let dclc := Z.shiftr (u64 (ktime_to_ns kt)) sft in
  if div =? 0 then None else Some (u32 (dclc / u32 div)).

(** ** Forwarding *)

(** The timer's [expires] and the resolution of its base; returns the number of
    overruns and the new expiry time. *)
Definition hrtimer_forward (expires resolution now interval : Z) : option (Z * Z) :=
  let delta := ktime_sub now expires in
  if delta <? 0 then Some (0, expires)
  else
    let interval := if interval <? resolution then resolution else interval in
    let last (orun expires : Z) : option (Z * Z) :=
      let expires := ktime_add expires interval in
      Some (orun, if expires <? 0 then ktime_set KTIME_SEC_MAX 0 else expires) in
    if interval <=? delta then
      let incr := ktime_to_ns interval in
      orun ← ktime_divns delta incr;
      let expires := ktime_add_ns expires (u64 (s64 (incr * orun))) in
      if now <? expires then Some (orun, expires) else last (u32 (orun + 1)) expires
    else last 1 expires.

(** * Times in nanoseconds *)

(** A proper time: the nanoseconds are less than a second. *)
Definition proper (t : Z) : Prop := - 2 ^ 63 <= t < 2 ^ 63 ∧ t mod 2 ^ 32 < NSEC_PER_SEC.
#[export] Instance proper_dec t : Decision (proper t).
Proof. unfold proper. apply _. Defined.
Definition ns (t : Z) : Z := t / 2 ^ 32 * NSEC_PER_SEC + t mod 2 ^ 32.

(** Nanoseconds that a proper time can hold. *)
Definition fits_ns (x : Z) : Prop := - 2 ^ 31 * NSEC_PER_SEC <= x < 2 ^ 31 * NSEC_PER_SEC.
#[export] Instance fits_ns_dec x : Decision (fits_ns x).
Proof. unfold fits_ns. apply _. Defined.

Section Arith.
Implicit Types t a b : Z.

(** The time that holds [x] nanoseconds. *)
Definition of_ns (x : Z) : Z := x / NSEC_PER_SEC * 2 ^ 32 + x mod NSEC_PER_SEC.

Lemma of_ns_halves x : of_ns x / 2 ^ 32 = x / NSEC_PER_SEC ∧ of_ns x mod 2 ^ 32 = x mod NSEC_PER_SEC.
Proof.
  unfold of_ns, NSEC_PER_SEC. pose proof (Z.mod_pos_bound x 1000000000 ltac:(lia)).
  split.
  - rewrite Z.div_add_l, (Z.div_small (x mod 1000000000)) by lia. lia.
  - rewrite Z.add_comm, Z.mod_add by lia. apply Z.mod_small. lia.
Qed.

Lemma of_ns_proper x : fits_ns x -> proper (of_ns x) ∧ ns (of_ns x) = x.
Proof.
  intros Hx. destruct (of_ns_halves x) as [Hd Hm]. unfold proper, ns. rewrite Hd, Hm. unfold fits_ns, NSEC_PER_SEC in *.
  pose proof (Z.mod_pos_bound x 1000000000 ltac:(lia)). pose proof (Z.div_mod x 1000000000 ltac:(lia)). split; [|lia]. split; [|lia].
  unfold of_ns, NSEC_PER_SEC. assert (- 2 ^ 31 <= x / 1000000000 < 2 ^ 31); [|lia].
  split; [apply Z.div_le_lower_bound; lia|apply Z.div_lt_upper_bound; lia].
Qed.

Lemma proper_of_ns t : proper t -> t = of_ns (ns t) ∧ fits_ns (ns t).
Proof.
  intros [Hr Hm]. unfold of_ns, ns, fits_ns, NSEC_PER_SEC in *. pose proof (Z.mod_pos_bound t (2 ^ 32) ltac:(lia)). pose proof (Z.div_mod t (2 ^ 32) ltac:(lia)).
  assert (- 2 ^ 31 <= t / 2 ^ 32 < 2 ^ 31) by (split; [apply Z.div_le_lower_bound; lia|apply Z.div_lt_upper_bound; lia]).
  set (d := t / 2 ^ 32) in *. set (m := t mod 2 ^ 32) in *.
  assert ((d * 1000000000 + m) mod 1000000000 = m) as -> by (rewrite Z.add_comm, Z.mod_add, Z.mod_small; lia).
  rewrite Z.div_add_l, (Z.div_small m) by lia. lia.
Qed.

(** Times are ordered like their nanoseconds. *)
Lemma ns_lt a b : proper a -> proper b -> (a < b <-> ns a < ns b).
Proof.
  intros [_ Ha] [_ Hb]. unfold ns, NSEC_PER_SEC in *. pose proof (Z.div_mod a (2 ^ 32) ltac:(lia)). pose proof (Z.div_mod b (2 ^ 32) ltac:(lia)).
  pose proof (Z.mod_pos_bound a (2 ^ 32) ltac:(lia)). pose proof (Z.mod_pos_bound b (2 ^ 32) ltac:(lia)). nia.
Qed.

(** The word and its halves, modulo 2^64. *)
Lemma s64_cong x : ∃ k, s64 x = x + k * 2 ^ 64.
Proof.
  unfold s64, sx, wrap. pose proof (Z.div_mod x (2 ^ 64) ltac:(lia)).
  destruct (_ <? _); [exists (- (x / 2 ^ 64))|exists (- (x / 2 ^ 64) - 1)]; lia.
Qed.

Lemma s64_eq x y k : x = y + k * 2 ^ 64 -> - 2 ^ 63 <= y < 2 ^ 63 -> s64 x = y.
Proof.
  intros -> Hy. unfold s64. rewrite <-(sx_id 64 y) at 2 by lia. unfold sx, wrap. by rewrite Z.mod_add by lia.
Qed.

Lemma s32_eq x y k : x = y + k * 2 ^ 32 -> - 2 ^ 31 <= y < 2 ^ 31 -> s32 x = y.
Proof.
  intros -> Hy. rewrite <-(s32_id y) at 2 by lia. unfold s32, sx, wrap. by rewrite Z.mod_add by lia.
Qed.

Lemma tv_pack_of_ns sec nsec x k :
  sec = x / NSEC_PER_SEC + k * 2 ^ 32 -> nsec = x mod NSEC_PER_SEC -> fits_ns x -> tv_pack sec nsec = of_ns x.
Proof.
  intros -> -> Hx. destruct (of_ns_proper x Hx) as [[Hr _] _]. unfold tv_pack. apply s64_eq with k; [|done].
  unfold of_ns, u32, wrap, NSEC_PER_SEC. pose proof (Z.mod_pos_bound x 1000000000 ltac:(lia)).
  rewrite Z.shiftl_mul_pow2, (Z.mod_small (x mod _)) by lia. lia.
Qed.

Ltac div_parts x :=
  pose proof (Z.div_mod x 1000000000 ltac:(lia)); pose proof (Z.mod_pos_bound x 1000000000 ltac:(lia)).

Lemma of_ns_split x d m : x = d * NSEC_PER_SEC + m -> 0 <= m < NSEC_PER_SEC -> x / NSEC_PER_SEC = d ∧ x mod NSEC_PER_SEC = m.
Proof.
  intros -> Hm. unfold NSEC_PER_SEC in *. split.
  - rewrite Z.div_add_l, (Z.div_small m) by lia. lia.
  - rewrite Z.add_comm, Z.mod_add, Z.mod_small by lia. lia.
Qed.

(** The fields of a time. *)
Lemma tv_of_ns x : fits_ns x -> tv_sec (of_ns x) = x / NSEC_PER_SEC ∧ tv_nsec (of_ns x) = x mod NSEC_PER_SEC.
Proof.
  intros Hx. unfold tv_sec, tv_nsec. destruct (of_ns_halves x) as [Hd _]. rewrite Z.shiftr_div_pow2, Hd by lia.
  unfold of_ns, fits_ns, NSEC_PER_SEC in *. div_parts x. split; [apply s32_id; lia|].
  apply s32_eq with (x / 1000000000); lia.
Qed.

Lemma ktime_to_ns_of x : fits_ns x -> ktime_to_ns (of_ns x) = x.
Proof.
  intros Hx. unfold ktime_to_ns. destruct (tv_of_ns x Hx) as [-> ->]. unfold fits_ns, NSEC_PER_SEC in *. div_parts x.
  apply s64_eq with 0; lia.
Qed.

Lemma tv_nsec_add x y k : tv_nsec (of_ns x + of_ns y + k * 2 ^ 64) = x mod NSEC_PER_SEC + y mod NSEC_PER_SEC.
Proof.
  unfold of_ns, NSEC_PER_SEC. div_parts x. div_parts y. apply s32_eq with (x / 1000000000 + y / 1000000000 + k * 2 ^ 32); lia.
Qed.

(** Sums and differences are exact, whatever the intermediate words do. *)
Lemma ktime_add_of x y : fits_ns x -> fits_ns y -> fits_ns (x + y) -> ktime_add (of_ns x) (of_ns y) = of_ns (x + y).
Proof.
  intros Hx Hy Hxy. destruct (of_ns_proper _ Hxy) as [[Hr _] _]. revert Hr. unfold ktime_add.
  destruct (s64_cong (of_ns x + of_ns y)) as [k Hk]. rewrite Hk. unfold fits_ns, NSEC_PER_SEC in *. div_parts x. div_parts y.
  rewrite tv_nsec_add. unfold NSEC_PER_SEC.
  destruct (Z.leb_spec 1000000000 (x mod 1000000000 + y mod 1000000000)).
  - destruct (of_ns_split (x + y) (x / 1000000000 + y / 1000000000 + 1) (x mod 1000000000 + y mod 1000000000 - 1000000000)) as [Hd Hm];
      unfold NSEC_PER_SEC in *; [lia..|].
    unfold of_ns, NSEC_PER_SEC. rewrite Hd, Hm. replace (u32 _) with 3294967296 by done. intros Hr. apply s64_eq with k; lia.
  - destruct (of_ns_split (x + y) (x / 1000000000 + y / 1000000000) (x mod 1000000000 + y mod 1000000000)) as [Hd Hm];
      unfold NSEC_PER_SEC in *; [lia..|].
    rewrite <-Hk. unfold of_ns, NSEC_PER_SEC. rewrite Hd, Hm. intros Hr. apply s64_eq with 0; lia.
Qed.

(** A sum past the last second is a negative word. *)
Lemma ktime_add_wraps x y :
  fits_ns x -> fits_ns y -> 2 ^ 31 * NSEC_PER_SEC <= x + y -> (ktime_add (of_ns x) (of_ns y) <? 0) = true.
Proof.
  intros Hx Hy Hxy. unfold ktime_add. unfold fits_ns, NSEC_PER_SEC in *. div_parts x. div_parts y. apply Z.ltb_lt.
  destruct (s64_cong (of_ns x + of_ns y)) as [k Hk]. rewrite Hk.
  rewrite tv_nsec_add. unfold NSEC_PER_SEC.
  destruct (Z.leb_spec 1000000000 (x mod 1000000000 + y mod 1000000000)).
  - replace (u32 _) with 3294967296 by done. unfold of_ns, NSEC_PER_SEC.
    rewrite (s64_eq _ ((x / 1000000000 + y / 1000000000 + 1 - 2 ^ 32) * 2 ^ 32 + (x mod 1000000000 + y mod 1000000000 - 1000000000)) (k + 1)); lia.
  - rewrite <-Hk. unfold of_ns, NSEC_PER_SEC.
    rewrite (s64_eq _ ((x / 1000000000 + y / 1000000000 - 2 ^ 32) * 2 ^ 32 + (x mod 1000000000 + y mod 1000000000)) 1); lia.
Qed.

Lemma ktime_sub_of x y : fits_ns x -> fits_ns y -> fits_ns (x - y) -> ktime_sub (of_ns x) (of_ns y) = of_ns (x - y).
Proof.
  intros Hx Hy Hxy. destruct (of_ns_proper _ Hxy) as [[Hr _] _]. revert Hr. unfold ktime_sub.
  destruct (s64_cong (of_ns x - of_ns y)) as [k Hk]. rewrite Hk.
  pose proof Hxy as Hxy'. unfold fits_ns in Hx, Hy, Hxy'. unfold NSEC_PER_SEC in *. div_parts x. div_parts y.
  set (dx := x / 1000000000) in *. set (dy := y / 1000000000) in *.
  assert (tv_nsec (of_ns x - of_ns y + k * 2 ^ 64) = x mod 1000000000 - y mod 1000000000) as ->.
  { apply s32_eq with (dx - dy + k * 2 ^ 32); unfold of_ns, NSEC_PER_SEC; lia. }
  destruct (Z.ltb_spec (x mod 1000000000 - y mod 1000000000) 0) as [Hlt|Hge].
  - destruct (of_ns_split (x - y) (dx - dy - 1) (x mod 1000000000 - y mod 1000000000 + 1000000000)) as [Hd Hm];
      unfold NSEC_PER_SEC in *; [lia..|]. intros _. apply tv_pack_of_ns with 0; unfold NSEC_PER_SEC; [|lia|done].
    rewrite Hd, Z.add_0_r. unfold tv_sec. apply s32_eq with k; [|lia].
    rewrite Z.shiftr_div_pow2 by lia. symmetry. apply Z.div_unique with (x mod 1000000000 - y mod 1000000000 + 2 ^ 32); [lia|].
    unfold of_ns, NSEC_PER_SEC. fold dx dy. lia.
  - destruct (of_ns_split (x - y) (dx - dy) (x mod 1000000000 - y mod 1000000000)) as [Hd Hm]; unfold NSEC_PER_SEC in *; [lia..|].
    rewrite <-Hk. unfold of_ns, NSEC_PER_SEC. rewrite Hd, Hm. fold dx dy. intros Hr. apply s64_eq with 0; lia.
Qed.

Lemma ns_part_of n : 0 <= n -> fits_ns n -> ns_part n = of_ns n.
Proof.
  intros H0 Hn. unfold ns_part. destruct (Z.ltb_spec n NSEC_PER_SEC).
  - unfold of_ns. rewrite Z.div_small, Z.mod_small; lia.
  - unfold ktime_set. apply tv_pack_of_ns with 0; [|done..]. rewrite Z.add_0_r. apply s32_id.
    unfold fits_ns, NSEC_PER_SEC in *. div_parts n. lia.
Qed.

Lemma ktime_add_ns_of x n : 0 <= n -> fits_ns n -> fits_ns x -> fits_ns (x + n) -> ktime_add_ns (of_ns x) n = of_ns (x + n).
Proof. intros. unfold ktime_add_ns. rewrite ns_part_of by done. by apply ktime_add_of. Qed.

Lemma ktime_sub_ns_of x n : 0 <= n -> fits_ns n -> fits_ns x -> fits_ns (x - n) -> ktime_sub_ns (of_ns x) n = of_ns (x - n).
Proof. intros. unfold ktime_sub_ns. rewrite ns_part_of by done. by apply ktime_sub_of. Qed.

(** A divisor that fits in a word is used as it is; a larger one is shifted
    until it does, and keeps its top 31 bits or more. *)
Lemma divns_shift_ok fuel div sft :
  0 <= sft -> 0 < div < 2 ^ (32 + Z.of_nat fuel) ->
  ∃ i, 0 <= i ∧ divns_shift fuel div sft = Some (div / 2 ^ i, sft + i) ∧ 0 < div / 2 ^ i < 2 ^ 32 ∧ (i = 0 ∨ 2 ^ 31 <= div / 2 ^ i).
Proof.
  revert div sft. induction fuel as [|fuel IH]; intros div sft Hs Hd; cbn [divns_shift]; rewrite Z.shiftr_div_pow2 by lia.
  - rewrite Z.div_small by (change (32 + Z.of_nat 0) with 32 in Hd; lia). exists 0. rewrite Z.pow_0_r, Z.div_1_r, Z.add_0_r.
    change (32 + Z.of_nat 0) with 32 in Hd. split_and!; [lia|done|lia..].
  - destruct (Z.eqb_spec (div / 2 ^ 32) 0) as [E|E].
    + exists 0. rewrite Z.pow_0_r, Z.div_1_r, Z.add_0_r. apply Z.div_small_iff in E; [|lia]. split_and!; [lia|done|lia..].
    + assert (2 ^ 32 <= div) by (destruct (Z.le_gt_cases (2 ^ 32) div); [done|exfalso; apply E, Z.div_small; lia]).
      rewrite Z.shiftr_div_pow2 by lia. destruct (IH (div / 2 ^ 1) (sft + 1)) as (i & Hi & -> & Hr & Hbig); [lia| |].
      { split; [apply Z.div_str_pos; lia|]. apply Z.div_lt_upper_bound; [lia|]. rewrite <-Z.pow_add_r by lia.
        replace (1 + (32 + Z.of_nat fuel)) with (32 + Z.of_nat (S fuel)) by lia. lia. }
      exists (1 + i). rewrite Z.div_div, <-Z.pow_add_r in * by lia. split_and!; [lia|by rewrite Z.add_assoc|lia..|].
      right. destruct Hbig as [->|?]; [|done]. apply Z.div_le_lower_bound; lia.
Qed.

Lemma shifted_quot x I i :
  0 <= x < 2 ^ 61 -> 0 < I -> 0 <= i -> 0 < I / 2 ^ i -> i = 0 ∨ 2 ^ 31 <= I / 2 ^ i ->
  x / I <= x / (2 ^ i * (I / 2 ^ i)) <= x / I + 1.
Proof.
  intros Hx HI Hi Hd [->|Hbig]; [rewrite Z.pow_0_r, Z.div_1_r, Z.mul_1_l; lia|].
  assert (0 < 2 ^ i) as Hp by lia. set (p := 2 ^ i) in *. set (d := I / p) in *.
  assert (p * d <= I < p * d + p) as HD by (pose proof (Z.div_mod I p ltac:(lia)); pose proof (Z.mod_pos_bound I p Hp); lia).
  split; [apply Z.div_le_compat_l; nia|]. apply Z.lt_succ_r, Z.div_lt_upper_bound; [nia|].
  pose proof (Z.div_mod x I ltac:(lia)). pose proof (Z.mod_pos_bound x I HI).
  assert (0 <= x / I < 2 ^ 30) by (split; [apply Z.div_pos; lia|apply Z.div_lt_upper_bound; nia]). set (q := x / I) in *.
  assert (x < (q + 1) * I) by lia. assert ((q + 1) * I <= (q + 1) * (p * d + p)) by (apply Z.mul_le_mono_nonneg_l; lia).
  assert (p * (q + 1) <= p * d) by (apply Z.mul_le_mono_nonneg_l; lia). lia.
Qed.

(** The quotient is that of the division, or one more. *)
Lemma ktime_divns_of x I :
  0 <= x -> fits_ns x -> 0 < I < 2 ^ 63 -> x / I + 1 < 2 ^ 32 ->
  ∃ q, ktime_divns (of_ns x) I = Some q ∧ x / I <= q <= x / I + 1.
Proof.
  intros H0 Hx HI Hq. unfold ktime_divns. destruct (divns_shift_ok 32 I 0) as (i & Hi & -> & Hr & Hbig); [done|lia|].
  cbn [mbind option_bind]. cbv beta iota. rewrite ktime_to_ns_of by done.
  assert (x < 2 ^ 61) by (unfold fits_ns, NSEC_PER_SEC in Hx; lia).
  destruct (Z.eqb_spec (I / 2 ^ i) 0); [lia|]. rewrite Z.add_0_l, Z.shiftr_div_pow2 by lia.
  unfold u64, u32, wrap. rewrite (Z.mod_small x), (Z.mod_small (I / _)), Z.div_div by lia.
  destruct (shifted_quot x I i) as [Hlo Hhi]; [lia|lia|done|lia|done|]. rewrite Z.mod_small; [eauto|]. split; [|lia].
  apply Z.div_pos; [done|lia].
Qed.

Lemma of_ns_lt x y : fits_ns x -> fits_ns y -> (of_ns x < of_ns y <-> x < y).
Proof.
  intros Hx Hy. destruct (of_ns_proper x Hx) as [Px Ex], (of_ns_proper y Hy) as [Py Ey]. rewrite (ns_lt _ _ Px Py). by rewrite Ex, Ey.
Qed.

Lemma of_ns_ltb x y : fits_ns x -> fits_ns y -> (of_ns x <? of_ns y) = (x <? y).
Proof. intros Hx Hy. pose proof (of_ns_lt x y Hx Hy). destruct (Z.ltb_spec (of_ns x) (of_ns y)), (Z.ltb_spec x y); lia. Qed.

Lemma of_ns_ltb0 x : fits_ns x -> (of_ns x <? 0) = (x <? 0).
Proof. intros. by apply (of_ns_ltb x 0). Qed.

(** Forwarding on nanoseconds: the last step, and the whole. *)
Lemma forward_of (E R N I0 : Z) :
  let I := Z.max I0 R in let q := (N - E) / I in
  fits_ns E -> fits_ns R -> fits_ns N -> fits_ns I0 -> 0 <= E <= N -> 0 < R -> q + 1 < 2 ^ 32 -> fits_ns (E + (q + 1) * I) ->
  hrtimer_forward (of_ns E) (of_ns R) (of_ns N) (of_ns I0) = Some (q + 1, of_ns (E + (q + 1) * I)).
Proof.
  intros I q HE HR HN HI0 HEN HRp Hq Hfit. assert (0 < I) as HIp by lia. assert (fits_ns I) as HI by (unfold fits_ns in *; lia).
  assert (fits_ns (N - E)) as HD by (unfold fits_ns, NSEC_PER_SEC in *; lia). assert (0 <= q) as Hq0 by (apply Z.div_pos; lia).
  assert (q * I <= N - E < (q + 1) * I) as HqI.
  { unfold q. pose proof (Z.div_mod (N - E) I ltac:(lia)). pose proof (Z.mod_pos_bound (N - E) I HIp). lia. }
  unfold hrtimer_forward. rewrite ktime_sub_of, of_ns_ltb0 by done. destruct (Z.ltb_spec (N - E) 0); [lia|].
  rewrite of_ns_ltb by done. replace (if I0 <? R then of_ns R else of_ns I0) with (of_ns I)
    by (destruct (Z.ltb_spec I0 R); unfold I; f_equal; lia). cbv zeta.
  rewrite Z.leb_antisym, of_ns_ltb by done. destruct (Z.ltb_spec (N - E) I) as [Hlt|Hge]; cbn [negb].
  - assert (q = 0) as Hz by (apply Z.div_small; lia). rewrite Hz in *. replace (E + (0 + 1) * I) with (E + I) in * by lia.
    rewrite ktime_add_of, of_ns_ltb0 by done. destruct (Z.ltb_spec (E + I) 0); [lia|done].
  - rewrite ktime_to_ns_of by done. destruct (ktime_divns_of (N - E) I) as (q' & -> & Hq'); [lia|done| |done|].
    { unfold fits_ns, NSEC_PER_SEC in HI. lia. }
    fold q in Hq'. cbn [mbind option_bind]. assert (0 <= I * q' ∧ fits_ns (I * q') ∧ fits_ns (E + I * q')) as (Hp & Hf1 & Hf2).
    { assert (q' = q ∨ q' = q + 1) as [->| ->] by lia; unfold fits_ns, NSEC_PER_SEC in *; lia. }
    rewrite (s64_eq (I * q') (I * q') 0) by (unfold fits_ns, NSEC_PER_SEC in Hf1; lia).
    assert (u64 (I * q') = I * q') as -> by (apply wrap_id; unfold in_u, fits_ns, NSEC_PER_SEC in *; lia).
    rewrite ktime_add_ns_of, of_ns_ltb by done. assert (q' = q ∨ q' = q + 1) as [->| ->] by lia.
    + destruct (Z.ltb_spec N (E + I * q)); [lia|]. replace (E + (q + 1) * I) with (E + I * q + I) in * by lia.
      rewrite ktime_add_of, of_ns_ltb0 by done. destruct (Z.ltb_spec (E + I * q + I) 0); [lia|].
      do 2 f_equal. unfold u32. apply wrap_id. unfold in_u. lia.
    + destruct (Z.ltb_spec N (E + I * (q + 1))); [|lia]. do 3 f_equal. lia.
Qed.

(** The difference of two times that are not negative, in nanoseconds. *)
Lemma ktime_delta a b : proper a -> proper b -> 0 <= a -> 0 <= b ->
  ktime_to_ns (ktime_sub a b) = ns a - ns b ∧ (a <= b <-> ns a <= ns b) ∧ fits_ns (ns a - ns b).
Proof.
  intros Ha Hb Ha0 Hb0. pose proof (ns_lt b a Hb Ha). pose proof (ns_lt a 0 Ha ltac:(done)) as Ha'. pose proof (ns_lt b 0 Hb ltac:(done)) as Hb'.
  change (ns 0) with 0 in Ha', Hb'. destruct (proper_of_ns _ Ha) as [Ea Fa], (proper_of_ns _ Hb) as [Eb Fb].
  assert (fits_ns (ns a - ns b)) as Hf by (unfold fits_ns, NSEC_PER_SEC in *; lia). split_and!; [|lia|done].
  rewrite Ea, Eb at 1. by rewrite ktime_sub_of, ktime_to_ns_of.
Qed.
End Arith.

(** * Claims *)

(** C19: moving a periodic timer forward works over its whole range.  A timer
    that has not expired is left alone.  Otherwise, with I the interval, raised
    to the resolution of the clock, and q the whole intervals since it expired,
    the call returns q + 1 overruns and the timer expires q + 1 intervals after
    its old time, to the nanosecond: later than now, and at most one interval
    later.  This holds although large intervals are divided approximately, for
    overrun counts that fit in a word and expiry times that fit in 2^31
    seconds. *)
Theorem hrtimer_forward_correct expires resolution now interval :
  proper expires -> proper resolution -> proper now -> proper interval -> 0 <= expires -> 0 <= now -> 0 < resolution ->
  let I := Z.max (ns interval) (ns resolution) in
  let q := (ns now - ns expires) / I in
  (now < expires -> hrtimer_forward expires resolution now interval = Some (0, expires)) ∧
  (expires <= now -> q + 1 < 2 ^ 32 -> fits_ns (ns expires + (q + 1) * I) ->
   ∃ new, hrtimer_forward expires resolution now interval = Some (q + 1, new) ∧ proper new ∧
          ns new = ns expires + (q + 1) * I ∧ now < new ∧ ns new <= ns now + I).
Proof.
  intros HE HR HN HI HE0 HN0 HR0 I q.
  pose proof (ns_lt _ _ HN HE). pose proof (ns_lt 0 _ ltac:(done) HR) as HR'. change (ns 0) with 0 in HR'.
  pose proof (ns_lt _ 0 HE ltac:(done)) as HE'. pose proof (ns_lt _ 0 HN ltac:(done)) as HN'. change (ns 0) with 0 in HE', HN'.
  destruct (proper_of_ns _ HE) as [EE FE], (proper_of_ns _ HR) as [ER FR], (proper_of_ns _ HN) as [EN FN], (proper_of_ns _ HI) as [EI FI].
  split.
  - intros Hlt. unfold hrtimer_forward. 
    assert ((ktime_sub now expires <? 0) = true) as ->; [|done]. apply Z.ltb_lt.
    assert (fits_ns (ns now - ns expires)) by (unfold fits_ns, NSEC_PER_SEC in *; lia).
    rewrite EE, EN, ktime_sub_of by done. apply (of_ns_lt _ 0); [done|done|lia].
  - intros Hle Hq Hfit. exists (of_ns (ns expires + (q + 1) * I)). destruct (of_ns_proper _ Hfit) as [Hp Hns].
    assert (0 < I) by lia.
    assert (q * I <= ns now - ns expires < (q + 1) * I).
    { unfold q. pose proof (Z.div_mod (ns now - ns expires) I ltac:(lia)). pose proof (Z.mod_pos_bound (ns now - ns expires) I ltac:(lia)). lia. }
    split_and!; [|done|done|apply ns_lt; [done..|lia]|lia].
    rewrite EE, ER, EN, EI at 1. apply forward_of; [done..|lia|lia|done|done].
Qed.

(** A timer two and a half intervals of 4 ms late, and one that is not late. *)
Lemma hrtimer_forward_correct_witness :
  hrtimer_forward (ktime_set 7 0) 1 (ktime_set 7 10000000) (ktime_set 0 4000000) = Some (3, ktime_set 7 12000000) ∧
  hrtimer_forward (ktime_set 7 0) 1 (ktime_set 6 999999999) (ktime_set 0 4000000) = Some (0, ktime_set 7 0).
Proof.
  split.
  - destruct (hrtimer_forward_correct (ktime_set 7 0) 1 (ktime_set 7 10000000) (ktime_set 0 4000000)) as [_ H];
      [by vm_compute..|]. destruct H as (new & E & _ & Hns & _); [by vm_compute..|]. vm_compute in E |- *. done.
  - destruct (hrtimer_forward_correct (ktime_set 7 0) 1 (ktime_set 6 999999999) (ktime_set 0 4000000)) as [H _]; [by vm_compute..|].
    apply H. by vm_compute.
Defined.

(** An interval of more than four seconds is divided approximately. *)
Example forward_large_interval :
  ktime_divns (ktime_set 4294967 0) (ktime_to_ns (ktime_set 5 1)) = Some 858993 ∧
  hrtimer_forward 0 1 (ktime_set 4294967 0) (ktime_set 5 1) = Some (858994, ktime_set 4294970 858994).
Proof. by vm_compute. Qed.

(** A timer that would expire after the last second expires in that second. *)
Lemma hrtimer_forward_saturates E R N I :
  fits_ns E -> fits_ns R -> fits_ns N -> fits_ns I -> 0 <= E <= N -> R <= I -> N - E < I -> 2 ^ 31 * NSEC_PER_SEC <= E + I ->
  hrtimer_forward (of_ns E) (of_ns R) (of_ns N) (of_ns I) = Some (1, ktime_set KTIME_SEC_MAX 0).
Proof.
  intros HE HR HN HI HEN HRI Hlt Hbig. assert (fits_ns (N - E)) by (unfold fits_ns, NSEC_PER_SEC in *; lia).
  unfold hrtimer_forward. rewrite ktime_sub_of, of_ns_ltb0 by done. destruct (Z.ltb_spec (N - E) 0); [lia|].
  rewrite of_ns_ltb by done. destruct (Z.ltb_spec I R); [lia|]. rewrite Z.leb_antisym, of_ns_ltb by done.
  destruct (Z.ltb_spec (N - E) I); [|lia]. cbn [negb]. cbv zeta. rewrite ktime_add_wraps by done. done.
Qed.

(** With intervals of a nanosecond the overrun count is cut to a word: five
    seconds late, the timer is moved to a time that is still in the past. *)
Theorem hrtimer_forward_short :
  ∃ new, hrtimer_forward 0 1 (ktime_set 5 0) (ktime_set 0 1) = Some (5000000000 mod 2 ^ 32 + 1, new) ∧ new < ktime_set 5 0.
Proof. exists (ktime_set 0 705032705). by vm_compute. Qed.

(** Conversions to and from the other time formats. *)
Lemma timespec_roundtrip sec nsec :
  - 2 ^ 31 <= sec < 2 ^ 31 -> 0 <= nsec < NSEC_PER_SEC ->
  proper (timespec_to_ktime sec nsec) ∧ ktime_to_timespec (timespec_to_ktime sec nsec) = (sec, nsec) ∧
  ns (timespec_to_ktime sec nsec) = sec * NSEC_PER_SEC + nsec.
Proof.
  intros Hs Hn. unfold timespec_to_ktime. rewrite !s32_id by (unfold NSEC_PER_SEC in *; lia).
  destruct (of_ns_split (sec * NSEC_PER_SEC + nsec) sec nsec) as [Hd Hm]; [done..|].
  assert (fits_ns (sec * NSEC_PER_SEC + nsec)) as Hf by (unfold fits_ns, NSEC_PER_SEC in *; lia).
  rewrite (tv_pack_of_ns sec nsec (sec * NSEC_PER_SEC + nsec) 0) by (done || lia).
  destruct (of_ns_proper _ Hf) as [Hp Hns], (tv_of_ns _ Hf) as [Es En]. split_and!; [done| |done].
  unfold ktime_to_timespec. by rewrite Es, En, Hd, Hm.
Qed.

Lemma timeval_roundtrip sec usec :
  - 2 ^ 31 <= sec < 2 ^ 31 -> 0 <= usec < 1000000 ->
  ktime_to_timeval (timeval_to_ktime sec usec) = (sec, usec).
Proof.
  intros Hs Hu. destruct (timespec_roundtrip sec (usec * 1000)) as (_ & E & _); [done|unfold NSEC_PER_SEC; lia|].
  unfold ktime_to_timeval, timeval_to_ktime, ktime_to_timespec, timespec_to_ktime in *. rewrite (s32_id usec) by lia.
  injection E as -> ->. f_equal. by apply Z.quot_mul.
Qed.
