(* ===== verification/Time.v ===== *)
(** kernel/time.c: dates, seconds and nanoseconds, and their conversion to and
    from ticks (include/linux/jiffies.h), for HZ = 100 and the clock of
    include/asm-arm/arch-mp25xxf/timex.h.

    [unsigned long], [unsigned int] and [long] have 32 bits; a [struct timespec]
    is a pair of seconds and nanoseconds. *)

From S2P Require Import Prelude.
From S2P Require Import Ktime.

(** * Constants *)

Definition HZ : Z := 100.
Definition SHIFT_HZ : Z := 7.
Definition MSEC_PER_SEC : Z := 1000.
Definition USEC_PER_SEC : Z := 1000000.
Definition CLOCK_TICK_RATE : Z := 7372800.
Definition LATCH : Z := (CLOCK_TICK_RATE + HZ / 2) / HZ.
Definition SH_DIV (nom den lsh : Z) : Z :=
  Z.shiftl (nom / den) lsh + (Z.shiftl (nom mod den) lsh + den / 2) / den.
Definition ACTHZ : Z := SH_DIV CLOCK_TICK_RATE LATCH 8.
Definition TICK_NSEC : Z := SH_DIV (1000000 * 1000) ACTHZ 8.
Definition MAX_JIFFY_OFFSET : Z := Z.shiftr (2 ^ 31 - 1) 1 - 1.

(** The [#if] gives one more bit of scale when the top bit is not set. *)
Definition SEC_JIFFIE_SC : Z :=
  if Z.testbit (Z.shiftl (Z.shiftl NSEC_PER_SEC 2 / TICK_NSEC) (31 - SHIFT_HZ - 2)) 31 then 31 - SHIFT_HZ else 32 - SHIFT_HZ.
Definition NSEC_JIFFIE_SC : Z := SEC_JIFFIE_SC + 29.
Definition USEC_JIFFIE_SC : Z := SEC_JIFFIE_SC + 19.
Definition SEC_CONVERSION : Z := u32 ((Z.shiftl NSEC_PER_SEC SEC_JIFFIE_SC + TICK_NSEC - 1) / TICK_NSEC).
Definition NSEC_CONVERSION : Z := u32 ((Z.shiftl 1 NSEC_JIFFIE_SC + TICK_NSEC - 1) / TICK_NSEC).
Definition USEC_CONVERSION : Z := u32 ((Z.shiftl NSEC_PER_USEC USEC_JIFFIE_SC + TICK_NSEC - 1) / TICK_NSEC).
Definition USEC_ROUND : Z := Z.shiftl 1 USEC_JIFFIE_SC - 1.
Definition MAX_SEC_IN_JIFFIES : Z := s32 (u64 (MAX_JIFFY_OFFSET * TICK_NSEC) / NSEC_PER_SEC).

(** * Milliseconds and microseconds *)

Definition jiffies_to_msecs (j : Z) : Z := u32 (MSEC_PER_SEC / HZ * j).
Definition jiffies_to_usecs (j : Z) : Z := u32 (USEC_PER_SEC / HZ * j).

Definition msecs_to_jiffies (m : Z) : Z :=
  if s32 m <? 0 then MAX_JIFFY_OFFSET else u32 (m + MSEC_PER_SEC / HZ - 1) / (MSEC_PER_SEC / HZ).

Definition usecs_to_jiffies (u : Z) : Z :=
  if jiffies_to_usecs MAX_JIFFY_OFFSET <? u then MAX_JIFFY_OFFSET else u32 (u + USEC_PER_SEC / HZ - 1) / (USEC_PER_SEC / HZ).

(** * Seconds and nanoseconds *)

Definition timespec_trunc (sec nsec gran : Z) : Z * Z :=
  if gran <=? u32 (jiffies_to_usecs 1 * 1000) then (sec, nsec)
  else if gran =? 1000000000 then (sec, 0)
  else (sec, s32 (u32 nsec - u32 nsec mod gran)).

(** The loops: a [long] needs at most three rounds. *)
Fixpoint norm_down (fuel : nat) (sec nsec : Z) : Z * Z :=
  if NSEC_PER_SEC <=? nsec then match fuel with O => (sec, nsec) | S fuel => norm_down fuel (sec + 1) (nsec - NSEC_PER_SEC) end
  else (sec, nsec).
Fixpoint norm_up (fuel : nat) (sec nsec : Z) : Z * Z :=
  if nsec <? 0 then match fuel with O => (sec, nsec) | S fuel => norm_up fuel (sec - 1) (nsec + NSEC_PER_SEC) end
  else (sec, nsec).
Definition set_normalized_timespec (sec nsec : Z) : Z * Z :=
  let '(sec, nsec) := norm_down 3 sec (s32 nsec) in
  let '(sec, nsec) := norm_up 3 sec nsec in
  (s32 sec, nsec).

(** do_div_llr and its signed version; the remainder is a [long]. *)
Definition div_long_long_rem (dividend divisor : Z) : Z * Z :=
  (u32 (u64 dividend / divisor), s32 (u64 dividend mod divisor)).
Definition div_long_long_rem_signed (dividend divisor : Z) : Z * Z :=
  if dividend <? 0 then
    let '(q, r) := div_long_long_rem (s64 (- dividend)) divisor in (s32 (- q), s32 (- r))
  else let '(q, r) := div_long_long_rem dividend divisor in (s32 q, r).

Definition ns_to_timespec (nsec : Z) : Z * Z :=
  if nsec =? 0 then (0, 0)
  else
    let '(sec, rem) := div_long_long_rem_signed nsec NSEC_PER_SEC in
    if nsec <? 0 then set_normalized_timespec sec rem else (sec, rem).

Definition ns_to_timeval (nsec : Z) : Z * Z :=
  let ts := ns_to_timespec nsec in (ts.1, Z.quot ts.2 1000).

(** * Ticks *)

Definition timespec_to_jiffies (tv_sec tv_nsec : Z) : Z :=
  let sec := u32 tv_sec in
  let nsec := s32 (tv_nsec + TICK_NSEC - 1) in
  let '(sec, nsec) := if MAX_SEC_IN_JIFFIES <=? sec then (MAX_SEC_IN_JIFFIES, 0) else (sec, nsec) in
  u32 (Z.shiftr (u64 (u64 (sec * SEC_CONVERSION) + Z.shiftr (u64 (u64 nsec * NSEC_CONVERSION)) (NSEC_JIFFIE_SC - SEC_JIFFIE_SC))) SEC_JIFFIE_SC).

Definition jiffies_to_timespec (jiffies : Z) : Z * Z :=
  let '(sec, nsec) := div_long_long_rem (u64 (jiffies * TICK_NSEC)) NSEC_PER_SEC in (s32 sec, nsec).

Definition timeval_to_jiffies (tv_sec tv_usec : Z) : Z :=
  let sec := u32 tv_sec in
  let '(sec, usec) := if MAX_SEC_IN_JIFFIES <=? sec then (MAX_SEC_IN_JIFFIES, 0) else (sec, tv_usec) in
  u32 (Z.shiftr (u64 (u64 (sec * SEC_CONVERSION) +
    Z.shiftr (u64 (u64 (u64 usec * USEC_CONVERSION) + USEC_ROUND)) (USEC_JIFFIE_SC - SEC_JIFFIE_SC))) SEC_JIFFIE_SC).

Definition jiffies_to_timeval (jiffies : Z) : Z * Z :=
  let '(sec, nsec) := div_long_long_rem (u64 (jiffies * TICK_NSEC)) NSEC_PER_SEC in (s32 sec, Z.quot nsec NSEC_PER_USEC).

(** * Dates *)

Definition mktime (year0 mon0 day hour min sec : Z) : Z :=
  let mon := u32 (mon0 - 2) in
  let '(mon, year) := if s32 mon <=? 0 then (u32 (mon + 12), u32 (year0 - 1)) else (mon, year0) in
  let days := u32 (year / 4 - year / 100 + year / 400 + u32 (367 * mon) / 12 + day) in
  u32 (((u32 (days + year * 365 - 719499) * 24 + hour) * 60 + min) * 60 + sec).

Example constants : TICK_NSEC = 10000000 ∧ SEC_JIFFIE_SC = 25 ∧ SEC_CONVERSION = 3355443200 ∧ NSEC_CONVERSION = 1801439851 ∧
  USEC_CONVERSION = 1759218605 ∧ MAX_SEC_IN_JIFFIES = 10737418 ∧ MAX_JIFFY_OFFSET = 1073741822.
Proof. by vm_compute. Qed.
Example dates : mktime 1970 1 1 0 0 0 = 0 ∧ mktime 2008 2 29 12 30 15 = 1204288215 ∧ timeval_to_jiffies 0 10000 = 2 ∧ timespec_to_jiffies 0 10000000 = 1.
Proof. by vm_compute. Qed.

(** * Ticks and seconds *)

(** [b] is positive; the smallest number of [b]s that make up [a]. *)
Definition ceil_div (a b : Z) : Z := (a + b - 1) / b.

(** The scaled multiplication is the division. *)
Lemma nsec_scaled x : 0 <= x < 2 ^ 30 -> x * NSEC_CONVERSION / 2 ^ 54 = x / TICK_NSEC.
Proof.
  intros Hx. change NSEC_CONVERSION with 1801439851. change TICK_NSEC with 10000000.
  pose proof (Z.div_mod x 10000000 ltac:(lia)) as Hd. pose proof (Z.mod_pos_bound x 10000000 ltac:(lia)) as Hm.
  symmetry. apply Z.div_unique with (x / 10000000 * 518016 + x mod 10000000 * 1801439851); [left; lia|lia].
Qed.

Lemma jiffies_sum sec y sh : 0 <= sec < MAX_SEC_IN_JIFFIES + 1 -> 0 <= sh -> 0 <= y < 2 ^ (sh + 32) ->
  u32 (Z.shiftr (u64 (u64 (sec * SEC_CONVERSION) + Z.shiftr y sh)) SEC_JIFFIE_SC) = u32 (sec * HZ + y / 2 ^ (sh + 25)).
Proof.
  change MAX_SEC_IN_JIFFIES with 10737418. change SEC_CONVERSION with (100 * 2 ^ 25). change SEC_JIFFIE_SC with 25. change HZ with 100.
  intros Hs Hsh Hy. rewrite Z.pow_add_r in Hy by lia. pose proof (Z.pow_pos_nonneg 2 sh ltac:(lia) Hsh).
  assert (0 <= Z.shiftr y sh < 2 ^ 32) as Hq.
  { rewrite Z.shiftr_div_pow2 by lia. split; [apply Z.div_pos; lia|apply Z.div_lt_upper_bound; lia]. }
  unfold u64. rewrite (wrap_id 64 (sec * _)), wrap_id by (unfold in_u; lia). rewrite !Z.shiftr_div_pow2 in * by lia. f_equal.
  rewrite Z.mul_assoc, Z.div_add_l by lia. f_equal. rewrite Z.div_div, Z.pow_add_r by lia. done.
Qed.

(** Rounding up to ticks is exact below the largest time. *)
Lemma timespec_ticks sec nsec : 0 <= sec < MAX_SEC_IN_JIFFIES -> 0 <= nsec < NSEC_PER_SEC ->
  timespec_to_jiffies sec nsec = ceil_div (sec * NSEC_PER_SEC + nsec) TICK_NSEC.
Proof.
  intros Hs Hn. unfold timespec_to_jiffies, ceil_div. unfold NSEC_PER_SEC in *. change TICK_NSEC with 10000000 in *. change MAX_SEC_IN_JIFFIES with 10737418 in *.
  unfold u32 at 1. rewrite wrap_id by (unfold in_u; lia). rewrite s32_id by lia. unfold u32 at 1. rewrite (wrap_id 32 sec) by (unfold in_u; lia).
  destruct (Z.leb_spec 10737418 sec); [lia|]. set (x := nsec + 10000000 - 1). unfold u64 at 3 4.
  assert (0 <= x < 2 ^ 30) as Hx by lia. rewrite (wrap_id 64 x) by (unfold in_u; lia). 
  change (NSEC_JIFFIE_SC - SEC_JIFFIE_SC) with 29. rewrite (wrap_id 64 (x * _)) by (unfold in_u; change NSEC_CONVERSION with 1801439851; lia).
  rewrite jiffies_sum by (change MAX_SEC_IN_JIFFIES with 10737418; change NSEC_CONVERSION with 1801439851; lia). change (29 + 25) with 54. rewrite nsec_scaled by done.
  change TICK_NSEC with 10000000. change HZ with 100. pose proof (Z.div_pos x 10000000 ltac:(lia) ltac:(lia)). pose proof (Z.div_lt_upper_bound x 10000000 1000 ltac:(lia) ltac:(lia)).
  unfold u32. rewrite wrap_id by (unfold in_u; lia). replace (sec * 1000000000 + nsec + 10000000 - 1) with (sec * 100 * 10000000 + x) by (unfold x; lia).
  by rewrite Z.div_add_l by lia.
Qed.

Lemma timespec_saturates sec nsec : - 2 ^ 31 <= sec < 2 ^ 31 -> ~ 0 <= sec < MAX_SEC_IN_JIFFIES ->
  timespec_to_jiffies sec nsec = MAX_SEC_IN_JIFFIES * HZ.
Proof.
  intros Hr Hs. unfold timespec_to_jiffies. destruct (Z.leb_spec MAX_SEC_IN_JIFFIES (u32 sec)) as [|Hlt]; [by vm_compute|].
  change MAX_SEC_IN_JIFFIES with 10737418 in *. exfalso. unfold u32, wrap in Hlt.
  destruct (decide (0 <= sec)); [rewrite Z.mod_small in Hlt by lia; lia|].
  rewrite <- (Z_mod_plus_full sec 1), Z.mod_small in Hlt by lia. lia.
Qed.

Lemma ticks_split j : 0 <= j < 2 ^ 32 -> jiffies_to_timespec j = (j / HZ, j mod HZ * TICK_NSEC).
Proof.
  intros Hj. unfold jiffies_to_timespec, div_long_long_rem. unfold NSEC_PER_SEC. change TICK_NSEC with 10000000. change HZ with 100.
  unfold u64. rewrite (wrap_id 64 (wrap _ _)), wrap_id by (rewrite ?wrap_id; unfold in_u; lia).
  pose proof (Z.div_mod j 100 ltac:(lia)). pose proof (Z.mod_pos_bound j 100 ltac:(lia)).
  assert (j * 10000000 / 1000000000 = j / 100) as ->. { symmetry. apply Z.div_unique with (j mod 100 * 10000000); lia. }
  assert (j * 10000000 mod 1000000000 = j mod 100 * 10000000) as ->. { symmetry. apply Z.mod_unique with (j / 100); lia. }
  unfold u32. rewrite wrap_id, !s32_id by (unfold in_u; lia). done.
Qed.

(** C16: timespec_to_jiffies rounds a time up to whole ticks exactly: below
    MAX_SEC_IN_JIFFIES seconds the scaled multiplications give the smallest
    number of ticks that is not shorter than the time, and any other number of
    seconds, a negative one too, gives the longest time.  A number of ticks
    converted to seconds and nanoseconds and back is the same number. *)
Theorem timespec_to_jiffies_correct sec nsec j :
  - 2 ^ 31 <= sec < 2 ^ 31 -> 0 <= nsec < NSEC_PER_SEC -> 0 <= j < MAX_SEC_IN_JIFFIES * HZ ->
  timespec_to_jiffies sec nsec = (if decide (0 <= sec < MAX_SEC_IN_JIFFIES) then ceil_div (sec * NSEC_PER_SEC + nsec) TICK_NSEC else MAX_SEC_IN_JIFFIES * HZ)
  ∧ let ts := jiffies_to_timespec j in 0 <= ts.2 < NSEC_PER_SEC ∧ timespec_to_jiffies ts.1 ts.2 = j.
Proof.
  intros Hr Hn Hj. split; [case_decide; [by apply timespec_ticks|by apply timespec_saturates]|].
  rewrite ticks_split by (change (MAX_SEC_IN_JIFFIES * HZ) with 1073741800 in Hj; lia). cbv zeta. unfold fst, snd.
  change (MAX_SEC_IN_JIFFIES * HZ) with 1073741800 in Hj. change HZ with 100. change TICK_NSEC with 10000000.
  pose proof (Z.div_mod j 100 ltac:(lia)). pose proof (Z.mod_pos_bound j 100 ltac:(lia)).
  assert (0 <= j mod 100 * 10000000 < NSEC_PER_SEC) by (unfold NSEC_PER_SEC; lia). split; [done|].
  rewrite timespec_ticks; [|change MAX_SEC_IN_JIFFIES with 10737418; lia|done]. unfold ceil_div, NSEC_PER_SEC. change TICK_NSEC with 10000000.
  symmetry. apply Z.div_unique with 9999999; lia.
Qed.
Lemma timespec_to_jiffies_correct_witness :
  (- 2 ^ 31 <= 3 < 2 ^ 31 ∧ 0 <= 10000001 < NSEC_PER_SEC ∧ 0 <= 1234 < MAX_SEC_IN_JIFFIES * HZ) ∧ timespec_to_jiffies 3 10000001 = 302 ∧
  timespec_to_jiffies (jiffies_to_timespec 1234).1 (jiffies_to_timespec 1234).2 = 1234.
Proof.
  split; [by vm_compute|]. destruct (timespec_to_jiffies_correct 3 10000001 1234) as [He [_ Hj]]; [lia|by vm_compute|by vm_compute|].
  split; [rewrite He; by vm_compute|exact Hj].
Defined.

(** The microseconds are rounded up with one unit of the last place too many:
    the factor was already rounded up. *)
Lemma usec_scaled x : 0 <= x < 1000000 ->
  (x * USEC_CONVERSION + USEC_ROUND) / 2 ^ 44 = if decide (x = 0) then 0 else x / 10000 + 1.
Proof.
  intros Hx. change USEC_CONVERSION with 1759218605. change USEC_ROUND with (2 ^ 44 - 1). case_decide; [subst; by vm_compute|].
  pose proof (Z.div_mod x 10000 ltac:(lia)). pose proof (Z.mod_pos_bound x 10000 ltac:(lia)).
  symmetry. apply Z.div_unique with (x mod 10000 * 1759218605 + x / 10000 * 5584 - 1); lia.
Qed.

(** Timeval_to_jiffies does not round a time to the resolution: for a time
    with a microsecond part that is not zero it gives one tick more than the
    whole ticks of the time, so that a time of exactly so many ticks, a
    microsecond part of 10000 for one, becomes one tick longer. *)
Theorem timeval_to_jiffies_extra sec usec : 0 <= sec < MAX_SEC_IN_JIFFIES -> 0 <= usec < USEC_PER_SEC ->
  timeval_to_jiffies sec usec = sec * HZ + (if decide (usec = 0) then 0 else usec / 10000 + 1) ∧
  (timeval_to_jiffies sec usec = ceil_div (sec * USEC_PER_SEC + usec) 10000 ∨
   usec ≠ 0 ∧ usec mod 10000 = 0 ∧ timeval_to_jiffies sec usec = ceil_div (sec * USEC_PER_SEC + usec) 10000 + 1).
Proof.
  intros Hs Hn. assert (timeval_to_jiffies sec usec = sec * HZ + (if decide (usec = 0) then 0 else usec / 10000 + 1)) as ->.
  - unfold timeval_to_jiffies. unfold USEC_PER_SEC in Hn. change MAX_SEC_IN_JIFFIES with 10737418 in *.
    assert (u32 sec = sec) as -> by (apply wrap_id; unfold in_u; lia).
    destruct (Z.leb_spec 10737418 sec); [lia|]. unfold u64 at 3 4 5. rewrite (wrap_id 64 usec) by (unfold in_u; lia).
    change (USEC_JIFFIE_SC - SEC_JIFFIE_SC) with 19. rewrite (wrap_id 64 (usec * _)) by (unfold in_u; change USEC_CONVERSION with 1759218605; lia).
    rewrite (wrap_id 64 (usec * _ + _)) by (unfold in_u; change USEC_CONVERSION with 1759218605; change USEC_ROUND with (2 ^ 44 - 1); lia).
    rewrite jiffies_sum by (change MAX_SEC_IN_JIFFIES with 10737418; change USEC_CONVERSION with 1759218605; change USEC_ROUND with 17592186044415; lia).
    change (19 + 25) with 44. rewrite usec_scaled by lia. change HZ with 100.
    pose proof (Z.div_pos usec 10000 ltac:(lia) ltac:(lia)). pose proof (Z.div_lt_upper_bound usec 10000 100 ltac:(lia) ltac:(lia)).
    unfold u32. apply wrap_id. unfold in_u. case_decide; lia.
  - split; [done|]. unfold ceil_div, USEC_PER_SEC. change HZ with 100. pose proof (Z.div_mod usec 10000 ltac:(lia)) as Hd. pose proof (Z.mod_pos_bound usec 10000 ltac:(lia)).
    case_decide as Hz; [subst; left; apply Z.div_unique with 9999; lia|]. destruct (decide (usec mod 10000 = 0)) as [Hm|Hm].
    + right. split_and!; [done..|]. rewrite <- (Z.div_unique (sec * 1000000 + usec + 10000 - 1) 10000 (sec * 100 + usec / 10000) 9999); lia.
    + left. apply Z.div_unique with (usec mod 10000 - 1); lia.
Qed.
Lemma timeval_to_jiffies_extra_witness :
  (0 <= 0 < MAX_SEC_IN_JIFFIES ∧ 0 <= 10000 < USEC_PER_SEC) ∧ timeval_to_jiffies 0 10000 = 2 ∧ ceil_div 10000 10000 = 1.
Proof.
  split; [by vm_compute|]. split; [|by vm_compute].
  destruct (timeval_to_jiffies_extra 0 10000) as [He _]; [by vm_compute|by vm_compute|]. rewrite He. by vm_compute.
Defined.

(** * Normal form *)

(** The loops of set_normalized_timespec are the division by the nanoseconds of
    a second. *)
Lemma norm_down_div fuel sec nsec : nsec < (Z.of_nat fuel + 1) * NSEC_PER_SEC ->
  norm_down fuel sec nsec = (sec + Z.max 0 (nsec / NSEC_PER_SEC), Z.min nsec (nsec mod NSEC_PER_SEC)).
Proof.
  revert sec nsec. induction fuel as [|fuel IH]; intros sec nsec Hn; cbn [norm_down]; unfold NSEC_PER_SEC in *; destruct (Z.leb_spec 1000000000 nsec) as [Hle|Hlt].
  - lia.
  - pose proof (Z.div_mod nsec 1000000000 ltac:(lia)). pose proof (Z.mod_pos_bound nsec 1000000000 ltac:(lia)). f_equal; lia.
  - rewrite IH by lia. pose proof (Z.div_mod nsec 1000000000 ltac:(lia)). pose proof (Z.mod_pos_bound nsec 1000000000 ltac:(lia)).
    rewrite <- (Z.div_unique (nsec - 1000000000) 1000000000 (nsec / 1000000000 - 1) (nsec mod 1000000000)) by lia.
    rewrite <- (Z.mod_unique (nsec - 1000000000) 1000000000 (nsec / 1000000000 - 1) (nsec mod 1000000000)) by lia. f_equal; lia.
  - pose proof (Z.div_mod nsec 1000000000 ltac:(lia)). pose proof (Z.mod_pos_bound nsec 1000000000 ltac:(lia)). f_equal; lia.
Qed.

Lemma norm_up_div fuel sec nsec : - Z.of_nat fuel * NSEC_PER_SEC <= nsec < NSEC_PER_SEC ->
  norm_up fuel sec nsec = (sec + nsec / NSEC_PER_SEC, nsec mod NSEC_PER_SEC).
Proof.
  revert sec nsec. induction fuel as [|fuel IH]; intros sec nsec Hn; cbn [norm_up]; unfold NSEC_PER_SEC in *; destruct (Z.ltb_spec nsec 0) as [Hlt|Hge].
  - lia.
  - rewrite Z.div_small, Z.mod_small by lia. f_equal; lia.
  - rewrite IH by lia. pose proof (Z.div_mod nsec 1000000000 ltac:(lia)). pose proof (Z.mod_pos_bound nsec 1000000000 ltac:(lia)).
    rewrite <- (Z.div_unique (nsec + 1000000000) 1000000000 (nsec / 1000000000 + 1) (nsec mod 1000000000)) by lia.
    rewrite <- (Z.mod_unique (nsec + 1000000000) 1000000000 (nsec / 1000000000 + 1) (nsec mod 1000000000)) by lia. f_equal; lia.
  - rewrite Z.div_small, Z.mod_small by lia. f_equal; lia.
Qed.

Lemma set_normalized_floor sec nsec : - 2 ^ 31 <= nsec < 2 ^ 31 ->
  set_normalized_timespec sec nsec = (s32 (sec + nsec / NSEC_PER_SEC), nsec mod NSEC_PER_SEC).
Proof.
  intros Hn. unfold set_normalized_timespec. rewrite s32_id, norm_down_div by (unfold NSEC_PER_SEC; lia). 
  pose proof (Z.div_mod nsec NSEC_PER_SEC ltac:(done)). pose proof (Z.mod_pos_bound nsec NSEC_PER_SEC ltac:(done)). unfold NSEC_PER_SEC in *.
  destruct (decide (0 <= nsec)).
  - rewrite norm_up_div by (unfold NSEC_PER_SEC; lia). unfold NSEC_PER_SEC. assert (0 <= nsec / 1000000000) by lia.
    rewrite Z.min_r, Z.max_r, Z.mod_mod, (Z.div_small (nsec mod _)), Z.add_0_r by lia. done.
  - assert (nsec / 1000000000 < 0) by lia. rewrite Z.min_l, Z.max_l, Z.add_0_r by lia. rewrite norm_up_div by (unfold NSEC_PER_SEC; lia). done.
Qed.

(** ns_to_timespec is the division with remainder rounded down, for every number
    of nanoseconds whose seconds fit a time_t. *)
Lemma ns_to_timespec_floor ns : - 2 ^ 31 * NSEC_PER_SEC < ns < 2 ^ 31 * NSEC_PER_SEC ->
  ns_to_timespec ns = (ns / NSEC_PER_SEC, ns mod NSEC_PER_SEC).
Proof.
  intros Hns. unfold ns_to_timespec. destruct (Z.eqb_spec ns 0) as [->|Hz]; [done|].
  unfold div_long_long_rem_signed, div_long_long_rem. destruct (Z.ltb_spec ns 0) as [Hneg|Hpos].
  - unfold NSEC_PER_SEC in *. rewrite (sx_id 64) by lia. unfold u64. rewrite wrap_id by (unfold in_u; lia).
    pose proof (Z.div_mod (- ns) 1000000000 ltac:(lia)) as Hd. pose proof (Z.mod_pos_bound (- ns) 1000000000 ltac:(lia)).
    set (q := - ns / 1000000000) in *. set (r := (- ns) mod 1000000000) in *. assert (0 <= q < 2 ^ 31) by lia.
    unfold u32. rewrite wrap_id by (unfold in_u; lia). rewrite (s32_id r), !s32_id, set_normalized_floor by lia. unfold NSEC_PER_SEC.
    pose proof (Z.div_mod (- r) 1000000000 ltac:(lia)). pose proof (Z.mod_pos_bound (- r) 1000000000 ltac:(lia)). rewrite s32_id by lia.
    f_equal; [apply Z.div_unique with (- r mod 1000000000)|apply Z.mod_unique with (- q + - r / 1000000000)]; lia.
  - unfold NSEC_PER_SEC in *. unfold u64. rewrite wrap_id by (unfold in_u; lia).
    pose proof (Z.div_mod ns 1000000000 ltac:(lia)). pose proof (Z.mod_pos_bound ns 1000000000 ltac:(lia)).
    unfold u32. rewrite wrap_id by (unfold in_u; lia). rewrite !s32_id by lia. done.
Qed.

(** * The calendar *)

(** The calendar itself, one day after the other. *)
Definition is_leap (y : Z) : bool := (y mod 4 =? 0) && (negb (y mod 100 =? 0) || (y mod 400 =? 0)).
Definition month_days (y m : Z) : Z :=
  if m =? 2 then (if is_leap y then 29 else 28)
  else if (m =? 4) || (m =? 6) || (m =? 9) || (m =? 11) then 30 else 31.
Definition next_day (date : Z * Z * Z) : Z * Z * Z :=
  let '(y, m, d) := date in
  if d <? month_days y m then (y, m, d + 1) else if m <? 12 then (y, m + 1, 1) else (y + 1, 1, 1).
Definition date_after (n : nat) : Z * Z * Z := Nat.iter n next_day (1970, 1, 1).

(** The day number of mktime without the bounds of the machine. *)
Definition day_number (y m d : Z) : Z :=
  let '(m, y) := if m - 2 <=? 0 then (m + 10, y - 1) else (m - 2, y) in
  y / 4 - y / 100 + y / 400 + 367 * m / 12 + d + y * 365 - 719499.

(** The leap days counted by the divisions. *)
Lemma leap_days y : y / 4 - y / 100 + y / 400 = (y - 1) / 4 - (y - 1) / 100 + (y - 1) / 400 + (if is_leap y then 1 else 0).
Proof.
  unfold is_leap. destruct (Z.eqb_spec (y mod 4) 0), (Z.eqb_spec (y mod 100) 0), (Z.eqb_spec (y mod 400) 0); cbn [negb andb orb];
    Z.to_euclidean_division_equations; lia.
Qed.

Lemma month_cases m : 1 <= m <= 12 -> m = 1 ∨ m = 2 ∨ m = 3 ∨ m = 4 ∨ m = 5 ∨ m = 6 ∨ m = 7 ∨ m = 8 ∨ m = 9 ∨ m = 10 ∨ m = 11 ∨ m = 12.
Proof. lia. Qed.

(** Evaluates the conditions and the month term once the month is a number. *)
Ltac eval_closed :=
  repeat match goal with
  | |- context [if ?b then _ else _] => first [change b with true | change b with false]; cbv iota beta
  end;
  repeat match goal with |- context [367 * ?m / 12] => let v := eval vm_compute in (367 * m / 12) in change (367 * m / 12) with v end.

Lemma day_number_next y m d : 1 <= m <= 12 -> 1 <= d <= month_days y m ->
  let '(y', m', d') := next_day (y, m, d) in
  day_number y' m' d' = day_number y m d + 1 ∧ 1 <= m' <= 12 ∧ 1 <= d' <= month_days y' m' ∧ y <= y' <= y + 1.
Proof.
  intros Hm Hd. pose proof (leap_days y) as Hl. unfold next_day. destruct (Z.ltb_spec d (month_days y m)) as [Hlt|Hge].
  - unfold day_number. destruct (m - 2 <=? 0); split_and!; lia.
  - assert (d = month_days y m) as -> by lia. clear Hd Hge.
    destruct (month_cases m Hm) as [->|[->|[->|[->|[->|[->|[->|[->|[->|[->|[->| ->]]]]]]]]]]]; unfold day_number, month_days;
      eval_closed; destruct (is_leap y); eval_closed; rewrite ?Z.add_simpl_r; split_and!; lia.
Qed.

Lemma date_after_ok n : let '(y, m, d) := date_after n in
  day_number y m d = Z.of_nat n ∧ 1 <= m <= 12 ∧ 1 <= d <= month_days y m ∧ 1970 <= y <= 1970 + Z.of_nat n.
Proof.
  induction n as [|n IH]; [by vm_compute|]. unfold date_after in *. cbn [Nat.iter nat_rect]. fold (Nat.iter n next_day (1970, 1, 1)).
  destruct (Nat.iter n next_day (1970, 1, 1)) as [[y m] d] eqn:He. destruct IH as (Hn & Hm & Hd & Hy).
  pose proof (day_number_next y m d Hm Hd) as H. destruct (next_day (y, m, d)) as [[y' m'] d']. destruct H as (? & ? & ? & ?). split_and!; lia.
Qed.

Lemma u32_cong x y k : x = y + k * 2 ^ 32 -> u32 x = u32 y.
Proof. intros ->. unfold u32, wrap. by rewrite Z.mod_add. Qed.

Lemma u32_quot x : ∃ k, u32 x = x + k * 2 ^ 32.
Proof. exists (- (x / 2 ^ 32)). unfold u32, wrap. rewrite Z.mod_eq by lia. lia. Qed.

Lemma mktime_days y m d h mi s : 1 <= m <= 12 -> 1 <= y < 2 ^ 32 ->
  mktime y m d h mi s = u32 (day_number y m d * 86400 + h * 3600 + mi * 60 + s).
Proof.
  intros Hm Hy. unfold mktime, day_number. set (E := if s32 (u32 (m - 2)) <=? 0 then _ else _).
  assert (∃ m' y', E = (m', y') ∧ (if m - 2 <=? 0 then (m + 10, y - 1) else (m - 2, y)) = (m', y') ∧ u32 (367 * m') = 367 * m') as (m' & y' & -> & -> & Hq).
  { assert (u32 (y - 1) = y - 1) as Hy1 by (apply wrap_id; unfold in_u; lia). unfold E. rewrite Hy1.
    destruct (month_cases m Hm) as [->|[->|[->|[->|[->|[->|[->|[->|[->|[->|[->| ->]]]]]]]]]]]; eval_closed; do 2 eexists; split_and!; reflexivity. }
  rewrite Hq. set (X := y' / 4 - y' / 100 + y' / 400 + 367 * m' / 12 + d).
  destruct (u32_quot X) as [k1 ->]. destruct (u32_quot (X + k1 * 2 ^ 32 + y' * 365 - 719499)) as [k2 ->].
  apply u32_cong with ((k1 + k2) * 86400). lia.
Qed.

(** C17: mktime is the calendar: for the date reached after [n] days from 1
    January 1970, stepping through the months and the leap years, it gives the
    seconds since the epoch, exactly until the unsigned long overflows on
    2106-02-07 06:28:16 and modulo 2^32 from there on. *)
Theorem mktime_calendar n h mi s y m d :
  date_after n = (y, m, d) -> Z.of_nat n < 2 ^ 31 -> 0 <= h < 24 -> 0 <= mi < 60 -> 0 <= s < 60 ->
  let t := Z.of_nat n * 86400 + h * 3600 + mi * 60 + s in
  mktime y m d h mi s = t mod 2 ^ 32 ∧ (t <= mktime 2106 2 7 6 28 15 -> mktime y m d h mi s = t).
Proof.
  intros Hd Hn Hh Hmi Hs t. pose proof (date_after_ok n) as H. rewrite Hd in H. destruct H as (Hday & Hm & _ & Hy).
  rewrite mktime_days, Hday by lia. fold t. split; [done|]. change (mktime 2106 2 7 6 28 15) with (2 ^ 32 - 1). intros Ht.
  apply wrap_id. unfold in_u. lia.
Qed.
Lemma mktime_calendar_witness : date_after 789 = (1972, 2, 29) ∧ mktime 1972 2 29 12 30 15 = 789 * 86400 + 45015.
Proof.
  assert (date_after 789 = (1972, 2, 29)) as Hd by (vm_compute; reflexivity). split; [exact Hd|].
  destruct (mktime_calendar 789 12 30 15 1972 2 29 Hd) as [_ He]; [lia..|].
  rewrite He by (change (mktime 2106 2 7 6 28 15) with 4294967295; lia). reflexivity.
Defined.

(** * Milliseconds *)

(** A number of milliseconds is rounded up to ticks unless it is negative as an
    int, and ticks become milliseconds and again the same ticks. *)
Lemma msecs_ticks m : 0 <= m < 2 ^ 32 -> msecs_to_jiffies m = if decide (m < 2 ^ 31) then ceil_div m 10 else MAX_JIFFY_OFFSET.
Proof.
  intros Hm. unfold msecs_to_jiffies, ceil_div. change (MSEC_PER_SEC / HZ) with 10. case_decide.
  - rewrite s32_id by lia. destruct (Z.ltb_spec m 0); [lia|]. unfold u32. rewrite wrap_id by (unfold in_u; lia). done.
  - assert (s32 m < 0) by (unfold s32, sx; rewrite wrap_id by (unfold in_u; lia); destruct (Z.ltb_spec m (2 ^ (32 - 1))); lia).
    destruct (Z.ltb_spec (s32 m) 0); [done|lia].
Qed.

Lemma msecs_roundtrip j : 0 <= j < 2 ^ 31 / 10 -> msecs_to_jiffies (jiffies_to_msecs j) = j.
Proof.
  change (2 ^ 31 / 10) with 214748364. intros Hj. unfold jiffies_to_msecs. change (MSEC_PER_SEC / HZ) with 10.
  unfold u32. rewrite wrap_id by (unfold in_u; lia). rewrite msecs_ticks by lia. rewrite decide_True by lia.
  unfold ceil_div. symmetry. apply Z.div_unique with 9; lia.
Qed.

(** The limit of usecs_to_jiffies has itself overflowed: the microseconds of the
    longest time do not fit 32 bits, and a number of microseconds a few ticks
    below the end of the range, far from the longest time, counts as too large. *)
Lemma usecs_limit_wraps : jiffies_to_usecs MAX_JIFFY_OFFSET = 4294947296 ∧
  usecs_to_jiffies 4294947296 = 429495 ∧ usecs_to_jiffies 4294947297 = MAX_JIFFY_OFFSET.
Proof. by vm_compute. Qed.
