(* ===== verification/Clockevent.v ===== *)
(** The system timer: arch/arm/mach-mp2520f/timecs.c on top of
    kernel/time/clockevents.c (conversion of ticks, mode switches and
    programming of the next event) and the scaling helpers of
    include/linux/clockchips.h and clocksource.h.

    The free-running counter TCOUNT advances by itself, so nothing is assumed
    about the values it returns beyond what a theorem states about the reads
    it is about.  [unsigned long] has 32 bits, [ktime_t] and [u64] 64. *)

From S2P Require Import Prelude.
From S2P Require Import Hw.
From S2P Require Import Mp2520fIrq.
From S2P Require Import Mp2520fBoard.
From S2P Require Import Ktime.

(** * Scaled arithmetic *)

Definition LONG_MAX : Z := 2 ^ 31 - 1.

(** [do_div(n, base)]: [base] is a [uint32_t]; [None] is a zero divisor. *)
Definition do_div (n base : Z) : option Z := if u32 base =? 0 then None else Some (n / u32 base).

Definition div_sc (ticks nsec shift : Z) : option Z :=
  tmp ← do_div (u64 (Z.shiftl ticks shift)) nsec; Some (u32 tmp).

Inductive clock_event_mode :=
  | CLOCK_EVT_MODE_UNUSED | CLOCK_EVT_MODE_SHUTDOWN | CLOCK_EVT_MODE_PERIODIC
  | CLOCK_EVT_MODE_ONESHOT | CLOCK_EVT_MODE_RESUME.

#[export] Instance clock_event_mode_eq_dec : EqDecision clock_event_mode.
Proof. solve_decision. Defined.

(** The scalar fields of [struct clock_event_device]. *)
Record clock_event_device := ClockDev {
  max_delta_ns : Z;
  min_delta_ns : Z;
  mult : Z;
  shift : Z;
  dev_mode : clock_event_mode;
  next_event : Z;
}.

Definition set_dev_mode m c :=
  ClockDev (max_delta_ns c) (min_delta_ns c) (mult c) (shift c) m (next_event c).
Definition set_next_event t c :=
  ClockDev (max_delta_ns c) (min_delta_ns c) (mult c) (shift c) (dev_mode c) t.

Definition clockevent_delta2ns (latch : Z) (evt : clock_event_device) : option Z :=
  clc ← do_div (u64 (Z.shiftl latch (shift evt))) (mult evt);
  let clc := if clc <? 1000 then 1000 else clc in
  let clc := if LONG_MAX <? clc then LONG_MAX else clc in
  Some (u32 clc).

Definition clocksource_hz2mult (hz shift_constant : Z) : option Z :=
  let tmp := u64 (Z.shiftl 1000000000 shift_constant) in
  let tmp := u64 (tmp + hz / 2) in
  tmp ← do_div tmp hz; Some (u32 tmp).

(** * The timer *)

(** The driver's static data and the machine. *)
Record timer_state (D : Type) := TimerState {
  clockevent_mode : clock_event_mode;
  clockevent_mp2520f : clock_event_device;
  clocksource_mult : Z;
  timer_dev : D;
}.
Arguments TimerState {D}.
Arguments clockevent_mode {D}.
Arguments clockevent_mp2520f {D}.
Arguments clocksource_mult {D}.
Arguments timer_dev {D}.

Section Timer.
Context {D : Type} `{Bus D}.
Abbreviation ts := (timer_state D).

Definition set_clock m (s : ts) : ts := TimerState m (clockevent_mp2520f s) (clocksource_mult s) (timer_dev s).
Definition set_evt c (s : ts) : ts := TimerState (clockevent_mode s) c (clocksource_mult s) (timer_dev s).
Definition set_csmult v (s : ts) : ts := TimerState (clockevent_mode s) (clockevent_mp2520f s) v (timer_dev s).
Definition set_dev d (s : ts) : ts := TimerState (clockevent_mode s) (clockevent_mp2520f s) (clocksource_mult s) d.

Definition io {A} (m : St D A) : Sf ts A := λ s,
  let '(x, d) := m (timer_dev s) in Some (x, set_dev d s).

(** [(int32_t)(TMATCH0 - TCOUNT) < 0 ? -ETIME : 0] *)
Definition mp2520f_set_next_event (evt : Z) : Sf ts Z :=
  now ← io (rd TCOUNT);
  io (wr TMATCH0 (u32 (now + evt))) ;;
  m ← io (rd TMATCH0);
  c ← io (rd TCOUNT);
  mret (if s32 (u32 (m - c)) <? 0 then - ETIME else 0).

(** The label table has an entry for the first four modes only. *)
Definition clock_event_mode_label (m : clock_event_mode) : option string :=
  match m with
  | CLOCK_EVT_MODE_PERIODIC => Some "CLOCK_EVT_MODE_PERIODIC"%string
  | CLOCK_EVT_MODE_ONESHOT => Some "CLOCK_EVT_MODE_ONESHOT"%string
  | CLOCK_EVT_MODE_SHUTDOWN => Some "CLOCK_EVT_MODE_SHUTDOWN"%string
  | CLOCK_EVT_MODE_UNUSED => Some "CLOCK_EVT_MODE_UNUSED"%string
  | CLOCK_EVT_MODE_RESUME => None
  end.

(** DEBUG is defined at the top of the file, so the labels are looked up. *)
Definition mp2520f_set_mode (mode : clock_event_mode) : Sf ts unit :=
  io (clr_reg TINTEN 1) ;;
  old ← fget clockevent_mode;
  fwhen (negb (bool_decide (mode = old)))
    (c ← io (rd TCOUNT);
     io (wr TMATCH0 (u32 (c - 3))) ;;
     io (and_reg TSTATUS 1)) ;;
  ftry (λ s, clock_event_mode_label (clockevent_mode s)) ;;
  ftry (λ _, clock_event_mode_label mode) ;;
  fmodify (set_clock mode) ;;
  match mode with
  | CLOCK_EVT_MODE_ONESHOT => io (or_reg TINTEN 1) ;; io (or_reg TCONTROL TIMER_EN)
  | _ => mret tt
  end.

(** clockevents.c *)
Definition clockevents_set_mode (mode : clock_event_mode) : Sf ts unit :=
  c ← fget clockevent_mp2520f;
  fwhen (negb (bool_decide (dev_mode c = mode)))
    (mp2520f_set_mode mode ;;
     fmodify (λ s, set_evt (set_dev_mode mode (clockevent_mp2520f s)) s)).

(** [clc] is an [unsigned long long] and the argument of [set_next_event] an
    [unsigned long]. *)
Definition clockevents_program_event (expires now : Z) : Sf ts Z :=
  if expires <? 0 then mret (- ETIME)
  else
    let delta := ktime_to_ns (ktime_sub expires now) in
    if delta <=? 0 then mret (- ETIME)
    else
      fmodify (λ s, set_evt (set_next_event expires (clockevent_mp2520f s)) s) ;;
      c ← fget clockevent_mp2520f;
      if bool_decide (dev_mode c = CLOCK_EVT_MODE_SHUTDOWN) then mret 0
      else
        let delta := if max_delta_ns c <? delta then max_delta_ns c else delta in
        let delta := if delta <? min_delta_ns c then min_delta_ns c else delta in
        let clc := u64 (delta * mult c) in
        let clc := Z.shiftr clc (shift c) in
        mp2520f_set_next_event (u32 clc).

Definition mp2520f_get_cycles : Sf ts Z := io (rd TCOUNT).

(** A division by zero or an unset clock is a fault. *)
Definition pclk : Sf ts Z :=
  p ← io mmsp2_get_pclk;
  match p with Some p => mret p | None => oops end.

(** Registration with the core is a parameter: it runs after the device is
    filled in. *)
Context (clockevents_register_device clocksource_register : Sf ts unit).

Definition mp2520f_clockevent_init : Sf ts unit :=
  p ← pclk;
  m ← ftry (λ s, div_sc p NSEC_PER_SEC (shift (clockevent_mp2520f s)));
  fmodify (λ s, let c := clockevent_mp2520f s in
    set_evt (ClockDev (max_delta_ns c) (min_delta_ns c) m (shift c) (dev_mode c) (next_event c)) s) ;;
  hi ← ftry (λ s, clockevent_delta2ns 0xfffffffe (clockevent_mp2520f s));
  fmodify (λ s, let c := clockevent_mp2520f s in
    set_evt (ClockDev hi (min_delta_ns c) (mult c) (shift c) (dev_mode c) (next_event c)) s) ;;
  lo ← ftry (λ s, clockevent_delta2ns 0xf (clockevent_mp2520f s));
  fmodify (λ s, let c := clockevent_mp2520f s in
    set_evt (ClockDev (max_delta_ns c) lo (mult c) (shift c) (dev_mode c) (next_event c)) s) ;;
  clockevents_register_device.

Definition mp2520f_clocksource_init : Sf ts unit :=
  p ← pclk;
  m ← ftry (λ _, clocksource_hz2mult p 20);
  fmodify (set_csmult m) ;;
  clocksource_register.

Definition mp2520f_timer_hardware_init : Sf ts unit :=
  io (wr TSTATUS 0xffff) ;;
  io (clr_reg TCONTROL TIMER_EN).

(** [mp2520f_timer_init] up to its last call, [setup_irq(IRQ_TIMER_0, ...)]. *)
Definition mp2520f_timer_init : Sf ts unit :=
  mp2520f_timer_hardware_init ;;
  mp2520f_clocksource_init ;;
  mp2520f_clockevent_init.
End Timer.

(** The static initialiser of [clockevent_mp2520f] and of [clockevent_mode]. *)
Definition clockevent_static : clock_event_device := ClockDev 0 0 0 32 CLOCK_EVT_MODE_UNUSED 0.
Definition timer_static {D} (d : D) : timer_state D :=
  TimerState CLOCK_EVT_MODE_UNUSED clockevent_static 0 d.

(** * Scaling is exact enough *)

Lemma do_div_pos n base : 0 < base < 2 ^ 32 -> do_div n base = Some (n / base).
Proof. intros Hb. unfold do_div, u32. rewrite wrap_id by (unfold in_u; lia). case_cmp; [lia|done]. Qed.

(** The slowest PLL setting still gives a usable bus clock. *)
Lemma pll_hz_range v : in_u 16 v -> 113427 <= pll_hz v < 1000000000.
Proof.
  intros Hv. split; [|by destruct (calc_clk_spec v Hv) as (<- & _ & ? & ?)].
  unfold pll_hz, CLOCK_TICK_RATE. unfold in_u in Hv.
  pose proof (Z.mod_pos_bound (v / 4) 64 ltac:(lia)) as Hp.
  assert (1 <= 2 ^ (v mod 4) <= 8) as He.
  { pose proof (Z.mod_pos_bound v 4 ltac:(lia)).
    split; [apply (Z.pow_le_mono_r 2 0); lia|apply (Z.pow_le_mono_r 2 _ 3); lia]. }
  assert (0 <= v / 256) by (apply Z.div_pos; lia).
  apply Z.div_le_lower_bound; nia.
Qed.

Definition evt_mult (p : Z) : Z := (p * 2 ^ 32) / NSEC_PER_SEC.

Lemma div_sc_exact p : 0 <= p < NSEC_PER_SEC -> div_sc p NSEC_PER_SEC 32 = Some (evt_mult p).
Proof.
  unfold NSEC_PER_SEC, div_sc, evt_mult. intros Hp. rewrite do_div_pos by lia. cbn [mbind option_bind].
  unfold u64, u32. rewrite Z.shiftl_mul_pow2, (wrap_id 64) by (unfold in_u; lia).
  rewrite wrap_id; [done|]. split; [apply Z.div_pos; lia|apply Z.div_lt_upper_bound; lia].
Qed.

Lemma evt_mult_bounds p : 0 <= p < NSEC_PER_SEC ->
  NSEC_PER_SEC * evt_mult p <= p * 2 ^ 32 < NSEC_PER_SEC * (evt_mult p + 1).
Proof.
  intros Hp. unfold evt_mult, NSEC_PER_SEC in *.
  pose proof (Z.div_mod (p * 2 ^ 32) 1000000000 ltac:(lia)).
  pose proof (Z.mod_pos_bound (p * 2 ^ 32) 1000000000 ltac:(lia)). lia.
Qed.

Lemma delta2ns_range latch evt : 0 < mult evt < 2 ^ 32 -> shift evt = 32 -> in_u 32 latch ->
  ∃ ns, clockevent_delta2ns latch evt = Some ns ∧
    ns = Z.max 1000 (Z.min LONG_MAX ((latch * 2 ^ 32) / mult evt)).
Proof.
  intros Hm Hs Hl. unfold clockevent_delta2ns. rewrite Hs, do_div_pos by done. cbn [mbind option_bind].
  eexists. split; [reflexivity|]. unfold in_u, u64, u32, LONG_MAX in *.
  rewrite Z.shiftl_mul_pow2, (wrap_id 64) by (unfold in_u; lia).
  generalize ((latch * 2 ^ 32) / mult evt). intros q.
  destruct (Z.ltb_spec q 1000); (rewrite wrap_id; [|unfold in_u]; case_cmp; lia).
Qed.

(** * What the timer code relies on *)

Class TimerRegs (D : Type) `{BusModel D} := {
  timer_irq_regs :: IrqRegs D;
  TMATCH0_storage : kind_of TMATCH0 = Storage;
  TCONTROL_storage : kind_of TCONTROL = Storage;
  FPLL_storage : kind_of FPLLVSETREG = Storage;
  SYSC_storage : kind_of SYSCSETREG = Storage;
  TCOUNT_frame : ∀ r d, kind_of r <> Opaque -> r <> TCOUNT -> peek r (exec (rd TCOUNT) d) = peek r d;
}.
#[export] Hint Resolve timer_irq_regs TMATCH0_storage TCONTROL_storage FPLL_storage SYSC_storage : hw.

Section TimerSpec.
Context {D : Type} `{TimerRegs D}.
Implicit Types (s : timer_state D) (d : D).

Lemma io_run {A} (m : St D A) s : io m s = Some (eval m (timer_dev s), set_dev (exec m (timer_dev s)) s).
Proof. unfold io, eval, exec. by destruct (m (timer_dev s)). Qed.

Lemma io_unit (m : St D unit) s : io m s = Some (tt, set_dev (exec m (timer_dev s)) s).
Proof. rewrite io_run. by destruct (eval m (timer_dev s)). Qed.

(** Distinct timer registers share no byte. *)
Definition timer_regs : list reg := [TMATCH0; TCONTROL; TSTATUS; TINTEN].
Lemma timer_regs_disj r r' : r ∈ timer_regs -> r' ∈ timer_regs -> r <> r' -> reg_disj r r'.
Proof.
  intros Hr Hr'.
  assert (Forall (λ a, Forall (λ b, a <> b -> reg_disj a b) timer_regs) timer_regs) as HF
    by (apply (bool_decide_unpack _); vm_compute; exact I).
  rewrite Forall_forall in HF. specialize (HF r Hr). rewrite Forall_forall in HF. by apply HF.
Qed.

Lemma rd_eval r d : kind_of r <> Opaque -> eval (rd r) d = peek r d.
Proof. intros Hk. unfold eval. by rewrite rd_known. Qed.
Lemma rd_exec r d : kind_of r <> Opaque -> exec (rd r) d = d.
Proof. intros Hk. unfold exec. by rewrite rd_known. Qed.

(** Programming an event [evt] ticks ahead sets the match register to the
    counter plus [evt] modulo 2^32, and reports success exactly when the
    counter had not passed the match at the second read, for every counter
    value, wrap-around included, as long as fewer than 2^31 ticks pass. *)
Theorem set_next_event_wrap_safe evt s :
  let d1 := exec (rd TCOUNT) (timer_dev s) in
  let c0 := eval (rd TCOUNT) (timer_dev s) in
  let d2 := exec (wr TMATCH0 (u32 (c0 + evt))) d1 in
  let c1 := eval (rd TCOUNT) d2 in
  0 <= evt < 2 ^ 31 -> u32 (c1 - c0) < 2 ^ 31 ->
  ∃ d, mp2520f_set_next_event evt s
       = Some (if u32 (c1 - c0) <=? evt then 0 else - ETIME, set_dev d s) ∧
    peek TMATCH0 d = u32 (c0 + evt).
Proof.
  intros d1 c0 d2 c1 He Hc. eexists. unfold mp2520f_set_next_event, mbind, Sf_bind.
  rewrite !io_run. cbn [timer_dev set_dev]. fold c0. rewrite !(rd_exec TMATCH0), (rd_eval TMATCH0) by auto with hw.
  fold d1. fold d2. fold c1.
  assert (peek TMATCH0 d2 = u32 (c0 + evt)) as Hm.
  { subst d2. rewrite wr_storage by auto with hw. by apply wrap_wrap. }
  rewrite Hm. split.
  - unfold mret, Sf_ret. do 2 f_equal.
    assert (s32 (u32 (u32 (c0 + evt) - c1)) = evt - u32 (c1 - c0)) as ->.
    { unfold u32 at 1 2. rewrite wrap_sub_l. fold (u32 (c0 + evt - c1)). rewrite s32_u32.
      replace (c0 + evt - c1) with (evt - (c1 - c0)) by lia.
      rewrite <- (s32_u32 (evt - (c1 - c0))). unfold u32 at 1. rewrite <- wrap_sub_r.
      fold (u32 (c1 - c0)). fold (u32 (evt - u32 (c1 - c0))). rewrite s32_u32.
      apply s32_id. pose proof (u32_range (c1 - c0)). unfold in_u in *. lia. }
    case_cmp; lia || done.
  - rewrite TCOUNT_frame by (auto with hw; discriminate). done.
Qed.

(** ** Mode switches *)

Lemma timer_known r : r ∈ timer_regs -> kind_of r <> Opaque.
Proof.
  intros Hr. unfold timer_regs in Hr.
  repeat (apply elem_of_cons in Hr as [->|Hr]; [auto with hw|]). by apply not_elem_of_nil in Hr.
Qed.

Ltac timer_frame := auto using timer_known with hw;
  try (apply timer_regs_disj; ctrl); try (apply timer_known; ctrl).

(** Evaluates the reads a mode switch does on the machine. *)
Lemma set_mode_dev mode s :
  mode <> CLOCK_EVT_MODE_RESUME -> clockevent_mode s <> CLOCK_EVT_MODE_RESUME ->
  let d1 := exec (clr_reg TINTEN 1) (timer_dev s) in
  let d2 := if bool_decide (mode = clockevent_mode s) then d1
            else exec (and_reg TSTATUS 1)
                   (exec (wr TMATCH0 (u32 (eval (rd TCOUNT) d1 - 3))) (exec (rd TCOUNT) d1)) in
  let d3 := if bool_decide (mode = CLOCK_EVT_MODE_ONESHOT)
            then exec (or_reg TCONTROL TIMER_EN) (exec (or_reg TINTEN 1) d2) else d2 in
  mp2520f_set_mode mode s = Some (tt, set_clock mode (set_dev d3 s)).
Proof.
  intros Hm Ho d1 d2 d3. unfold mp2520f_set_mode, mbind, Sf_bind.
  destruct s as [old evt cs d]. cbn in *.
  assert (∀ m, m <> CLOCK_EVT_MODE_RESUME -> is_Some (clock_event_mode_label m)) as Hl
    by (intros [| | | |]; done || (intros; eexists; reflexivity)).
  destruct (Hl old Ho) as [lo Hlo], (Hl mode Hm) as [lm Hlm].
  rewrite io_run. unfold fget, set_dev at 1. cbn.
  subst d3 d2 d1. destruct (bool_decide (mode = old)); cbn [negb fwhen];
    unfold mbind, Sf_bind; rewrite ?io_run; cbn; unfold ftry; cbn; rewrite Hlo, Hlm; cbn.
  - destruct mode; try reflexivity. by rewrite !io_unit.
  - destruct mode; try reflexivity. by rewrite !io_unit.
Qed.

(** A mode switch leaves the timer interrupt enabled exactly in one-shot
    mode and records the mode; on a change it moves the match three ticks
    behind the counter and clears the pending flag of timer 0, and nothing
    else of the other timers' flags and enables changes. *)
Theorem set_mode_effect mode s :
  mode <> CLOCK_EVT_MODE_RESUME -> clockevent_mode s <> CLOCK_EVT_MODE_RESUME ->
  let d := timer_dev s in
  let changed := negb (bool_decide (mode = clockevent_mode s)) in
  ∃ s', mp2520f_set_mode mode s = Some (tt, s') ∧
    clockevent_mode s' = mode ∧
    peek TINTEN (timer_dev s') =
      (if bool_decide (mode = CLOCK_EVT_MODE_ONESHOT) then Z.lor (clr (peek TINTEN d) 1) 1
       else clr (peek TINTEN d) 1) ∧
    peek TSTATUS (timer_dev s') = (if changed then clr (peek TSTATUS d) 1 else peek TSTATUS d) ∧
    peek TMATCH0 (timer_dev s') =
      (if changed then u32 (eval (rd TCOUNT) (exec (clr_reg TINTEN 1) d) - 3) else peek TMATCH0 d) ∧
    (mode = CLOCK_EVT_MODE_ONESHOT -> tst (peek TCONTROL (timer_dev s')) TIMER_EN = true).
Proof.
  intros Hm Ho d changed. eexists. split; [by apply set_mode_dev|]. cbn [clockevent_mode set_clock timer_dev set_dev].
  split; [done|]. fold d. subst changed.
  assert (∀ d', peek TINTEN (exec (clr_reg TINTEN 1) d') = clr (peek TINTEN d') 1) as Hc
    by (intros; apply clr_reg_storage; auto with hw).
  destruct (bool_decide (mode = clockevent_mode s)), (bool_decide_reflect (mode = CLOCK_EVT_MODE_ONESHOT));
    cbn [negb]; split_and!; try (by intros);
    repeat first
      [ rewrite (or_reg_frame TCONTROL) by timer_frame
      | rewrite (or_reg_frame TINTEN) by timer_frame
      | rewrite (and_reg_frame TSTATUS) by timer_frame
      | rewrite (wr_frame TMATCH0) by timer_frame
      | rewrite (clr_reg_frame TINTEN) by timer_frame
      | rewrite TCOUNT_frame by (auto with hw; discriminate)
      | rewrite (or_reg_storage TINTEN) by (auto with hw; done)
      | rewrite and_reg_w1c by (auto with hw; done)
      | rewrite wr_storage by auto with hw
      | rewrite Hc ]; try done; try (by apply wrap_wrap).
  all: intros _; rewrite or_reg_storage by (auto with hw; done); rewrite tst_lor; apply orb_true_r.
Qed.

(** The resume mode of the clock event core makes [mp2520f_set_mode] read
    past the end of its label table: every such call faults. *)
Theorem set_mode_resume_faults s :
  mp2520f_set_mode CLOCK_EVT_MODE_RESUME s = None ∧
  (dev_mode (clockevent_mp2520f s) <> CLOCK_EVT_MODE_RESUME ->
     clockevents_set_mode CLOCK_EVT_MODE_RESUME s = None).
Proof.
  assert (∀ s, mp2520f_set_mode CLOCK_EVT_MODE_RESUME s = None) as Hf.
  { intros s'. unfold mp2520f_set_mode, mbind, Sf_bind. rewrite io_run. unfold fget.
    destruct s' as [old evt cs d]. cbn. case_bool_decide; cbn [negb fwhen];
      unfold mbind, Sf_bind; rewrite ?io_run; cbn; unfold ftry; cbn; by destruct clock_event_mode_label. }
  split; [done|]. intros Hne. unfold clockevents_set_mode, mbind, Sf_bind, fget.
  rewrite bool_decide_false by done. cbn [negb fwhen]. unfold mbind, Sf_bind. by rewrite Hf.
Qed.

(** ** Initialisation and programming *)

Lemma pclk_run s : let p := pll_hz (peek FPLLVSETREG (timer_dev s)) / 4 in
  pclk s = Some (p, s) ∧ 28356 <= p < 250000000.
Proof.
  assert (in_u 16 (peek FPLLVSETREG (timer_dev s))) as Hr
    by (apply (peek_range FPLLVSETREG); auto with hw).
  split.
  - unfold pclk, io, mbind, Sf_bind.
    rewrite pclk_value by auto with hw. by destruct s.
  - destruct (pll_hz_range _ Hr). split; [apply Z.div_le_lower_bound; lia|apply Z.div_lt_upper_bound; lia].
Qed.

(** The device that [mp2520f_clockevent_init] registers for a bus clock [p]. *)
Definition clockevent_ready (p : Z) (evt : clock_event_device) : Prop :=
  mult evt = evt_mult p ∧ shift evt = 32 ∧ max_delta_ns evt = LONG_MAX ∧
  min_delta_ns evt = Z.max 1000 (Z.min LONG_MAX ((0xf * 2 ^ 32) / evt_mult p)).

Lemma evt_mult_range p : 28356 <= p < 250000000 -> 121787 <= evt_mult p < 1073741825.
Proof.
  intros Hp. unfold evt_mult, NSEC_PER_SEC.
  split; [apply Z.div_le_lower_bound; lia|apply Z.div_lt_upper_bound; lia].
Qed.

(** On every clock setting [mp2520f_clockevent_init] reaches the
    registration of the device without a fault, with the multiplier of the
    bus clock, the shift 32 and clamps of 1 microsecond at least below and
    2^31 - 1 nanoseconds above. *)
Theorem clockevent_init_ready (register : Sf (timer_state D) unit) s :
  shift (clockevent_mp2520f s) = 32 ->
  ∃ s', mp2520f_clockevent_init register s = register s' ∧
    timer_dev s' = timer_dev s ∧ clockevent_mode s' = clockevent_mode s ∧
    clockevent_ready (pll_hz (peek FPLLVSETREG (timer_dev s)) / 4) (clockevent_mp2520f s').
Proof.
  intros Hs. destruct (pclk_run s) as [Hp Hr]. set (p := _ / 4) in *.
  pose proof (evt_mult_range p Hr) as Hm.
  unfold mp2520f_clockevent_init. unfold mbind at 1, Sf_bind at 1. rewrite Hp.
  unfold mbind at 1, Sf_bind at 1, ftry at 1. rewrite Hs, div_sc_exact by (unfold NSEC_PER_SEC; lia).
  unfold mbind at 1, Sf_bind at 1, fmodify at 1. unfold mbind at 1, Sf_bind at 1, ftry at 1.
  set (e1 := ClockDev _ _ (evt_mult p) _ _ _).
  destruct (delta2ns_range 0xfffffffe e1) as (hi & Hhi & ->); [cbn; lia|done|done|].
  cbn [clockevent_mp2520f set_evt]. rewrite Hhi.
  unfold mbind at 1, Sf_bind at 1, fmodify at 1. unfold mbind at 1, Sf_bind at 1, ftry at 1.
  cbn [clockevent_mp2520f set_evt]. set (e2 := ClockDev _ _ _ _ _ _).
  destruct (delta2ns_range 0xf e2) as (lo & Hlo & ->); [cbn; lia|done|done|]. rewrite Hlo.
  unfold mbind at 1, Sf_bind at 1, fmodify at 1. eexists. split; [reflexivity|].
  subst e1 e2. cbn. split_and!; try done. unfold clockevent_ready. cbn. split_and!; try done.
  assert (LONG_MAX <= (0xfffffffe * 2 ^ 32) / evt_mult p) as Hq.
  { unfold LONG_MAX. apply Z.div_le_lower_bound; lia. }
  cbn in Hq. unfold LONG_MAX in *. lia.
Qed.

Lemma program_ticks p expires now s :
  clockevent_ready p (clockevent_mp2520f s) -> 28356 <= p < 250000000 ->
  dev_mode (clockevent_mp2520f s) <> CLOCK_EVT_MODE_SHUTDOWN ->
  proper expires -> proper now -> 0 <= expires -> 0 <= now ->
  (expires <= now -> clockevents_program_event expires now s = Some (- ETIME, s)) ∧
  (now < expires ->
     let evt := clockevent_mp2520f s in
     let delay := Z.max (min_delta_ns evt) (Z.min (max_delta_ns evt) (ns expires - ns now)) in
     ∃ ticks, clockevents_program_event expires now s =
         mp2520f_set_next_event ticks (set_evt (set_next_event expires evt) s) ∧
       ticks * NSEC_PER_SEC <= delay * p < (ticks + 2) * NSEC_PER_SEC ∧
       0 <= ticks < 2 ^ 31).
Proof.
  intros (Hmu & Hsh & Hhi & Hlo) Hp Hmode Hpe Hpn Hex Hnow. pose proof (evt_mult_range p Hp) as Hm.
  pose proof (evt_mult_bounds p ltac:(unfold NSEC_PER_SEC; lia)) as Hb.
  destruct (ktime_delta expires now) as (Hd & Hcmp & Hdel0); [done..|].
  unfold clockevents_program_event. destruct (Z.ltb_spec expires 0); [lia|]. rewrite Hd.
  split; intros Hlt; [destruct (Z.leb_spec (ns expires - ns now) 0); [done|lia]|].
  destruct (Z.leb_spec (ns expires - ns now) 0); [lia|]. cbv zeta. set (evt := clockevent_mp2520f s). set (delay := Z.max _ _).
  unfold mbind at 1, Sf_bind at 1, fmodify. unfold mbind, Sf_bind, fget.
  cbn [clockevent_mp2520f set_evt dev_mode set_next_event max_delta_ns min_delta_ns mult shift].
  fold evt. rewrite bool_decide_false by done.
  fold evt in Hmu, Hsh, Hhi, Hlo. 
  assert (1000 <= delay <= LONG_MAX) as Hdel by (subst delay; unfold LONG_MAX in *; lia).
  match goal with |- context [u64 (?x * _)] => assert (x = delay) as ->
    by (subst delay; destruct (Z.ltb_spec (max_delta_ns evt) (ns expires - ns now)); case_cmp; lia) end.
  rewrite Hmu, Hsh. unfold LONG_MAX in Hdel. unfold u64. rewrite (wrap_id 64) by (unfold in_u; nia).
  rewrite Z.shiftr_div_pow2 by lia. set (ticks := (delay * evt_mult p) / 2 ^ 32).
  assert (2 ^ 32 * ticks <= delay * evt_mult p < 2 ^ 32 * (ticks + 1)) as Ht.
  { subst ticks. pose proof (Z.div_mod (delay * evt_mult p) (2 ^ 32) ltac:(lia)).
    pose proof (Z.mod_pos_bound (delay * evt_mult p) (2 ^ 32) ltac:(lia)). lia. }
  assert (0 <= ticks < 2 ^ 31) as Htr by nia.
  unfold u32. rewrite (wrap_id 32) by (unfold in_u; lia).
  exists ticks. split; [done|]. split; [|done]. unfold NSEC_PER_SEC in *.
  clearbody ticks delay. clear -Ht Hb Hdel Hm Htr. set (m := evt_mult p) in *. clearbody m.
  assert (1000000000 * (2 ^ 32 * ticks) <= delay * (p * 2 ^ 32)) by nia.
  assert (delay * (p * 2 ^ 32) < 1000000000 * (delay * m + delay)) by nia. lia.
Qed.

(** C15: programming an absolute expiry: times in the past are refused with
    -ETIME and nothing is programmed; a future expiry is clamped to the
    device's range and handed to the device as a tick count whose duration is
    never longer than the clamped delay and less than two ticks shorter; the
    count is always below 2^31, the range in which the match is wrap-safe. *)
Theorem program_event_ticks p expires now s :
  clockevent_ready p (clockevent_mp2520f s) -> 28356 <= p < 250000000 ->
  dev_mode (clockevent_mp2520f s) <> CLOCK_EVT_MODE_SHUTDOWN ->
  proper expires -> proper now -> 0 <= expires -> 0 <= now ->
  (expires <= now -> clockevents_program_event expires now s = Some (- ETIME, s)) ∧
  (now < expires ->
     let evt := clockevent_mp2520f s in
     let delay := Z.max (min_delta_ns evt) (Z.min (max_delta_ns evt) (ns expires - ns now)) in
     ∃ ticks, clockevents_program_event expires now s =
         mp2520f_set_next_event ticks (set_evt (set_next_event expires evt) s) ∧
       ticks * NSEC_PER_SEC <= delay * p < (ticks + 2) * NSEC_PER_SEC ∧
       0 <= ticks < 2 ^ 31).
Proof. apply program_ticks. Qed.

(** The clock source multiplier is the correctly rounded value of
    10^9 * 2^20 / hz for every clock fast enough for it to fit 32 bits; below
    244141 Hz the result is truncated. *)
Theorem hz2mult_rounds hz : 244141 <= hz < 2 ^ 32 ->
  ∃ m, clocksource_hz2mult hz 20 = Some m ∧ in_u 32 m ∧
    2 * Z.abs (m * hz - 1000000000 * 2 ^ 20) <= hz.
Proof.
  intros Hhz. unfold clocksource_hz2mult. rewrite do_div_pos by lia. cbn [mbind option_bind].
  unfold u64. rewrite Z.shiftl_mul_pow2 by lia.
  pose proof (Z.div_mod hz 2 ltac:(lia)). pose proof (Z.mod_pos_bound hz 2 ltac:(lia)).
  rewrite !(wrap_id 64) by (unfold in_u; repeat rewrite (wrap_id 64) by (unfold in_u; lia); lia).
  set (n := 1000000000 * 2 ^ 20 + hz / 2).
  pose proof (Z.div_mod n hz ltac:(lia)). pose proof (Z.mod_pos_bound n hz ltac:(lia)).
  assert (in_u 32 (n / hz)) as Hin.
  { split; [apply Z.div_pos; lia|]. apply Z.div_lt_upper_bound; subst n; lia. }
  eexists. split; [reflexivity|]. unfold u32. rewrite wrap_id by done. split; [done|].
  subst n. lia.
Qed.
End TimerSpec.

(** * Runs on the concrete register file *)

Module TimerDemo.
Import RegFile.

#[export] Instance regs : TimerRegs RegFile.t.
Proof. split; try reflexivity. exact Board.regs. Defined.

(** FPLL set for 104 MHz: PCLK is 26035200 Hz. *)
Definition state0 : timer_state RegFile.t :=
  timer_static {| contents := [(FPLLVSETREG, 0x6902); (TCOUNT, 0xfffffff0); (TINTEN, 3)] |}.
Definition evt0 : clock_event_device :=
  ClockDev LONG_MAX 1000 (evt_mult 26035200) 32 CLOCK_EVT_MODE_ONESHOT 0.
Definition state1 : timer_state RegFile.t := set_evt evt0 state0.

Lemma set_next_event_wrap_safe_witness :
  ∃ d, mp2520f_set_next_event 0x20 state0 = Some (0, set_dev d state0) ∧ peek TMATCH0 d = 0x10.
Proof.
  destruct (set_next_event_wrap_safe 0x20 state0) as (d & Hs & Hm); [lia|vm_compute; reflexivity|].
  exists d. split; [rewrite Hs|rewrite Hm]; vm_compute; reflexivity.
Defined.

Lemma set_mode_effect_witness :
  ∃ s, mp2520f_set_mode CLOCK_EVT_MODE_ONESHOT state0 = Some (tt, s) ∧ peek TINTEN (timer_dev s) = 3.
Proof.
  destruct (set_mode_effect CLOCK_EVT_MODE_ONESHOT state0) as (s & Hs & _ & Ht & _); [done..|].
  exists s. split; [exact Hs|]. rewrite Ht. vm_compute. reflexivity.
Defined.

Lemma set_mode_resume_faults_witness : clockevents_set_mode CLOCK_EVT_MODE_RESUME state1 = None.
Proof. destruct (set_mode_resume_faults state1) as [_ Hf]. by apply Hf. Defined.

Lemma clockevent_init_ready_witness :
  ∃ s, mp2520f_clockevent_init (mret tt) state0 = Some (tt, s) ∧
    mult (clockevent_mp2520f s) = evt_mult 26035200.
Proof.
  destruct (clockevent_init_ready (mret tt) state0) as (s & Hs & _ & _ & Hm & _); [done|].
  exists s. split; [exact Hs|]. rewrite Hm. vm_compute. reflexivity.
Defined.

Lemma program_event_ticks_witness :
  clockevents_program_event 5 7 state1 = Some (- ETIME, state1).
Proof.
  destruct (program_event_ticks 26035200 5 7 state1) as [Hp _];
    [split_and!; vm_compute; reflexivity|lia|done|by vm_compute|by vm_compute|lia|lia|]. apply Hp. lia.
Defined.

Lemma hz2mult_rounds_witness : ∃ m, clocksource_hz2mult 26035200 20 = Some m ∧ in_u 32 m.
Proof. destruct (hz2mult_rounds 26035200) as (m & Hm & Hr & _); [lia|]. exists m. split; [exact Hm|exact Hr]. Defined.
End TimerDemo.
