(* ===== verification/Resource.v ===== *)
(** kernel/resource.c: the tree of I/O and memory resources.

    The tree is kept as the code keeps it: a heap of [struct resource] nodes
    linked through [parent], [sibling] and [child] pointers, with the address
    of a pointer field ([struct resource **p]) as a [slot].  Following a NULL
    or dangling pointer is a fault.  [resource_size_t] is 32 bits wide
    (CONFIG_RESOURCES_64BIT is off).  Loops over sibling chains take fuel; the
    theorems show that a bound on the length of the chain is enough.  The
    rwlock carries no state. *)

From S2P Require Import Prelude.


(** include/linux/ioport.h *)
Definition IORESOURCE_BUSY : Z := 0x80000000.

Abbreviation ptr := positive.

Record resource := Resource {
  r_start : Z;
  r_end : Z;
  r_flags : Z;
  r_parent : option ptr;
  r_sibling : option ptr;
  r_child : option ptr;
}.

Abbreviation heap := (gmap ptr resource).

Definition set_bounds s e r := Resource s e (r_flags r) (r_parent r) (r_sibling r) (r_child r).
Definition set_parent p r := Resource (r_start r) (r_end r) (r_flags r) p (r_sibling r) (r_child r).
Definition set_sibling p r := Resource (r_start r) (r_end r) (r_flags r) (r_parent r) p (r_child r).
Definition set_child p r := Resource (r_start r) (r_end r) (r_flags r) (r_parent r) (r_sibling r) p.

(** [struct resource **p]: the address of a link field. *)
Inductive slot := Child (x : ptr) | Sibling (x : ptr).

Definition load (x : ptr) : Sf heap resource := ftry (λ h, h !! x).
Definition update (x : ptr) (f : resource -> resource) : Sf heap unit := λ h,
  match h !! x with Some r => Some (tt, <[x := f r]> h) | None => None end.

Definition read_slot (p : slot) : Sf heap (option ptr) :=
  match p with
  | Child x => r ← load x; mret (r_child r)
  | Sibling x => r ← load x; mret (r_sibling r)
  end.
Definition write_slot (p : slot) (v : option ptr) : Sf heap unit :=
  match p with
  | Child x => update x (set_child v)
  | Sibling x => update x (set_sibling v)
  end.

(** * Requesting and releasing *)

(** The [for (;;)] of __request_resource: the conflicting node, or [None]
    once [new] is linked in. *)
Fixpoint request_loop (fuel : nat) (root new : ptr) (start last : Z) (p : slot) :
    Sf heap (option ptr) :=
  match fuel with
  | O => oops
  | S fuel =>
      tmp ← read_slot p;
      match tmp with
      | None =>
          update new (set_sibling None) ;; write_slot p (Some new) ;;
          update new (set_parent (Some root)) ;; mret None
      | Some t =>
          rt ← load t;
          if last <? r_start rt then
            update new (set_sibling (Some t)) ;; write_slot p (Some new) ;;
            update new (set_parent (Some root)) ;; mret None
          else if r_end rt <? start then request_loop fuel root new start last (Sibling t)
          else mret (Some t)
      end
  end.

(** __request_resource *)
Definition request_resource_ (fuel : nat) (root new : ptr) : Sf heap (option ptr) :=
  rn ← load new;
  rr ← load root;
  let start := r_start rn in
  let last := r_end rn in
  if last <? start then mret (Some root)
  else if start <? r_start rr then mret (Some root)
  else if r_end rr <? last then mret (Some root)
  else request_loop fuel root new start last (Child root).

Fixpoint release_loop (fuel : nat) (old : ptr) (p : slot) : Sf heap Z :=
  match fuel with
  | O => oops
  | S fuel =>
      tmp ← read_slot p;
      match tmp with
      | None => mret (- EINVAL)
      | Some t =>
          if bool_decide (t = old) then
            rt ← load t;
            write_slot p (r_sibling rt) ;; update old (set_parent None) ;; mret 0
          else release_loop fuel old (Sibling t)
      end
  end.

(** __release_resource *)
Definition release_resource_ (fuel : nat) (old : ptr) : Sf heap Z :=
  ro ← load old;
  match r_parent ro with
  | None => oops
  | Some p => release_loop fuel old (Child p)
  end.

Definition request_resource (fuel : nat) (root new : ptr) : Sf heap Z :=
  conflict ← request_resource_ fuel root new;
  mret (match conflict with Some _ => - EBUSY | None => 0 end).

Definition release_resource (fuel : nat) (old : ptr) : Sf heap Z := release_resource_ fuel old.

(** * Allocation *)

(** [ALIGN(x, a)]: [(x + a - 1) & ~(a - 1)] in 32 bits. *)
Definition ALIGN (x a : Z) : Z := clr (u32 (x + u32 (a - 1))) (u32 (a - 1)).

(** The loop of find_resource without an alignment callback ([alignf] NULL):
    [start] is [new->start] and [this] the next allocated node.  On failure
    the bounds left in [new] are returned too. *)
Fixpoint find_loop (fuel : nat) (root_end size min max align : Z) (start : Z) (this : option ptr) :
    Sf heap (Z * Z * Z) :=
  match fuel with
  | O => oops
  | S fuel =>
      tr ← (match this with
            | Some t => r ← load t; mret (Some r)
            | None => mret None
            end : Sf heap (option resource));
      let last := match tr with Some r => u32 (r_start r - 1) | None => root_end end in
      let start := if start <? min then min else start in
      let last := if max <? last then max else last in
      let start := ALIGN start align in
      if (start <? last) && (u32 (size - 1) <=? last - start) then
        mret (0, start, u32 (start + size - 1))
      else
        match tr with
        | None => mret (- EBUSY, start, last)
        | Some r => find_loop fuel root_end size min max align (u32 (r_end r + 1)) (r_sibling r)
        end
  end.

Definition find_resource (fuel : nat) (root new : ptr) (size min max align : Z) : Sf heap Z :=
  rr ← load root;
  rn ← load new;
  tr ← (match r_child rr with
        | Some t => r ← load t; mret (Some r)
        | None => mret None
        end : Sf heap (option resource));
  '(start, this) ← (match tr with
    | Some r => if r_start r =? 0 then mret (u32 (r_end r + 1), r_sibling r)
                else mret (r_start rr, r_child rr)
    | None => mret (r_start rr, r_child rr)
    end : Sf heap (Z * option ptr));
  '(err, s, e) ← find_loop fuel (r_end rr) size min max align start this;
  update new (set_bounds s e) ;;
  mret err.

Definition allocate_resource (fuel : nat) (root new : ptr) (size min max align : Z) : Sf heap Z :=
  err ← find_resource fuel root new size min max align;
  if 0 <=? err then
    conflict ← request_resource_ fuel root new;
    mret (match conflict with Some _ => - EBUSY | None => err end)
  else mret err.

(** * Inserting over existing resources *)

(** The first loop of insert_resource: descend until [new] was linked in
    ([inl 0]), cannot fit ([inl (- EBUSY)]), or stands against [first] below
    [parent] ([inr]). *)
Fixpoint insert_descend (levels fuel : nat) (parent new : ptr) : Sf heap (Z + ptr * ptr) :=
  match levels with
  | O => oops
  | S levels =>
      conflict ← request_resource_ fuel parent new;
      match conflict with
      | None => mret (inl 0)
      | Some first =>
          if bool_decide (first = parent) then mret (inl (- EBUSY))
          else
            rf ← load first;
            rn ← load new;
            if (r_start rn <? r_start rf) || (r_end rf <? r_end rn) then mret (inr (parent, first))
            else if (r_start rf =? r_start rn) && (r_end rf =? r_end rn) then mret (inr (parent, first))
            else insert_descend levels fuel first new
      end
  end.

(** The second loop: the last node of the run that [new] covers, or [None] on
    a partial overlap. *)
Fixpoint insert_span (fuel : nat) (nstart nend : Z) (next : ptr) : Sf heap (option ptr) :=
  match fuel with
  | O => oops
  | S fuel =>
      r ← load next;
      if (r_start r <? nstart) || (nend <? r_end r) then mret None
      else
        match r_sibling r with
        | None => mret (Some next)
        | Some s =>
            rs ← load s;
            if nend <? r_start rs then mret (Some next) else insert_span fuel nstart nend s
        end
  end.

(** [for (next = first; next; next = next->sibling) next->parent = new] *)
Fixpoint reparent (fuel : nat) (new : ptr) (next : option ptr) : Sf heap unit :=
  match fuel with
  | O => oops
  | S fuel =>
      match next with
      | None => mret tt
      | Some x =>
          update x (set_parent (Some new)) ;;
          r ← load x;
          reparent fuel new (r_sibling r)
      end
  end.

(** [while (next->sibling != first) next = next->sibling] *)
Fixpoint find_prev (fuel : nat) (first next : ptr) : Sf heap ptr :=
  match fuel with
  | O => oops
  | S fuel =>
      r ← load next;
      if bool_decide (r_sibling r = Some first) then mret next
      else match r_sibling r with Some s => find_prev fuel first s | None => oops end
  end.

Definition insert_resource (levels fuel : nat) (parent new : ptr) : Sf heap Z :=
  d ← insert_descend levels fuel parent new;
  match d with
  | inl result => mret result
  | inr (parent, first) =>
      rn ← load new;
      last ← insert_span fuel (r_start rn) (r_end rn) first;
      match last with
      | None => mret (- EBUSY)
      | Some next =>
          rnext ← load next;
          update new (set_parent (Some parent)) ;;
          update new (set_sibling (r_sibling rnext)) ;;
          update new (set_child (Some first)) ;;
          update next (set_sibling None) ;;
          reparent fuel new (Some first) ;;
          rp ← load parent;
          (if bool_decide (r_child rp = Some first) then update parent (set_child (Some new))
           else match r_child rp with
                | Some c => prev ← find_prev fuel first c; update prev (set_sibling (Some new))
                | None => oops
                end) ;;
          mret 0
      end
  end.

(** * Adjusting *)

Fixpoint children_fit (fuel : nat) (start last : Z) (tmp : option ptr) : Sf heap bool :=
  match fuel with
  | O => oops
  | S fuel =>
      match tmp with
      | None => mret true
      | Some t =>
          r ← load t;
          if (r_start r <? start) || (last <? r_end r) then mret false
          else children_fit fuel start last (r_sibling r)
      end
  end.

Definition adjust_resource (fuel : nat) (res : ptr) (start size : Z) : Sf heap Z :=
  rr ← load res;
  match r_parent rr with
  | None => oops
  | Some parent =>
      let last := u32 (start + size - 1) in
      rp ← load parent;
      if (start <? r_start rp) || (r_end rp <? last) then mret (- EBUSY)
      else
        fit ← children_fit fuel start last (r_child rr);
        if negb fit then mret (- EBUSY)
        else
          clash ← (match r_sibling rr with
                   | Some s => rs ← load s; mret (r_start rs <=? last)
                   | None => mret false
                   end : Sf heap bool);
          if (clash : bool) then mret (- EBUSY)
          else
            low ← (if bool_decide (r_child rp = Some res) then mret false
                   else match r_child rp with
                        | Some c => t ← find_prev fuel res c; rt ← load t; mret (start <=? r_end rt)
                        | None => oops
                        end : Sf heap bool);
            if (low : bool) then mret (- EBUSY)
            else update res (set_bounds start last) ;; mret 0
  end.

(** * Busy regions *)

Fixpoint region_loop (levels fuel : nat) (parent res : ptr) : Sf heap bool :=
  match levels with
  | O => oops
  | S levels =>
      conflict ← request_resource_ fuel parent res;
      match conflict with
      | None => mret true
      | Some c =>
          if bool_decide (c = parent) then mret false
          else
            rc ← load c;
            if tst (r_flags rc) IORESOURCE_BUSY then mret false
            else region_loop levels fuel c res
      end
  end.

(** __request_region; [mem] is what kzalloc returned. *)
Definition request_region_ (levels fuel : nat) (mem : option ptr) (parent : ptr) (start n : Z) :
    Sf heap (option ptr) :=
  match mem with
  | None => mret None
  | Some res =>
      fmodify (<[res := Resource start (u32 (start + n - 1)) IORESOURCE_BUSY None None None]>) ;;
      ok ← region_loop levels fuel parent res;
      if (ok : bool) then mret (Some res)
      else fmodify (delete res) ;; mret None
  end.

(** __release_region: [true] when a region was freed, [false] after the
    warning. *)
Fixpoint release_region_loop (fuel : nat) (start last : Z) (p : slot) : Sf heap bool :=
  match fuel with
  | O => oops
  | S fuel =>
      res ← read_slot p;
      match res with
      | None => mret false
      | Some x =>
          r ← load x;
          if (r_start r <=? start) && (last <=? r_end r) then
            if negb (tst (r_flags r) IORESOURCE_BUSY) then release_region_loop fuel start last (Child x)
            else if negb (r_start r =? start) || negb (r_end r =? last) then mret false
            else write_slot p (r_sibling r) ;; fmodify (delete x) ;; mret true
          else release_region_loop fuel start last (Sibling x)
      end
  end.

Definition release_region_ (fuel : nat) (parent : ptr) (start n : Z) : Sf heap bool :=
  release_region_loop fuel start (u32 (start + n - 1)) (Child parent).

Definition check_region_ (levels fuel : nat) (mem : option ptr) (parent : ptr) (start n : Z) :
    Sf heap Z :=
  res ← request_region_ levels fuel mem parent start n;
  match res with
  | None => mret (- EBUSY)
  | Some x => release_resource fuel x ;; fmodify (delete x) ;; mret 0
  end.

(** * Well-formed levels *)

Section Levels.
Implicit Types (h : heap) (r : resource) (x y root new : ptr) (l : list ptr).

(** The sibling chain [l] starting at [o]: every node belongs to [root], lies
    between [lo] and [hi], and ends before the next one starts. *)
Fixpoint sibs h root (hi lo : Z) (o : option ptr) l : Prop :=
  match l with
  | [] => o = None
  | x :: l => o = Some x ∧ ∃ r, h !! x = Some r ∧ r_parent r = Some root ∧
      lo <= r_start r ∧ r_start r <= r_end r ∧ r_end r <= hi ∧
      sibs h root hi (r_end r + 1) (r_sibling r) l
  end.

(** The children of [root] are [l]. *)
Definition level h root l : Prop :=
  ∃ rr, h !! root = Some rr ∧ sibs h root (r_end rr) (r_start rr) (r_child rr) l.

(** Every node of the heap has a well-formed list of children. *)
Definition tree_ok h : Prop := ∀ x r, h !! x = Some r -> ∃ l, level h x l.

(** The fields that place a node in its level. *)
Definition view r := (r_start r, r_end r, r_parent r, r_sibling r).

Lemma sibs_frame h h' root hi lo o l :
  (∀ y, y ∈ l -> view <$> h' !! y = view <$> h !! y) ->
  sibs h root hi lo o l -> sibs h' root hi lo o l.
Proof.
  revert lo o. induction l as [|x l IH]; intros lo o Hv; [done|].
  intros (-> & r & Hr & Hp & Hlo & Hse & Hhi & Hs). split; [done|].
  pose proof (Hv x ltac:(set_solver)) as Hx. rewrite Hr in Hx.
  destruct (h' !! x) as [r'|]; [|done]. unfold view in Hx; simpl in Hx. simplify_eq. exists r'.
  split; [done|]. repeat match goal with H : _ = _ |- _ => rewrite H end.
  split_and!; try done. apply IH; [set_solver|done].
Qed.

Lemma sibs_parent h root hi lo o l y : sibs h root hi lo o l -> y ∈ l ->
  ∃ r, h !! y = Some r ∧ r_parent r = Some root.
Proof.
  revert lo o. induction l as [|x l IH]; intros lo o; [set_solver|].
  intros (-> & r & Hr & Hp & _ & _ & _ & Hs) [->|Hy]%elem_of_cons; eauto.
Qed.

(** Everything in the chain is at or above [lo]. *)
Lemma sibs_above h root hi lo o l y : sibs h root hi lo o l -> y ∈ l ->
  ∃ r, h !! y = Some r ∧ lo <= r_start r ∧ r_start r <= r_end r ∧ r_end r <= hi.
Proof.
  revert lo o. induction l as [|x l IH]; intros lo o; [set_solver|].
  intros (-> & r & Hr & Hp & Hlo & Hse & Hhi & Hs) [->|Hy]%elem_of_cons; [eauto|].
  destruct (IH _ _ Hs Hy) as (r' & ? & ? & ? & ?). exists r'. split_and!; try done. lia.
Qed.

Lemma sibs_NoDup h root hi lo o l : sibs h root hi lo o l -> NoDup l.
Proof.
  revert lo o. induction l as [|x l IH]; intros lo o; [constructor|].
  intros (-> & r & Hr & Hp & Hlo & Hse & Hhi & Hs). constructor; [|eauto].
  intros Hin. destruct (sibs_above _ _ _ _ _ _ _ Hs Hin) as (r' & Hr' & ? & _). simplify_eq. lia.
Qed.

Lemma sibs_weaken h root hi lo lo' o l : lo' <= lo -> sibs h root hi lo o l -> sibs h root hi lo' o l.
Proof.
  destruct l as [|x l]; [done|]. intros Hle (-> & r & Hr & Hp & Hlo & Hrest).
  split; [done|]. exists r. split_and!; try done; [lia|..]; by destruct Hrest as (?&?&?).
Qed.

Lemma sibs_head h root hi lo o l : sibs h root hi lo o l -> o = head l.
Proof. destruct l; [done|]. by intros [-> _]. Qed.

(** [start .. last] meets the node. *)
Definition overlaps r (start last : Z) : Prop := r_start r <= last ∧ start <= r_end r.

(** The chain behind its second half. *)
Lemma sibs_app_r h root hi lo o l1 l2 : sibs h root hi lo o (l1 ++ l2) ->
  ∃ lo', lo <= lo' ∧ sibs h root hi lo' (head l2) l2.
Proof.
  revert lo o. induction l1 as [|x l1 IH]; intros lo o; simpl.
  - intros Hs. exists lo. split; [done|]. by rewrite <- (sibs_head _ _ _ _ _ _ Hs).
  - intros (-> & r & Hr & Hp & Hlo & Hse & Hhi & Hs). destruct (IH _ _ Hs) as (lo' & ? & ?).
    exists lo'. split; [lia|done].
Qed.

(** ** Slots *)

Definition owner (p : slot) : ptr := match p with Child x | Sibling x => x end.
Definition slot_get (p : slot) r : option ptr :=
  match p with Child _ => r_child r | Sibling _ => r_sibling r end.
Definition slot_set (p : slot) (v : option ptr) r : resource :=
  match p with Child _ => set_child v r | Sibling _ => set_sibling v r end.

Lemma read_slot_run p r h : h !! owner p = Some r -> read_slot p h = Some (slot_get p r, h).
Proof. destruct p; simpl; intros Hr; unfold load, ftry, mbind, Sf_bind; by rewrite Hr. Qed.

Lemma write_slot_run p v r h : h !! owner p = Some r ->
  write_slot p v h = Some (tt, <[owner p := slot_set p v r]> h).
Proof. destruct p; simpl; intros Hr; unfold update; by rewrite Hr. Qed.

Lemma load_run x r h : h !! x = Some r -> load x h = Some (r, h).
Proof. intros Hr. unfold load, ftry. by rewrite Hr. Qed.

Lemma update_run x f r h : h !! x = Some r -> update x f h = Some (tt, <[x := f r]> h).
Proof. intros Hr. unfold update. by rewrite Hr. Qed.

(** ** Linking a node in *)

Definition link h root new p (next : option ptr) rn r : heap :=
  <[owner p := slot_set p (Some new) r]> (<[new := set_parent (Some root) (set_sibling next rn)]> h).

Lemma link_run {A} h root new p next rn r (x : A) :
  h !! new = Some rn -> h !! owner p = Some r -> owner p <> new ->
  (update new (set_sibling next) ;; write_slot p (Some new) ;;
   update new (set_parent (Some root)) ;; mret x : Sf heap A) h
  = Some (x, link h root new p next rn r).
Proof.
  intros Hn Hr Hne. rewrite (bind_run _ _ _ _ _ (update_run _ _ _ _ Hn)).
  erewrite bind_run; [|apply write_slot_run; by rewrite lookup_insert_ne by done].
  erewrite bind_run; [|apply update_run; rewrite lookup_insert_ne, lookup_insert by done; by rewrite decide_True].
  unfold mret, Sf_ret, link. do 2 f_equal.
  rewrite (insert_insert_ne _ new (owner p)) by done. f_equal. by rewrite insert_insert_eq.
Qed.

(** What changes when [new] is linked into the chain [l] behind the slot [p]:
    the chain now holds [new], its nodes keep everything but the sibling link,
    and the rest of the heap is untouched. *)
Record linked h h' root new (p : slot) l l' rn r : Prop := Linked {
  linked_slot : h' !! owner p = Some (slot_set p (head l') r);
  linked_new : ∃ next, h' !! new = Some (set_parent (Some root) (set_sibling next rn));
  linked_nodes : ∀ y, y ∈ l -> ∃ ry s, h !! y = Some ry ∧ h' !! y = Some (set_sibling s ry);
  linked_frame : ∀ y, y ∉ l -> y <> new -> y <> owner p -> h' !! y = h !! y;
}.

Lemma set_sibling_id r : set_sibling (r_sibling r) r = r.
Proof. by destruct r. Qed.

Lemma slot_set_get p r : slot_set p (slot_get p r) r = r.
Proof. by destruct p, r. Qed.

Lemma link_new h root new p next rn r : owner p <> new ->
  link h root new p next rn r !! new = Some (set_parent (Some root) (set_sibling next rn)).
Proof. intros. unfold link. by rewrite lookup_insert_ne, lookup_insert, decide_True by done. Qed.

Lemma link_slot h root new p next rn r :
  link h root new p next rn r !! owner p = Some (slot_set p (Some new) r).
Proof. unfold link. by rewrite lookup_insert, decide_True. Qed.

Lemma link_frame h root new p next rn r y : y <> new -> y <> owner p ->
  link h root new p next rn r !! y = h !! y.
Proof. intros. unfold link. by rewrite !lookup_insert_ne by congruence. Qed.

(** Linking [new] in front of a chain that starts after it. *)
Lemma link_here h root new p l rn r hi lo :
  owner p <> new -> new ∉ l -> owner p ∉ l ->
  lo <= r_start rn -> r_start rn <= r_end rn -> r_end rn <= hi ->
  sibs h root hi (r_end rn + 1) (head l) l ->
  let h' := link h root new p (head l) rn r in
  linked h h' root new p l (new :: l) rn r ∧ sibs h' root hi lo (Some new) (new :: l).
Proof.
  intros Hpn Hnl Hpl Hlo Hse Hhi Hs h'.
  assert (∀ y, y ∈ l -> h' !! y = h !! y) as Hl by (intros; apply link_frame; set_solver).
  split; [split|].
  - apply link_slot.
  - eexists. by apply link_new.
  - intros y Hy. destruct (sibs_parent _ _ _ _ _ _ _ Hs Hy) as (ry & Hry & _).
    exists ry, (r_sibling ry). by rewrite set_sibling_id, Hl.
  - intros. by apply link_frame.
  - split; [done|]. eexists. split; [by apply link_new|]. simpl. split_and!; try done.
    apply (sibs_frame h); [|done]. intros y Hy. by rewrite Hl.
Qed.

(** Linking further down the chain, behind its first node [t]. *)
Lemma linked_skip h h' root new p t l l' rn r rt hi lo :
  h !! owner p = Some r -> h !! t = Some rt -> slot_get p r = Some t -> r_parent rt = Some root ->
  lo <= r_start rt -> r_start rt <= r_end rt -> r_end rt <= hi ->
  owner p <> new -> owner p ∉ t :: l -> t <> new ->
  linked h h' root new (Sibling t) l l' rn rt -> sibs h' root hi (r_end rt + 1) (head l') l' ->
  linked h h' root new p (t :: l) (t :: l') rn r ∧ sibs h' root hi lo (Some t) (t :: l').
Proof.
  intros Hr Hrt Hg Hpar Hlo Hse Hhi Hpn Hpl Htn [Hslot Hnew Hnodes Hframe] Hs. simpl in Hslot.
  assert (h' !! owner p = h !! owner p) as Hop by (apply Hframe; set_solver).
  split; [split|].
  - rewrite Hop, Hr. simpl. by rewrite <- Hg, slot_set_get.
  - done.
  - intros y [->|Hy]%elem_of_cons; [|by apply Hnodes]. by exists rt, (head l').
  - intros y Hy Hy1 Hy2. apply Hframe; set_solver.
  - split; [done|]. eexists. split; [exact Hslot|]. done.
Qed.

Lemma sibs_later h root hi lo o l y ry last : sibs h root hi lo o l -> last < lo ->
  y ∈ l -> h !! y = Some ry -> r_start ry <= last -> False.
Proof.
  intros Hs Hlt Hy Hry Hle. destruct (sibs_above _ _ _ _ _ _ _ Hs Hy) as (r' & ? & ? & _).
  simplify_eq. lia.
Qed.

(** The two outcomes of the search, for a chain that lies above [lo]. *)
Lemma request_loop_spec fuel root new p h hi lo l r rn :
  h !! owner p = Some r -> sibs h root hi lo (slot_get p r) l ->
  h !! new = Some rn -> owner p <> new -> new ∉ l -> owner p ∉ l ->
  lo <= r_start rn -> r_start rn <= r_end rn -> r_end rn <= hi -> (length l < fuel)%nat ->
  (∃ t l1 l2 rt, request_loop fuel root new (r_start rn) (r_end rn) p h = Some (Some t, h) ∧
     l = l1 ++ t :: l2 ∧ h !! t = Some rt ∧ overlaps rt (r_start rn) (r_end rn)) ∨
  (∃ h' l1 l2, request_loop fuel root new (r_start rn) (r_end rn) p h = Some (None, h') ∧
     l = l1 ++ l2 ∧ linked h h' root new p l (l1 ++ new :: l2) rn r ∧
     sibs h' root hi lo (head (l1 ++ new :: l2)) (l1 ++ new :: l2) ∧
     (∀ y ry, y ∈ l -> h !! y = Some ry -> ~ overlaps ry (r_start rn) (r_end rn))).
Proof.
  revert p h lo l r. induction fuel as [|fuel IH]; intros p h lo l r Hr Hs Hn Hpn Hnl Hpl Hlo Hse Hhi Hf; [lia|].
  cbn [request_loop]. rewrite (bind_run _ _ _ _ _ (read_slot_run _ _ _ Hr)).
  destruct l as [|t l].
  { simpl in Hs. rewrite Hs, (link_run h root new p None rn r) by done. right.
    eexists _, [], []. split; [done|]. split; [done|].
    destruct (link_here h root new p [] rn r hi lo) as [? ?]; try done. split_and!; try done. set_solver. }
  pose proof Hs as (Hg & rt & Hrt & Hpar & Hlot & Hset & Hhit & Hs'). rewrite Hg.
  rewrite (bind_run _ _ _ _ _ (load_run _ _ _ Hrt)).
  assert (t <> new) by set_solver. assert (owner p <> t) by set_solver.
  destruct (Z.ltb_spec (r_end rn) (r_start rt)) as [Hlt|Hge].
  { right. rewrite (link_run h root new p (Some t) rn r) by done.
    eexists _, [], (t :: l). split; [done|]. split; [done|].
    assert (sibs h root hi (r_end rn + 1) (Some t) (t :: l)) as Ht.
    { split; [done|]. exists rt. split_and!; try done. lia. }
    destruct (link_here h root new p (t :: l) rn r hi lo) as [? ?]; try done.
    split_and!; try done. intros y ry Hy Hry [Hov _]. eapply (sibs_later _ _ _ _ _ _ _ _ _ Ht); eauto. lia. }
  destruct (Z.ltb_spec (r_end rt) (r_start rn)) as [Hlt|Hge2].
  2:{ left. exists t, [], l, rt. by split_and!. }
  assert (t ∉ l) as Htl by (pose proof (sibs_NoDup _ _ _ _ _ _ Hs) as Hnd; by inversion Hnd).
  destruct (IH (Sibling t) h (r_end rt + 1) l rt) as [(t' & l1 & l2 & rt' & Hrun & -> & Hov)|Hok];
    try done; [set_solver|lia|simpl in Hf; lia| |].
  - left. by exists t', (t :: l1), l2, rt'.
  - right. destruct Hok as (h' & l1 & l2 & Hrun & Hl & Hlk & Hsib & Hno).
    exists h', (t :: l1), l2. split; [done|]. split; [by rewrite Hl|].
    destruct (linked_skip h h' root new p t l (l1 ++ new :: l2) rn r rt hi lo) as [? ?]; try done.
    split_and!; try done.
    intros y ry [->|Hy]%elem_of_cons Hry [Hov1 Hov2]; [simplify_eq; lia|by eapply Hno].
Qed.

(** The bounds of [rn] are inside [rr] and meet none of the children [l]. *)
Definition free_range h rr l (start last : Z) : Prop :=
  start <= last ∧ r_start rr <= start ∧ last <= r_end rr ∧
  ∀ y ry, y ∈ l -> h !! y = Some ry -> ~ overlaps ry start last.

(** A node that is in no level. *)
Definition detached h root new : Prop :=
  root <> new ∧ ∃ rn, h !! new = Some rn ∧ r_parent rn = None ∧
    ∀ rr, h !! root = Some rr -> r_parent rr <> Some new.

Lemma level_parent_ne h root l x : level h root l -> x ∈ l -> ∀ r, h !! x = Some r -> r_parent r = Some root.
Proof.
  intros (rr & _ & Hs) Hx r Hr. destruct (sibs_parent _ _ _ _ _ _ _ Hs Hx) as (r' & ? & ?). by simplify_eq.
Qed.

Lemma detached_not_in h root new l x : detached h root new -> level h x l -> new ∉ l.
Proof.
  intros (_ & rn & Hn & Hp & _) Hl Hin. pose proof (level_parent_ne _ _ _ _ Hl Hin _ Hn). congruence.
Qed.

Lemma linked_tree_ok h h' root new l l' rn rr :
  tree_ok h -> h !! root = Some rr -> h !! new = Some rn -> detached h root new ->
  level h root l -> linked h h' root new (Child root) l l' rn rr -> level h' root l' ->
  tree_ok h'.
Proof.
  intros Ht Hrr Hn Hdet Hl [Hslot [next Hnew] Hnodes Hframe] Hl' x r Hr. simpl in *.
  destruct Hdet as (Hne & rn' & Hn' & Hnp & Hcyc). simplify_eq.
  destruct (decide (x = root)) as [->|Hxr]; [by eauto|].
  (* the children of any other node keep their view *)
  assert (∀ lx, level h x lx -> ∀ y, y ∈ lx -> view <$> h' !! y = view <$> h !! y) as Hkeep.
  { intros lx Hlx y Hy. destruct (decide (y = root)) as [->|]; [by rewrite Hslot, Hrr|].
    rewrite Hframe; [done| | |done].
    - intros Hyl. destruct Hlx as (rx & _ & Hsx). destruct (sibs_parent _ _ _ _ _ _ _ Hsx Hy) as (ry & Hry & Hpy).
      pose proof (level_parent_ne _ _ _ _ Hl Hyl _ Hry). congruence.
    - intros ->. pose proof (level_parent_ne _ _ _ _ Hlx Hy _ Hn). congruence. }
  assert (∃ rx, h !! x = Some rx ∧ r_start r = r_start rx ∧ r_end r = r_end rx ∧ r_child r = r_child rx)
    as (rx & Hrx & Hst & Hen & Hch).
  { destruct (decide (x = new)) as [->|]; [exists rn; simplify_eq; done|].
    destruct (decide (x ∈ l)) as [Hin|Hnin].
    - destruct (Hnodes x Hin) as (ry & s & Hry & Hry'). exists ry. by simplify_eq.
    - rewrite Hframe in Hr by done. by exists r. }
  destruct (Ht x rx Hrx) as (lx & Hlx). exists lx. exists r. split; [done|].
  rewrite Hst, Hen, Hch. pose proof Hlx as (rx' & ? & Hsx). simplify_eq.
  apply (sibs_frame h); [|done]. by apply Hkeep.
Qed.

(** __request_resource, completely. *)
Lemma request_resource_spec_ fuel root new h l rr rn :
  h !! root = Some rr -> h !! new = Some rn -> detached h root new -> level h root l -> root ∉ l ->
  (length l < fuel)%nat ->
  (free_range h rr l (r_start rn) (r_end rn) ∧
   ∃ h' l1 l2, request_resource_ fuel root new h = Some (None, h') ∧ l = l1 ++ l2 ∧
     linked h h' root new (Child root) l (l1 ++ new :: l2) rn rr ∧ level h' root (l1 ++ new :: l2)) ∨
  (~ free_range h rr l (r_start rn) (r_end rn) ∧
   ∃ c, request_resource_ fuel root new h = Some (Some c, h) ∧
     (c = root ∧ ~ (r_start rn <= r_end rn ∧ r_start rr <= r_start rn ∧ r_end rn <= r_end rr) ∨
      c ∈ l ∧ ∃ rc, h !! c = Some rc ∧ overlaps rc (r_start rn) (r_end rn))).
Proof.
  intros Hrr Hn Hdet Hl Hrl Hf. unfold request_resource_.
  rewrite (bind_run _ _ _ _ _ (load_run _ _ _ Hn)), (bind_run _ _ _ _ _ (load_run _ _ _ Hrr)).
  destruct (decide (r_start rn <= r_end rn ∧ r_start rr <= r_start rn ∧ r_end rn <= r_end rr)) as [Hin|Hout].
  2:{ right. split; [unfold free_range; tauto|]. exists root.
      split; [|by left]. case_cmp; try done. tauto. }
  destruct Hin as (H1 & H2 & H3). case_cmp; try lia.
  pose proof (detached_not_in _ _ _ _ _ Hdet Hl) as Hnl. pose proof Hl as (rr' & ? & Hs). simplify_eq.
  destruct (request_loop_spec fuel root new (Child root) h (r_end rr) (r_start rr) l rr rn)
    as [(t & l1 & l2 & rt & Hrun & -> & Hrt & Hov)|(h' & l1 & l2 & Hrun & -> & Hlk & Hs' & Hno)];
    try done; [by destruct Hdet| |].
  - right. split; [|exists t; split; [done|right; split; [set_solver|by exists rt]]].
    intros (_ & _ & _ & Hfree). by apply (Hfree t rt); [set_solver|..].
  - left. split; [done|]. exists h', l1, l2. split_and!; try done.
    pose proof Hlk as [Hslot _ _ _]. simpl in Hslot.
    eexists. split; [exact Hslot|]. done.
Qed.

(** C13: [request_resource] links a new resource under [root] exactly when its
    bounds are a valid range inside [root] that meets no child; then the
    children stay sorted, disjoint and inside their parent, and the whole tree
    stays well formed.  Otherwise it returns -EBUSY and changes nothing. *)
Theorem request_resource_correct fuel root new h l rr rn :
  tree_ok h -> h !! root = Some rr -> h !! new = Some rn -> detached h root new ->
  level h root l -> root ∉ l -> (length l < fuel)%nat ->
  (free_range h rr l (r_start rn) (r_end rn) ->
     ∃ h' l1 l2, request_resource fuel root new h = Some (0, h') ∧ l = l1 ++ l2 ∧
       level h' root (l1 ++ new :: l2) ∧ tree_ok h') ∧
  (~ free_range h rr l (r_start rn) (r_end rn) ->
     request_resource fuel root new h = Some (- EBUSY, h)).
Proof.
  intros Ht Hrr Hn Hdet Hl Hrl Hf.
  destruct (request_resource_spec_ fuel root new h l rr rn)
    as [(Hfree & h' & l1 & l2 & Hrun & -> & Hlk & Hl')|(Hno & c & Hrun & _)]; try done.
  - split; [intros _|done]. exists h', l1, l2. split_and!; try done.
    + unfold request_resource. by rewrite (bind_run _ _ _ _ _ Hrun).
    + by apply (linked_tree_ok h h' root new (l1 ++ l2) (l1 ++ new :: l2) rn rr).
  - split; [done|intros _]. unfold request_resource. by rewrite (bind_run _ _ _ _ _ Hrun).
Qed.

(** ** Releasing *)

(** [old] taken out of the chain [l1 ++ old :: l2] behind the slot [p]. *)
Record unlinked h h' old (p : slot) l l' ro r : Prop := Unlinked {
  unlinked_slot : h' !! owner p = Some (slot_set p (head l') r);
  unlinked_old : h' !! old = Some (set_parent None ro);
  unlinked_nodes : ∀ y, y ∈ l' -> ∃ ry s, h !! y = Some ry ∧ h' !! y = Some (set_sibling s ry);
  unlinked_frame : ∀ y, y ∉ l -> y <> owner p -> h' !! y = h !! y;
}.

Definition unlink h old p ro r : heap :=
  <[old := set_parent None ro]> (<[owner p := slot_set p (r_sibling ro) r]> h).

Lemma unlink_here h root old p l ro r hi lo :
  h !! old = Some ro -> old ∉ l -> owner p ∉ old :: l ->
  sibs h root hi lo (Some old) (old :: l) ->
  let h' := unlink h old p ro r in
  unlinked h h' old p (old :: l) l ro r ∧ sibs h' root hi lo (head l) l.
Proof.
  intros Ho Hol Hpl (_ & ro' & Ho' & Hpar & Hlo & Hse & Hhi & Hs) h'. simplify_eq.
  pose proof (sibs_head _ _ _ _ _ _ Hs) as Hhd.
  assert (∀ y, y ∈ l -> h' !! y = h !! y) as Hl
    by (intros y Hy; subst h'; unfold unlink; rewrite !lookup_insert_ne by set_solver; done).
  split; [split|].
  - subst h'. unfold unlink. rewrite lookup_insert_ne, lookup_insert, decide_True by set_solver. by rewrite Hhd.
  - subst h'. unfold unlink. by rewrite lookup_insert, decide_True.
  - intros y Hy. destruct (sibs_parent _ _ _ _ _ _ _ Hs Hy) as (ry & Hry & _).
    exists ry, (r_sibling ry). by rewrite set_sibling_id, Hl.
  - intros y Hy Hne. subst h'. unfold unlink. rewrite !lookup_insert_ne by set_solver. done.
  - rewrite <- Hhd. apply (sibs_frame h); [intros y Hy; by rewrite Hl|].
    apply (sibs_weaken _ _ _ (r_end ro + 1)); [lia|done].
Qed.

Lemma unlinked_skip h h' root old p t l l' ro r rt hi lo :
  h !! owner p = Some r -> h !! t = Some rt -> slot_get p r = Some t -> r_parent rt = Some root ->
  lo <= r_start rt -> r_start rt <= r_end rt -> r_end rt <= hi -> owner p ∉ t :: l -> t ∉ l ->
  unlinked h h' old (Sibling t) l l' ro rt -> sibs h' root hi (r_end rt + 1) (head l') l' ->
  unlinked h h' old p (t :: l) (t :: l') ro r ∧ sibs h' root hi lo (Some t) (t :: l').
Proof.
  intros Hr Hrt Hg Hpar Hlo Hse Hhi Hpl Htl [Hslot Hold Hnodes Hframe] Hs. simpl in Hslot.
  assert (h' !! owner p = h !! owner p) as Hop by (apply Hframe; set_solver).
  split; [split|].
  - rewrite Hop, Hr. simpl. by rewrite <- Hg, slot_set_get.
  - done.
  - intros y [->|Hy]%elem_of_cons; [|by apply Hnodes]. by exists rt, (head l').
  - intros y Hy Hne. apply Hframe; set_solver.
  - split; [done|]. eexists. split; [exact Hslot|]. done.
Qed.

Lemma release_loop_spec fuel root old p h hi lo l1 l2 r ro :
  h !! owner p = Some r -> sibs h root hi lo (slot_get p r) (l1 ++ old :: l2) ->
  h !! old = Some ro -> owner p ∉ l1 ++ old :: l2 -> (length l1 < fuel)%nat ->
  ∃ h', release_loop fuel old p h = Some (0, h') ∧
    unlinked h h' old p (l1 ++ old :: l2) (l1 ++ l2) ro r ∧
    sibs h' root hi lo (head (l1 ++ l2)) (l1 ++ l2).
Proof.
  revert p lo l1 r. induction fuel as [|fuel IH]; intros p lo l1 r Hr Hs Ho Hpl Hf; [lia|].
  cbn [release_loop]. rewrite (bind_run _ _ _ _ _ (read_slot_run _ _ _ Hr)).
  pose proof (sibs_NoDup _ _ _ _ _ _ Hs) as Hnd.
  destruct l1 as [|t l1]; simpl in *.
  - pose proof Hs as (Hg & _). rewrite Hg in Hs |- *. rewrite bool_decide_true by done.
    rewrite (bind_run _ _ _ _ _ (load_run _ _ _ Ho)).
    erewrite bind_run by by apply write_slot_run.
    erewrite bind_run by (apply update_run; by rewrite lookup_insert_ne by set_solver).
    eexists. split; [done|]. apply unlink_here; try done. by inversion Hnd.
  - destruct Hs as (Hg & rt & Hrt & Hpar & Hlo & Hse & Hhi & Hs). rewrite Hg.
    assert (t <> old) by (apply NoDup_cons in Hnd as [Hn _]; set_solver).
    rewrite bool_decide_false by done. apply NoDup_cons in Hnd as [Hn Hnd].
    destruct (IH (Sibling t) (r_end rt + 1) l1 rt) as (h' & Hrun & Hun & Hs'); try done; [lia|].
    exists h'. split; [done|]. by apply (unlinked_skip h h' root old p t _ _ ro r rt).
Qed.

Lemma release_loop_absent fuel root old p h hi lo l r :
  h !! owner p = Some r -> sibs h root hi lo (slot_get p r) l -> old ∉ l -> (length l < fuel)%nat ->
  release_loop fuel old p h = Some (- EINVAL, h).
Proof.
  revert p lo l r. induction fuel as [|fuel IH]; intros p lo l r Hr Hs Ho Hf; [lia|].
  cbn [release_loop]. rewrite (bind_run _ _ _ _ _ (read_slot_run _ _ _ Hr)).
  destruct l as [|t l]; simpl in *; [by rewrite Hs|].
  destruct Hs as (Hg & rt & Hrt & Hpar & Hlo & Hse & Hhi & Hs). rewrite Hg.
  rewrite bool_decide_false by set_solver.
  apply (IH (Sibling t) (r_end rt + 1) l rt); try done; [set_solver|lia].
Qed.

(** The chain determines the sibling links. *)
Lemma sibs_sibling h root hi lo o l1 y l2 : sibs h root hi lo o (l1 ++ y :: l2) ->
  ∃ r, h !! y = Some r ∧ r_sibling r = head l2.
Proof.
  revert lo o. induction l1 as [|x l1 IH]; intros lo o; simpl.
  - intros (-> & r & Hr & _ & _ & _ & _ & Hs). exists r. split; [done|]. by apply sibs_head in Hs.
  - intros (-> & r & Hr & _ & _ & _ & _ & Hs). by eapply IH.
Qed.

(** Two heaps that agree on a chain up to sibling links agree on it. *)
Lemma sibs_determined h h' root hi lo hi' lo' o o' l :
  sibs h root hi lo o l -> sibs h' root hi' lo' o' l ->
  (∀ y, y ∈ l -> ∃ ry s, h !! y = Some ry ∧ h' !! y = Some (set_sibling s ry)) ->
  ∀ y, y ∈ l -> h' !! y = h !! y.
Proof.
  intros Hs Hs' Hn y Hy. destruct (Hn y Hy) as (ry & s & Hry & Hry'). rewrite Hry, Hry'.
  apply list_elem_of_split in Hy as (l1 & l2 & ->).
  destruct (sibs_sibling _ _ _ _ _ _ _ _ Hs) as (r1 & ? & Hsib1).
  destruct (sibs_sibling _ _ _ _ _ _ _ _ Hs') as (r2 & ? & Hsib2). simplify_eq.
  simpl in Hsib2. rewrite Hsib2, <- Hsib1. by rewrite set_sibling_id.
Qed.

(** Releasing a resource right after a successful request returns 0 and
    restores the tree exactly: every other node, links included, is as
    before, and the resource itself is detached with its bounds kept.
    Releasing it a second time, or one that is not linked under its parent,
    is refused with -EINVAL and changes nothing. *)
Theorem request_release_restores fuel root new h l rr rn h' :
  tree_ok h -> h !! root = Some rr -> h !! new = Some rn -> detached h root new ->
  level h root l -> root ∉ l -> (S (length l) < fuel)%nat ->
  request_resource fuel root new h = Some (0, h') ->
  (∃ s, release_resource fuel new h' = Some (0, <[new := set_sibling s rn]> h)) ∧
  (∀ old ro, h !! old = Some ro -> r_parent ro = Some root -> old ∉ l ->
     release_resource fuel old h = Some (- EINVAL, h)).
Proof.
  intros Ht Hrr Hn Hdet Hl Hrl Hf Hreq. split.
  - unfold request_resource in Hreq.
    destruct (request_resource_spec_ fuel root new h l rr rn)
      as [(Hfree & h1 & l1 & l2 & Hrun & Hll & Hlk & Hl')|(Hno & c & Hrun & _)]; try done; [lia| |];
      rewrite (bind_run _ _ _ _ _ Hrun) in Hreq; [|done].
    injection Hreq as <-. subst l. pose proof (detached_not_in _ _ _ _ _ Hdet Hl) as Hnl.
    pose proof Hlk as [Hslot [next Hnew] Hnodes Hframe]. simpl in Hslot.
    unfold release_resource, release_resource_.
    rewrite (bind_run _ _ _ _ _ (load_run _ _ _ Hnew)). simpl.
    destruct Hl' as (rr' & Hrr' & Hs'). rewrite Hslot in Hrr'. simplify_eq. simpl in Hs'.
    destruct Hdet as (Hne & rn' & ? & Hpn & _). simplify_eq.
    destruct (release_loop_spec fuel root new (Child root) h1 (r_end rr) (r_start rr) l1 l2
      (set_child (head (l1 ++ new :: l2)) rr) (set_parent (Some root) (set_sibling next rn)))
      as (h2 & Hrel & [Hs2 Hold2 Hnodes2 Hframe2] & Hsib2); try done.
    { set_solver. } { rewrite length_app in Hf. lia. }
    exists next. rewrite Hrel. do 2 f_equal. apply map_eq. intros y.
    destruct Hl as (rr'' & ? & Hs). simplify_eq. simpl in *.
    destruct (decide (y = new)) as [->|Hyn].
    { rewrite lookup_insert, decide_True, Hold2 by done. f_equal. destruct rn; simpl in *. by rewrite Hpn. }
    rewrite lookup_insert_ne by done.
    destruct (decide (y ∈ l1 ++ l2)) as [Hin|Hnin].
    { apply (sibs_determined h h2 root (r_end rr) (r_start rr) (r_end rr) (r_start rr) (r_child rr)
        (head (l1 ++ l2)) (l1 ++ l2)); try done.
      intros z Hz. destruct (Hnodes z Hz) as (rz & s & Hz1 & Hz2).
      destruct (Hnodes2 z Hz) as (rz' & s' & Hz3 & Hz4). simplify_eq. exists rz, s'. split; [done|]. by rewrite Hz4. }
    destruct (decide (y = root)) as [->|].
    { rewrite Hs2, Hrr. simpl. apply sibs_head in Hs. rewrite <- Hs. by destruct rr. }
    rewrite Hframe2, Hframe by set_solver. done.
  - intros old ro Ho Hp Hol. unfold release_resource, release_resource_.
    rewrite (bind_run _ _ _ _ _ (load_run _ _ _ Ho)), Hp. destruct Hl as (rr' & ? & Hs). simplify_eq.
    by apply (release_loop_absent fuel root old (Child root) h (r_end rr) (r_start rr) l rr); [..|lia].
Qed.

(** ** Allocation *)

Lemma ALIGN_eq (x k : Z) : 0 <= k < 32 -> 0 <= x -> x + 2 ^ k <= 2 ^ 32 ->
  ALIGN x (2 ^ k) = (x + 2 ^ k - 1) / 2 ^ k * 2 ^ k.
Proof.
  intros Hk Hx Hw. assert (0 < 2 ^ k) by lia. assert (2 ^ k < 2 ^ 32) by (apply Z.pow_lt_mono_r; lia).
  unfold ALIGN, u32, clr. rewrite (wrap_id 32 (2 ^ k - 1)), wrap_id by (unfold in_u; rewrite ?wrap_id; unfold in_u; lia).
  replace (2 ^ k - 1) with (Z.ones k) by (rewrite Z.ones_equiv; lia).
  rewrite Z.ldiff_ones_r, Z.shiftl_mul_pow2, Z.shiftr_div_pow2 by lia.
  rewrite Z.ones_equiv. do 3 f_equal. lia.
Qed.

(** ALIGN is the least multiple above, as long as it does not wrap. *)
Lemma ALIGN_least (x k : Z) : 0 <= k < 32 -> 0 <= x -> x + 2 ^ k <= 2 ^ 32 ->
  x <= ALIGN x (2 ^ k) ∧ (2 ^ k | ALIGN x (2 ^ k)) ∧
  ∀ y : Z, x <= y -> (2 ^ k | y) -> ALIGN x (2 ^ k) <= y.
Proof.
  intros Hk Hx Hw. rewrite ALIGN_eq by done. assert (0 < 2 ^ k) by lia.
  pose proof (Z.div_mod (x + 2 ^ k - 1) (2 ^ k) ltac:(lia)).
  pose proof (Z.mod_pos_bound (x + 2 ^ k - 1) (2 ^ k) ltac:(lia)).
  set (q := (x + 2 ^ k - 1) / 2 ^ k) in *. split_and!; [lia|by exists q|].
  intros y Hy [m ->]. assert (q <= m) by nia. nia.
Qed.

(** An aligned slot inside [start .. limit] that meets none of [l]. *)
Definition slot_at h l (size min max align start limit s : Z) : Prop :=
  start <= s ∧ min <= s ∧ s + size - 1 <= max ∧ s + size - 1 <= limit ∧ (align | s) ∧
  ∀ y ry, y ∈ l -> h !! y = Some ry -> ~ overlaps ry s (s + size - 1).

(** No resource of [l] ends so high that the next address, rounded up, is beyond
    the 32-bit space. *)
Definition low h l (k : Z) : Prop := ∀ y ry, y ∈ l -> h !! y = Some ry -> r_end ry + 2 ^ k < 2 ^ 32.

Section Find.
Context (size min max k limit : Z).
Context (Hsize : 1 <= size < 2 ^ 32) (Hmin : 0 <= min) (Hk : 0 <= k < 32).
Context (Hmax : max < 2 ^ 32) (Hlim : limit < 2 ^ 32) (Hmk : min + 2 ^ k <= 2 ^ 32).

Lemma find_turn start last : 0 <= start -> start + 2 ^ k <= 2 ^ 32 -> last <= limit ->
  let s := ALIGN (if start <? min then min else start) (2 ^ k) in
  let e := if max <? last then max else last in
  (start <= s ∧ min <= s ∧ (2 ^ k | s) ∧ 0 <= s) ∧
  (∀ s0, start <= s0 -> min <= s0 -> (2 ^ k | s0) -> s <= s0) ∧
  ((s <? e) && (u32 (size - 1) <=? e - s) = true ->
     s + size - 1 <= max ∧ s + size - 1 <= last ∧ u32 (s + size - 1) = s + size - 1) ∧
  (2 <= size -> s + size - 1 <= max -> s + size - 1 <= last ->
     (s <? e) && (u32 (size - 1) <=? e - s) = true).
Proof.
  intros Hst Hsk Hla s e. set (x := if start <? min then min else start).
  assert (x = Z.max start min) as Hx by (subst x; case_cmp; lia).
  assert (0 <= x) by lia. assert (x + 2 ^ k <= 2 ^ 32) by lia.
  destruct (ALIGN_least x k) as (Hle & Hdiv & Hleast); try done.
  assert (e = Z.min max last) as He by (subst e; case_cmp; lia).
  fold x in s. fold s in Hle, Hdiv, Hleast. rewrite He.
  split_and!; try lia; try done.
  - intros s0 ? ? ?. apply Hleast; [lia|done].
  - intros [Hs Hz]%andb_prop. apply Z.ltb_lt in Hs. apply Z.leb_le in Hz.
    unfold u32 in *. rewrite wrap_id in Hz by (unfold in_u; lia). rewrite wrap_id; unfold in_u; lia.
  - intros H2 Hm Hl. apply andb_true_intro. split; [apply Z.ltb_lt; lia|apply Z.leb_le].
    unfold u32. rewrite wrap_id by (unfold in_u; lia). lia.
Qed.

(** What the loop promises about its first-fit answer. *)
Lemma find_loop_spec fuel root h start o l lo :
  sibs h root limit lo o l -> 0 <= start <= lo -> 1 <= lo <= limit + 1 -> start + 2 ^ k <= 2 ^ 32 -> low h l k -> (length l < fuel)%nat ->
  ∃ err s e, find_loop fuel limit size min max (2 ^ k) start o h = Some ((err, s, e), h) ∧
    (err = 0 ∨ err = - EBUSY) ∧
    (err = 0 -> e = s + size - 1 ∧ slot_at h l size min max (2 ^ k) start limit s) ∧
    (∀ s0, 2 <= size -> slot_at h l size min max (2 ^ k) start limit s0 -> err = 0 ∧ s <= s0).
Proof.
  revert start o l lo. induction fuel as [|fuel IH]; intros start o l lo Hs Hst Hlo Hsk Hlow Hf; [lia|].
  cbn [find_loop]. destruct l as [|t l].
  - simpl in Hs. subst o. rewrite (bind_run (mret None) _ h None h) by done.
    destruct (find_turn start limit) as ((? & ? & ? & ?) & Hleast & Hok & Hfit); [lia|lia|lia|].
    destruct (_ && _).
    + destruct Hok as (? & ? & Heq); [done|]. rewrite Heq. eexists 0, _, _. split; [done|].
      split_and!; [by left|intros _; split; [done|]; unfold slot_at; split_and!; try done; set_solver|].
      intros s0 _ (? & ? & ? & ? & ? & _). split; [done|]. by apply Hleast.
    + eexists (- EBUSY), _, _. split; [done|]. split_and!; [by right|done|].
      intros s0 Hsz (? & ? & ? & ? & ? & _). assert (false = true); [|done].
      apply Hfit; [done|..]; (etrans; [|eassumption]); apply Z.sub_le_mono_r, Z.add_le_mono_r; by apply Hleast.
  - destruct Hs as (-> & rt & Hrt & Hpar & Hlot & Hset & Hhit & Hs).
    rewrite (bind_run _ _ h (Some rt) h) by (by rewrite (bind_run _ _ _ _ _ (load_run _ _ _ Hrt))).
    pose proof (Hlow t rt ltac:(by left) Hrt) as Hrt_low. assert (0 < 2 ^ k) as Hk0 by lia.
    assert (u32 (r_start rt - 1) = r_start rt - 1) as -> by (apply wrap_id; unfold in_u; lia).
    assert (u32 (r_end rt + 1) = r_end rt + 1) as -> by (apply wrap_id; unfold in_u; lia).
    destruct (find_turn start (r_start rt - 1)) as ((? & ? & ? & ?) & Hleast & Hok & Hfit); [lia|lia|lia|].
    destruct (_ && _).
    + destruct Hok as (? & ? & Heq); [done|]. rewrite Heq. eexists 0, _, _. split; [done|].
      split_and!; [by left| |].
      { intros _. split; [done|]. unfold slot_at. split_and!; try done; [lia|]. intros y ry [->|Hy]%elem_of_cons Hry [Hov _].
        - simplify_eq. lia.
        - eapply (sibs_later _ _ _ _ _ _ _ _ _ Hs); [|done..]. lia. }
      intros s0 _ (? & ? & ? & ? & ? & _). split; [done|]. by apply Hleast.
    + destruct (IH (r_end rt + 1) (r_sibling rt) l (r_end rt + 1)) as (err & s & e & Hrun & Herr & Hsnd & Hcpl);
        [done|lia|lia|lia|intros y ry Hy; apply Hlow; by right|simpl in Hf; lia|].
      exists err, s, e. split; [done|]. split; [done|].
      split.
      { intros ->. destruct (Hsnd eq_refl) as (? & ? & ? & ? & ? & ? & Hfree). split; [done|]. unfold slot_at. split_and!; try done; [lia|].
        intros y ry [->|Hy]%elem_of_cons Hry; [|by apply (Hfree y ry)]. intros [_ Hov]. simplify_eq. lia. }
      intros s0 Hsz (Hs1 & Hs2 & Hs3 & Hs4 & Hs5 & Hfree). apply Hcpl; [done|].
      unfold slot_at. split_and!; try done; [|intros y ry Hy Hry; apply (Hfree y ry); [set_solver|done]].
      destruct (decide (r_end rt < s0)); [lia|]. exfalso.
      assert (s0 + size - 1 < r_start rt) as Hbefore.
      { destruct (decide (s0 + size - 1 < r_start rt)); [done|]. exfalso.
        apply (Hfree t rt); [set_solver|done|]. split; lia. }
      pose proof (Hleast s0 Hs1 Hs2 Hs5). assert (false = true); [|done]. apply Hfit; lia.
Qed.

End Find.

Section Alloc.
Context (size min max k : Z).
Context (Hsize : 1 <= size < 2 ^ 32) (Hmin : 0 <= min) (Hk : 0 <= k < 32).
Context (Hmax : max < 2 ^ 32) (Hmk : min + 2 ^ k <= 2 ^ 32).

(** find_resource on a level: only the bounds of [new] change. *)
Lemma find_resource_spec fuel root new h l rr rn :
  h !! root = Some rr -> h !! new = Some rn -> level h root l -> (length l < fuel)%nat ->
  0 <= r_start rr <= r_end rr -> r_end rr < 2 ^ 32 -> r_start rr + 2 ^ k <= 2 ^ 32 -> low h l k ->
  ∃ err s e, find_resource fuel root new size min max (2 ^ k) h
      = Some (err, <[new := set_bounds s e rn]> h) ∧
    (err = 0 ∨ err = - EBUSY) ∧
    (err = 0 -> e = s + size - 1 ∧ slot_at h l size min max (2 ^ k) (r_start rr) (r_end rr) s) ∧
    (∀ s0, 2 <= size -> slot_at h l size min max (2 ^ k) (r_start rr) (r_end rr) s0 -> err = 0 ∧ s <= s0).
Proof.
  intros Hrr Hn (rr' & ? & Hs) Hf Hb Hl Hsk Hlow. simplify_eq. unfold find_resource.
  rewrite (bind_run _ _ _ _ _ (load_run _ _ _ Hrr)), (bind_run _ _ _ _ _ (load_run _ _ _ Hn)).
  assert (∀ err s e, (update new (set_bounds s e) ;; mret err : Sf heap Z) h
    = Some (err, <[new := set_bounds s e rn]> h)) as Hup.
  { intros. by rewrite (bind_run _ _ _ _ _ (update_run _ _ _ _ Hn)). }
  destruct l as [|t l].
  - simpl in Hs. rewrite Hs, (bind_run (mret None) _ h None h), (bind_run (mret _) _ h (r_start rr, None) h) by done.
    destruct (find_loop_spec size min max k (r_end rr) Hsize Hmin Hk Hmax Hl Hmk fuel root h (r_start rr) None [] (Z.max 1 (r_start rr)))
      as (err & s & e & Hrun & Hres); [done|lia|lia|lia|done|done|].
    rewrite (bind_run _ _ _ _ _ Hrun). exists err, s, e. by rewrite Hup.
  - pose proof Hs as (-> & rt & Hrt & Hpar & Hlot & Hset & Hhit & Hs').
    rewrite (bind_run _ _ h (Some rt) h) by (by rewrite (bind_run _ _ _ _ _ (load_run _ _ _ Hrt))).
    pose proof (Hlow t rt ltac:(by left) Hrt) as Hrt_low. assert (0 < 2 ^ k) as Hk0 by lia.
    destruct (Z.eqb_spec (r_start rt) 0) as [H0|H0].
    + rewrite (bind_run (mret _) _ h (r_end rt + 1, r_sibling rt) h);
        [|unfold mret, Sf_ret; do 2 f_equal; f_equal; apply wrap_id; unfold in_u; lia].
      destruct (find_loop_spec size min max k (r_end rr) Hsize Hmin Hk Hmax Hl Hmk fuel root h (r_end rt + 1) (r_sibling rt) l (r_end rt + 1))
        as (err & s & e & Hrun & Herr & Hsnd & Hcpl); [done|lia|lia|lia|intros y ry Hy; apply Hlow; by right|simpl in Hf; lia|].
      rewrite (bind_run _ _ _ _ _ Hrun). exists err, s, e. rewrite Hup. split; [done|]. split; [done|]. split.
      * intros ->. destruct (Hsnd eq_refl) as (? & ? & ? & ? & ? & ? & Hfree). split; [done|]. unfold slot_at. split_and!; try done; [lia|].
        intros y ry [->|Hy]%elem_of_cons Hry; [|by apply (Hfree y ry)]. intros [_ Hov]. simplify_eq. lia.
      * intros s0 Hsz (Hs1 & Hs2 & Hs3 & Hs4 & Hs5 & Hfree). apply Hcpl; [done|].
        unfold slot_at. split_and!; try done; [|intros y ry Hy Hry; apply (Hfree y ry); [set_solver|done]].
        destruct (decide (r_end rt < s0)); [lia|]. exfalso. apply (Hfree t rt); [set_solver|done|]. split; lia.
    + rewrite (bind_run (mret _) _ h (r_start rr, Some t) h) by done.
      destruct (find_loop_spec size min max k (r_end rr) Hsize Hmin Hk Hmax Hl Hmk fuel root h (r_start rr) (Some t) (t :: l) (Z.max 1 (r_start rr)))
        as (err & s & e & Hrun & Hres); [|lia|lia|lia|done|done|].
      { split; [done|]. exists rt. split_and!; try done. lia. }
      rewrite (bind_run _ _ _ _ _ Hrun). exists err, s, e. by rewrite Hup.
Qed.

(** C14: what allocate_resource promises when rounding up cannot wrap around:
    the lower bound [min], the start of the root and the address behind each of
    its children, each raised by the alignment, stay inside the 32-bit space.  The
    root itself may reach to the last address.  On success, for any size, the
    new resource has the size asked for, is aligned, lies between [min] and
    [max] and overlaps no child, and is linked into the tree, which stays well
    formed.  For a size of at least 2, the slot is the lowest such one; and -EBUSY
    is returned only if there is none, and then nothing was linked. *)
Theorem allocate_resource_first_fit fuel root new h l rr rn :
  tree_ok h -> h !! root = Some rr -> h !! new = Some rn -> r_child rn = None ->
  detached h root new -> level h root l -> root ∉ l -> (length l < fuel)%nat ->
  0 <= r_start rr <= r_end rr -> r_end rr < 2 ^ 32 -> r_start rr + 2 ^ k <= 2 ^ 32 -> low h l k ->
  ∃ err h', allocate_resource fuel root new size min max (2 ^ k) h = Some (err, h') ∧
    ((err = 0 ∧ ∃ s l1 l2 r', l = l1 ++ l2 ∧ level h' root (l1 ++ new :: l2) ∧ tree_ok h' ∧
        h' !! new = Some r' ∧ r_start r' = s ∧ r_end r' = s + size - 1 ∧
        slot_at h l size min max (2 ^ k) (r_start rr) (r_end rr) s ∧
        ∀ s0, 2 <= size -> slot_at h l size min max (2 ^ k) (r_start rr) (r_end rr) s0 -> s <= s0) ∨
     (err = - EBUSY ∧ (∃ s e, h' = <[new := set_bounds s e rn]> h) ∧
        ∀ s0, 2 <= size -> ~ slot_at h l size min max (2 ^ k) (r_start rr) (r_end rr) s0)).
Proof.
  intros Ht Hrr Hn Hch Hdet Hl Hrl Hf Hb Hlimit Hsk Hlow.
  destruct (find_resource_spec fuel root new h l rr rn) as (err & s & e & Hrun & Herr & Hsnd & Hcpl); try done.
  unfold allocate_resource. rewrite (bind_run _ _ _ _ _ Hrun).
  destruct Herr as [-> | ->].
  2:{ eexists _, _. split; [done|]. right. split_and!; [done|by eexists _, _|].
      intros s0 Hsz Hat. by destruct (Hcpl s0 Hsz Hat). }
  destruct (Hsnd eq_refl) as (-> & Hat). cbn [Z.leb Z.compare].
  set (h1 := <[new := set_bounds s (s + size - 1) rn]> h).
  pose proof Hdet as (Hne & rn' & ? & Hpn & Hcyc). simplify_eq.
  assert (∀ y, y <> new -> h1 !! y = h !! y) as Hoth by (intros y Hy; apply lookup_insert_ne; congruence).
  assert (h1 !! new = Some (set_bounds s (s + size - 1) rn)) as Hn1 by (unfold h1; by rewrite lookup_insert, decide_True).
  assert (∀ x lx, x <> new -> level h x lx -> level h1 x lx) as Hlev.
  { intros x lx Hx Hlx. pose proof (detached_not_in _ _ _ _ _ Hdet Hlx) as Hnin.
    destruct Hlx as (rx & Hrx & Hsx). exists rx. rewrite Hoth by done. split; [done|].
    apply (sibs_frame h); [|done]. intros y Hy. rewrite Hoth; [done|]. by intros ->. }
  assert (tree_ok h1) as Ht1.
  { intros x r Hr. destruct (decide (x = new)) as [->|Hx].
    - exists []. simplify_eq. eexists. split; [exact Hn1|]. done.
    - rewrite Hoth in Hr by done. destruct (Ht x r Hr) as (lx & Hlx). eauto. }
  assert (h1 !! root = Some rr) as Hrr1 by (by rewrite Hoth).
  assert (detached h1 root new) as Hdet1.
  { split; [done|]. eexists. split; [exact Hn1|]. split; [done|]. intros rr' ?. simplify_eq. by apply Hcyc. }
  destruct (request_resource_spec_ fuel root new h1 l rr (set_bounds s (s + size - 1) rn))
    as [(Hfree & h' & l1 & l2 & Hreq & -> & Hlk & Hl')|(Hno & _)]; try done; [by apply Hlev| |].
  - rewrite (bind_run _ _ _ _ _ Hreq). eexists _, h'. split; [done|]. left. split; [done|].
    pose proof Hlk as [_ [next Hnew] _ _]. exists s, l1, l2. eexists. split_and!; try done.
    + pose proof (Hlev root _ Hne Hl) as Hl1.
      by apply (linked_tree_ok h1 h' root new (l1 ++ l2) (l1 ++ new :: l2) (set_bounds s (s + size - 1) rn) rr).
    + intros s0 Hsz Hat0. by apply Hcpl.
  - destruct Hno. destruct Hat as (? & ? & ? & ? & ? & Hfree). simpl. split_and!; try lia.
    intros y ry Hy Hry. apply (Hfree y ry); [done|]. rewrite <- Hoth; [done|].
    intros ->. by apply (detached_not_in _ _ _ _ _ Hdet Hl).
Qed.
End Alloc.
End Levels.

(** * Runs on a concrete tree *)

Module ResourceDemo.

(** A window with one child, and two detached resources. *)
Definition tree : heap :=
  {[ 1%positive := Resource 0 0xfffff 0 None None (Some 2%positive);
     2%positive := Resource 0x100 0x1ff 0 (Some 1%positive) None None;
     3%positive := Resource 0x200 0x2ff 0 None None None ]}.

Lemma tree_level : level tree 1 [2%positive].
Proof.
  eexists. split; [reflexivity|]. split; [reflexivity|]. eexists. split; [reflexivity|].
  simpl. split_and!; lia || done.
Qed.

Lemma tree_wf : tree_ok tree.
Proof.
  intros x r Hr. unfold tree in Hr.
  apply lookup_insert_Some in Hr as [[<- <-]|[_ Hr]]; [exists [2%positive]; apply tree_level|].
  apply lookup_insert_Some in Hr as [[<- <-]|[_ Hr]];
    [exists []; eexists; split; [reflexivity|done]|].
  apply lookup_singleton_Some in Hr as [<- <-]. exists []. eexists. split; [reflexivity|done].
Qed.

Lemma tree_detached : detached tree 1 3.
Proof. split; [done|]. eexists. split; [reflexivity|]. split; [done|]. by intros rr [= <-]. Qed.

Lemma tree_free : free_range tree (Resource 0 0xfffff 0 None None (Some 2%positive)) [2%positive] 0x200 0x2ff.
Proof.
  split_and!; simpl; try lia. intros y ry ->%list_elem_of_singleton Hry [_ Hov].
  change (tree !! 2%positive) with (Some (Resource 0x100 0x1ff 0 (Some 1%positive) None None)) in Hry.
  injection Hry as <-. simpl in Hov. lia.
Qed.

Lemma request_resource_correct_witness :
  ∃ h', request_resource 9 1 3 tree = Some (0, h') ∧ tree_ok h'.
Proof.
  destruct (request_resource_correct 9 1 3 tree [2%positive] _ _ tree_wf eq_refl eq_refl tree_detached
    tree_level) as [Hok _]; [set_solver|simpl; lia|].
  destruct (Hok tree_free) as (h' & _ & _ & Hrun & _ & _ & Ht). exists h'. split; [exact Hrun|exact Ht].
Defined.

Lemma request_release_restores_witness :
  ∃ h' s, request_resource 9 1 3 tree = Some (0, h') ∧
    release_resource 9 3 h' = Some (0, <[3%positive := set_sibling s (Resource 0x200 0x2ff 0 None None None)]> tree).
Proof.
  eexists.
  edestruct (request_release_restores 9 1 3 tree [2%positive]) as [(s & Hrel) _];
    [exact tree_wf|reflexivity|reflexivity|exact tree_detached|exact tree_level|set_solver|simpl; lia|reflexivity|].
  exists s. split; [reflexivity|exact Hrel].
Defined.

(** All addresses, as in iomem_resource, with the RAM of the board taken. *)
Definition iomem : heap :=
  {[ 1%positive := Resource 0 0xffffffff 0 None None (Some 2%positive);
     2%positive := Resource 0 0x3ffffff 0 (Some 1%positive) None None;
     3%positive := Resource 0 0 0 None None None ]}.

Lemma iomem_level : level iomem 1 [2%positive].
Proof.
  eexists. split; [reflexivity|]. split; [reflexivity|]. eexists. split; [reflexivity|].
  simpl. split_and!; lia || done.
Qed.

Lemma iomem_wf : tree_ok iomem.
Proof.
  intros x r Hr. unfold iomem in Hr.
  apply lookup_insert_Some in Hr as [[<- <-]|[_ Hr]]; [exists [2%positive]; apply iomem_level|].
  apply lookup_insert_Some in Hr as [[<- <-]|[_ Hr]];
    [exists []; eexists; split; [reflexivity|done]|].
  apply lookup_singleton_Some in Hr as [<- <-]. exists []. eexists. split; [reflexivity|done].
Qed.

Lemma iomem_detached : detached iomem 1 3.
Proof. split; [done|]. eexists. split; [reflexivity|]. split; [done|]. by intros rr [= <-]. Qed.

Lemma iomem_low k : 0 <= k <= 16 -> low iomem [2%positive] k.
Proof.
  intros Hk y ry ->%list_elem_of_singleton Hry. assert (ry = Resource 0 0x3ffffff 0 (Some 1%positive) None None) as -> by (injection Hry as <-; reflexivity). cbn [r_end].
  assert (2 ^ k <= 2 ^ 16) by (apply Z.pow_le_mono_r; lia). lia.
Qed.

(** A page is found behind the RAM. *)
Lemma allocate_resource_first_fit_witness :
  ∃ h' r', allocate_resource 9 1 3 0x1000 0 0xffffffff (2 ^ 12) iomem = Some (0, h') ∧ tree_ok h' ∧
    h' !! 3%positive = Some r' ∧ r_start r' = 0x4000000.
Proof.
  assert (match allocate_resource 9 1 3 0x1000 0 0xffffffff (2 ^ 12) iomem with Some (err, h') => (err, r_start <$> h' !! 3%positive) | None => (1, None) end
    = (0, Some 0x4000000)) as Hval by (vm_compute; reflexivity).
  destruct (allocate_resource_first_fit 0x1000 0 0xffffffff 12) with (fuel := 9%nat) (root := 1%positive)
    (new := 3%positive) (h := iomem) (l := [2%positive])
    (rr := Resource 0 0xffffffff 0 None None (Some 2%positive)) (rn := Resource 0 0 0 None None None)
    as (err & h' & Hrun & Hres);
    lazymatch goal with |- ∃ _, _ => idtac | _ => first [exact iomem_wf | exact iomem_detached | exact iomem_level | reflexivity | set_solver | simpl; lia | apply iomem_low; lia] end.
  rewrite Hrun in Hval. injection Hval as -> Hst. destruct Hres as [(_ & s & l1 & l2 & r' & _ & _ & Ht & Hr & _)|[Herr _]]; [|discriminate Herr].
  exists h', r'. rewrite Hr in Hst. injection Hst as Hst. split; [exact Hrun|]. split; [exact Ht|]. split; [exact Hr|exact Hst].
Defined.

(** Address space up to the last byte, with the top page partly taken. *)
Definition full : heap :=
  {[ 1%positive := Resource 0 0xffffffff 0 None None (Some 2%positive);
     2%positive := Resource 0x80000000 0xfffff7ff 0 (Some 1%positive) None None;
     3%positive := Resource 0 0 0 None None None ]}.

(** Without the bound on the range, [allocate_resource] breaks its
    contract: asked for 256 bytes at or above 0x80000000 in a full upper half,
    rounding up wraps around and it hands out addresses from 0. *)
Theorem allocate_resource_wraps :
  ∃ h' r', allocate_resource 9 1 3 0x100 0x80000000 0xffffffff 0x1000 full = Some (0, h') ∧
    h' !! 3%positive = Some r' ∧ r_start r' = 0 ∧ r_start r' < 0x80000000.
Proof. eexists _, _. split; [vm_compute; reflexivity|]. split; [vm_compute; reflexivity|]. done. Qed.

End ResourceDemo.
