(* ===== verification/Uart.v ===== *)
(** drivers/serial/mp25xxf_uart.c: the UART driver of the MP2520F, with the
    inline helpers of include/linux/serial_core.h and circ_buf.h it uses.

    The driver runs on the interrupt layer of [Genirq] with the chips of
    [Mp2520fIrq]: the machine is the device bus plus the table of ports.  The
    transmit ring, the receive flip buffer and the counters of the serial core
    are fields of the port; the wake-up tasklet, the flip-buffer work and the
    port lock are reduced to what the driver can observe of them.
    CONFIG_SERIAL_MP25XXF_CONSOLE and CONFIG_MAGIC_SYSRQ are set, so SysRq is
    supported; the SysRq and SAK actions themselves are parameters. *)

From S2P Require Import Prelude.
From S2P Require Import Hw.
From S2P Require Import Genirq.
From S2P Require Import Mp2520fIrq.
From S2P Require Import Mp2520fBoard.

(** regs-uart.h *)
Definition UCON_SEND_BREAK : Z := BIT 4.
Definition MCON_DTR_ACTIVE : Z := BIT 1.
Definition MCON_RTS_ACTIVE : Z := BIT 0.
Definition TRSTATUS_TRANSMITTER_EMPTY : Z := BIT 2.
Definition ESTATUS_BREAK_DETECT : Z := BIT 3.
Definition ESTATUS_FRAME_ERROR : Z := BIT 2.
Definition ESTATUS_PARITY_ERROR : Z := BIT 1.
Definition ESTATUS_OVERRUN_ERROR : Z := BIT 0.
Definition ESTATUS_ANY : Z :=
  Z.lor (Z.lor ESTATUS_OVERRUN_ERROR ESTATUS_FRAME_ERROR) ESTATUS_BREAK_DETECT.
Definition FSTATUS_TX_FIFO_FULL : Z := BIT 9.
Definition FSTATUS_RX_FIFO_COUNT : Z := 0xf.
Definition MSTATUS_DCD : Z := BIT 3.
Definition MSTATUS_RI : Z := BIT 2.
Definition MSTATUS_DSR : Z := BIT 1.
Definition MSTATUS_CTS : Z := BIT 0.
Definition MP25XXF_UART_SIZE : Z := 0x20.

(** asm-arm/termios.h, ioctls.h, termbits.h; linux/tty.h, serial_core.h *)
Definition TIOCM_DTR : Z := 0x002.
Definition TIOCM_RTS : Z := 0x004.
Definition TIOCM_CTS : Z := 0x020.
Definition TIOCM_CAR : Z := 0x040.
Definition TIOCM_RI : Z := 0x080.
Definition TIOCM_DSR : Z := 0x100.
Definition TIOCSER_TEMT : Z := 0x01.
Definition IGNBRK : Z := 1.
Definition IGNPAR : Z := 4.
Definition INPCK : Z := 16.
Definition CREAD : Z := 128.
Definition TTY_NORMAL : Z := 0.
Definition TTY_BREAK : Z := 1.
Definition TTY_FRAME : Z := 2.
Definition TTY_PARITY : Z := 3.
Definition TTY_OVERRUN : Z := 4.
Definition UPF_SAK : Z := BIT 2.
Definition UPF_BOOT_AUTOCONF : Z := BIT 28.
Definition UART_CONFIG_TYPE : Z := BIT 0.
Definition UART_XMIT_SIZE : Z := 4096.
Definition WAKEUP_CHARS : Z := 256.
Definition PORT_UNKNOWN : Z := 0.
Definition PORT_MP25XXF : Z := 74.
Definition RXSTAT_DUMMY_READ : Z := 0x10000000.
Definition NR_PORTS : nat := 4.

(** * State *)

Record icount := Icount { ic_rx : Z; ic_tx : Z; ic_brk : Z; ic_frame : Z; ic_overrun : Z }.

(** [struct mp25xxf_uart_port] with the parts of [struct uart_port],
    [uart_info] and [tty_struct] the driver reads or writes. *)
Record uart_port := UartPort {
  p_type : Z;
  mapbase : Z;
  fifosize : Z;
  p_flags : Z;
  p_line : Z;
  x_char : Z;
  icounts : icount;
  read_status_mask : Z;
  ignore_status_mask : Z;
  p_sysrq : Z;            (* jiffies until which a SysRq key is expected, or 0 *)
  p_console : bool;       (* the port is the console *)
  xmit_buf : list Z;
  xmit_head : Z;
  xmit_tail : Z;
  tty_stopped : bool;     (* tty->stopped || tty->hw_stopped *)
  flip : list (Z * Z);    (* characters with their flag, oldest first *)
  tx_woken : bool;
  txirq : Z;
  rxirq : Z;
  rx_claimed : bool;
  tx_claimed : bool;
}.

Definition set_icounts c p := UartPort (p_type p) (mapbase p) (fifosize p) (p_flags p) (p_line p)
  (x_char p) c (read_status_mask p) (ignore_status_mask p) (p_sysrq p) (p_console p) (xmit_buf p)
  (xmit_head p) (xmit_tail p) (tty_stopped p) (flip p) (tx_woken p) (txirq p) (rxirq p)
  (rx_claimed p) (tx_claimed p).
Definition set_x_char c p := UartPort (p_type p) (mapbase p) (fifosize p) (p_flags p) (p_line p)
  c (icounts p) (read_status_mask p) (ignore_status_mask p) (p_sysrq p) (p_console p) (xmit_buf p)
  (xmit_head p) (xmit_tail p) (tty_stopped p) (flip p) (tx_woken p) (txirq p) (rxirq p)
  (rx_claimed p) (tx_claimed p).
Definition set_masks r i p := UartPort (p_type p) (mapbase p) (fifosize p) (p_flags p) (p_line p)
  (x_char p) (icounts p) r i (p_sysrq p) (p_console p) (xmit_buf p)
  (xmit_head p) (xmit_tail p) (tty_stopped p) (flip p) (tx_woken p) (txirq p) (rxirq p)
  (rx_claimed p) (tx_claimed p).
Definition set_sysrq t p := UartPort (p_type p) (mapbase p) (fifosize p) (p_flags p) (p_line p)
  (x_char p) (icounts p) (read_status_mask p) (ignore_status_mask p) t (p_console p) (xmit_buf p)
  (xmit_head p) (xmit_tail p) (tty_stopped p) (flip p) (tx_woken p) (txirq p) (rxirq p)
  (rx_claimed p) (tx_claimed p).
Definition set_tail t p := UartPort (p_type p) (mapbase p) (fifosize p) (p_flags p) (p_line p)
  (x_char p) (icounts p) (read_status_mask p) (ignore_status_mask p) (p_sysrq p) (p_console p) (xmit_buf p)
  (xmit_head p) t (tty_stopped p) (flip p) (tx_woken p) (txirq p) (rxirq p)
  (rx_claimed p) (tx_claimed p).
Definition set_flip f p := UartPort (p_type p) (mapbase p) (fifosize p) (p_flags p) (p_line p)
  (x_char p) (icounts p) (read_status_mask p) (ignore_status_mask p) (p_sysrq p) (p_console p) (xmit_buf p)
  (xmit_head p) (xmit_tail p) (tty_stopped p) f (tx_woken p) (txirq p) (rxirq p)
  (rx_claimed p) (tx_claimed p).
Definition set_woken b p := UartPort (p_type p) (mapbase p) (fifosize p) (p_flags p) (p_line p)
  (x_char p) (icounts p) (read_status_mask p) (ignore_status_mask p) (p_sysrq p) (p_console p) (xmit_buf p)
  (xmit_head p) (xmit_tail p) (tty_stopped p) (flip p) b (txirq p) (rxirq p)
  (rx_claimed p) (tx_claimed p).
Definition set_claims r t p := UartPort (p_type p) (mapbase p) (fifosize p) (p_flags p) (p_line p)
  (x_char p) (icounts p) (read_status_mask p) (ignore_status_mask p) (p_sysrq p) (p_console p) (xmit_buf p)
  (xmit_head p) (xmit_tail p) (tty_stopped p) (flip p) (tx_woken p) (txirq p) (rxirq p) r t.

(** What [mp25xxf_uart_probe] writes: everything but the run-time state. *)
Definition set_probe ty base rx tx fifo fl line p := UartPort ty base fifo fl line
  (x_char p) (icounts p) (read_status_mask p) (ignore_status_mask p) (p_sysrq p) (p_console p) (xmit_buf p)
  (xmit_head p) (xmit_tail p) (tty_stopped p) (flip p) (tx_woken p) tx rx
  (rx_claimed p) (tx_claimed p).

(** The machine: the port table and the device. *)
Record umach (D : Type) := UMach { ports : list uart_port; udev : D }.
Arguments UMach {D}.
Arguments ports {D}.
Arguments udev {D}.

#[export] Instance umach_bus {D} `{Bus D} : Bus (umach D) := {|
  bus_load := λ r m, let '(v, d) := bus_load r (udev m) in (v, UMach (ports m) d);
  bus_store := λ r v m, UMach (ports m) (bus_store r v (udev m)) |}.

(** The interrupt handlers of a port. *)
Inductive uart_handler := mp25xxf_tx (i : nat) | mp25xxf_rx (i : nat).

Section Driver.
Context {D : Type} `{Bus D}.
Abbreviation usys := (irqsys demux uart_handler (umach D)).
Implicit Types p : uart_port.

(** [&mp25xxf_uart_ports[i]], read and written in place. *)
Definition port_of (i : nat) : Sf usys uart_port := ftry (λ s, ports (mach s) !! i).
Definition upd_port (i : nat) (f : uart_port -> uart_port) : Sf usys unit := λ s,
  match ports (mach s) !! i with
  | Some p => Some (tt, set_mach (UMach (<[i := f p]> (ports (mach s))) (udev (mach s))) s)
  | None => None
  end.

(** The address of a port structure, as the [dev_id] cookie of its lines. *)
Definition cookie (i : nat) : Z := 0xc0400000 + 0x100 * Z.of_nat i.

(** ** Start and stop *)

Definition mp25xxf_uart_start_tx (i : nat) : Sf usys unit :=
  p ← port_of i;
  fwhen (negb (tx_claimed p))
    (enable_irq (txirq p) ;; upd_port i (λ p, set_claims (rx_claimed p) true p)).

Definition mp25xxf_uart_stop_tx (i : nat) : Sf usys unit :=
  p ← port_of i;
  fwhen (tx_claimed p)
    (disable_irq (txirq p) ;; upd_port i (λ p, set_claims (rx_claimed p) false p)).

Definition mp25xxf_uart_stop_rx (i : nat) : Sf usys unit :=
  p ← port_of i;
  fwhen (rx_claimed p)
    (disable_irq (rxirq p) ;; upd_port i (λ p, set_claims false (tx_claimed p) p)).

Definition mp25xxf_uart_break_ctl (i : nat) (break_state : Z) : Sf usys unit :=
  p ← port_of i;
  ucon ← hw (rd (UCONx (mapbase p)));
  hw (wr (UCONx (mapbase p))
    (if break_state =? 0 then clr ucon UCON_SEND_BREAK else Z.lor ucon UCON_SEND_BREAK)).

(** ** Receive interrupt *)

(** The SysRq command and the secure attention key. *)
Context (handle_sysrq : Z -> usys -> usys) (do_SAK : usys -> usys).

Definition bump_rx c := Icount (u32 (ic_rx c + 1)) (ic_tx c) (ic_brk c) (ic_frame c) (ic_overrun c).
Definition bump_tx c := Icount (ic_rx c) (u32 (ic_tx c + 1)) (ic_brk c) (ic_frame c) (ic_overrun c).
Definition bump_brk c := Icount (ic_rx c) (ic_tx c) (u32 (ic_brk c + 1)) (ic_frame c) (ic_overrun c).
Definition bump_frame c := Icount (ic_rx c) (ic_tx c) (ic_brk c) (u32 (ic_frame c + 1)) (ic_overrun c).
Definition bump_overrun c := Icount (ic_rx c) (ic_tx c) (ic_brk c) (ic_frame c) (u32 (ic_overrun c + 1)).

(** serial_core.h: uart_handle_break *)
Definition uart_handle_break (i : nat) : Sf usys bool :=
  p ← port_of i;
  j ← fget jiffies;
  if p_console p && (p_sysrq p =? 0) then
    upd_port i (set_sysrq (u32 (j + HZ * 5))) ;; mret true
  else
    fwhen (p_console p) (upd_port i (set_sysrq 0)) ;;
    fwhen (tst (p_flags p) UPF_SAK) (fmodify do_SAK) ;;
    mret false.

(** serial_core.h: uart_handle_sysrq_char *)
Definition uart_handle_sysrq_char (i : nat) (ch : Z) : Sf usys bool :=
  p ← port_of i;
  j ← fget jiffies;
  if p_sysrq p =? 0 then mret false
  else if negb (ch =? 0) && (s32 (u32 (j - p_sysrq p)) <? 0) then
    fmodify (handle_sysrq ch) ;; upd_port i (set_sysrq 0) ;; mret true
  else upd_port i (set_sysrq 0) ;; mret false.

(** serial_core.h: uart_insert_char; the flip buffer keeps a byte per
    character. *)
Definition uart_insert_char (i : nat) (st overrun ch flag : Z) : Sf usys unit :=
  p ← port_of i;
  fwhen (clr (Z.land st (ignore_status_mask p)) overrun =? 0)
    (upd_port i (λ p, set_flip (flip p ++ [(u8 ch, flag)]) p)) ;;
  fwhen (tst (clr st (ignore_status_mask p)) overrun)
    (upd_port i (λ p, set_flip (flip p ++ [(0, TTY_OVERRUN)]) p)).

(** The flag of a character with error bits [estatus] (after masking). *)
Definition rx_flag (estatus : Z) : Z :=
  if tst estatus ESTATUS_BREAK_DETECT then TTY_BREAK
  else if tst estatus ESTATUS_PARITY_ERROR then TTY_PARITY
  else if tst estatus (Z.lor ESTATUS_FRAME_ERROR ESTATUS_OVERRUN_ERROR) then TTY_FRAME
  else TTY_NORMAL.

(** One turn of the [while] of mp25xxf_rx_int, after the FIFO test. *)
Definition rx_char (i : nat) : Sf usys unit :=
  p ← port_of i;
  ch ← hw (rd (RHBx (mapbase p)));
  upd_port i (λ p, set_icounts (bump_rx (icounts p)) p) ;;
  estatus ← hw (rd (ESTATUSx (mapbase p)));
  '(skip, estatus, flag) ← (
    if tst estatus ESTATUS_ANY then
      skip ← (if tst estatus ESTATUS_BREAK_DETECT then
                upd_port i (λ p, set_icounts (bump_brk (icounts p)) p) ;; uart_handle_break i
              else mret false);
      if (skip : bool) then mret (true, estatus, TTY_NORMAL)
      else
        fwhen (tst estatus ESTATUS_FRAME_ERROR) (upd_port i (λ p, set_icounts (bump_frame (icounts p)) p)) ;;
        fwhen (tst estatus ESTATUS_OVERRUN_ERROR) (upd_port i (λ p, set_icounts (bump_overrun (icounts p)) p)) ;;
        p ← port_of i;
        let estatus := Z.land estatus (read_status_mask p) in
        mret (false, estatus, rx_flag estatus)
    else mret (false, estatus, TTY_NORMAL) : Sf usys (bool * Z * Z));
  if (skip : bool) then mret tt
  else
    eaten ← uart_handle_sysrq_char i ch;
    if (eaten : bool) then mret tt
    else uart_insert_char i estatus ESTATUS_OVERRUN_ERROR ch flag.

Fixpoint rx_loop (max_count : nat) (i : nat) : Sf usys unit :=
  match max_count with
  | O => mret tt
  | S n =>
      p ← port_of i;
      fs ← hw (rd (FSTATUSx (mapbase p)));
      if tst fs FSTATUS_RX_FIFO_COUNT then rx_char i ;; rx_loop n i else mret tt
  end.

(** The push of the flip buffer only schedules work. *)
Definition mp25xxf_rx_int (i : nat) : Sf usys Z :=
  p ← port_of i;
  rx_loop (Z.to_nat (fifosize p)) i ;;
  mret IRQ_HANDLED.

(** ** Transmit interrupt *)

Definition uart_circ_empty p : bool := xmit_head p =? xmit_tail p.
Definition uart_circ_chars_pending p : Z :=
  Z.land (u32 (xmit_head p - xmit_tail p)) (UART_XMIT_SIZE - 1).

Fixpoint tx_loop (count : nat) (i : nat) : Sf usys unit :=
  p ← port_of i;
  if uart_circ_empty p then mret tt
  else
    match count with
    | O => mret tt
    | S n =>
        fs ← hw (rd (FSTATUSx (mapbase p)));
        if tst fs FSTATUS_TX_FIFO_FULL then mret tt
        else
          c ← ftry (λ _, xmit_buf p !! Z.to_nat (xmit_tail p));
          hw (wr (THBx (mapbase p)) c) ;;
          upd_port i (λ p, set_icounts (bump_tx (icounts p))
            (set_tail (Z.land (xmit_tail p + 1) (UART_XMIT_SIZE - 1)) p)) ;;
          tx_loop n i
    end.

Definition mp25xxf_tx_int (i : nat) : Sf usys Z :=
  p ← port_of i;
  if negb (x_char p =? 0) then
    hw (wr (THBx (mapbase p)) (x_char p)) ;;
    upd_port i (λ p, set_x_char 0 (set_icounts (bump_tx (icounts p)) p)) ;;
    mret IRQ_HANDLED
  else if uart_circ_empty p || tty_stopped p then
    mp25xxf_uart_stop_tx i ;; mret IRQ_HANDLED
  else
    tx_loop 16 i ;;
    p ← port_of i;
    fwhen (uart_circ_chars_pending p <? WAKEUP_CHARS) (upd_port i (set_woken true)) ;;
    p ← port_of i;
    fwhen (uart_circ_empty p) (mp25xxf_uart_stop_tx i) ;;
    mret IRQ_HANDLED.

(** The dispatch of the interrupt layer. *)
Definition uart_run_handler (h : uart_handler) (irq dev : Z) : Sf usys Z :=
  match h with mp25xxf_tx i => mp25xxf_tx_int i | mp25xxf_rx i => mp25xxf_rx_int i end.

(** ** The uart_ops *)

Definition mp25xxf_uart_tx_empty (i : nat) : Sf usys Z :=
  p ← port_of i;
  v ← hw (rd (TRSTATUSx (mapbase p)));
  mret (if tst v TRSTATUS_TRANSMITTER_EMPTY then TIOCSER_TEMT else 0).

Definition mp25xxf_uart_set_mctrl (i : nat) (mctrl : Z) : Sf usys unit :=
  p ← port_of i;
  mcon ← hw (rd (MCONx (mapbase p)));
  let mcon := if tst mctrl TIOCM_RTS then Z.lor mcon MCON_RTS_ACTIVE else clr mcon MCON_RTS_ACTIVE in
  let mcon := if tst mctrl TIOCM_DTR then Z.lor mcon MCON_DTR_ACTIVE else clr mcon MCON_DTR_ACTIVE in
  hw (wr (MCONx (mapbase p)) mcon).

Definition mp25xxf_uart_get_mctrl (i : nat) : Sf usys Z :=
  p ← port_of i;
  mstatus ← hw (rd (MSTATUSx (mapbase p)));
  let tmp := if tst mstatus MSTATUS_DSR then TIOCM_DSR else 0 in
  let tmp := if tst mstatus MSTATUS_CTS then Z.lor tmp TIOCM_CTS else tmp in
  let tmp := if tst mstatus MSTATUS_RI then Z.lor tmp TIOCM_RI else tmp in
  let tmp := if tst mstatus MSTATUS_DCD then Z.lor tmp TIOCM_CAR else tmp in
  mret tmp.

(** UCON_RECEIVE_MODEx(1) | UCON_TRANS_MODEx(1) | UCON_RX_TIMEOUT and
    FCON_FIFO_EN | FCON_TX_FIFO_RESET | FCON_RX_FIFO_RESET; [mem] says whether
    the two allocations of request_irq succeed. *)
Definition mp25xxf_uart_startup (mem_tx mem_rx : bool) (i : nat) : Sf usys Z :=
  p ← port_of i;
  hw (wr (UCONx (mapbase p)) (Z.lor (Z.lor 1 (Z.shiftl 1 2)) UCON_RX_TIMEOUT)) ;;
  ret ← request_irq uart_run_handler mem_tx (txirq p) (Some (mp25xxf_tx i)) 0 (cookie i);
  if negb (ret =? 0) then mret ret
  else
    ret ← request_irq uart_run_handler mem_rx (rxirq p) (Some (mp25xxf_rx i)) 0 (cookie i);
    if negb (ret =? 0) then free_irq uart_run_handler (txirq p) (cookie i) ;; mret ret
    else
      upd_port i (set_claims true true) ;;
      hw (wr (FCONx (mapbase p)) (Z.lor (Z.lor 1 (BIT 2)) (BIT 1))) ;;
      _ ← hw (rd (FCONx (mapbase p)));
      mret ret.

Definition mp25xxf_uart_shutdown (i : nat) : Sf usys unit :=
  p ← port_of i;
  fwhen (tx_claimed p)
    (free_irq uart_run_handler (txirq p) (cookie i) ;; upd_port i (λ p, set_claims (rx_claimed p) false p)) ;;
  fwhen (rx_claimed p)
    (free_irq uart_run_handler (rxirq p) (cookie i) ;; upd_port i (λ p, set_claims false (tx_claimed p) p)).

(** The masks of mp25xxf_uart_set_termios for [c_iflag] and [c_cflag]. *)
Definition termios_read_mask (iflag : Z) : Z :=
  if tst iflag INPCK then Z.lor ESTATUS_OVERRUN_ERROR (Z.lor ESTATUS_FRAME_ERROR ESTATUS_PARITY_ERROR)
  else ESTATUS_OVERRUN_ERROR.
Definition termios_ignore_mask (iflag cflag : Z) : Z :=
  let m := if tst iflag IGNPAR then ESTATUS_OVERRUN_ERROR else 0 in
  let m := if tst iflag IGNBRK && tst iflag IGNPAR then Z.lor m ESTATUS_PARITY_ERROR else m in
  if Z.land cflag CREAD =? 0 then Z.lor m RXSTAT_DUMMY_READ else m.

Definition mp25xxf_uart_set_termios (i : nat) (iflag cflag : Z) : Sf usys unit :=
  upd_port i (set_masks (termios_read_mask iflag) (termios_ignore_mask iflag cflag)).

Definition mp25xxf_uart_verify_port (type : Z) : Z :=
  if negb (type =? PORT_UNKNOWN) && negb (type =? PORT_MP25XXF) then - EINVAL else 0.

(** ** Probe *)

(** [uart_add_one_port] hands the port to the serial core. *)
Definition mp25xxf_uart_probe (uart_add_one_port : nat -> Sf usys unit) (pdev : platform_device) : Sf usys Z :=
  let i := Z.to_nat (pd_id pdev) in
  match platform_get_resource (pd_resource pdev) IORESOURCE_MEM 0 with
  | None => mret (- EINVAL)
  | Some res =>
      upd_port i (set_probe PORT_MP25XXF (pr_start res)
        (platform_get_irq (pd_resource pdev) 0) (platform_get_irq (pd_resource pdev) 1)
        16 UPF_BOOT_AUTOCONF (pd_id pdev)) ;;
      uart_add_one_port i ;;
      mret 0
  end.
End Driver.

(** The static initialiser of [mp25xxf_uart_ports]. *)
Definition static_port (base tx rx : Z) : uart_port :=
  UartPort PORT_MP25XXF base 16 UPF_BOOT_AUTOCONF 0 0 (Icount 0 0 0 0 0) 0 0 0 false
    [] 0 0 false [] false tx rx false false.
Definition mp25xxf_uart_ports : list uart_port :=
  [static_port 0xc0001200 (1 + IRQ_UART_START) (0 + IRQ_UART_START);
   static_port 0xc0001220 (5 + IRQ_UART_START) (4 + IRQ_UART_START);
   static_port 0xc0001240 (9 + IRQ_UART_START) (8 + IRQ_UART_START);
   static_port 0xc0001260 (13 + IRQ_UART_START) (12 + IRQ_UART_START)].

(** * Running the driver *)

Section Runs.
Context {D : Type} `{Bus D}.
Abbreviation usys := (irqsys demux uart_handler (umach D)).
Implicit Types (s : usys) (p : uart_port) (i : nat).

Definition put_port i p s : usys := set_mach (UMach (<[i := p]> (ports (mach s))) (udev (mach s))) s.
Definition put_dev (d : D) s : usys := set_mach (UMach (ports (mach s)) d) s.

Lemma port_of_run i p s : ports (mach s) !! i = Some p -> port_of i s = Some (p, s).
Proof. intros Hp. unfold port_of, ftry. by rewrite Hp. Qed.

Lemma upd_port_run i f p s : ports (mach s) !! i = Some p -> upd_port i f s = Some (tt, put_port i (f p) s).
Proof. intros Hp. unfold upd_port. by rewrite Hp. Qed.

Lemma hw_rd_run r s : hw (rd r) s =
  Some (wrap (reg_width r) (bus_load r (udev (mach s))).1, put_dev (bus_load r (udev (mach s))).2 s).
Proof. unfold hw, rd, put_dev. simpl. by destruct (bus_load r (udev (mach s))). Qed.

Lemma hw_wr_run r v s : hw (wr r v) s =
  Some (tt, put_dev (bus_store r (wrap (reg_width r) v) (udev (mach s))) s).
Proof. done. Qed.

Lemma ports_put_dev d s : ports (mach (put_dev d s)) = ports (mach s).
Proof. done. Qed.

Lemma ports_put_port i p s q : ports (mach s) !! i = Some q -> ports (mach (put_port i p s)) !! i = Some p.
Proof. intros Hq. simpl. apply list_lookup_insert_eq. by apply lookup_lt_Some in Hq. Qed.

(** Two writes to the machine: the last one wins. *)
Lemma put_port_dev i p d s : put_port i p (put_dev d s) = set_mach (UMach (<[i := p]> (ports (mach s))) d) s.
Proof. done. Qed.

Lemma or_reg_ports r v (m : umach D) : ports (exec (or_reg r v) m) = ports m.
Proof.
  assert (ports (bus_load r m).2 = ports m) as Hl by (simpl; by destruct (bus_load r (udev m))).
  unfold or_reg, exec, mbind, St_bind, rd, wr. destruct (bus_load r m) as [x m1]. exact Hl.
Qed.

(** ** The transmit ring *)

Fixpoint ring_from (buf : list Z) (tail : Z) (n : nat) : list Z :=
  match n with
  | O => []
  | S n => default 0 (buf !! Z.to_nat tail) :: ring_from buf ((tail + 1) mod UART_XMIT_SIZE) n
  end.

(** The characters waiting in the ring, oldest first. *)
Definition ring p : list Z :=
  ring_from (xmit_buf p) (xmit_tail p) (Z.to_nat ((xmit_head p - xmit_tail p) mod UART_XMIT_SIZE)).

Definition ring_ok p : Prop :=
  length (xmit_buf p) = Z.to_nat UART_XMIT_SIZE ∧ Forall (in_u 8) (xmit_buf p) ∧
  0 <= xmit_head p < UART_XMIT_SIZE ∧ 0 <= xmit_tail p < UART_XMIT_SIZE.

Definition next_tail (t : Z) : Z := Z.land (t + 1) (UART_XMIT_SIZE - 1).

Lemma next_tail_mod t : next_tail t = (t + 1) mod UART_XMIT_SIZE.
Proof. unfold next_tail, UART_XMIT_SIZE. change (4096 - 1) with (Z.ones 12). by rewrite Z.land_ones. Qed.

Lemma ring_empty p : ring_ok p -> uart_circ_empty p = true <-> ring p = [].
Proof.
  intros (_ & _ & Hh & Ht). unfold uart_circ_empty, ring. rewrite Z.eqb_eq. split.
  - intros ->. by rewrite Z.sub_diag.
  - unfold UART_XMIT_SIZE in *. intros Hr.
    destruct (Z.to_nat ((xmit_head p - xmit_tail p) mod 4096)) eqn:Hn; [|done].
    pose proof (Z.mod_pos_bound (xmit_head p - xmit_tail p) 4096 ltac:(lia)).
    pose proof (Z.div_mod (xmit_head p - xmit_tail p) 4096 ltac:(lia)). lia.
Qed.

(** Taking one character out. *)
Definition tx_one p : uart_port := set_icounts (bump_tx (icounts p)) (set_tail (next_tail (xmit_tail p)) p).

Lemma ring_pop p : ring_ok p -> uart_circ_empty p = false ->
  ∃ c, xmit_buf p !! Z.to_nat (xmit_tail p) = Some c ∧ in_u 8 c ∧
    ring p = c :: ring (tx_one p) ∧ ring_ok (tx_one p).
Proof.
  intros (Hl & Hb & Hh & Ht) He. apply Z.eqb_neq in He.
  assert (is_Some (xmit_buf p !! Z.to_nat (xmit_tail p))) as [c Hc].
  { apply lookup_lt_is_Some. rewrite Hl. unfold UART_XMIT_SIZE in *. lia. }
  exists c. split; [done|]. split; [by eapply Forall_lookup_1|].
  unfold ring_ok, ring. cbn [xmit_buf xmit_head xmit_tail tx_one set_icounts set_tail].
  rewrite next_tail_mod. unfold UART_XMIT_SIZE in *.
  pose proof (Z.mod_pos_bound (xmit_tail p + 1) 4096 ltac:(lia)).
  split; [|split_and!; try done; lia].
  assert (0 < (xmit_head p - xmit_tail p) mod 4096) as Hpos.
  { pose proof (Z.mod_pos_bound (xmit_head p - xmit_tail p) 4096 ltac:(lia)).
    pose proof (Z.div_mod (xmit_head p - xmit_tail p) 4096 ltac:(lia)). lia. }
  assert ((xmit_head p - (xmit_tail p + 1) mod 4096) mod 4096 = (xmit_head p - xmit_tail p) mod 4096 - 1) as ->.
  { rewrite Zminus_mod_idemp_r. replace (xmit_head p - (xmit_tail p + 1)) with (xmit_head p - xmit_tail p - 1) by lia.
    rewrite <- Zminus_mod_idemp_l. apply Z.mod_small.
    pose proof (Z.mod_pos_bound (xmit_head p - xmit_tail p) 4096 ltac:(lia)). lia. }
  destruct (Z.to_nat ((xmit_head p - xmit_tail p) mod 4096)) as [|n] eqn:Hn; [lia|].
  replace (Z.to_nat ((xmit_head p - xmit_tail p) mod 4096 - 1)) with n by lia.
  cbn [ring_from]. rewrite Hc. cbn [default from_option]. unfold UART_XMIT_SIZE. done.
Qed.
End Runs.

(** * The transmitter of a port

    What is known of the device: a store to the transmit holding register
    queues the value, and no other access changes the queue. *)
Class UartTx (D : Type) `{Bus D} (b : Z) := {
  thb_log : D -> list Z;
  thb_store : ∀ v d, thb_log (bus_store (THBx b) v d) = thb_log d ++ [v];
  thb_load : ∀ r d, thb_log (bus_load r d).2 = thb_log d;
}.

Section Transmit.
Context {D : Type} `{Bus D} (b : Z) `{!UartTx D b}.
Abbreviation usys := (irqsys demux uart_handler (umach D)).
Implicit Types (s : usys) (p : uart_port) (i : nat).

Lemma set_mach_id s : set_mach (UMach (ports (mach s)) (udev (mach s))) s = s.
Proof. by destruct s as [? ? ? ? ? ? []]. Qed.

(** The transmit loop moves characters from the ring to the transmitter in
    order: exactly the [k] oldest are queued in the device and leave the ring,
    so no character is lost, repeated or reordered.  At most [n] move, one
    counter tick each; it stops before that only when the ring is empty or the
    transmit FIFO was read as full.  It never indexes outside the ring, and
    only the port and the device change. *)
Theorem tx_loop_conserves n i p s :
  ports (mach s) !! i = Some p -> mapbase p = b -> ring_ok p ->
  ∃ k p' d', tx_loop n i s = Some (tt, set_mach (UMach (<[i := p']> (ports (mach s))) d') s) ∧
    ring_ok p' ∧ (k <= n)%nat ∧ (k <= length (ring p))%nat ∧
    thb_log d' = thb_log (udev (mach s)) ++ take k (ring p) ∧
    ring p' = drop k (ring p) ∧
    u32 (ic_tx (icounts p')) = u32 (ic_tx (icounts p) + Z.of_nat k) ∧
    (k = n ∨ ring p' = [] ∨
     ∃ d1, tst (wrap 16 (bus_load (FSTATUSx (mapbase p)) d1).1) FSTATUS_TX_FIFO_FULL = true ∧
           d' = (bus_load (FSTATUSx (mapbase p)) d1).2) ∧
    mapbase p' = mapbase p ∧ txirq p' = txirq p ∧ tx_claimed p' = tx_claimed p.
Proof.
  revert p s. induction n as [|n IH]; intros p s Hp Hb Hr; cbn [tx_loop];
    rewrite (bind_run _ _ _ _ _ (port_of_run _ _ _ Hp)).
  - assert ((if uart_circ_empty p then mret tt else mret tt : Sf usys unit) s = Some (tt, s)) as ->
      by by destruct (uart_circ_empty p).
    exists 0%nat, p, (udev (mach s)). rewrite list_insert_id, set_mach_id, app_nil_r, Z.add_0_r by done.
    split_and!; try done; [lia|by left].
  - destruct (uart_circ_empty p) eqn:He.
    { exists 0%nat, p, (udev (mach s)). rewrite list_insert_id, set_mach_id, app_nil_r, Z.add_0_r by done.
      split_and!; try done; [lia..|]. right. left. by apply ring_empty. }
    rewrite (bind_run _ _ _ _ _ (hw_rd_run _ _)). set (d1 := (bus_load _ _).2).
    change (reg_width (FSTATUSx (mapbase p))) with 16.
    destruct (tst _ FSTATUS_TX_FIFO_FULL) eqn:Hfull.
    { exists 0%nat, p, d1. rewrite list_insert_id, app_nil_r, Z.add_0_r by done.
      split_and!; try done; [lia..|by apply thb_load|]. right. right. by exists (udev (mach s)). }
    destruct (ring_pop p Hr He) as (c & Hc & Hc8 & Hring & Hr').
    rewrite (bind_run _ _ (put_dev d1 s) c (put_dev d1 s)) by (unfold ftry; by rewrite Hc).
    rewrite (bind_run _ _ _ _ _ (hw_wr_run _ _ _)).
    change (reg_width (THBx (mapbase p))) with 16. rewrite (wrap_id 16) by (unfold in_u in *; lia).
    set (d2 := bus_store _ _ _). set (s2 := put_dev d2 (put_dev d1 s)).
    assert (ports (mach s2) !! i = Some p) as Hp2 by done.
    rewrite (bind_run _ _ _ _ _ (upd_port_run _ _ _ _ Hp2)). fold (next_tail (xmit_tail p)). fold (tx_one p).
    destruct (IH (tx_one p) (put_port i (tx_one p) s2))
      as (k & p' & d' & Hrun & Hok & Hkn & Hkl & Hlog & Hdrop & Hic & Hstop & Hids);
      [by eapply ports_put_port|done|done|].
    exists (S k), p', d'. rewrite Hring. cbn [length take drop].
    split_and!; try apply Hids; try done; [|lia|lia| | |].
    + rewrite Hrun. simpl. by rewrite list_insert_insert_eq.
    + rewrite Hlog. simpl. subst d2. rewrite Hb, thb_store. subst d1. simpl. rewrite thb_load.
      by rewrite <- app_assoc.
    + rewrite Hic. simpl. unfold u32. rewrite wrap_add_l. f_equal. lia.
    + destruct Hstop as [->|Hstop]; [by left|by right].
Qed.
End Transmit.

(** * The interrupt lines of a port *)

Section Lines.
Context {D : Type} `{Bus D}.
Abbreviation usys := (irqsys demux uart_handler (umach D)).
Implicit Types (s : usys) (p : uart_port) (i : nat) (d : irq_desc demux uart_handler).

(** Callbacks of the chip behind the lines: they act on the device only. *)
Context (ack mask unmask : Z -> umach D -> umach D).
Context (unmask_ports : ∀ irq m, ports (unmask irq m) = ports m).

(** Line [irq] carries the descriptor [d] behind that chip. *)
Definition on_line irq d s : Prop :=
  irq < NR_IRQS ∧ line irq s = Some d ∧ chips s !! chip d = Some (simple_chip ack mask unmask).

(** The transmit line of port [i] is enabled exactly when the driver's flag
    says so, and is disabled at most once. *)
Definition tx_balanced i s : Prop :=
  ∃ p d, ports (mach s) !! i = Some p ∧ on_line (txirq p) d s ∧
    tst (status d) IRQ_PENDING = false ∧ depth d = (if tx_claimed p then 0 else 1).

Lemma line_put_eq irq d0 d k r m s : line irq s = Some d0 ->
  line irq (put (Z.to_nat irq) d k r m s) = Some d.
Proof. intros Hd. apply line_put. by apply (lookup_has_line irq d0). Qed.

Lemma line_put_port irq i p s : line irq (put_port i p s) = line irq s.
Proof. done. Qed.

Lemma disable_run irq d s : on_line irq d s ->
  disable_irq irq s = Some (tt, put (Z.to_nat irq) (disabled_once d) (kstat_irqs s) (irqs_resend s) (mach s) s).
Proof.
  intros (Hr & Hd & Hc). unfold line in Hd. rewrite (run_put (disable_irq irq) irq d s Hd).
  apply (run_disable_irq irq ack mask unmask); [done|by apply (lookup_has_line irq d)|done].
Qed.

Lemma stop_tx_run i p d s : ports (mach s) !! i = Some p -> on_line (txirq p) d s -> tx_claimed p = true ->
  mp25xxf_uart_stop_tx i s = Some (tt, put_port i (set_claims (rx_claimed p) false p)
    (put (Z.to_nat (txirq p)) (disabled_once d) (kstat_irqs s) (irqs_resend s) (mach s) s)).
Proof.
  intros Hp Hl Hc. unfold mp25xxf_uart_stop_tx. rewrite (bind_run _ _ _ _ _ (port_of_run _ _ _ Hp)), Hc.
  cbn [fwhen]. rewrite (bind_run _ _ _ _ _ (disable_run _ _ _ Hl)). by rewrite (upd_port_run i _ p).
Qed.

Lemma stop_tx_balanced i s : tx_balanced i s ->
  ∃ s', mp25xxf_uart_stop_tx i s = Some (tt, s') ∧ tx_balanced i s' ∧
    ∀ p', ports (mach s') !! i = Some p' -> tx_claimed p' = false.
Proof.
  intros (p & d & Hp & Hl & Hpend & Hdep). destruct (tx_claimed p) eqn:Hc.
  - eexists. split; [by apply stop_tx_run|]. destruct Hl as (Hr & Hd & Hch).
    assert (∀ s0, ports (mach s0) !! i = Some p ->
      ports (mach (put_port i (set_claims (rx_claimed p) false p) s0)) !! i
      = Some (set_claims (rx_claimed p) false p)) as Hpp by (intros; by eapply ports_put_port).
    split; [|intros p'; rewrite Hpp by done; by intros [= <-]].
    exists (set_claims (rx_claimed p) false p), (disabled_once d).
    split; [by apply Hpp|]. unfold disabled_once. rewrite Hdep. cbn [Z.eqb].
    split_and!; [split_and!; [done|rewrite line_put_port; by apply (line_put_eq _ d)|done]| |done].
    unfold_status. by flags.
  - exists s. unfold mp25xxf_uart_stop_tx. rewrite (bind_run _ _ _ _ _ (port_of_run _ _ _ Hp)), Hc.
    split; [done|]. split; [exists p, d; by rewrite Hc|]. intros p' ?. by simplify_eq.
Qed.

Lemma start_tx_balanced i s : tx_balanced i s ->
  ∃ s', mp25xxf_uart_start_tx i s = Some (tt, s') ∧ tx_balanced i s' ∧
    ∀ p', ports (mach s') !! i = Some p' -> tx_claimed p' = true.
Proof.
  intros (p & d & Hp & (Hr & Hd & Hch) & Hpend & Hdep). unfold mp25xxf_uart_start_tx.
  rewrite (bind_run _ _ _ _ _ (port_of_run _ _ _ Hp)). destruct (tx_claimed p) eqn:Hc.
  - exists s. split; [done|]. split; [exists p, d; by rewrite Hc|]. intros p' ?. by simplify_eq.
  - cbn [negb fwhen]. unfold line in Hd. rewrite (run_put _ (txirq p) d s Hd).
    pose proof (lookup_has_line _ _ _ Hd) as Hlen.
    rewrite (bind_run _ _ _ _ _ (run_enable_irq_last _ ack mask unmask _ _ _ _ _ Hr Hlen Hch Hdep Hpend)).
    set (s1 := put _ _ _ _ _ _).
    assert (ports (mach s1) !! i = Some p) as Hp1 by (subst s1; simpl; by rewrite unmask_ports).
    rewrite (upd_port_run i _ p) by done. eexists. split; [done|].
    split; [|intros p'; rewrite (ports_put_port i _ s1 p) by done; by intros [= <-]].
    eexists _, _. split; [by eapply ports_put_port|].
    split_and!; [split_and!; [done|subst s1; rewrite line_put_port; by apply line_put|done]| |done].
    unfold_status. flags. done.
Qed.

Fixpoint tx_ops (i : nat) (l : list bool) : Sf usys unit :=
  match l with
  | [] => mret tt
  | b :: l => (if b then mp25xxf_uart_start_tx i else mp25xxf_uart_stop_tx i) ;; tx_ops i l
  end.

Lemma tx_ops_app i l1 l2 s s1 : tx_ops i l1 s = Some (tt, s1) -> tx_ops i (l1 ++ l2) s = tx_ops i l2 s1.
Proof.
  revert s. induction l1 as [|b l1 IH]; intros s; cbn [tx_ops app]; [by intros [= ->]|].
  intros (? & s2 & H1 & H2)%Sf_bind_Some. rewrite (bind_run _ _ _ _ _ H1). by apply IH.
Qed.

(** Start_tx and stop_tx calls in any order and number keep the transmit
    line balanced: no call faults, the disable depth is 0 or 1, and the line is
    enabled exactly when the last call was a start. *)
Theorem tx_start_stop_balanced i l s : tx_balanced i s ->
  ∃ s', tx_ops i l s = Some (tt, s') ∧ tx_balanced i s' ∧
    (∀ b p', last l = Some b -> ports (mach s') !! i = Some p' -> tx_claimed p' = b).
Proof.
  revert s. induction l as [|b l IH] using rev_ind; intros s Hb; [by exists s|].
  destruct (IH s Hb) as (s1 & Hrun & Hb1 & _). rewrite (tx_ops_app _ _ _ _ _ Hrun). cbn [tx_ops].
  destruct b; [destruct (start_tx_balanced i s1 Hb1) as (s2 & H2 & Hb2 & Hc2)
              |destruct (stop_tx_balanced i s1 Hb1) as (s2 & H2 & Hb2 & Hc2)];
    exists s2; rewrite (bind_run _ _ _ _ _ H2); (split; [done|]); (split; [done|]);
    intros b p'; rewrite last_snoc; intros [= <-] Hp'; by apply Hc2.
Qed.

(** ** Opening and closing a port *)

Context (handle_sysrq : Z -> usys -> usys) (do_SAK : usys -> usys).

(** A change to the machine or to another line. *)
Lemma free_line_mach irq d m s : free_line irq ack mask unmask d s -> free_line irq ack mask unmask d (set_mach m s).
Proof. intros []. by split. Qed.

Lemma free_line_other irq irq' d d' k r m s : Z.to_nat irq' <> Z.to_nat irq ->
  free_line irq ack mask unmask d s -> free_line irq ack mask unmask d (put (Z.to_nat irq') d' k r m s).
Proof. intros Hne []. split; try done. cbn. by rewrite list_lookup_insert_ne. Qed.

(** Both lines of a port carry its handlers, and the flags say so or not. *)
Record open_port i p (dt dr : irq_desc demux uart_handler) (tx rx : bool) s : Prop := OpenPort {
  op_port : ports (mach s) !! i = Some (set_claims rx tx p);
  op_tx : on_line (txirq p) dt s;
  op_rx : on_line (rxirq p) dr s;
  op_tx_action : action dt = [IrqAction (mp25xxf_tx i) 0 (cookie i)];
  op_rx_action : action dr = [IrqAction (mp25xxf_rx i) 0 (cookie i)];
  op_tx_real : chip dt <> no_irq_chip;
  op_tx_request : tst (status dt) IRQ_NOREQUEST = false;
}.

Lemma startup_opens i p dt dr s : ports (mach s) !! i = Some p -> Z.to_nat (txirq p) <> Z.to_nat (rxirq p) ->
  free_line (txirq p) ack mask unmask dt s -> free_line (rxirq p) ack mask unmask dr s ->
  ∃ s1 dt1 dr1, mp25xxf_uart_startup handle_sysrq do_SAK true true i s = Some (0, s1) ∧ open_port i p dt1 dr1 true true s1.
Proof.
  intros Hp Hne Ht Hr. unfold mp25xxf_uart_startup. rewrite (bind_run _ _ _ _ _ (port_of_run _ _ _ Hp)), (bind_run _ _ _ _ _ (hw_wr_run _ _ _)).
  set (s0 := put_dev _ s). assert (free_line (txirq p) ack mask unmask dt s0) as Ht0 by by apply free_line_mach.
  rewrite (bind_run _ _ _ _ _ (request_irq_free _ _ _ _ _ _ _ (mp25xxf_tx i) 0 (cookie i) Ht0 eq_refl eq_refl)). cbn [Z.eqb negb].
  set (s1 := put _ _ _ _ _ s0). assert (free_line (rxirq p) ack mask unmask dr s1) as Hr1 by by apply free_line_other, free_line_mach.
  rewrite (bind_run _ _ _ _ _ (request_irq_free _ _ _ _ _ _ _ (mp25xxf_rx i) 0 (cookie i) Hr1 eq_refl eq_refl)). cbn [Z.eqb negb].
  set (s2 := put _ _ _ _ _ s1). assert (ports (mach s2) !! i = Some p) as Hp2 by (cbn; by rewrite !unmask_ports).
  rewrite (bind_run _ _ _ _ _ (upd_port_run _ _ _ _ Hp2)), (bind_run _ _ _ _ _ (hw_wr_run _ _ _)), (bind_run _ _ _ _ _ (hw_rd_run _ _)).
  destruct Ht0 as [Htr Htd Htc Htn Hta Htq Hte], Hr1 as [Hrr Hrd Hrc Hrn Hra Hrq Hre].
  eexists _, (requested dt _), (requested dr _). split; [reflexivity|]. split; try done.
  - cbn. apply list_lookup_insert_eq. by apply lookup_lt_is_Some_1; eexists.
  - split_and!; [done| |done]. unfold line. cbn. rewrite list_lookup_insert_ne by done.
    apply list_lookup_insert_eq. by eapply lookup_lt_Some.
  - split_and!; [done| |done]. unfold line. cbn. apply list_lookup_insert_eq. rewrite length_insert.
    cbn in Hrd. apply lookup_lt_Some in Hrd. by rewrite length_insert in Hrd.
  - unfold requested. cbn [status act_flags]. flags. by rewrite Htq.
Qed.

(** stop_tx and stop_rx disable the lines and forget that they are held. *)
Lemma stop_tx_open i p dt dr tx rx s : Z.to_nat (txirq p) <> Z.to_nat (rxirq p) -> open_port i p dt dr tx rx s ->
  ∃ s' dt', mp25xxf_uart_stop_tx i s = Some (tt, s') ∧ open_port i p dt' dr false rx s'.
Proof.
  intros Hne [Hp Ht Hr Hta Hra Hch Hq]. destruct tx; cycle 1.
  { exists s, dt. split; [|by split]. unfold mp25xxf_uart_stop_tx. by rewrite (bind_run _ _ _ _ _ (port_of_run _ _ _ Hp)). }
  eexists _, (disabled_once dt). split; [by apply (stop_tx_run i (set_claims rx true p) dt s Hp Ht)|].
  destruct Ht as (H1 & H2 & H3), Hr as (H4 & H5 & H6). assert (chip (disabled_once dt) = chip dt ∧ action (disabled_once dt) = action dt
    ∧ tst (status (disabled_once dt)) IRQ_NOREQUEST = false) as (Ec & Ea & Es).
  { unfold disabled_once. destruct (depth dt =? 0); (split_and!; [done..|]); unfold_status; by flags. }
  split; rewrite ?Ec, ?Ea; try done.
  - cbn. by apply list_lookup_insert_eq; apply lookup_lt_is_Some_1; eexists.
  - split_and!; [done|rewrite line_put_port; by apply (line_put_eq (txirq p) dt)|by rewrite Ec].
  - split_and!; [done| |done]. unfold line in *. cbn. by rewrite list_lookup_insert_ne.
Qed.

Lemma stop_rx_open i p dt dr tx rx s : Z.to_nat (txirq p) <> Z.to_nat (rxirq p) -> open_port i p dt dr tx rx s ->
  ∃ s' dr', mp25xxf_uart_stop_rx i s = Some (tt, s') ∧ open_port i p dt dr' tx false s'.
Proof.
  intros Hne [Hp Ht Hr Hta Hra Hch Hq]. unfold mp25xxf_uart_stop_rx. rewrite (bind_run _ _ _ _ _ (port_of_run _ _ _ Hp)). destruct rx; cycle 1.
  { exists s, dr. by split. }
  cbn [rx_claimed set_claims fwhen]. rewrite (bind_run _ _ _ _ _ (disable_run (rxirq p) dr s Hr)).
  rewrite (upd_port_run i _ (set_claims true tx p)) by done. eexists _, (disabled_once dr). split; [done|].
  destruct Ht as (H1 & H2 & H3), Hr as (H4 & H5 & H6). assert (chip (disabled_once dr) = chip dr ∧ action (disabled_once dr) = action dr) as (Ec & Ea).
  { unfold disabled_once. by destruct (depth dr =? 0). }
  split; rewrite ?Ea; try done.
  - cbn. by apply list_lookup_insert_eq; apply lookup_lt_is_Some_1; eexists.
  - split_and!; [done| |done]. unfold line in *. cbn. by rewrite list_lookup_insert_ne.
  - split_and!; [done|rewrite line_put_port; by apply (line_put_eq (rxirq p) dr)|by rewrite Ec].
Qed.

(** C25: closing a port leaks its interrupt lines.  From a port with two free
    lines, startup succeeds; then transmission is stopped (as the driver does
    when the transmit buffer is empty) and reception is stopped (as the serial
    core does on close), which clears both flags; so shutdown frees nothing, both
    handlers stay installed, and the next startup fails: with -EBUSY, or with
    -ENOMEM when the first allocation fails. *)
Theorem shutdown_leaks_lines i p dt dr s mem_tx mem_rx :
  ports (mach s) !! i = Some p -> Z.to_nat (txirq p) <> Z.to_nat (rxirq p) ->
  free_line (txirq p) ack mask unmask dt s -> free_line (rxirq p) ack mask unmask dr s ->
  ∃ s1 s2 dt2 dr2 dev,
    mp25xxf_uart_startup handle_sysrq do_SAK true true i s = Some (0, s1) ∧
    (mp25xxf_uart_stop_tx i ;; mp25xxf_uart_stop_rx i ;; mp25xxf_uart_shutdown handle_sysrq do_SAK i) s1 = Some (tt, s2) ∧
    line (txirq p) s2 = Some dt2 ∧ action dt2 = [IrqAction (mp25xxf_tx i) 0 (cookie i)] ∧
    line (rxirq p) s2 = Some dr2 ∧ action dr2 = [IrqAction (mp25xxf_rx i) 0 (cookie i)] ∧
    mp25xxf_uart_startup handle_sysrq do_SAK mem_tx mem_rx i s2 = Some (if mem_tx then - EBUSY else - ENOMEM, put_dev dev s2).
Proof.
  intros Hp Hne Ht Hr. destruct (startup_opens i p dt dr s Hp Hne Ht Hr) as (s1 & dt1 & dr1 & Hrun & Ho1).
  destruct (stop_tx_open _ _ _ _ _ _ _ Hne Ho1) as (s2 & dt2 & Hstop & Ho2).
  destruct (stop_rx_open _ _ _ _ _ _ _ Hne Ho2) as (s3 & dr2 & Hstop2 & [Hp3 (H1 & H2 & H3) (H4 & H5 & H6) Hta Hra Hch Hq]).
  eexists s1, s3, dt2, dr2, _. split_and!; [done| |done..|].
  - rewrite (bind_run _ _ _ _ _ Hstop), (bind_run _ _ _ _ _ Hstop2). unfold mp25xxf_uart_shutdown.
    by rewrite (bind_run _ _ _ _ _ (port_of_run _ _ _ Hp3)).
  - unfold mp25xxf_uart_startup. rewrite (bind_run _ _ _ _ _ (port_of_run _ _ _ Hp3)), (bind_run _ _ _ _ _ (hw_wr_run _ _ _)).
    set (s4 := put_dev _ s3). cbn [txirq set_claims]. destruct mem_tx.
    + rewrite (bind_run _ _ _ _ _ (request_irq_busy _ (txirq p) dt2 s4 _ 0 (cookie i) _ [] H1 H2 Hch Hta Hq eq_refl)). done.
    + rewrite (bind_run _ _ s4 (- ENOMEM) s4); [done|]. unfold request_irq. change (tst 0 IRQF_SHARED) with false. cbn [andb].
      destruct (Z.leb_spec NR_IRQS (txirq p)); [lia|].
      rewrite (bind_run (desc_of (txirq p)) _ s4 dt2 s4); [by rewrite Hq|]. unfold desc_of, ftry. change (descs s4) with (descs s3). unfold line in H2. by rewrite H2.
Qed.
End Lines.

(** * The receiver of a port

    What is known of the device: reading the receive holding register takes
    the oldest character out of the receive FIFO, the count field of the FIFO
    status is zero exactly on an empty FIFO (it has four bits, so this says
    nothing of a full one), and status reads leave the FIFO alone. *)
Class UartRx (D : Type) `{Bus D} (b : Z) := {
  rx_fifo : D -> list Z;
  fifo_count : ∀ d, (length (rx_fifo d) < 16)%nat ->
    tst (wrap 16 (bus_load (FSTATUSx b) d).1) FSTATUS_RX_FIFO_COUNT =
    match rx_fifo d with [] => false | _ => true end;
  fifo_pop : ∀ d c q, rx_fifo d = c :: q ->
    (bus_load (RHBx b) d).1 = c ∧ rx_fifo (bus_load (RHBx b) d).2 = q;
  fifo_status : ∀ d, rx_fifo (bus_load (FSTATUSx b) d).2 = rx_fifo d;
  fifo_estatus : ∀ d, rx_fifo (bus_load (ESTATUSx b) d).2 = rx_fifo d;
}.

Section Receive.
Context {D : Type} `{Bus D} (b : Z) `{!UartRx D b}.
Abbreviation usys := (irqsys demux uart_handler (umach D)).
Implicit Types (s : usys) (p : uart_port) (i : nat).
Context (handle_sysrq : Z -> usys -> usys) (do_SAK : usys -> usys).

(** No break, frame or overrun error is reported, and no error bit that is
    reported is among the ignored ones.  A parity error may be reported. *)
Definition clean_line (ignore : Z) : Prop := ∀ d : D,
  let e := wrap 16 (bus_load (ESTATUSx b) d).1 in tst e ESTATUS_ANY = false ∧ Z.land e ignore = 0.

(** One character received without a (visible) error. *)
Definition rx_one c p : uart_port :=
  set_flip (flip p ++ [(u8 c, TTY_NORMAL)]) (set_icounts (bump_rx (icounts p)) p).

Lemma not_overrun e : tst e ESTATUS_ANY = false -> ∀ m, tst (clr e m) ESTATUS_OVERRUN_ERROR = false.
Proof.
  intros Ha m. change ESTATUS_OVERRUN_ERROR with (BIT 0). rewrite tst_BIT by done. rewrite clr_testbit.
  apply tst_false in Ha. apply (f_equal (λ x, Z.testbit x 0)) in Ha. rewrite Z.land_spec in Ha.
  change (Z.testbit ESTATUS_ANY 0) with true in Ha. rewrite andb_true_r in Ha. by rewrite Ha.
Qed.

Lemma rx_char_clean i p s c q :
  ports (mach s) !! i = Some p -> mapbase p = b -> p_sysrq p = 0 -> clean_line (ignore_status_mask p) ->
  rx_fifo (udev (mach s)) = c :: q -> in_u 8 c ->
  ∃ d', rx_char handle_sysrq do_SAK i s = Some (tt, put_port i (rx_one c p) (put_dev d' s)) ∧
    rx_fifo d' = q.
Proof.
  intros Hp Hb Hsr Hclean Hq Hc8. unfold rx_char.
  rewrite (bind_run _ _ _ _ _ (port_of_run _ _ _ Hp)), Hb, (bind_run _ _ _ _ _ (hw_rd_run _ _)).
  destruct (fifo_pop _ _ _ Hq) as [-> Hq1]. set (d1 := (bus_load _ _).2) in *.
  change (wrap (reg_width (RHBx b)) c) with (wrap 16 c). rewrite (wrap_id 16) by (unfold in_u in *; lia).
  rewrite (bind_run _ _ _ _ _ (upd_port_run i _ p (put_dev d1 s) Hp)).
  set (p1 := set_icounts _ _). rewrite (bind_run _ _ _ _ _ (hw_rd_run _ _)). simpl (udev _).
  change (reg_width (ESTATUSx b)) with 16.
  destruct (Hclean d1) as [Hany Hign]. set (e := wrap 16 _) in *. set (d2 := (bus_load _ d1).2).
  rewrite Hany. rewrite (bind_run (mret _) _ _ (false, e, TTY_NORMAL) _) by done. cbv iota.
  set (s2 := put_dev d2 _). assert (ports (mach s2) !! i = Some p1) as Hp2 by by eapply (ports_put_port i p1 _ p).
  rewrite (bind_run _ _ s2 false s2).
  2:{ unfold uart_handle_sysrq_char. rewrite (bind_run _ _ _ _ _ (port_of_run _ _ _ Hp2)).
      rewrite (bind_run _ _ s2 (jiffies s2) s2) by done. change (p_sysrq p1) with (p_sysrq p). by rewrite Hsr. }
  cbv iota. unfold uart_insert_char. rewrite (bind_run _ _ _ _ _ (port_of_run _ _ _ Hp2)).
  change (ignore_status_mask p1) with (ignore_status_mask p). rewrite Hign. cbn [clr Z.ldiff Z.eqb fwhen].
  rewrite (bind_run _ _ _ _ _ (upd_port_run i _ p1 s2 Hp2)), not_overrun by done. cbn [fwhen].
  exists d2. split; [|subst d2; by rewrite fifo_estatus].
  unfold mret, Sf_ret. do 2 f_equal. unfold s2, put_port, put_dev, set_mach. simpl.
  by rewrite list_insert_insert_eq.
Qed.

Lemma rx_loop_clean n q i s p :
  (length q < n)%nat -> (n <= 16)%nat -> ports (mach s) !! i = Some p -> mapbase p = b -> p_sysrq p = 0 ->
  clean_line (ignore_status_mask p) -> rx_fifo (udev (mach s)) = q -> Forall (in_u 8) q ->
  ∃ p' d', rx_loop handle_sysrq do_SAK n i s = Some (tt, put_port i p' (put_dev d' s)) ∧
    rx_fifo d' = [] ∧ flip p' = flip p ++ map (λ c, (u8 c, TTY_NORMAL)) q ∧
    u32 (ic_rx (icounts p')) = u32 (ic_rx (icounts p) + Z.of_nat (length q)).
Proof.
  revert q s p. induction n as [|n IH]; intros q s p Hn H16 Hp Hb Hsr Hclean Hq Hin; [lia|].
  cbn [rx_loop]. rewrite (bind_run _ _ _ _ _ (port_of_run _ _ _ Hp)), (bind_run _ _ _ _ _ (hw_rd_run _ _)).
  change (reg_width (FSTATUSx (mapbase p))) with 16. rewrite Hb. set (d1 := (bus_load _ _).2).
  rewrite fifo_count by (rewrite Hq; lia).
  assert (rx_fifo d1 = q) as Hq1 by (subst d1; by rewrite fifo_status).
  rewrite Hq. destruct q as [|c q].
  - exists p, d1. rewrite Z.add_0_r, app_nil_r. split_and!; try done.
    unfold put_port. simpl. by rewrite list_insert_id.
  - apply Forall_cons in Hin as [Hc Hin'].
    destruct (rx_char_clean i p (put_dev d1 s) c q) as (d2 & Hrun & Hq2); try done.
    rewrite (bind_run _ _ _ _ _ Hrun).
    destruct (IH q (put_port i (rx_one c p) (put_dev d2 (put_dev d1 s))) (rx_one c p))
      as (p' & d' & Hrun' & Hemp & Hfl & Hic); try done; [simpl in Hn; lia|lia|by eapply ports_put_port|].
    exists p', d'. rewrite Hrun'. split_and!; try done.
    + unfold put_port, put_dev, set_mach. simpl. by rewrite list_insert_insert_eq.
    + rewrite Hfl. simpl. by rewrite <- app_assoc.
    + rewrite Hic. simpl. unfold u32. rewrite wrap_add_l. f_equal. lia.
Qed.

(** On a line without break, frame and overrun errors the receive
    interrupt moves the whole FIFO (up to 15 characters) into the flip buffer
    in order, counts each character, and returns.  Characters with a parity
    error are among them, delivered as normal ones: the driver looks at the
    parity bit only when another error is reported. *)
Theorem rx_int_delivers i p s :
  ports (mach s) !! i = Some p -> mapbase p = b -> p_sysrq p = 0 -> fifosize p = 16 ->
  clean_line (ignore_status_mask p) ->
  Forall (in_u 8) (rx_fifo (udev (mach s))) ->
  (length (rx_fifo (udev (mach s))) < 16)%nat ->
  ∃ p' d', mp25xxf_rx_int handle_sysrq do_SAK i s = Some (IRQ_HANDLED, put_port i p' (put_dev d' s)) ∧
    rx_fifo d' = [] ∧
    flip p' = flip p ++ map (λ c, (u8 c, TTY_NORMAL)) (rx_fifo (udev (mach s))) ∧
    u32 (ic_rx (icounts p')) = u32 (ic_rx (icounts p) + Z.of_nat (length (rx_fifo (udev (mach s))))).
Proof.
  intros Hp Hb Hsr Hfs Hclean Hin Hlen. unfold mp25xxf_rx_int.
  rewrite (bind_run _ _ _ _ _ (port_of_run _ _ _ Hp)), Hfs.
  destruct (rx_loop_clean 16 _ i s p Hlen ltac:(lia) Hp Hb Hsr Hclean eq_refl Hin) as (p' & d' & Hrun & Hres).
  rewrite (bind_run _ _ _ _ _ Hrun). by exists p', d'.
Qed.
End Receive.

(** * Runs on a concrete device *)

Module UartDemo.

(** A UART with a log of the values queued for transmission and a receive
    FIFO behind the register file; its FIFO status follows the FIFO, and every
    character has a parity error. *)
Record dev := Dev { regs : RegFile.t; sent : list Z; received : list Z }.

Definition base : Z := 0xc0001200.

#[export] Instance dev_bus : Bus dev := {|
  bus_load := λ r d,
    if decide (r = RHBx base) then
      match received d with
      | [] => (0, d)
      | c :: q => (c, Dev (regs d) (sent d) q)
      end
    else if decide (r = FSTATUSx base) then (Z.min 15 (Z.of_nat (length (received d))), d)
    else if decide (r = ESTATUSx base) then (ESTATUS_PARITY_ERROR, d)
    else (RegFile.get r (regs d), d);
  bus_store := λ r v d,
    if decide (r = THBx base) then Dev (regs d) (sent d ++ [v]) (received d)
    else Dev (RegFile.store r v (regs d)) (sent d) (received d) |}.

#[export] Instance dev_tx : UartTx dev base.
Proof.
  refine {| thb_log := sent |}.
  - intros v d. unfold bus_store, dev_bus. by rewrite decide_True.
  - intros r d. unfold bus_load, dev_bus. repeat case_decide; try done. by destruct (received d).
Defined.

Lemma load_fstatus d : bus_load (FSTATUSx base) d = (Z.min 15 (Z.of_nat (length (received d))), d).
Proof. unfold bus_load, dev_bus. by rewrite decide_False, decide_True. Qed.

Lemma load_estatus d : bus_load (ESTATUSx base) d = (ESTATUS_PARITY_ERROR, d).
Proof. unfold bus_load, dev_bus. by rewrite decide_False, decide_False, decide_True by done. Qed.

Lemma count_nonzero n : (0 < n < 16)%nat -> tst (wrap 16 (Z.min 15 (Z.of_nat n))) FSTATUS_RX_FIFO_COUNT = true.
Proof. intros Hn. do 16 (destruct n as [|n]; [reflexivity || lia|]). lia. Qed.

#[export] Instance dev_rx : UartRx dev base.
Proof.
  refine {| rx_fifo := received |}.
  - intros d Hl. rewrite load_fstatus. cbn [fst]. destruct (received d) as [|c q]; [reflexivity|].
    apply count_nonzero. cbn [length] in *. lia.
  - intros d c q Hq. unfold bus_load, dev_bus. by rewrite decide_True, Hq.
  - intros d. by rewrite load_fstatus.
  - intros d. by rewrite load_estatus.
Defined.

(** Port 0 with the string "hi" in its ring, wrapped around the end. *)
Definition port0 : uart_port :=
  UartPort PORT_MP25XXF base 16 0 0 0 (Icount 0 0 0 0 0) 0 0 0 false
    (<[4095%nat := 104]> (<[0%nat := 105]> (replicate 4096 0))) 1 4095 false [] false 36 37 true true.

Definition machine : umach dev := UMach [port0] (Dev {| RegFile.contents := [] |} [] [65; 66]).

Definition line0 : irq_desc demux uart_handler :=
  IrqDesc (Some handle_level) "UART" [IrqAction (mp25xxf_tx 0) 0 (cookie 0)] 0 0 0 0 0.

Definition chip0 : irq_chip (umach dev) :=
  simple_chip (λ i, exec (mmsp2_uart_ack_irq i)) (λ i, exec (mmsp2_uart_mask_irq i))
    (λ i, exec (mmsp2_uart_unmask_irq i)).

Definition sys0 : irqsys demux uart_handler (umach dev) :=
  IrqSys {["UART" := chip0]} (replicate 53 line0) (replicate 53 0) (replicate 53 false) 0 false machine.

Lemma port0_ring : ring_ok port0.
Proof.
  split_and!; [reflexivity| |done..]. unfold port0. cbn [xmit_buf].
  apply Forall_insert; [apply Forall_insert|]; [apply Forall_replicate|..]; done.
Qed.

Lemma tx_loop_conserves_witness :
  ∃ k p' d', tx_loop 16 0 sys0 = Some (tt, set_mach (UMach [p'] d') sys0) ∧
    thb_log d' = take k [104; 105] ∧ (k <= 2)%nat.
Proof.
  destruct (tx_loop_conserves base 16 0 port0 sys0 eq_refl eq_refl port0_ring)
    as (k & p' & d' & Hrun & _ & _ & Hk & Hlog & _).
  exists k, p', d'. split; [exact Hrun|]. split; [exact Hlog|exact Hk].
Defined.

Lemma unmask_keeps_ports irq (m : umach dev) : ports (exec (mmsp2_uart_unmask_irq irq) m) = ports m.
Proof.
  unfold mmsp2_uart_unmask_irq. repeat case_match; auto using or_reg_ports.
Qed.

Lemma sys0_balanced : tx_balanced (λ i, exec (mmsp2_uart_ack_irq i)) (λ i, exec (mmsp2_uart_mask_irq i))
  (λ i, exec (mmsp2_uart_unmask_irq i)) 0 sys0.
Proof. exists port0, line0. split; [done|]. split_and!; [split_and!; done|done|done]. Qed.

Lemma tx_start_stop_balanced_witness :
  ∃ s', tx_ops 0 [false; false; true; true; false] sys0 = Some (tt, s').
Proof.
  destruct (tx_start_stop_balanced _ _ _ unmask_keeps_ports 0 [false; false; true; true; false] sys0 sys0_balanced)
    as (s' & Hrun & _). exists s'. exact Hrun.
Defined.

(** Port 0 before it is opened. *)
Definition idle_line : irq_desc demux uart_handler := IrqDesc (Some handle_level) "UART" [] IRQ_DISABLED 1 0 0 0.
Definition closed : irqsys demux uart_handler (umach dev) :=
  IrqSys {["UART" := chip0]} (replicate 53 idle_line) (replicate 53 0) (replicate 53 false) 0 false
    (UMach [set_claims false false port0] (udev machine)).

Lemma shutdown_leaks_lines_witness :
  ∃ s1 s2 dev, mp25xxf_uart_startup (λ _ s, s) (λ s, s) true true 0 closed = Some (0, s1) ∧
    (mp25xxf_uart_stop_tx 0 ;; mp25xxf_uart_stop_rx 0 ;; mp25xxf_uart_shutdown (λ _ s, s) (λ s, s) 0) s1 = Some (tt, s2) ∧
    mp25xxf_uart_startup (λ _ s, s) (λ s, s) true true 0 s2 = Some (- EBUSY, put_dev dev s2).
Proof.
  destruct (shutdown_leaks_lines (λ i, exec (mmsp2_uart_ack_irq i)) (λ i, exec (mmsp2_uart_mask_irq i)) _ unmask_keeps_ports (λ _ s, s) (λ s, s) 0 (set_claims false false port0) idle_line idle_line closed true true)
    as (s1 & s2 & dt2 & dr2 & dv & H1 & H2 & _ & _ & _ & _ & H3); [reflexivity|discriminate|by split|by split|].
  exists s1, s2, dv. split; [exact H1|]. split; [exact H2|exact H3].
Defined.

Lemma rx_int_delivers_witness :
  ∃ p' d', mp25xxf_rx_int (λ _ s, s) (λ s, s) 0 sys0 = Some (IRQ_HANDLED, put_port 0 p' (put_dev d' sys0)) ∧
    flip p' = [(65, TTY_NORMAL); (66, TTY_NORMAL)].
Proof.
  destruct (rx_int_delivers base (λ _ s, s) (λ s, s) 0 port0 sys0) as (p' & d' & Hrun & _ & Hfl & _).
  1-4: reflexivity.
  - intros d. split; [|apply Z.land_0_r]. cbv zeta. by rewrite load_estatus.
  - repeat constructor; done.
  - simpl. lia.
  - exists p', d'. split; [exact Hrun|exact Hfl].
Defined.
End UartDemo.
