(* ===== verification/Timer.v ===== *)
(** kernel/timer.c: the timer wheel.

    Pending timers hang on the lists of a hierarchy of five vectors: tv1 has a
    list per tick of the near future, tv2 to tv5 one per 2^8, 2^14, 2^20 and
    2^26 ticks (2^6, 2^10, 2^14, 2^18 with CONFIG_BASE_SMALL); the lists of a
    coarse vector are spread over the finer ones ("cascaded") when their time
    comes.  [jiffies] and the expiry times are 32 bits wide and wrap around.

    A timer is known by its address.  A [list_head] and the timers linked to
    it are a list of addresses; [pending] says that [entry.next] is not NULL.
    The kernel is uniprocessor, so there is one base, [timer->base] only
    carries the deferrable flag, and the locks carry no state. *)

From S2P Require Import Prelude.
From S2P Require Import Time.

(** * Data *)

Record timer_list := Timer { expires : Z; function : option Z; t_data : Z; deferrable : bool; pending : bool }.

(** The timers, the vectors tv1 to tv5 (levels 0 to 4), the work list of a
    running __run_timers, the clocks, and a trace of the handler calls: the
    timer, its expiry time and the tick it was run for. *)
Record tsys := TSys { timers : gmap Z timer_list; tv : gmap (Z * Z) (list Z); work_list : list Z;
  timer_jiffies : Z; jiffies : Z; fired : list (Z * Z * Z) }.

Definition set_timers f s := TSys (f (timers s)) (tv s) (work_list s) (timer_jiffies s) (jiffies s) (fired s).
Definition set_tv f s := TSys (timers s) (f (tv s)) (work_list s) (timer_jiffies s) (jiffies s) (fired s).
Definition set_work f s := TSys (timers s) (tv s) (f (work_list s)) (timer_jiffies s) (jiffies s) (fired s).
Definition set_timer_jiffies v s := TSys (timers s) (tv s) (work_list s) v (jiffies s) (fired s).
Definition set_jiffies v s := TSys (timers s) (tv s) (work_list s) (timer_jiffies s) v (fired s).
Definition set_fired f s := TSys (timers s) (tv s) (work_list s) (timer_jiffies s) (jiffies s) (f (fired s)).

Definition slot (s : tsys) (l i : Z) : list Z := default [] (tv s !! (l, i)).

(** include/linux/jiffies.h, on wrapping 32-bit times *)
Definition time_after (a b : Z) : bool := s32 (b - a) <? 0.
Definition time_after_eq (a b : Z) : bool := 0 <=? s32 (a - b).
Definition time_before (a b : Z) : bool := time_after b a.

Definition round_jiffies_ (now j cpu : Z) : Z :=
  let original := j in
  let j := u32 (j + cpu * 3) in
  let rem := j mod HZ in
  let j := if rem <? HZ / 4 then u32 (j - rem) else u32 (j - rem + HZ) in
  let j := u32 (j - cpu * 3) in
  if j <=? now then original else j.

Definition round_jiffies_relative_ (now j cpu : Z) : Z := u32 (round_jiffies_ now (u32 (j + now)) cpu - now).

(** On processor 0, the only one. *)
Definition round_jiffies (now j : Z) : Z := round_jiffies_ now j 0.
Definition round_jiffies_relative (now j : Z) : Z := round_jiffies_relative_ now j 0.

Section Wheel.
Context (BASE_SMALL : bool).

Definition TVN_BITS : Z := if BASE_SMALL then 4 else 6.
Definition TVR_BITS : Z := if BASE_SMALL then 6 else 8.
Definition TVN_SIZE : Z := Z.shiftl 1 TVN_BITS.
Definition TVR_SIZE : Z := Z.shiftl 1 TVR_BITS.
Definition TVN_MASK : Z := TVN_SIZE - 1.
Definition TVR_MASK : Z := TVR_SIZE - 1.

(** * Placing a timer *)

(** The vector and the list internal_add_timer chooses. *)
Definition timer_vec (base_jiffies expires : Z) : Z * Z :=
  let idx := u32 (expires - base_jiffies) in
  if idx <? TVR_SIZE then (0, Z.land expires TVR_MASK)
  else if idx <? Z.shiftl 1 (TVR_BITS + TVN_BITS) then (1, Z.land (Z.shiftr expires TVR_BITS) TVN_MASK)
  else if idx <? Z.shiftl 1 (TVR_BITS + 2 * TVN_BITS) then (2, Z.land (Z.shiftr expires (TVR_BITS + TVN_BITS)) TVN_MASK)
  else if idx <? Z.shiftl 1 (TVR_BITS + 3 * TVN_BITS) then (3, Z.land (Z.shiftr expires (TVR_BITS + 2 * TVN_BITS)) TVN_MASK)
  else if s32 idx <? 0 then (0, Z.land base_jiffies TVR_MASK)
  else
    let expires := if 0xffffffff <? idx then u32 (0xffffffff + base_jiffies) else expires in
    (4, Z.land (Z.shiftr expires (TVR_BITS + 3 * TVN_BITS)) TVN_MASK).

(** [list_add_tail] *)
Definition add_tail (p : Z * Z) (t : Z) (m : gmap (Z * Z) (list Z)) : gmap (Z * Z) (list Z) :=
  <[p := default [] (m !! p) ++ [t]]> m.

Definition set_pending (b : bool) (tm : timer_list) : timer_list :=
  Timer (expires tm) (function tm) (t_data tm) (deferrable tm) b.
Definition set_expires (e : Z) (tm : timer_list) : timer_list :=
  Timer e (function tm) (t_data tm) (deferrable tm) (pending tm).

Definition upd (t : Z) (f : timer_list -> timer_list) : tsys -> tsys := set_timers (alter f t).

Definition internal_add_timer (t : Z) : Sf tsys unit :=
  tm ← ftry (λ s, timers s !! t);
  tj ← fget timer_jiffies;
  fmodify (λ s, upd t (set_pending true) (set_tv (add_tail (timer_vec tj (expires tm)) t) s)).

(** [__list_del] of the timer's entry, from whatever list it is on. *)
Definition unlink (t : Z) (s : tsys) : tsys :=
  set_work (filter (.≠ t)) (set_tv (fmap (filter (.≠ t))) s).

Definition detach_timer (t : Z) (clear_pending : bool) : Sf tsys unit :=
  fmodify (unlink t) ;;
  fwhen clear_pending (fmodify (upd t (set_pending false))).

(** * Operations *)

Definition init_timer (t : Z) : Sf tsys unit :=
  fmodify (upd t (λ tm, Timer (expires tm) (function tm) (t_data tm) false false)).

Definition init_timer_deferrable (t : Z) : Sf tsys unit :=
  init_timer t ;;
  fmodify (upd t (λ tm, Timer (expires tm) (function tm) (t_data tm) true (pending tm))).

Definition setup_timer (t : Z) (fn : option Z) (d : Z) : Sf tsys unit :=
  fmodify (upd t (λ tm, Timer (expires tm) fn d (deferrable tm) (pending tm))) ;;
  init_timer t.

Definition mod_timer_ (t e : Z) : Sf tsys Z :=
  tm ← ftry (λ s, timers s !! t);
  if bool_decide (function tm = None) then oops
  else
    ret ← (if pending tm then detach_timer t false ;; mret 1 else mret 0 : Sf tsys Z);
    fmodify (upd t (set_expires e)) ;;
    internal_add_timer t ;;
    mret ret.

Definition mod_timer (t e : Z) : Sf tsys Z :=
  tm ← ftry (λ s, timers s !! t);
  if bool_decide (function tm = None) then oops
  else if (expires tm =? e) && pending tm then mret 1
  else mod_timer_ t e.

(** include/linux/timer.h *)
Definition add_timer (t : Z) : Sf tsys unit :=
  tm ← ftry (λ s, timers s !! t);
  if pending tm then oops else _ ← mod_timer_ t (expires tm); mret tt.

Definition add_timer_on (t : Z) : Sf tsys unit :=
  tm ← ftry (λ s, timers s !! t);
  if pending tm || bool_decide (function tm = None) then oops else internal_add_timer t.

Definition del_timer (t : Z) : Sf tsys Z :=
  tm ← ftry (λ s, timers s !! t);
  if pending tm then detach_timer t true ;; mret 1 else mret 0.

(** * Running *)

(** [list_replace_init] empties the list; the timers are added again one by
    one. *)
Fixpoint add_all (l : list Z) : Sf tsys unit :=
  match l with [] => mret tt | t :: l => internal_add_timer t ;; add_all l end.

Definition cascade (l index : Z) : Sf tsys Z :=
  tv_list ← fget (λ s, slot s l index);
  fmodify (set_tv (insert (l, index) [])) ;;
  add_all tv_list ;;
  mret index.

(** [INDEX(N)] *)
Definition INDEX (N : Z) : Sf tsys Z :=
  fget (λ s, Z.land (Z.shiftr (timer_jiffies s) (TVR_BITS + N * TVN_BITS)) TVN_MASK).

(** The condition of the [if] with its calls, from tv2 on. *)
Fixpoint cascades (n : nat) (N : Z) : Sf tsys unit :=
  match n with
  | O => mret tt
  | S n => i ← INDEX N; r ← cascade (N + 1) i; if r =? 0 then cascades n (N + 1) else mret tt
  end.

(** The first half of an iteration: the timers of this tick move to the work
    list. *)
Definition collect : Sf tsys unit :=
  index ← fget (λ s, Z.land (timer_jiffies s) TVR_MASK);
  fwhen (index =? 0) (cascades 4 0) ;;
  fmodify (λ s, set_timer_jiffies (u32 (timer_jiffies s + 1)) s) ;;
  fmodify (λ s, set_tv (insert (0, index) []) (set_work (λ _, slot s 0 index) s)).

Section Run.
(** Calling a timer function; it may use the timer operations. *)
Context (call : Z -> Z -> Sf tsys unit).

Fixpoint run_work (fuel : nat) : Sf tsys unit :=
  work ← (fget work_list : Sf tsys (list Z));
  match work, fuel with
  | [], _ => mret tt
  | _, O => oops
  | t :: _, S fuel =>
      tm ← ftry (λ s, timers s !! t);
      fn ← ftry (λ _ : tsys, function tm);
      detach_timer t true ;;
      fmodify (λ s, set_fired (.++ [(t, expires tm, u32 (timer_jiffies s - 1))]) s) ;;
      call fn (t_data tm) ;;
      run_work fuel
  end.

Fixpoint run_timers_ (fuel : nat) : Sf tsys unit :=
  due ← (fget (λ s, time_after_eq (jiffies s) (timer_jiffies s)) : Sf tsys bool);
  if (due : bool) then
    match fuel with
    | O => oops
    | S fuel => collect ;; n ← fget (λ s, length (work_list s)); run_work n ;; run_timers_ fuel
    end
  else mret tt.

Definition run_timer_softirq (fuel : nat) : Sf tsys unit :=
  due ← (fget (λ s, time_after_eq (jiffies s) (timer_jiffies s)) : Sf tsys bool);
  fwhen due (run_timers_ fuel).
End Run.
End Wheel.

(** * Where timers are *)

Section Placement.
Context (BASE_SMALL : bool).
Abbreviation rsize := (TVR_SIZE BASE_SMALL).
Abbreviation nsize := (TVN_SIZE BASE_SMALL).
Implicit Types (T e l i : Z).

(** The granularity of vector [l], in bits. *)
Definition lvl l : Z := TVR_BITS BASE_SMALL + (l - 1) * TVN_BITS BASE_SMALL.

(** How far ahead of [T] the time [e] is. *)
Definition dist T e : Z := u32 (e - T).

(** How far ahead vector [l] holds timers. *)
Definition reach l : Z := if l =? 4 then 2 ^ 31 else 2 ^ lvl (l + 1).

(** Where a timer may be when [T] is the next tick to run: in tv1 the list of
    its expiry tick, or that of [T] when it is overdue; in a coarser vector the
    list of its expiry time, whose cascade is not before [T] and which is not
    beyond the reach of the vector. *)
Definition fits T l i e : Prop :=
  l = 0 ∧ (dist T e < rsize ∧ i = e mod rsize ∨ 2 ^ 31 <= dist T e ∧ i = T mod rsize) ∨
  1 <= l <= 4 ∧ dist T e < reach l ∧ i = (e / 2 ^ lvl l) mod nsize ∧ e mod 2 ^ lvl l <= dist T e.

(** Its list is not cascaded at [T]. *)
Definition settled T l e : Prop := 1 <= l -> e mod 2 ^ lvl l < dist T e.

Lemma mask_r x : Z.land x (TVR_MASK BASE_SMALL) = x mod rsize.
Proof. destruct BASE_SMALL; [exact (Z.land_ones x 6 ltac:(lia))|exact (Z.land_ones x 8 ltac:(lia))]. Qed.

Lemma mask_n x : Z.land x (TVN_MASK BASE_SMALL) = x mod nsize.
Proof. destruct BASE_SMALL; [exact (Z.land_ones x 4 ltac:(lia))|exact (Z.land_ones x 6 ltac:(lia))]. Qed.

Lemma dist_spec T e : in_u 32 T -> in_u 32 e -> dist T e = if T <=? e then e - T else e - T + 2 ^ 32.
Proof.
  unfold dist, u32, wrap, in_u. intros. destruct (Z.leb_spec T e); [apply Z.mod_small; lia|].
  symmetry. apply (Z.mod_unique_pos _ _ (-1)); lia.
Qed.

Lemma s32_dist T e : s32 (e - T) = if dist T e <? 2 ^ 31 then dist T e else dist T e - 2 ^ 32.
Proof. done. Qed.

Lemma dist_range T e : 0 <= dist T e < 2 ^ 32.
Proof. apply u32_range. Qed.

Lemma dist_next T e : 1 <= dist T e -> dist (u32 (T + 1)) e = dist T e - 1.
Proof.
  unfold dist, u32. intros Hd. rewrite wrap_sub_r. replace (e - (T + 1)) with ((e - T) - 1) by lia.
  rewrite <- (wrap_sub_l 32). apply wrap_id. pose proof (dist_range T e). unfold dist, u32, in_u in *. lia.
Qed.

(** The low bits of a distance. *)
Lemma dist_mod T e k : 0 <= k <= 32 -> dist T e mod 2 ^ k = (e - T) mod 2 ^ k.
Proof.
  intros Hk. unfold dist, u32, wrap. replace (2 ^ 32) with (2 ^ k * 2 ^ (32 - k)) by (rewrite <- Z.pow_add_r by lia; f_equal; lia).
  rewrite Z.rem_mul_r by lia. rewrite Z.mul_comm, Z.mod_add by lia. rewrite Z.mod_mod by lia. done.
Qed.

Lemma lvl_range l : 1 <= l <= 4 -> 6 <= lvl l <= 26.
Proof. unfold lvl, TVR_BITS, TVN_BITS. destruct BASE_SMALL; lia. Qed.

Lemma reach_le l : 1 <= l <= 4 -> reach l <= 2 ^ 31.
Proof.
  intros Hl. unfold reach. destruct (Z.eqb_spec l 4); [done|]. apply Z.pow_le_mono_r; [lia|]. pose proof (lvl_range (l + 1)). lia.
Qed.

Lemma rsize_pow : rsize = 2 ^ TVR_BITS BASE_SMALL.
Proof. by destruct BASE_SMALL. Qed.

Lemma rbits_range : 6 <= TVR_BITS BASE_SMALL <= 8.
Proof. destruct BASE_SMALL; simpl; lia. Qed.

(** An entry that is cascaded at [T] is in the list that is. *)
Lemma settled_auto T l i e : in_u 32 T -> in_u 32 e -> fits T l i e ->
  ~ (T mod 2 ^ lvl l = 0 ∧ i = (T / 2 ^ lvl l) mod nsize) -> settled T l e.
Proof.
  intros HT He [[-> _]|(Hl & Hd & -> & Hle)] Hn; intros Hl'; [lia|].
  destruct (decide (e mod 2 ^ lvl l = dist T e)) as [Heq|]; [|lia]. exfalso. apply Hn. clear Hn.
  pose proof (lvl_range l Hl). assert (0 < 2 ^ lvl l) by lia.
  assert (e mod 2 ^ lvl l = e - T) as Hs.
  { rewrite dist_spec in Heq by done. destruct (Z.leb_spec T e); [done|].
    pose proof (Z.mod_le e (2 ^ lvl l) ltac:(apply He) ltac:(lia)). unfold in_u in *. lia. }
  assert (T = 2 ^ lvl l * (e / 2 ^ lvl l)) as -> by (pose proof (Z.div_mod e (2 ^ lvl l)); lia).
  rewrite Z.mul_comm, Z.mod_mul, Z.div_mul by lia. done.
Qed.

Lemma fits_next T l i e : in_u 32 T -> in_u 32 e -> fits T l i e -> settled T l e -> (l = 0 -> i <> T mod rsize) ->
  fits (u32 (T + 1)) l i e.
Proof.
  intros HT He Hf Hs Hi. destruct Hf as [[-> Hf]|(Hl & Hd & -> & Hle)].
  - left. split; [done|]. destruct Hf as [[Hd ->]|[Hd ->]]; [|by destruct Hi].
    left. split; [|done]. destruct (decide (dist T e = 0)) as [H0|]; [|pose proof (dist_range T e); rewrite dist_next; lia].
    exfalso. apply (Hi eq_refl). rewrite dist_spec in H0 by done. unfold in_u in *.
    destruct (Z.leb_spec T e); [|lia]. f_equal. lia.
  - right. specialize (Hs ltac:(lia)). pose proof (Z.mod_pos_bound e (2 ^ lvl l) ltac:(pose proof (lvl_range l); lia)).
    rewrite dist_next by lia. split_and!; try done; lia.
Qed.

Lemma due_iff T l i e : in_u 32 T -> in_u 32 e -> fits T l i e -> settled T l e ->
  s32 (e - T) <= 0 <-> l = 0 ∧ i = T mod rsize.
Proof.
  intros HT He Hf Hs. rewrite s32_dist. pose proof (dist_range T e) as Hr. destruct Hf as [[-> Hf]|(Hl & Hd & -> & Hle)].
  - assert (rsize <= 256) by (destruct BASE_SMALL; vm_compute; discriminate).
    destruct Hf as [[Hd ->]|[Hd ->]]; destruct (Z.ltb_spec (dist T e) (2 ^ 31)); try lia. split.
    + intros Hz. split; [done|]. assert (dist T e = 0) as H1 by lia. rewrite dist_spec in H1 by done.
      unfold in_u in *. destruct (Z.leb_spec T e); [|lia]. f_equal. lia.
    + intros [_ Hm]. rewrite <- (Z.mod_small (dist T e) rsize) by lia. rewrite rsize_pow in *.
      rewrite dist_mod by (pose proof rbits_range; lia). rewrite Zminus_mod, Hm, Z.sub_diag, Z.mod_0_l; [lia|].
      pose proof rbits_range. lia.
  - specialize (Hs ltac:(lia)). pose proof (Z.mod_pos_bound e (2 ^ lvl l) ltac:(pose proof (lvl_range l); lia)).
    pose proof (reach_le l Hl). destruct (Z.ltb_spec (dist T e) (2 ^ 31)); lia.
Qed.

(** A timer is put where it belongs, never into a list that is being cascaded. *)
Lemma vec_fits T e : in_u 32 T -> in_u 32 e ->
  let p := timer_vec BASE_SMALL T e in fits T p.1 p.2 e ∧ settled T p.1 e.
Proof.
  intros HT He. unfold timer_vec. fold (dist T e). pose proof (dist_range T e) as Hr.
  rewrite !mask_r, !mask_n. rewrite !Z.shiftr_div_pow2, !Z.shiftl_1_l by (pose proof rbits_range; unfold TVN_BITS; destruct BASE_SMALL; lia).
  assert (lvl 1 = TVR_BITS BASE_SMALL) as L1 by (unfold lvl; lia).
  assert (lvl 2 = TVR_BITS BASE_SMALL + TVN_BITS BASE_SMALL) as L2 by (unfold lvl; lia).
  assert (lvl 3 = TVR_BITS BASE_SMALL + 2 * TVN_BITS BASE_SMALL) as L3 by (unfold lvl; lia).
  assert (lvl 4 = TVR_BITS BASE_SMALL + 3 * TVN_BITS BASE_SMALL) as L4 by (unfold lvl; lia).
  assert (∀ l, 1 <= l <= 4 -> 2 ^ lvl l <= dist T e -> dist T e < reach l ->
    fits T l ((e / 2 ^ lvl l) mod nsize) e ∧ settled T l e) as Hcoarse.
  { intros l Hl Hge Hlt. pose proof (Z.mod_pos_bound e (2 ^ lvl l) ltac:(pose proof (lvl_range l); lia)).
    split; [right; split_and!; try done; lia|intros _; lia]. }
  pose proof (Hcoarse 1) as C1. pose proof (Hcoarse 2) as C2. pose proof (Hcoarse 3) as C3. pose proof (Hcoarse 4) as C4.
  change (reach 1) with (2 ^ lvl 2) in C1. change (reach 2) with (2 ^ lvl 3) in C2. change (reach 3) with (2 ^ lvl 4) in C3.
  change (reach 4) with (2 ^ 31) in C4. rewrite L1, L2 in C1. rewrite L2, L3 in C2. rewrite L3, L4 in C3. rewrite L4 in C4. rewrite rsize_pow.
  assert (2 ^ (TVR_BITS BASE_SMALL + TVN_BITS BASE_SMALL) < 2 ^ 31 ∧ 2 ^ (TVR_BITS BASE_SMALL + 2 * TVN_BITS BASE_SMALL) < 2 ^ 31 ∧
    2 ^ (TVR_BITS BASE_SMALL + 3 * TVN_BITS BASE_SMALL) < 2 ^ 31) as (? & ? & ?) by (destruct BASE_SMALL; done).
  change (s32 (dist T e)) with (s32 (u32 (e - T))). rewrite s32_u32, s32_dist.
  destruct (Z.ltb_spec (dist T e) (2 ^ TVR_BITS BASE_SMALL)).
  { split; [|intros ?; simpl in *; lia]. left. split; [done|]. left. rewrite rsize_pow. done. }
  destruct (Z.ltb_spec (dist T e) (2 ^ (TVR_BITS BASE_SMALL + TVN_BITS BASE_SMALL))); [apply C1; lia|].
  destruct (Z.ltb_spec (dist T e) (2 ^ (TVR_BITS BASE_SMALL + 2 * TVN_BITS BASE_SMALL))); [apply C2; lia|].
  destruct (Z.ltb_spec (dist T e) (2 ^ (TVR_BITS BASE_SMALL + 3 * TVN_BITS BASE_SMALL))); [apply C3; lia|].
  destruct (Z.ltb_spec (dist T e) (2 ^ 31)); case_cmp; try lia; [apply C4; lia|].
  split; [|intros ?; simpl in *; lia]. left. split; [done|]. right. rewrite rsize_pow. done.
Qed.
End Placement.

(** * The invariant *)

Section Inv.
Context (BASE_SMALL : bool).
Implicit Types (s : tsys) (t l i : Z) (X : list Z) (tm : timer_list).
Abbreviation fits := (fits BASE_SMALL).

Definition listed s t : Prop := ∃ l i, t ∈ slot s l i.

(** A timer that can be on a list. *)
Definition armed s t : Prop := ∃ tm, timers s !! t = Some tm ∧ function tm <> None.

(** Every timer on a list of the wheel is where it may be, once; the timers of
    [X] are taken out of the wheel but still count as pending; [fl] is a timer
    that is in between. *)
Record wf s X (fl : option Z) : Prop := {
  wf_time : in_u 32 (timer_jiffies s);
  wf_expires t tm : timers s !! t = Some tm -> in_u 32 (expires tm);
  wf_fits l i t : t ∈ slot s l i -> armed s t ∧ ∀ tm, timers s !! t = Some tm -> fits (timer_jiffies s) l i (expires tm);
  wf_nodup l i : NoDup (slot s l i);
  wf_uniq l i l' i' t : t ∈ slot s l i -> t ∈ slot s l' i' -> l = l' ∧ i = i';
  wf_loose : NoDup X;
  wf_loose_in t : t ∈ X -> armed s t ∧ ~ listed s t;
  wf_float t : fl = Some t -> (t ∉ X) ∧ ~ listed s t;
  wf_pending t tm : timers s !! t = Some tm -> fl <> Some t -> (pending tm = true <-> t ∈ X ∨ listed s t);
}.

Lemma slot_add p t s l i : slot (set_tv (add_tail p t) s) l i = if decide (p = (l, i)) then slot s l i ++ [t] else slot s l i.
Proof. unfold slot, set_tv, add_tail. simpl. rewrite lookup_insert. by case_decide; subst. Qed.

Lemma slot_unlink t s l i : slot (unlink t s) l i = filter (.≠ t) (slot s l i).
Proof. unfold slot, unlink. simpl. rewrite lookup_fmap. by destruct (tv s !! (l, i)). Qed.

Lemma slot_clear s l i l' i' : slot (set_tv (insert (l, i) []) s) l' i' = if decide ((l, i) = (l', i')) then [] else slot s l' i'.
Proof. unfold slot, set_tv. simpl. rewrite lookup_insert. by case_decide; subst. Qed.

Lemma timers_upd t f s t' : timers (upd t f s) !! t' = if decide (t = t') then f <$> timers s !! t' else timers s !! t'.
Proof. unfold upd, set_timers. simpl. rewrite lookup_alter. by case_decide; subst. Qed.

Lemma listed_unlink t s t' : listed (unlink t s) t' <-> listed s t' ∧ t' <> t.
Proof.
  unfold listed. split.
  - intros (l & i & Hin). rewrite slot_unlink in Hin. apply list_elem_of_filter in Hin as [Hne Hin]. eauto.
  - intros [(l & i & Hin) Hne]. exists l, i. rewrite slot_unlink. by apply list_elem_of_filter.
Qed.

(** A timer in between is changed. *)
Lemma wf_upd s X t f : wf s X (Some t) -> (∀ tm, in_u 32 (expires tm) -> in_u 32 (expires (f tm))) -> wf (upd t f s) X (Some t).
Proof.
  intros Hwf Hf. pose proof (wf_float _ _ _ Hwf t eq_refl) as [Hx Hl].
  assert (∀ t', t' <> t -> timers (upd t f s) !! t' = timers s !! t') as Hne.
  { intros t' Ht'. rewrite timers_upd, decide_False by congruence. done. }
  split; try apply Hwf.
  - intros t' tm'. rewrite timers_upd. case_decide as Ht; [|apply (wf_expires _ _ _ Hwf)]. subst t'.
    destruct (timers s !! t) as [tm|] eqn:Htm; [|done]. intros [= <-]. apply Hf, (wf_expires _ _ _ Hwf t tm Htm).
  - intros l i t' Hin. assert (t' <> t) as Ht' by (intros ->; apply Hl; by exists l, i).
    unfold armed. rewrite Hne by done. by apply (wf_fits _ _ _ Hwf).
  - intros t' Hin. assert (t' <> t) as Ht' by congruence. unfold armed. rewrite Hne by done. by apply (wf_loose_in _ _ _ Hwf).
  - intros t' tm' Htm' Hfl. rewrite Hne in Htm' by congruence. by apply (wf_pending _ _ _ Hwf).
Qed.

(** Not pending is not on a list. *)
Lemma wf_idle s X t tm : timers s !! t = Some tm -> pending tm = false -> (wf s X None <-> wf s X (Some t)).
Proof.
  intros Htm Hp. split; intros Hwf; (split; try apply Hwf).
  - intros t' [= <-]. pose proof (wf_pending _ _ _ Hwf t tm Htm) as Hiff. rewrite Hp in Hiff. specialize (Hiff ltac:(discriminate)).
    split; intros Hin; [pose proof (proj2 Hiff (or_introl Hin))|pose proof (proj2 Hiff (or_intror Hin))]; done.
  - intros t' tm' Htm' _. by apply (wf_pending _ _ _ Hwf).
  - done.
  - intros t' tm' Htm' _. destruct (decide (t' = t)) as [->|]; [|apply (wf_pending _ _ _ Hwf t' tm' Htm'); congruence].
    rewrite Htm in Htm'. injection Htm' as <-. rewrite Hp. destruct (wf_float _ _ _ Hwf t eq_refl). split; [done|tauto].
Qed.

Lemma wf_unlink s X t : wf s X None -> wf (unlink t s) (filter (.≠ t) X) (Some t).
Proof.
  intros Hwf. split; try apply Hwf.
  - intros l i t'. rewrite slot_unlink. intros [_ Hin]%list_elem_of_filter. by apply (wf_fits _ _ _ Hwf).
  - intros l i. rewrite slot_unlink. apply NoDup_filter, Hwf.
  - intros l i l' i' t'. rewrite !slot_unlink. intros [_ H1]%list_elem_of_filter [_ H2]%list_elem_of_filter. by apply (wf_uniq _ _ _ Hwf _ _ _ _ t').
  - apply NoDup_filter, Hwf.
  - intros t' [Hne Hin]%list_elem_of_filter. rewrite listed_unlink. destruct (wf_loose_in _ _ _ Hwf t' Hin). tauto.
  - intros t' [= <-]. rewrite list_elem_of_filter, listed_unlink. tauto.
  - intros t' tm' Htm' Hne. rewrite (wf_pending _ _ _ Hwf t' tm' Htm') by done. rewrite list_elem_of_filter, listed_unlink.
    assert (t' <> t) by congruence. tauto.
Qed.

Lemma wf_pop s X t : wf s (t :: X) None -> wf s X (Some t).
Proof.
  intros Hwf. pose proof (wf_loose _ _ _ Hwf) as [Hn Hd]%NoDup_cons. split; try apply Hwf; try done.
  - intros t' Hin. apply (wf_loose_in _ _ _ Hwf). by right.
  - intros t' [= <-]. split; [done|]. apply (wf_loose_in _ _ _ Hwf). by left.
  - intros t' tm' Htm' Hne. rewrite (wf_pending _ _ _ Hwf t' tm' Htm') by done. rewrite elem_of_cons.
    assert (t' <> t) by congruence. tauto.
Qed.

(** A list is taken out. *)
Lemma wf_take s X l i : wf s X None -> wf (set_tv (insert (l, i) []) s) (slot s l i ++ X) None.
Proof.
  intros Hwf. assert (∀ l' i' t, t ∈ slot (set_tv (insert (l, i) []) s) l' i' -> (l, i) <> (l', i') ∧ t ∈ slot s l' i') as Hsub.
  { intros l' i' t. rewrite slot_clear. case_decide; [by intros ?%elem_of_nil|done]. }
  split; try apply Hwf.
  - intros l' i' t [_ Hin]%Hsub. by apply (wf_fits _ _ _ Hwf).
  - intros l' i'. rewrite slot_clear. case_decide; [constructor|apply Hwf].
  - intros l1 i1 l2 i2 t [_ H1]%Hsub [_ H2]%Hsub. by apply (wf_uniq _ _ _ Hwf _ _ _ _ t).
  - apply NoDup_app. split_and!; [apply Hwf| |apply Hwf]. intros t Hin Hx. apply (wf_loose_in _ _ _ Hwf t Hx). by exists l, i.
  - intros t [Hin|Hin]%elem_of_app.
    + split; [apply (wf_fits _ _ _ Hwf l i t Hin)|]. intros (l' & i' & [Hne Hin']%Hsub).
      destruct (wf_uniq _ _ _ Hwf _ _ _ _ t Hin Hin') as [-> ->]. done.
    + destruct (wf_loose_in _ _ _ Hwf t Hin) as [Ha Hl]. split; [done|]. intros (l' & i' & [_ Hin']%Hsub). apply Hl. by exists l', i'.
  - intros t' H'. done.
  - intros t tm Htm Hfl. rewrite (wf_pending _ _ _ Hwf t tm Htm) by done. rewrite elem_of_app. split.
    + intros [Hx|(l' & i' & Hin)]; [by left; right|]. destruct (decide ((l, i) = (l', i'))) as [[= <- <-]|Hne]; [by left; left|].
      right. exists l', i'. rewrite slot_clear, decide_False; done.
    + intros [[Hin|Hx]|(l' & i' & [_ Hin]%Hsub)]; [right; by exists l, i|by left|right; by exists l', i'].
Qed.

(** ** Adding *)

(** The result of internal_add_timer. *)
Definition added t tm s : tsys :=
  upd t (set_pending true) (set_tv (add_tail (timer_vec BASE_SMALL (timer_jiffies s) (expires tm)) t) s).

Lemma internal_add_run t tm s : timers s !! t = Some tm -> internal_add_timer BASE_SMALL t s = Some (tt, added t tm s).
Proof. intros Htm. unfold internal_add_timer. rewrite (bind_run _ _ s tm s) by (unfold ftry; by rewrite Htm). done. Qed.

Lemma slot_added t tm s l i : slot (added t tm s) l i =
  if decide (timer_vec BASE_SMALL (timer_jiffies s) (expires tm) = (l, i)) then slot s l i ++ [t] else slot s l i.
Proof. apply (slot_add _ t s). Qed.

Lemma in_added t tm s l i t' : t' ∈ slot (added t tm s) l i <->
  t' ∈ slot s l i ∨ t' = t ∧ timer_vec BASE_SMALL (timer_jiffies s) (expires tm) = (l, i).
Proof. rewrite slot_added. case_decide; set_solver. Qed.

Lemma listed_added t tm s t' : listed (added t tm s) t' <-> listed s t' ∨ t' = t.
Proof.
  unfold listed. setoid_rewrite in_added. split; [naive_solver|]. intros [(l & i & Hin)| ->]; [exists l, i; by left|].
  destruct (timer_vec BASE_SMALL (timer_jiffies s) (expires tm)) as [l i] eqn:E. exists l, i. by right.
Qed.

Lemma armed_added t tm s t' : timers s !! t = Some tm -> armed (added t tm s) t' <-> armed s t'.
Proof.
  intros Htm. unfold armed, added. rewrite timers_upd. case_decide as Ht; [subst t'|done]. simpl. rewrite Htm. simpl.
  split; intros (tm' & [= <-] & Hf); eauto.
Qed.

Lemma expires_added t tm s t' tm' : timers (added t tm s) !! t' = Some tm' ->
  ∃ tm0, timers s !! t' = Some tm0 ∧ expires tm' = expires tm0 ∧ (t' <> t ∧ tm' = tm0 ∨ t' = t ∧ pending tm' = true).
Proof.
  unfold added. rewrite timers_upd. case_decide as Ht; [subst t'|by eauto 10]. simpl.
  destruct (timers s !! t) as [tm0|]; [|done]. intros [= <-]. eauto 10.
Qed.

Lemma wf_added s X t tm : wf s X (Some t) -> timers s !! t = Some tm -> function tm <> None -> wf (added t tm s) X None.
Proof.
  intros Hwf Htm Hfn. destruct (wf_float _ _ _ Hwf t eq_refl) as [Hx Hl].
  pose proof (vec_fits BASE_SMALL (timer_jiffies s) (expires tm) (wf_time _ _ _ Hwf) (wf_expires _ _ _ Hwf t tm Htm)) as [Hfit _].
  split; try apply Hwf.
  - intros t' tm' (tm0 & Htm0 & -> & _)%expires_added. by apply (wf_expires _ _ _ Hwf t').
  - intros l i t'. rewrite in_added, armed_added by done. intros [Hin|[-> Hp]].
    + destruct (wf_fits _ _ _ Hwf l i t' Hin) as [Ha Hf]. split; [done|].
      intros tm' (tm0 & Htm0 & -> & _)%expires_added. by apply Hf.
    + split; [by exists tm|]. intros tm' (tm0 & Htm0 & -> & _)%expires_added. rewrite Htm in Htm0. injection Htm0 as <-.
      rewrite Hp in Hfit. exact Hfit.
  - intros l i. rewrite slot_added. case_decide; [|apply Hwf]. apply NoDup_app. split_and!; [apply Hwf| |apply NoDup_singleton].
    intros t' Hin ->%list_elem_of_singleton. apply Hl. by exists l, i.
  - intros l i l' i' t'. rewrite !in_added. intros [H1|[-> H1]] [H2|[E2 H2]]; subst.
    + by apply (wf_uniq _ _ _ Hwf _ _ _ _ t').
    + destruct Hl. by exists l, i.
    + destruct Hl. by exists l', i'.
    + rewrite H1 in H2. by injection H2.
  - intros t' Hin. rewrite armed_added, listed_added by done. destruct (wf_loose_in _ _ _ Hwf t' Hin) as [Ha Hn].
    split; [done|]. intros [Hc| ->]; done.
  - done.
  - intros t' tm' (tm0 & Htm0 & _ & [[Hne ->]|[-> ->]])%expires_added _; rewrite listed_added; [|tauto].
    rewrite (wf_pending _ _ _ Hwf t' tm0 Htm0) by congruence. tauto.
Qed.

(** ** Cascades *)

(** Nothing but the lists of the wheel changes. *)
Definition same_base s s' : Prop := timers s' = timers s ∧ timer_jiffies s' = timer_jiffies s ∧
  work_list s' = work_list s ∧ jiffies s' = jiffies s ∧ fired s' = fired s.

Lemma same_base_trans s1 s2 s3 : same_base s1 s2 -> same_base s2 s3 -> same_base s1 s3.
Proof. unfold same_base. intros (? & ? & ? & ? & ?) (? & ? & ? & ? & ?). split_and!; congruence. Qed.

(** Timer [t] may stay at level [l] after the cascades of the current tick. *)
Definition stays s l t : Prop := ∀ tm, timers s !! t = Some tm -> settled BASE_SMALL (timer_jiffies s) l (expires tm).

Lemma stays_same s s' l t : same_base s s' -> stays s l t <-> stays s' l t.
Proof. intros (Ht & Hj & _). unfold stays. by rewrite Ht, Hj. Qed.

Lemma added_same s X t tm : wf s (t :: X) None -> timers s !! t = Some tm -> same_base s (added t tm s).
Proof.
  intros Hwf Htm. unfold same_base. split_and!; try done. unfold added, upd. simpl. rewrite <- (alter_id (set_pending true) (timers s) t) at 2; [done|].
  intros tm' Htm'. rewrite Htm in Htm'. injection Htm' as <-.
  assert (pending tm = true) as Hp by (apply (wf_pending _ _ _ Hwf t tm Htm); [done|left; by left]). unfold set_pending. rewrite <- Hp. by destruct tm.
Qed.

Lemma add_all_run L : ∀ s X, wf s (L ++ X) None ->
  ∃ s', add_all BASE_SMALL L s = Some (tt, s') ∧ wf s' X None ∧ same_base s s' ∧
    ∀ l i t, t ∈ slot s' l i -> t ∈ slot s l i ∨ stays s l t.
Proof.
  induction L as [|t L IH]; intros s X Hwf; [exists s; split_and!; try done; by left|]. cbn [app] in Hwf.
  destruct (wf_loose_in _ _ _ Hwf t ltac:(by left)) as [(tm & Htm & Hfn) _].
  pose proof (added_same s (L ++ X) t tm Hwf Htm) as Hs1. pose proof (wf_added _ _ t tm (wf_pop _ _ _ Hwf) Htm Hfn) as Hw1.
  destruct (IH _ _ Hw1) as (s' & Hr & Hw & Hs & Hin). exists s'. cbn [add_all].
  rewrite (bind_run _ _ _ _ _ (internal_add_run t tm s Htm)). split_and!; try done; [by eapply same_base_trans|].
  intros l i t' [[Hin'|[-> Hv]]%in_added|Hst]%Hin; [by left| |right; by apply (stays_same _ _ l t' Hs1)].
  right. intros tm' Htm'. rewrite Htm in Htm'. injection Htm' as <-.
  pose proof (vec_fits BASE_SMALL (timer_jiffies s) (expires tm) (wf_time _ _ _ Hwf) (wf_expires _ _ _ Hwf t tm Htm)) as [_ Hse].
  by rewrite Hv in Hse.
Qed.

Lemma cascade_run s X l i : wf s X None ->
  ∃ s', cascade BASE_SMALL l i s = Some (i, s') ∧ wf s' X None ∧ same_base s s' ∧
    ∀ l' i' t, t ∈ slot s' l' i' -> (l', i') <> (l, i) ∧ t ∈ slot s l' i' ∨ stays s l' t.
Proof.
  intros Hwf. destruct (add_all_run _ _ _ (wf_take s X l i Hwf)) as (s' & Hr & Hw & Hs & Hin). exists s'.
  unfold cascade. rewrite (bind_run (fget _) _ s (slot s l i) s) by done.
  rewrite (bind_run (fmodify _) _ _ tt (set_tv (insert (l, i) []) s)) by done. rewrite (bind_run _ _ _ _ _ Hr).
  split_and!; try done. intros l' i' t [Hin'|Hst]%Hin; [left|by right]. rewrite slot_clear in Hin'. case_decide; [by apply elem_of_nil in Hin'|].
  split; [congruence|done].
Qed.

Definition settled_to n s : Prop := ∀ l i t, 1 <= l < n -> t ∈ slot s l i -> stays s l t.

(** A list that is not cascaded at this tick holds no timer that should be. *)
Lemma stays_auto s X l i t : wf s X None -> t ∈ slot s l i ->
  ~ (timer_jiffies s mod 2 ^ lvl BASE_SMALL l = 0 ∧ i = (timer_jiffies s / 2 ^ lvl BASE_SMALL l) mod TVN_SIZE BASE_SMALL) -> stays s l t.
Proof.
  intros Hwf Hin Hn tm Htm. eapply settled_auto; [apply Hwf| |by apply (wf_fits _ _ _ Hwf l i t Hin)|done]. by eapply (wf_expires _ _ _ Hwf t).
Qed.

Lemma mod_pow_mono x a b : 0 <= a <= b -> x mod 2 ^ a <> 0 -> x mod 2 ^ b <> 0.
Proof.
  intros Hab Ha Hb. apply Ha. apply Z.mod_divide in Hb as [k ->]; [|lia].
  replace b with (a + (b - a)) by lia. rewrite Z.pow_add_r by lia. apply Z.mod_divide; [lia|]. exists (k * 2 ^ (b - a)). lia.
Qed.

Lemma lvl_mono l l' : l <= l' -> lvl BASE_SMALL l <= lvl BASE_SMALL l'.
Proof. unfold lvl, TVN_BITS. destruct BASE_SMALL; lia. Qed.

(** The next coarser level. *)
Lemma mod_lvl_succ T N : 0 <= N -> T mod 2 ^ lvl BASE_SMALL (N + 1) = 0 ->
  T mod 2 ^ lvl BASE_SMALL (N + 2) = 2 ^ lvl BASE_SMALL (N + 1) * ((T / 2 ^ lvl BASE_SMALL (N + 1)) mod TVN_SIZE BASE_SMALL).
Proof.
  intros HN HT. replace (lvl BASE_SMALL (N + 2)) with (lvl BASE_SMALL (N + 1) + TVN_BITS BASE_SMALL) by (unfold lvl; lia).
  assert (0 <= lvl BASE_SMALL (N + 1)) by (unfold lvl, TVR_BITS, TVN_BITS; destruct BASE_SMALL; lia).
  assert (0 <= TVN_BITS BASE_SMALL) by (unfold TVN_BITS; destruct BASE_SMALL; lia).
  rewrite Z.pow_add_r, Z.rem_mul_r, HT by lia. by destruct BASE_SMALL.
Qed.

Lemma cascades_run n N s X : 0 <= N -> N + Z.of_nat n = 4 -> timer_jiffies s mod 2 ^ lvl BASE_SMALL (N + 1) = 0 ->
  settled_to (N + 1) s -> wf s X None ->
  ∃ s', cascades BASE_SMALL n N s = Some (tt, s') ∧ wf s' X None ∧ same_base s s' ∧ settled_to 5 s'.
Proof.
  revert N s. induction n as [|n IH]; intros N s HN Hn HT Hset Hwf.
  { exists s. split_and!; try done. by replace 5 with (N + 1) by lia. }
  cbn [cascades]. set (T := timer_jiffies s) in *. set (i := (T / 2 ^ lvl BASE_SMALL (N + 1)) mod TVN_SIZE BASE_SMALL).
  pose proof (lvl_range BASE_SMALL (N + 1) ltac:(lia)) as Hlv.
  rewrite (bind_run _ _ s i s).
  2: { unfold INDEX, fget. rewrite mask_n, Z.shiftr_div_pow2; fold T; unfold i, lvl in *; replace (N + 1 - 1) with N in * by lia; [done|lia]. }
  destruct (cascade_run s X (N + 1) i Hwf) as (s1 & Hr & Hw1 & Hs1 & Hin). rewrite (bind_run _ _ _ _ _ Hr).
  assert (settled_to (N + 2) s1) as Hset1.
  { intros l i' t Hl Hin'. apply (stays_same _ _ l t Hs1). destruct (Hin _ _ _ Hin') as [[Hne Ht]|]; [|done].
    destruct (decide (l = N + 1)) as [->|]; [|by apply (Hset l i'); [lia|]].
    apply (stays_auto s X (N + 1) i' t Hwf Ht). intros [_ Hi]. apply Hne. by rewrite Hi. }
  destruct Hs1 as (Ht1 & Hj1 & Hs1'). destruct (Z.eqb_spec i 0) as [Hi|Hi].
  - destruct (IH (N + 1) s1) as (s' & Hr' & Hw & Hs & Hset'); try done; try lia.
    + rewrite Hj1. fold T. replace (N + 1 + 1) with (N + 2) by lia. rewrite mod_lvl_succ by done. fold i. lia.
    + by replace (N + 1 + 1) with (N + 2) by lia.
    + exists s'. split_and!; try done. eapply same_base_trans; [|done]. done.
  - exists s1. split_and!; try done. intros l i' t Hl Hin'. destruct (decide (l < N + 2)); [by apply (Hset1 l i'); [lia|]|].
    apply (stays_auto s1 X l i' t Hw1 Hin'). rewrite Hj1. fold T. intros [HT2 _]. revert HT2.
    apply (mod_pow_mono T (lvl BASE_SMALL (N + 2))); [split; [unfold lvl, TVR_BITS, TVN_BITS; destruct BASE_SMALL; lia|apply lvl_mono; lia]|].
    rewrite mod_lvl_succ by done. fold i.
    assert (0 < 2 ^ lvl BASE_SMALL (N + 1)) by lia. assert (0 <= i) by (apply Z.mod_pos_bound; by destruct BASE_SMALL). nia.
Qed.

(** ** One tick *)

(** Run at tick [T], the timer is not early. *)
Definition due_at T tm : Prop := s32 (expires tm - T) <= 0.

(** The invariant between two steps: the wheel is well formed, and what is
    left of the work list was due at the tick before the current one. *)
Definition wheel_ok s : Prop := wf s (work_list s) None ∧
  ∀ t tm, t ∈ work_list s -> timers s !! t = Some tm -> due_at (timer_jiffies s - 1) tm.

(** After the cascades no coarse list is left over. *)
Lemma cascade_phase s X : wf s X None ->
  ∃ s', fwhen (timer_jiffies s mod TVR_SIZE BASE_SMALL =? 0) (cascades BASE_SMALL 4 0) s = Some (tt, s') ∧
    wf s' X None ∧ same_base s s' ∧ settled_to 5 s'.
Proof.
  intros Hwf. assert (TVR_SIZE BASE_SMALL = 2 ^ lvl BASE_SMALL 1) as Hr by by destruct BASE_SMALL.
  destruct (Z.eqb_spec (timer_jiffies s mod TVR_SIZE BASE_SMALL) 0) as [H0|H0]; cbn [fwhen].
  - rewrite Hr in H0. apply (cascades_run 4 0 s X); try done. intros l i t Hl. lia.
  - exists s. split_and!; try done. intros l i t Hl Hin. apply (stays_auto s X l i t Hwf Hin). intros [HT _]. revert HT.
    rewrite Hr in H0. apply (mod_pow_mono _ (lvl BASE_SMALL 1)); [|done]. split; [by destruct BASE_SMALL|apply lvl_mono; lia].
Qed.

Lemma s32_next T e : s32 (e - T) = s32 (e - (u32 (T + 1) - 1)).
Proof.
  unfold s32, sx, u32. replace (wrap 32 (e - (wrap 32 (T + 1) - 1))) with (wrap 32 (e - T)); [done|].
  replace (e - (wrap 32 (T + 1) - 1)) with (e + 1 - wrap 32 (T + 1)) by lia. rewrite wrap_sub_r. f_equal. lia.
Qed.

(** Advancing to the next tick when the list of this one was taken out. *)
Lemma wf_advance s : wf s [] None -> settled_to 5 s ->
  let i := timer_jiffies s mod TVR_SIZE BASE_SMALL in
  wf (set_tv (insert (0, i) []) (set_work (λ _, slot s 0 i) (set_timer_jiffies (u32 (timer_jiffies s + 1)) s))) (slot s 0 i) None.
Proof.
  intros Hwf Hset i. pose proof (wf_take s [] 0 i Hwf) as Ht. rewrite app_nil_r in Ht. split; try apply Ht; [apply u32_range|].
  intros l i' t Hin. assert (Hin' := Hin). apply (wf_fits _ _ _ Ht) in Hin' as [Ha Hf]. split; [done|].
  intros tm Htm. change (slot _ l i') with (slot (set_tv (insert (0, i) []) s) l i') in Hin. rewrite slot_clear in Hin.
  case_decide as Hne; [by apply elem_of_nil in Hin|]. specialize (Hf tm Htm).
  apply fits_next; [apply Hwf|by apply (wf_expires _ _ _ Hwf t)|done| |].
  - intros Hl. assert (l < 5) by (destruct Hf as [[? _]|[? _]]; lia). by apply (Hset l i' t ltac:(lia) Hin tm Htm).
  - intros -> Hi. apply Hne. unfold i. by rewrite Hi.
Qed.

(** A tick collects exactly the timers that are due. *)
Lemma collect_run s : wf s [] None ->
  ∃ s', collect BASE_SMALL s = Some (tt, s') ∧ wheel_ok s' ∧ timers s' = timers s ∧
    timer_jiffies s' = u32 (timer_jiffies s + 1) ∧ jiffies s' = jiffies s ∧ fired s' = fired s ∧
    ∀ t, t ∈ work_list s' <-> ∃ tm, timers s !! t = Some tm ∧ pending tm = true ∧ due_at (timer_jiffies s) tm.
Proof.
  intros Hwf. destruct (cascade_phase s [] Hwf) as (s1 & Hr & Hw1 & (Ht & Hj & Hwk & Hjf & Hfd) & Hset).
  set (i := timer_jiffies s mod TVR_SIZE BASE_SMALL).
  exists (set_tv (insert (0, i) []) (set_work (λ _, slot s1 0 i) (set_timer_jiffies (u32 (timer_jiffies s1 + 1)) s1))).
  pose proof (wf_advance s1 Hw1 Hset) as Hadv. rewrite Hj in Hadv. fold i in Hadv.
  assert (∀ t, t ∈ slot s1 0 i <-> ∃ tm, timers s !! t = Some tm ∧ pending tm = true ∧ due_at (timer_jiffies s) tm) as Hiff.
  { intros t. unfold due_at. rewrite <- Ht, <- Hj. split.
    - intros Hin. destruct (wf_fits _ _ _ Hw1 0 i t Hin) as [(tm & Htm & _) Hf]. exists tm. split_and!; [done| |].
      + apply (wf_pending _ _ _ Hw1 t tm Htm); [done|]. right. by exists 0, i.
      + apply (due_iff BASE_SMALL _ 0 i); [apply Hw1|by apply (wf_expires _ _ _ Hw1 t)|by apply Hf|intros ?; lia|]. by rewrite Hj.
    - intros (tm & Htm & Hp & Hd). apply (wf_pending _ _ _ Hw1 t tm Htm) in Hp as [Hin|(l & i' & Hin)]; [by apply elem_of_nil in Hin| |done].
      destruct (wf_fits _ _ _ Hw1 l i' t Hin) as [_ Hf]. specialize (Hf tm Htm).
      apply (due_iff BASE_SMALL _ l i') in Hd as [-> Hi]; [|apply Hw1|by apply (wf_expires _ _ _ Hw1 t)|done|].
      + by rewrite Hi, Hj in Hin.
      + intros Hl. assert (l < 5) by (destruct Hf as [[? _]|[? _]]; lia). by apply (Hset l i' t ltac:(lia) Hin tm Htm). }
  split_and!; try done.
  - unfold collect. rewrite (bind_run (fget _) _ s i s) by (unfold fget; by rewrite mask_r).
    rewrite (bind_run _ _ _ _ _ Hr). done.
  - rewrite Hj. split; [exact Hadv|]. intros t tm Hin Htm. simpl in Hin, Htm. apply Hiff in Hin as (tm' & Htm' & _ & Hd).
    rewrite Ht, Htm' in Htm. injection Htm as <-. unfold due_at in *. simpl. by rewrite <- s32_next.
  - simpl. by rewrite Hj.
Qed.
End Inv.

(** * The operations *)

Section Api.
Context (BASE_SMALL : bool).
Implicit Types (s : tsys) (t e : Z) (X : list Z) (tm : timer_list).
Abbreviation wf := (wf BASE_SMALL).
Abbreviation wheel_ok := (wheel_ok BASE_SMALL).

Lemma filter_ne_id t X : t ∉ X -> filter (.≠ t) X = X.
Proof.
  induction X as [|x X IH]; intros Hn; [done|]. rewrite filter_cons_True by set_solver. f_equal. apply IH. set_solver.
Qed.

Lemma idle_work s t tm : wheel_ok s -> timers s !! t = Some tm -> pending tm = false -> t ∉ work_list s.
Proof.
  intros [Hwf _] Htm Hp Hin. assert (pending tm = true) as Ht; [|by rewrite Hp in Ht].
  apply (wf_pending _ _ _ _ Hwf t tm Htm); [done|by left].
Qed.

(** The other timers of the work list stay due. *)
Lemma work_due s s' t : wheel_ok s -> timer_jiffies s' = timer_jiffies s -> work_list s' = filter (.≠ t) (work_list s) ->
  (∀ t', t' <> t -> timers s' !! t' = timers s !! t') ->
  ∀ t' tm', t' ∈ work_list s' -> timers s' !! t' = Some tm' -> due_at (timer_jiffies s' - 1) tm'.
Proof.
  intros [_ Hd] HT Hw Hne t' tm'. rewrite Hw, list_elem_of_filter. intros [Ht Hin]. rewrite Hne, HT by done. by apply Hd.
Qed.

(** A timer taken off its list, if it is on one. *)
Lemma off_run s t tm : wheel_ok s -> timers s !! t = Some tm ->
  let s1 := if pending tm then unlink t s else s in
  wf s1 (filter (.≠ t) (work_list s)) (Some t) ∧ work_list s1 = filter (.≠ t) (work_list s) ∧
  timers s1 = timers s ∧ timer_jiffies s1 = timer_jiffies s ∧ jiffies s1 = jiffies s ∧ fired s1 = fired s.
Proof.
  intros Hok Htm. destruct (pending tm) eqn:Hp; simpl; split_and!; try done.
  - apply wf_unlink, Hok.
  - rewrite filter_ne_id by (by eapply idle_work). apply (wf_idle _ _ _ t tm Htm Hp), Hok.
  - rewrite filter_ne_id; [done|]. by eapply idle_work.
Qed.

(** __mod_timer sets the expiry time and leaves the timer pending; it says
    whether it was before. *)
Lemma mod_timer__run s t e tm : wheel_ok s -> timers s !! t = Some tm -> function tm <> None -> in_u 32 e ->
  ∃ s', mod_timer_ BASE_SMALL t e s = Some (if pending tm then 1 else 0, s') ∧ wheel_ok s' ∧
    timers s' = <[t := set_pending true (set_expires e tm)]> (timers s) ∧ work_list s' = filter (.≠ t) (work_list s) ∧
    timer_jiffies s' = timer_jiffies s ∧ jiffies s' = jiffies s ∧ fired s' = fired s.
Proof.
  intros Hok Htm Hfn He. destruct (off_run s t tm Hok Htm) as (Hw1 & Hwk & Ht1 & Hj1 & Hjf1 & Hf1).
  set (s1 := if pending tm then unlink t s else s) in *. set (s2 := upd t (set_expires e) s1).
  assert (timers s2 !! t = Some (set_expires e tm)) as Htm2 by (unfold s2; rewrite timers_upd, decide_True, Ht1, Htm; done).
  pose proof (wf_upd _ s1 _ t (set_expires e) Hw1 ltac:(done)) as Hw2.
  pose proof (wf_added _ _ _ t _ Hw2 Htm2 Hfn) as Hw3. exists (added BASE_SMALL t (set_expires e tm) s2).
  assert (timers (added BASE_SMALL t (set_expires e tm) s2) = <[t := set_pending true (set_expires e tm)]> (timers s)) as Htms.
  { unfold added, s2, upd. simpl. rewrite Ht1. apply map_eq. intros t'. rewrite !lookup_alter, lookup_insert.
    repeat case_decide; subst; try done. by rewrite Htm. }
  split_and!; try done.
  - unfold mod_timer_. rewrite (bind_run _ _ s tm s) by (unfold ftry; by rewrite Htm).
    rewrite bool_decide_false by done. rewrite (bind_run _ _ s (if pending tm then 1 else 0) s1) by (unfold s1; by destruct (pending tm)).
    rewrite (bind_run (fmodify _) _ s1 tt s2) by done. by rewrite (bind_run _ _ _ _ _ (internal_add_run _ _ _ _ Htm2)).
  - split; [by rewrite <- Hwk in Hw3|]. apply (work_due s _ t Hok); [done|done|].
    intros t' Hne. by rewrite Htms, lookup_insert_ne.
Qed.

(** del_timer leaves the timer idle. *)
Lemma del_timer_run s t tm : wheel_ok s -> timers s !! t = Some tm ->
  ∃ s', del_timer t s = Some (if pending tm then 1 else 0, s') ∧ wheel_ok s' ∧
    timers s' = <[t := set_pending false tm]> (timers s) ∧ work_list s' = filter (.≠ t) (work_list s) ∧
    timer_jiffies s' = timer_jiffies s ∧ jiffies s' = jiffies s ∧ fired s' = fired s.
Proof.
  intros Hok Htm. destruct (off_run s t tm Hok Htm) as (Hw1 & Hwk & Ht1 & Hj1 & Hjf1 & Hf1).
  unfold del_timer. rewrite (bind_run _ _ s tm s) by (unfold ftry; by rewrite Htm). destruct (pending tm) eqn:Hp.
  - set (s2 := upd t (set_pending false) (unlink t s)).
    assert (timers s2 = <[t := set_pending false tm]> (timers s)) as Htms.
    { unfold s2, upd. simpl. apply map_eq. intros t'. rewrite lookup_alter, lookup_insert. repeat case_decide; subst; try done. by rewrite Htm. }
    exists s2. split_and!; try done. split.
    + apply (wf_idle _ s2 _ t (set_pending false tm)); [by rewrite Htms, lookup_insert_eq|done|]. by apply wf_upd.
    + apply (work_due s _ t Hok); [done|done|]. intros t' Hne. by rewrite Htms, lookup_insert_ne.
  - exists s. split_and!; try done.
    symmetry. apply insert_id. rewrite Htm. f_equal. unfold set_pending. rewrite <- Hp. by destruct tm.
Qed.

(** What other code may do to the timers of [A]: the timer operations, writing
    the fields of a timer that is not pending, and letting time pass. *)
Inductive api (A : Z -> Prop) : tsys -> tsys -> Prop :=
| api_mod_ t e s r s' : A t -> in_u 32 e -> mod_timer_ BASE_SMALL t e s = Some (r, s') -> api A s s'
| api_mod t e s r s' : A t -> in_u 32 e -> mod_timer BASE_SMALL t e s = Some (r, s') -> api A s s'
| api_add t s r s' : A t -> add_timer BASE_SMALL t s = Some (r, s') -> api A s s'
| api_add_on t s r s' : A t -> add_timer_on BASE_SMALL t s = Some (r, s') -> api A s s'
| api_del t s r s' : A t -> del_timer t s = Some (r, s') -> api A s s'
| api_write t tm s : A t -> pending tm = false -> in_u 32 (expires tm) ->
    (∀ tm0, timers s !! t = Some tm0 -> pending tm0 = false) -> api A s (set_timers (insert t tm) s)
| api_time n s : api A s (set_jiffies (u32 (jiffies s + n)) s).

(** What such a step leaves alone. *)
Definition leaves A s s' : Prop := wheel_ok s' ∧ timer_jiffies s' = timer_jiffies s ∧ fired s' = fired s ∧
  work_list s' `sublist_of` work_list s ∧
  ∀ t, ~ A t -> timers s' !! t = timers s !! t ∧ (t ∈ work_list s <-> t ∈ work_list s').

Lemma leaves_refl A s : wheel_ok s -> leaves A s s.
Proof. by unfold leaves. Qed.

Lemma leaves_trans A s1 s2 s3 : leaves A s1 s2 -> leaves A s2 s3 -> leaves A s1 s3.
Proof.
  intros (_ & ? & ? & ? & Ht1) (? & ? & ? & ? & Ht2). unfold leaves. split_and!; [done|congruence|congruence|by etrans|].
  intros t Ha. destruct (Ht1 t Ha) as [? ?], (Ht2 t Ha) as [? ?]. split; [congruence|tauto].
Qed.

Lemma leaves_one (A : Z -> Prop) t tm' s s' : A t -> wheel_ok s' -> timers s' = <[t := tm']> (timers s) ->
  work_list s' = filter (.≠ t) (work_list s) -> timer_jiffies s' = timer_jiffies s -> fired s' = fired s -> leaves A s s'.
Proof.
  intros Ha Hok Ht Hw Hj Hf. unfold leaves. split_and!; try done; [rewrite Hw; apply sublist_filter|].
  intros t' Hn. assert (t' <> t) by congruence. rewrite Ht, Hw, lookup_insert_ne, list_elem_of_filter by done. tauto.
Qed.

Lemma wf_write s X t tm : wf s X None -> (∀ tm0, timers s !! t = Some tm0 -> pending tm0 = false) ->
  in_u 32 (expires tm) -> pending tm = false -> wf (set_timers (insert t tm) s) X None.
Proof.
  intros Hwf Hidle He Hp. assert (t ∉ X) as Hx.
  { intros Hin. destruct (wf_loose_in _ _ _ _ Hwf t Hin) as [(tm0 & Htm0 & _) _]. pose proof (Hidle _ Htm0) as Hf.
    rewrite (proj2 (wf_pending _ _ _ _ Hwf t tm0 Htm0 ltac:(done)) (or_introl Hin)) in Hf. done. }
  assert (~ listed s t) as Hl.
  { intros Hin. assert (Hin' := Hin). destruct Hin' as (l & i & Hli). destruct (wf_fits _ _ _ _ Hwf l i t Hli) as [(tm0 & Htm0 & _) _].
    pose proof (Hidle _ Htm0) as Hf. rewrite (proj2 (wf_pending _ _ _ _ Hwf t tm0 Htm0 ltac:(done)) (or_intror Hin)) in Hf. done. }
  assert (∀ t', t' <> t -> timers (set_timers (insert t tm) s) !! t' = timers s !! t') as Hne.
  { intros t' Hne. simpl. by rewrite lookup_insert_ne. }
  split; try apply Hwf.
  - intros t' tm'. destruct (decide (t' = t)) as [->|Ht']; [simpl; rewrite lookup_insert_eq; by intros [= <-]|].
    rewrite Hne by done. apply (wf_expires _ _ _ _ Hwf).
  - intros l i t' Hin. assert (t' <> t) as Ht' by (intros ->; apply Hl; by exists l, i).
    unfold armed. rewrite Hne by done. by apply (wf_fits _ _ _ _ Hwf).
  - intros t' Hin. assert (t' <> t) as Ht' by congruence. unfold armed. rewrite Hne by done. by apply (wf_loose_in _ _ _ _ Hwf).
  - intros t' tm' Htm' _. destruct (decide (t' = t)) as [->|Ht'].
    + simpl in Htm'. rewrite lookup_insert_eq in Htm'. injection Htm' as <-. rewrite Hp. split; [done|]. intros [?|?]; done.
    + rewrite Hne in Htm' by done. by apply (wf_pending _ _ _ _ Hwf).
Qed.

Lemma mod_step (A : Z -> Prop) t e s r s' : wheel_ok s -> A t -> in_u 32 e -> mod_timer_ BASE_SMALL t e s = Some (r, s') -> leaves A s s'.
Proof.
  intros Hok Ha He Hr. assert (∃ tm, timers s !! t = Some tm ∧ function tm <> None) as (tm & Htm & Hfn).
  { unfold mod_timer_ in Hr. apply Sf_bind_Some in Hr as (tm & s1 & [Htm ->]%ftry_Some & Hr). case_bool_decide; [done|]. eauto. }
  destruct (mod_timer__run s t e tm Hok Htm Hfn He) as (s2 & Hr2 & Hok2 & Ht2 & Hw2 & Hj2 & _ & Hf2).
  rewrite Hr in Hr2. injection Hr2 as _ <-. by eapply leaves_one.
Qed.

(** Every operation keeps the invariant and touches its timer only. *)
Lemma api_leaves A s s' : wheel_ok s -> api A s s' -> leaves A s s'.
Proof.
  intros Hok Hstep. destruct Hstep as [t e s r s' Ha He Hr|t e s r s' Ha He Hr|t s r s' Ha Hr|t s r s' Ha Hr|t s r s' Ha Hr|t tm s Ha Hp He Hi|n s].
  - by eapply mod_step.
  - unfold mod_timer in Hr. apply Sf_bind_Some in Hr as (tm & s1 & Htm & Hr). apply ftry_Some in Htm as [Htm ->].
    case_bool_decide; [done|]. destruct (_ && _); [injection Hr as _ <-; by apply leaves_refl|]. by eapply mod_step.
  - unfold add_timer in Hr. apply Sf_bind_Some in Hr as (tm & s1 & Htm & Hr). apply ftry_Some in Htm as [Htm ->].
    destruct (pending tm); [done|]. apply Sf_bind_Some in Hr as (r' & s1 & Hr & [= _ <-]).
    eapply mod_step; [done|done| |done]. apply (wf_expires _ _ _ _ (proj1 Hok) t tm Htm).
  - unfold add_timer_on in Hr. apply Sf_bind_Some in Hr as (tm & s1 & Htm & Hr). apply ftry_Some in Htm as [Htm ->].
    destruct (pending tm) eqn:Hp; [done|]. cbn [orb] in Hr. case_bool_decide as Hfn; [done|].
    rewrite (internal_add_run _ _ _ _ Htm) in Hr. injection Hr as _ <-.
    assert (timers (added BASE_SMALL t tm s) = <[t := set_pending true tm]> (timers s)) as Htms.
    { unfold added, upd. simpl. apply map_eq. intros t'. rewrite lookup_alter, lookup_insert. repeat case_decide; subst; try done. by rewrite Htm. }
    apply (leaves_one A t (set_pending true tm)); try done; [|simpl; by rewrite filter_ne_id; [|by eapply idle_work]].
    split; [by apply wf_added; [apply (wf_idle _ _ _ t tm Htm Hp), Hok|..]|].
    apply (work_due s _ t Hok); [done|simpl; by rewrite filter_ne_id; [|by eapply idle_work]|]. intros t' Hne. by rewrite Htms, lookup_insert_ne.
  - assert (∃ tm, timers s !! t = Some tm) as (tm & Htm).
    { unfold del_timer in Hr. apply Sf_bind_Some in Hr as (tm & s1 & [Htm ->]%ftry_Some & _). eauto. }
    destruct (del_timer_run s t tm Hok Htm) as (s2 & Hr2 & Hok2 & Ht2 & Hw2 & Hj2 & _ & Hf2).
    rewrite Hr in Hr2. injection Hr2 as _ <-. by eapply leaves_one.
  - assert (t ∉ work_list s) as Hn.
    { intros Hin. destruct (wf_loose_in _ _ _ _ (proj1 Hok) t Hin) as [(tm0 & Htm0 & _) _]. revert Hin. by eapply idle_work, Hi. }
    apply (leaves_one A t tm); try done; [|simpl; by rewrite filter_ne_id]. split; [by apply wf_write; [apply Hok|..]|].
    apply (work_due s _ t Hok); [done|simpl; by rewrite filter_ne_id|]. intros t' Hne. simpl. by rewrite lookup_insert_ne.
  - unfold leaves. split_and!; try done. split; [split; apply (proj1 Hok)|apply Hok].
Qed.

Lemma apis_leave A s s' : wheel_ok s -> rtc (api A) s s' -> leaves A s s'.
Proof.
  intros Hok Hr. induction Hr as [s|s1 s2 s3 H12 _ IH]; [by apply leaves_refl|].
  pose proof (api_leaves A s1 s2 Hok H12) as Hl. eapply leaves_trans; [done|]. apply IH, Hl.
Qed.
End Api.

(** * Running timers *)

(** A timer function only uses the operations, on the timers of [A]. *)
Class TimerCalls (BASE_SMALL : bool) (call : Z -> Z -> Sf tsys unit) (A : Z -> Prop) : Prop :=
  calls_api f d s s' : call f d s = Some (tt, s') -> rtc (api BASE_SMALL A) s s'.

(** Ticks from [T] until a timer is run: at once if it is overdue. *)
Definition delay (T e : Z) : Z := if dist T e <? 2 ^ 31 then dist T e else 0.

(** The calls of timer [t]. *)
Definition calls_of (t : Z) (L : list (Z * Z * Z)) : list (Z * Z * Z) := filter (λ x, x.1.1 = t) L.

Section Running.
Context (BASE_SMALL : bool) (call : Z -> Z -> Sf tsys unit) (A : Z -> Prop).
Context `{HC : !TimerCalls BASE_SMALL call A}.
Implicit Types (s : tsys) (t e : Z) (tm : timer_list) (L : list (Z * Z * Z)).
Abbreviation wheel_ok := (wheel_ok BASE_SMALL).

Lemma calls_of_app t L1 L2 : calls_of t (L1 ++ L2) = calls_of t L1 ++ calls_of t L2.
Proof. apply filter_app. Qed.

(** The head of the work list is detached and its call recorded. *)
Lemma work_head s t w tm : wheel_ok s -> work_list s = t :: w -> timers s !! t = Some tm ->
  let x := (t, expires tm, u32 (timer_jiffies s - 1)) in
  ∃ s1, (detach_timer t true ;; fmodify (λ s, set_fired (.++ [(t, expires tm, u32 (timer_jiffies s - 1))]) s)) s = Some (tt, s1) ∧
    wheel_ok s1 ∧ timers s1 = <[t := set_pending false tm]> (timers s) ∧ work_list s1 = w ∧
    timer_jiffies s1 = timer_jiffies s ∧ jiffies s1 = jiffies s ∧ fired s1 = fired s ++ [x] ∧
    s32 (expires tm - u32 (timer_jiffies s - 1)) <= 0 ∧ t ∉ w.
Proof.
  intros Hok Hw Htm x. destruct (del_timer_run BASE_SMALL s t tm Hok Htm) as (s1 & Hr & Hok1 & Ht & Hwk & Hj & Hjf & Hf).
  assert (pending tm = true) as Hp by (apply (wf_pending _ _ _ _ (proj1 Hok) t tm Htm); [done|left; rewrite Hw; by left]).
  unfold del_timer in Hr. rewrite (bind_run _ _ s tm s) in Hr by (unfold ftry; by rewrite Htm). rewrite Hp in Hr.
  apply Sf_bind_Some in Hr as ([] & s1' & Hd & [= <-]).
  pose proof (wf_loose _ _ _ _ (proj1 Hok)) as Hnd. rewrite Hw in Hnd. apply NoDup_cons in Hnd as [Hn Hnd].
  rewrite Hw, filter_cons_False, filter_ne_id in Hwk by (done || congruence).
  eexists. rewrite (bind_run _ _ _ _ _ Hd). split; [reflexivity|]. split_and!; try done.
  - split; [split; apply (proj1 Hok1)|apply Hok1].
  - simpl. by rewrite Hf, Hj.
  - pose proof (proj2 Hok t tm) as Hdue. rewrite Hw in Hdue. specialize (Hdue ltac:(by left) Htm). unfold due_at in Hdue.
    enough (s32 (expires tm - u32 (timer_jiffies s - 1)) = s32 (expires tm - (timer_jiffies s - 1))) by lia.
    unfold s32, sx, u32. by rewrite wrap_sub_r.
Qed.

(** Running the work list calls each timer on it at most once, none of them
    early, and every one that the other timer functions leave alone. *)
Lemma run_work_ok n : ∀ s s', wheel_ok s -> run_work call n s = Some (tt, s') ->
  ∃ L, fired s' = fired s ++ L ∧ wheel_ok s' ∧ work_list s' = [] ∧ timer_jiffies s' = timer_jiffies s ∧
    (∀ t e k, (t, e, k) ∈ L -> s32 (e - k) <= 0) ∧
    ∀ t tm, ~ A t -> timers s !! t = Some tm ->
      if bool_decide (t ∈ work_list s)
      then calls_of t L = [(t, expires tm, u32 (timer_jiffies s - 1))] ∧ timers s' !! t = Some (set_pending false tm)
      else calls_of t L = [] ∧ timers s' !! t = Some tm.
Proof.
  induction n as [|n IH]; intros s s' Hok Hr; cbn [run_work] in Hr; (destruct (work_list s) as [|t w] eqn:Hw).
  1,3: unfold mbind, Sf_bind, fget in Hr; rewrite Hw in Hr; injection Hr as <-; exists []; rewrite app_nil_r;
    split_and!; try done; by intros t e k ?%elem_of_nil.
  - unfold mbind, Sf_bind, fget in Hr. by rewrite Hw in Hr.
  - rewrite (bind_run (fget work_list) _ s (t :: w) s) in Hr by (unfold fget; by rewrite Hw).
    apply Sf_bind_Some in Hr as (tm & s0 & [Htm ->]%ftry_Some & Hr). apply Sf_bind_Some in Hr as (fn & s0 & [Hfn ->]%ftry_Some & Hr).
    destruct (work_head s t w tm Hok Hw Htm) as (s1 & Hr1 & Hok1 & Ht1 & Hw1 & Hj1 & _ & Hf1 & Hdue & Hn).
    apply Sf_bind_Some in Hr1 as (u & sd & Hd & Hf). rewrite (bind_run _ _ _ _ _ Hd), (bind_run _ _ _ _ _ Hf) in Hr.
    apply Sf_bind_Some in Hr as ([] & s2 & Hc & Hr).
    destruct (apis_leave BASE_SMALL A s1 s2 Hok1 (calls_api _ _ _ _ Hc)) as (Hok2 & Hj2 & Hf2 & _ & Hleft).
    destruct (IH s2 s' Hok2 Hr) as (L & HfL & Hok' & Hw' & Hj' & Hearly & Hex).
    exists ((t, expires tm, u32 (timer_jiffies s - 1)) :: L). split_and!; try done; try congruence.
    + rewrite HfL, Hf2, Hf1, <- app_assoc. done.
    + intros t' e k [[= -> -> ->]|Hin]%elem_of_cons; [done|]. by apply (Hearly t').
    + intros t' tm' Ha Htm'. unfold calls_of. rewrite filter_cons. simpl. destruct (Hleft t' Ha) as [Hl1 Hl2]. rewrite Ht1, Hw1 in *.
      destruct (decide (t = t')) as [<-|Hne].
      * rewrite bool_decide_true by (by left). rewrite Htm in Htm'. injection Htm' as <-. rewrite lookup_insert_eq in Hl1.
        specialize (Hex t _ Ha Hl1). rewrite bool_decide_false in Hex by tauto. destruct Hex as [Hcs Htms].
        unfold calls_of in Hcs. rewrite Hcs. done.
      * rewrite lookup_insert_ne, Htm' in Hl1 by done. specialize (Hex t' tm' Ha Hl1).
        replace (bool_decide (t' ∈ t :: w)) with (bool_decide (t' ∈ work_list s2)).
        { rewrite Hj2, Hj1 in Hex. done. }
        apply bool_decide_ext. rewrite <- Hl2, elem_of_cons. split; [tauto|]. intros [->|?]; done.
Qed.

Lemma delay_due T tm : delay T (expires tm) = 0 <-> due_at T tm.
Proof.
  unfold delay, due_at. rewrite s32_dist. pose proof (dist_range T (expires tm)).
  destruct (Z.ltb_spec (dist T (expires tm)) (2 ^ 31)); lia.
Qed.

Lemma delay_range T e : 0 <= delay T e < 2 ^ 31.
Proof. unfold delay. pose proof (dist_range T e). destruct (Z.ltb_spec (dist T e) (2 ^ 31)); lia. Qed.

Lemma delay_next T e : delay T e <> 0 -> delay (u32 (T + 1)) e = delay T e - 1 ∧ u32 (T + delay T e) = u32 (u32 (T + 1) + (delay T e - 1)).
Proof.
  intros Hd. split; [|unfold u32; rewrite wrap_add_l; f_equal; lia]. unfold delay in *. pose proof (dist_range T e).
  destruct (Z.ltb_spec (dist T e) (2 ^ 31)); [|done]. rewrite dist_next by lia. case_cmp; lia.
Qed.

(** What a run over [n] ticks from [T] does to a timer that the timer functions
    leave alone: nothing if it is idle or expires later, else one call at its
    time. *)
Definition served (n T t : Z) tm s' L : Prop :=
  if pending tm && (delay T (expires tm) <? n)
  then calls_of t L = [(t, expires tm, u32 (T + delay T (expires tm)))] ∧ timers s' !! t = Some (set_pending false tm)
  else calls_of t L = [] ∧ timers s' !! t = Some tm.

(** One iteration of the loop. *)
Lemma tick_ok s s1 s2 n : wheel_ok s -> work_list s = [] -> collect BASE_SMALL s = Some (tt, s1) -> run_work call n s1 = Some (tt, s2) ->
  ∃ L, fired s2 = fired s ++ L ∧ wheel_ok s2 ∧ work_list s2 = [] ∧ timer_jiffies s2 = u32 (timer_jiffies s + 1) ∧
    (∀ t e k, (t, e, k) ∈ L -> s32 (e - k) <= 0) ∧
    ∀ t tm, ~ A t -> timers s !! t = Some tm -> served 1 (timer_jiffies s) t tm s2 L.
Proof.
  intros Hok Hwk Hc Hr. pose proof (proj1 Hok) as Hwf. rewrite Hwk in Hwf.
  destruct (collect_run BASE_SMALL s Hwf) as (s1' & Hc' & Hok1 & Ht1 & Hj1 & _ & Hf1 & Hiff). rewrite Hc in Hc'. injection Hc' as <-.
  destruct (run_work_ok n s1 s2 Hok1 Hr) as (L & HfL & Hok2 & Hw2 & Hj2 & Hearly & Hex). exists L. split_and!; try done; try congruence.
  intros t tm Ha Htm. unfold served. specialize (Hex t tm Ha). rewrite Ht1 in Hex. specialize (Hex Htm). rewrite Hj1 in Hex.
  pose proof (delay_range (timer_jiffies s) (expires tm)) as Hrg. pose proof (delay_due (timer_jiffies s) tm) as Hdd.
  assert (u32 (u32 (timer_jiffies s + 1) - 1) = timer_jiffies s) as Hback.
  { unfold u32. rewrite wrap_sub_l. replace (timer_jiffies s + 1 - 1) with (timer_jiffies s) by lia. apply wrap_id, Hwf. }
  rewrite Hback in Hex. revert Hex. case_bool_decide as Hin; intros Hex.
  - apply Hiff in Hin as (tm0 & Htm0 & Hp & Hd). rewrite Htm in Htm0. injection Htm0 as <-. apply Hdd in Hd. rewrite Hp, Hd. cbn [andb Z.ltb Z.compare].
    rewrite Z.add_0_r. unfold u32. rewrite (wrap_id 32) by apply Hwf. done.
  - destruct (pending tm && (delay (timer_jiffies s) (expires tm) <? 1)) eqn:E; [|done]. apply andb_true_iff in E as [Hp Hd%Z.ltb_lt].
    exfalso. apply Hin, Hiff. exists tm. split_and!; try done. apply Hdd. lia.
Qed.

(** Two runs in a row. *)
Lemma served_trans n T t tm s1 s2 L1 L2 : 0 <= n -> served 1 T t tm s1 L1 ->
  (∀ tm1, timers s1 !! t = Some tm1 -> served n (u32 (T + 1)) t tm1 s2 L2) -> served (n + 1) T t tm s2 (L1 ++ L2).
Proof.
  unfold served. rewrite calls_of_app. intros Hn H1 H2. pose proof (delay_range T (expires tm)).
  destruct (pending tm && (delay T (expires tm) <? 1)) eqn:E1; destruct H1 as [Hc1 Ht1]; specialize (H2 _ Ht1); rewrite Hc1.
  - apply andb_true_iff in E1 as [Hp Hd%Z.ltb_lt]. rewrite Hp. destruct (Z.ltb_spec (delay T (expires tm)) (n + 1)); [|lia].
    cbn [andb] in *. destruct H2 as [-> ->]. done.
  - destruct (pending tm) eqn:Hp; cbn [andb] in *; [|done]. apply Z.ltb_ge in E1. destruct (delay_next T (expires tm) ltac:(lia)) as [Hd Ht].
    rewrite Hd in H2. rewrite Ht.
    destruct (Z.ltb_spec (delay T (expires tm) - 1) n), (Z.ltb_spec (delay T (expires tm)) (n + 1)); try lia; done.
Qed.

(** The loop, by induction on the ticks. *)
Lemma run_timers_served fuel s s' : wheel_ok s -> work_list s = [] -> run_timers_ BASE_SMALL call fuel s = Some (tt, s') ->
  ∃ n L, 0 <= n ∧ fired s' = fired s ++ L ∧ wheel_ok s' ∧ work_list s' = [] ∧
    timer_jiffies s' = u32 (timer_jiffies s + n) ∧ time_after_eq (jiffies s') (timer_jiffies s') = false ∧
    (∀ t e k, (t, e, k) ∈ L -> s32 (e - k) <= 0) ∧
    ∀ t tm, ~ A t -> timers s !! t = Some tm -> served n (timer_jiffies s) t tm s' L.
Proof.
  revert s. induction fuel as [|fuel IH]; intros s Hok Hwk Hr; cbn [run_timers_] in Hr;
    rewrite (bind_run (fget _) _ s (time_after_eq (jiffies s) (timer_jiffies s)) s) in Hr by done;
    destruct (time_after_eq (jiffies s) (timer_jiffies s)) eqn:E; try done.
  1,3: injection Hr as <-; exists 0, []; rewrite app_nil_r, Z.add_0_r; unfold u32; rewrite wrap_id by apply (proj1 Hok);
    split_and!; try done; [by intros t e k ?%elem_of_nil|]; intros t tm Ha Htm; unfold served;
    pose proof (delay_range (timer_jiffies s) (expires tm)); destruct (Z.ltb_spec (delay (timer_jiffies s) (expires tm)) 0); [lia|];
    by rewrite andb_false_r.
  apply Sf_bind_Some in Hr as ([] & s1 & Hc & Hr). rewrite (bind_run (fget _) _ s1 (length (work_list s1)) s1) in Hr by done.
  apply Sf_bind_Some in Hr as ([] & s2 & Hw & Hr). destruct (tick_ok s s1 s2 _ Hok Hwk Hc Hw) as (L1 & Hf1 & Hok2 & Hw2 & Hj2 & He1 & Hs1).
  destruct (IH s2 Hok2 Hw2 Hr) as (n & L2 & Hn & Hf2 & Hok' & Hw' & Hj' & Hend & He2 & Hs2). exists (n + 1), (L1 ++ L2).
  split_and!; try done; try lia.
  - rewrite Hf2, Hf1. by rewrite app_assoc.
  - rewrite Hj', Hj2. unfold u32. rewrite wrap_add_l. f_equal. lia.
  - intros t e k [Hin|Hin]%elem_of_app; eauto.
  - intros t tm Ha Htm. eapply served_trans; [done|by apply Hs1|]. intros tm1 Htm1. rewrite <- Hj2. by apply Hs2.
Qed.

(** C4: a run of the timer wheel.  However timer functions start, change and
    delete timers and however many ticks are run: no timer is run before its
    expiry time, the run ends beyond the current time with the invariant and an
    empty work list, and a timer that the timer functions leave alone is run
    exactly once, at its expiry tick (an overdue one at the first tick), if
    that tick is among those run, and stays pending unchanged otherwise; an
    idle one is not run.  All of this across the wrap-around of the clock. *)
Theorem timers_run_on_time fuel s s' : wheel_ok s -> work_list s = [] -> run_timers_ BASE_SMALL call fuel s = Some (tt, s') ->
  ∃ n L, 0 <= n ∧ fired s' = fired s ++ L ∧ wheel_ok s' ∧ work_list s' = [] ∧
    timer_jiffies s' = u32 (timer_jiffies s + n) ∧ time_after_eq (jiffies s') (timer_jiffies s') = false ∧
    (∀ t e k, (t, e, k) ∈ L -> s32 (e - k) <= 0) ∧
    ∀ t tm, ~ A t -> timers s !! t = Some tm -> served n (timer_jiffies s) t tm s' L.
Proof. apply run_timers_served. Qed.

(** ** Termination *)

(** Timer functions that return and do not wait for the clock. *)
Class PromptCalls : Prop :=
  calls_total f d s : wheel_ok s -> ∃ s', call f d s = Some (tt, s') ∧ jiffies s' = jiffies s.

Context `{HP : !PromptCalls}.

Lemma run_work_total n : ∀ s, wheel_ok s -> (length (work_list s) <= n)%nat ->
  ∃ s', run_work call n s = Some (tt, s') ∧ jiffies s' = jiffies s.
Proof.
  induction n as [|n IH]; intros s Hok Hl; cbn [run_work]; (destruct (work_list s) as [|t w] eqn:Hw).
  1,3: exists s; unfold mbind, Sf_bind, fget; by rewrite Hw.
  { simpl in Hl. lia. }
  rewrite (bind_run (fget work_list) _ s (t :: w) s) by (unfold fget; by rewrite Hw).
  assert (armed s t) as (tm & Htm & Hfn) by (apply (wf_loose_in _ _ _ _ (proj1 Hok)); rewrite Hw; by left).
  destruct (function tm) as [fn|] eqn:Hf; [|done]. rewrite (bind_run _ _ s tm s), (bind_run _ _ s fn s) by (unfold ftry; by rewrite ?Htm, ?Hf).
  destruct (work_head s t w tm Hok Hw Htm) as (s1 & Hr1 & Hok1 & _ & Hw1 & _ & Hj1 & _).
  apply Sf_bind_Some in Hr1 as (u & sd & Hd & Hfd). rewrite (bind_run _ _ _ _ _ Hd), (bind_run _ _ _ _ _ Hfd).
  destruct (calls_total fn (t_data tm) s1 Hok1) as (s2 & Hc & Hj2). rewrite (bind_run _ _ _ _ _ Hc).
  destruct (apis_leave BASE_SMALL A s1 s2 Hok1 (calls_api _ _ _ _ Hc)) as (Hok2 & _ & _ & Hsub & _).
  destruct (IH s2 Hok2) as (s' & Hr & Hj); [|exists s'; split; [done|congruence]].
  apply sublist_length in Hsub. rewrite Hw1 in Hsub. simpl in Hl. lia.
Qed.

Lemma s32_step J T : 0 <= s32 (J - T) -> s32 (J - u32 (T + 1)) = s32 (J - T) - 1.
Proof.
  rewrite !s32_dist. fold (dist T J) (dist (u32 (T + 1)) J). pose proof (dist_range T J). intros Hd.
  destruct (Z.ltb_spec (dist T J) (2 ^ 31)); [|lia]. destruct (decide (dist T J = 0)) as [Hz|]; [|rewrite dist_next by lia; case_cmp; lia].
  rewrite Hz. unfold dist, u32 in *. rewrite wrap_sub_r. replace (J - (T + 1)) with (J - T - 1) by lia.
  rewrite <- wrap_sub_l, Hz. done.
Qed.

(** C6: if the timer functions return and do not wait for the clock, a run
    ends: it takes one iteration per tick that has passed, never meets a
    missing function, and leaves the wheel at the tick after the current one. *)
Theorem run_timers_terminates fuel s : wheel_ok s -> work_list s = [] -> s32 (jiffies s - timer_jiffies s) < Z.of_nat fuel ->
  ∃ s', run_timers_ BASE_SMALL call fuel s = Some (tt, s') ∧ jiffies s' = jiffies s ∧ wheel_ok s' ∧
    (0 <= s32 (jiffies s - timer_jiffies s) -> timer_jiffies s' = u32 (jiffies s + 1)).
Proof.
  revert s. induction fuel as [|fuel IH]; intros s Hok Hwk Hf; cbn [run_timers_];
    rewrite (bind_run (fget _) _ s (time_after_eq (jiffies s) (timer_jiffies s)) s) by done; unfold time_after_eq;
    destruct (Z.leb_spec 0 (s32 (jiffies s - timer_jiffies s))); try lia.
  1,3: exists s; split_and!; try done; lia.
  pose proof (proj1 Hok) as Hwf. rewrite Hwk in Hwf.
  destruct (collect_run BASE_SMALL s Hwf) as (s1 & Hc & Hok1 & Ht1 & Hj1 & Hjf1 & _). rewrite (bind_run _ _ _ _ _ Hc).
  rewrite (bind_run (fget _) _ s1 (length (work_list s1)) s1) by done.
  destruct (run_work_total _ s1 Hok1 (Nat.le_refl _)) as (s2 & Hr & Hjf2). rewrite (bind_run _ _ _ _ _ Hr).
  destruct (run_work_ok _ s1 s2 Hok1 Hr) as (L & _ & Hok2 & Hw2 & Hj2 & _).
  assert (s32 (jiffies s2 - timer_jiffies s2) = s32 (jiffies s - timer_jiffies s) - 1) as Hs
    by (rewrite Hjf2, Hjf1, Hj2, Hj1; by apply s32_step).
  destruct (IH s2 Hok2 Hw2 ltac:(lia)) as (s' & Hr' & Hjf' & Hok' & Hend). exists s'. split_and!; try done; [congruence|]. intros _.
  destruct (decide (s32 (jiffies s - timer_jiffies s) = 0)) as [Hz|]; [|rewrite Hend by lia; congruence].
  assert (s' = s2) as ->.
  { destruct fuel; cbn [run_timers_] in Hr'; unfold mbind, Sf_bind, fget in Hr'; unfold time_after_eq in Hr';
      (destruct (Z.leb_spec 0 (s32 (jiffies s2 - timer_jiffies s2))); [lia|]); by injection Hr'. }
  rewrite Hj2, Hj1. assert (dist (timer_jiffies s) (jiffies s) = 0) as Hd.
  { rewrite s32_dist in Hz. pose proof (dist_range (timer_jiffies s) (jiffies s)). case_match eqn:E; [done|]. lia. }
  unfold dist, u32 in Hd. unfold u32. replace (jiffies s + 1) with (jiffies s - timer_jiffies s + (timer_jiffies s + 1)) by lia.
  rewrite <- (wrap_add_l 32 (jiffies s - timer_jiffies s)), Hd. done.
Qed.
End Running.

(** * Properties of the operations *)

Section Properties.
Context (BASE_SMALL : bool).
Implicit Types (s : tsys) (t e : Z) (tm : timer_list).
Abbreviation wheel_ok := (wheel_ok BASE_SMALL).

(** [del_timer(timer); timer->expires = expires; add_timer(timer)] *)
Definition del_set_add t e : Sf tsys Z :=
  r ← del_timer t; fmodify (upd t (set_expires e)) ;; add_timer BASE_SMALL t ;; mret r.

Lemma upd_upd f g t s : upd t f (upd t g s) = upd t (f ∘ g) s.
Proof.
  unfold upd, set_timers. simpl. f_equal. apply map_eq. intros t'. rewrite !lookup_alter. repeat case_decide; subst; try done; by rewrite option_fmap_compose.
Qed.

Lemma upd_ext f g t s tm : timers s !! t = Some tm -> f tm = g tm -> upd t f s = upd t g s.
Proof.
  intros Htm Hfg. unfold upd, set_timers. f_equal. apply map_eq. intros t'. rewrite !lookup_alter. case_decide; [|done].
  subst. rewrite Htm. simpl. by rewrite Hfg.
Qed.

(** __mod_timer and add_timer in closed form. *)
Lemma mod_timer__eq s t e tm : timers s !! t = Some tm -> function tm <> None ->
  mod_timer_ BASE_SMALL t e s = Some (if pending tm then 1 else 0,
    added BASE_SMALL t (set_expires e tm) (upd t (set_expires e) (if pending tm then unlink t s else s))).
Proof.
  intros Htm Hfn. unfold mod_timer_. rewrite (bind_run _ _ s tm s) by (unfold ftry; by rewrite Htm).
  rewrite bool_decide_false by done. set (s1 := if pending tm then unlink t s else s).
  rewrite (bind_run _ _ s (if pending tm then 1 else 0) s1) by (unfold s1; by destruct (pending tm)).
  rewrite (bind_run (fmodify _) _ _ tt (upd t (set_expires e) s1)) by done.
  assert (timers (upd t (set_expires e) s1) !! t = Some (set_expires e tm)) as Ht1.
  { rewrite timers_upd, decide_True by done. unfold s1. destruct (pending tm); simpl; by rewrite Htm. }
  by rewrite (bind_run _ _ _ _ _ (internal_add_run _ _ _ _ Ht1)).
Qed.

(** Mod_timer is what its documentation says it is equivalent to, to the
    last list position, except that a timer which is already pending for that
    time is left where it is; it returns whether the timer was pending, and a
    timer without a function is a bug. *)
Theorem mod_timer_equiv s t e tm : timers s !! t = Some tm ->
  mod_timer BASE_SMALL t e s =
    if bool_decide (function tm = None) then None
    else if (expires tm =? e) && pending tm then Some (1, s)
    else del_set_add t e s.
Proof.
  intros Htm. unfold mod_timer. rewrite (bind_run _ _ s tm s) by (unfold ftry; by rewrite Htm).
  case_bool_decide as Hfn; [done|]. destruct ((expires tm =? e) && pending tm); [done|]. rewrite (mod_timer__eq s t e tm Htm Hfn).
  set (s1 := if pending tm then unlink t s else s). assert (timers s1 !! t = Some tm) as Htm1 by (unfold s1; by destruct (pending tm)).
  set (s2 := if pending tm then upd t (set_pending false) s1 else s1). unfold del_set_add, del_timer.
  rewrite (bind_run _ _ s (if pending tm then 1 else 0) s2).
  2: { rewrite (bind_run _ _ s tm s) by (unfold ftry; by rewrite Htm). unfold s2, s1. by destruct (pending tm). }
  assert (s2 = upd t (set_pending false) s1) as Hs2.
  { unfold s2. destruct (pending tm) eqn:Hp; [done|]. rewrite (upd_ext (set_pending false) id t s1 tm Htm1) by (unfold set_pending; rewrite <- Hp; by destruct tm).
    unfold upd, set_timers. rewrite alter_id by done. by destruct s1. }
  set (s3 := upd t (set_expires e) s2). set (tm3 := set_expires e (set_pending false tm)).
  assert (timers s3 !! t = Some tm3) as Htm3.
  { unfold s3. rewrite Hs2, !timers_upd, !decide_True, Htm1 by done. done. }
  rewrite (bind_run (fmodify _) _ _ tt s3) by done. unfold add_timer.
  erewrite (bind_run _ _ s3).
  2: { rewrite (bind_run _ _ s3 tm3 s3) by (unfold ftry; by rewrite Htm3). cbn [pending tm3 set_expires set_pending].
       rewrite (bind_run _ _ _ _ _ (mod_timer__eq s3 t (expires tm3) tm3 Htm3 Hfn)). reflexivity. }
  unfold mret, Sf_ret. do 2 f_equal. cbn [pending tm3 set_expires set_pending expires].
  unfold added, s3. rewrite Hs2. cbn [expires set_expires set_pending].
  change (timer_jiffies (upd t (set_expires e) (upd t (set_expires e) (upd t (set_pending false) s1)))) with (timer_jiffies s1).
  change (timer_jiffies (upd t (set_expires e) s1)) with (timer_jiffies s1).
  set (f := set_tv _). change (f (upd t (set_expires e) s1)) with (upd t (set_expires e) (f s1)).
  change (f (upd t (set_expires e) (upd t (set_expires e) (upd t (set_pending false) s1))))
    with (upd t (set_expires e) (upd t (set_expires e) (upd t (set_pending false) (f s1)))).
  rewrite !upd_upd. by apply (upd_ext _ _ t _ tm).
Qed.

(** ** Reachable states *)

(** The wheel after init_timers_cpu at time [j]. *)
Definition init_timers_cpu (j : Z) : tsys := TSys ∅ ∅ [] j j [].

Lemma init_ok j : in_u 32 j -> wheel_ok (init_timers_cpu j).
Proof.
  intros Hj. assert (∀ l i t, t ∉ slot (init_timers_cpu j) l i) as Hs by (intros l i t; apply not_elem_of_nil).
  split; [|by intros t tm ?%elem_of_nil]. split; try done.
  - intros l i t Hin. by destruct (Hs l i t).
  - intros l i. apply NoDup_nil_2.
  - intros l i l' i' t Hin. by destruct (Hs l i t).
  - apply NoDup_nil_2.
  - by intros t ?%elem_of_nil.
Qed.

(** What happens to the wheel: operations and runs of the timer softirq. *)
Inductive wheel_step (call : Z -> Z -> Sf tsys unit) : tsys -> tsys -> Prop :=
| step_api s s' : api BASE_SMALL (λ _, True) s s' -> wheel_step call s s'
| step_run fuel s s' : work_list s = [] -> run_timer_softirq BASE_SMALL call fuel s = Some (tt, s') -> wheel_step call s s'.

(** Exactly one list. *)
Definition on_one_list s t : Prop := ∃ l i, t ∈ slot s l i ∧ NoDup (slot s l i) ∧ ∀ l' i', t ∈ slot s l' i' -> l' = l ∧ i' = i.

(** C5: in every state the system can reach from boot, by any timer operations
    and any runs of the timer softirq, whatever the timer functions do: a
    timer is pending exactly when it is on a list, it is on one list only,
    once, and that list is the one of its expiry time. *)
Theorem wheel_invariant call j s `{!TimerCalls BASE_SMALL call (λ _, True)} : in_u 32 j ->
  rtc (wheel_step call) (init_timers_cpu j) s ->
  work_list s = [] ∧ ∀ t tm, timers s !! t = Some tm ->
    (pending tm = true <-> on_one_list s t) ∧ (pending tm = false <-> ~ listed s t) ∧
    ∀ l i, t ∈ slot s l i -> fits BASE_SMALL (timer_jiffies s) l i (expires tm).
Proof.
  intros Hj Hr. assert (wheel_ok s ∧ work_list s = []) as [[Hwf _] Hwk].
  { remember (init_timers_cpu j) as s0 eqn:E0. assert (wheel_ok s0 ∧ work_list s0 = []) as Hini by (subst; split; [by apply init_ok|done]).
    clear E0. induction Hr as [|s1 s2 s3 Hs _ IH]; [done|]. apply IH. destruct Hini as [Hok Hwk]. destruct Hs as [s1 s2 Ha|fuel s1 s2 _ Hrun].
    - destruct (api_leaves _ _ _ _ Hok Ha) as (? & _ & _ & Hsub & _). split; [done|]. rewrite Hwk in Hsub. by apply sublist_nil_r in Hsub.
    - unfold run_timer_softirq in Hrun. rewrite (bind_run (fget _) _ s1 (time_after_eq (jiffies s1) (timer_jiffies s1)) s1) in Hrun by done.
      destruct (time_after_eq _ _); cbn [fwhen] in Hrun; [|by injection Hrun as <-].
      destruct (run_timers_served _ call (λ _, True) fuel s1 s2 Hok Hwk Hrun) as (n & L & _ & _ & ? & ? & _). done. }
  rewrite Hwk in Hwf. split; [done|]. intros t tm Htm.
  assert (pending tm = true <-> listed s t) as Hp.
  { rewrite (wf_pending _ _ _ _ Hwf t tm Htm) by done. split; [intros [?%elem_of_nil|]|]; [done|done|by right]. }
  split_and!.
  - rewrite Hp. split; [|intros (l & i & ? & _); by exists l, i]. intros (l & i & Hin). exists l, i. split_and!; [done|apply Hwf|].
    intros l' i' Hin'. by apply (wf_uniq _ _ _ _ Hwf _ _ _ _ t).
  - rewrite <- Hp. by destruct (pending tm).
  - intros l i Hin. by apply (wf_fits _ _ _ _ Hwf l i t Hin).
Qed.

(** A tick collects exactly the timers that are due: those pending timers
    whose expiry time is the tick or before it, each once, whatever vectors
    they were in; the cascades lose none and change none, and every other
    pending timer is afterwards where it belongs for the next tick. *)
Theorem tick_collects_due s : wheel_ok s -> work_list s = [] ->
  ∃ s', collect BASE_SMALL s = Some (tt, s') ∧ wheel_ok s' ∧ timers s' = timers s ∧ NoDup (work_list s') ∧
    timer_jiffies s' = u32 (timer_jiffies s + 1) ∧
    ∀ t, t ∈ work_list s' <-> ∃ tm, timers s !! t = Some tm ∧ pending tm = true ∧ s32 (expires tm - timer_jiffies s) <= 0.
Proof.
  intros Hok Hwk. pose proof (proj1 Hok) as Hwf. rewrite Hwk in Hwf.
  destruct (collect_run BASE_SMALL s Hwf) as (s' & Hc & Hok' & Ht & Hj & _ & _ & Hiff). exists s'. split_and!; try done. apply Hok'.
Qed.

(** ** Rounding *)

(** Rounding a future time to a full second moves it by less than a
    quarter of a second down or at most three quarters up, never into the past
    or the present: what it cannot round it leaves alone.  The relative version
    gives the same for a delay. *)
Theorem round_jiffies_spec now j : 0 <= now -> now < j -> j + HZ < 2 ^ 32 ->
  let r := round_jiffies now j in
  now < r ∧ (r = j ∨ r mod HZ = 0 ∧ j - HZ / 4 < r <= j + (HZ - HZ / 4)) ∧
  round_jiffies_relative now (j - now) = r - now.
Proof.
  unfold HZ. intros Hn Hlt Hno. cbv zeta.
  assert (now < round_jiffies now j ∧ (round_jiffies now j = j ∨ round_jiffies now j mod 100 = 0 ∧
    j - 25 < round_jiffies now j <= j + 75)) as [H1 H2].
  { unfold round_jiffies, round_jiffies_, HZ, u32. rewrite Z.mul_0_l, Z.add_0_r, (wrap_id 32 j) by (unfold in_u; lia).
    pose proof (Z.mod_pos_bound j 100 ltac:(lia)) as Hm. pose proof (Z.div_mod j 100 ltac:(lia)) as Hd.
    change (100 / 4) with 25. set (q := j / 100) in *. set (m := j mod 100) in *.
    destruct (Z.ltb_spec m 25); rewrite Z.sub_0_r, wrap_wrap, wrap_id by (unfold in_u; lia); case_cmp; try (split; [lia|by left]);
      (split; [lia|right]); (split; [|lia]).
    - replace (j - m) with (q * 100) by lia. apply Z.mod_mul. lia.
    - replace (j - m + 100) with ((q + 1) * 100) by lia. apply Z.mod_mul. lia. }
  split_and!; [done|done|]. unfold round_jiffies_relative, round_jiffies_relative_, u32.
  replace (j - now + now) with j by lia. rewrite (wrap_id 32 j) by (unfold in_u; lia). fold (round_jiffies now j).
  apply wrap_id. unfold in_u. lia.
Qed.
End Properties.

(** * Concrete instances *)

Module TimerWheelDemo.

(** Function 1 starts timer 7 again, ten ticks later; the others do nothing. *)
Definition call (f d : Z) : Sf tsys unit :=
  if f =? 1 then j ← fget jiffies; _ ← mod_timer_ false 7 (u32 (j + 10)); mret tt else mret tt.

#[export] Instance call_7 : TimerCalls false call (.= 7).
Proof.
  intros f d s s'. unfold call. destruct (f =? 1); [|by intros [= <-]].
  rewrite (bind_run (fget jiffies) _ s (jiffies s) s) by done. intros (r & s1 & Hr & [= <-])%Sf_bind_Some.
  eapply rtc_once, api_mod_; [reflexivity|apply u32_range|exact Hr].
Defined.

#[export] Instance call_any : TimerCalls false call (λ _, True).
Proof.
  intros f d s s'. unfold call. destruct (f =? 1); [|by intros [= <-]].
  rewrite (bind_run (fget jiffies) _ s (jiffies s) s) by done. intros (r & s1 & Hr & [= <-])%Sf_bind_Some.
  eapply rtc_once, api_mod_; [exact I|apply u32_range|exact Hr].
Defined.

(** Timer functions that only record. *)
Definition quiet (f d : Z) : Sf tsys unit := mret tt.

#[export] Instance quiet_calls : TimerCalls false quiet (λ _, True).
Proof. intros f d s s' [= <-]. reflexivity. Defined.

#[export] Instance quiet_prompt : PromptCalls false quiet.
Proof. intros f d s _. exists s. split; reflexivity. Defined.

(** Just before the clock wraps: timer 7 expires in 5 ticks, timer 8 in 300,
    timer 9 was due 3 ticks ago. *)
Definition j0 : Z := 2 ^ 32 - 100.
Definition idle (f : Z) : timer_list := Timer 0 (Some f) 0 false false.
Definition start (t e : Z) (s : tsys) : tsys := match mod_timer_ false t e s with Some (_, s') => s' | None => s end.
Definition three : tsys := set_timers (insert 9 (idle 2)) (set_timers (insert 8 (idle 2)) (set_timers (insert 7 (idle 1)) (init_timers_cpu j0))).
Definition armed3 : tsys := start 9 (j0 - 3) (start 8 200 (start 7 (j0 + 5) three)).
(** The clock stands 320 ticks later. *)
Definition later : tsys := set_jiffies (u32 (jiffies armed3 + 320)) armed3.

Lemma start_api t e s r s' : in_u 32 e -> mod_timer_ false t e s = Some (r, s') -> api false (λ _, True) s (start t e s).
Proof. intros He Hr. unfold start. rewrite Hr. by eapply api_mod_. Qed.

Lemma later_reached : rtc (api false (λ _, True)) (init_timers_cpu j0) later.
Proof.
  eapply rtc_l; [apply (api_write _ _ 7 (idle 1)); [exact I|reflexivity|split; vm_compute; congruence|by vm_compute]|].
  eapply rtc_l; [apply (api_write _ _ 8 (idle 2)); [exact I|reflexivity|split; vm_compute; congruence|by vm_compute]|].
  eapply rtc_l; [apply (api_write _ _ 9 (idle 2)); [exact I|reflexivity|split; vm_compute; congruence|by vm_compute]|].
  eapply rtc_l; [eapply (start_api 7 (j0 + 5)); [split; vm_compute; congruence|vm_compute; reflexivity]|].
  eapply rtc_l; [eapply (start_api 8 200); [split; vm_compute; congruence|vm_compute; reflexivity]|].
  eapply rtc_l; [eapply (start_api 9 (j0 - 3)); [split; vm_compute; congruence|vm_compute; reflexivity]|].
  apply rtc_once, api_time.
Qed.

Lemma later_ok : wheel_ok false later.
Proof. eapply apis_leave, later_reached. apply init_ok. split; vm_compute; congruence. Qed.

Definition after : tsys := match run_timers_ false call 400 later with Some (_, s') => s' | None => later end.

(** Timer 8, which nobody touches, is run once, at tick 200, after the wrap. *)
Lemma timers_run_on_time_witness : ∃ n L, fired after = L ∧ timer_jiffies after = u32 (j0 + n) ∧
  calls_of 8 L = [(8, 200, 200)].
Proof.
  destruct (timers_run_on_time false call (.= 7) 400 later after) as (n & L & Hn & Hf & _ & _ & Hj & _ & _ & Hs).
  - exact later_ok.
  - vm_compute. reflexivity.
  - vm_compute. reflexivity.
  - exists n, L. split; [exact Hf|]. split; [exact Hj|].
    assert (timer_jiffies after = 221) as Ha by (vm_compute; reflexivity). rewrite Ha in Hj. unfold u32, wrap, j0 in Hj.
    change (timer_jiffies later) with (2 ^ 32 - 100) in Hj. assert (300 < n) as Hlt by (Z.to_euclidean_division_equations; lia).
    pose proof (Hs 8 (Timer 200 (Some 2) 0 false true) ltac:(discriminate) ltac:(vm_compute; reflexivity)) as H8.
    unfold served in H8. change (delay (timer_jiffies later) _) with 300 in H8. rewrite (proj2 (Z.ltb_lt 300 n) Hlt) in H8. exact (proj1 H8).
Defined.

Lemma run_timers_terminates_witness : ∃ s', run_timers_ false quiet 321 later = Some (tt, s') ∧ timer_jiffies s' = 221.
Proof.
  destruct (run_timers_terminates false quiet (λ _, True) 321 later) as (s' & Hr & _ & _ & Hj).
  - exact later_ok.
  - vm_compute. reflexivity.
  - vm_compute. reflexivity.
  - exists s'. split; [exact Hr|]. rewrite Hj by (vm_compute; discriminate). vm_compute. reflexivity.
Defined.

Lemma mod_timer_equiv_witness : mod_timer false 8 500 later = del_set_add false 8 500 later.
Proof. rewrite (mod_timer_equiv false later 8 500 (Timer 200 (Some 2) 0 false true)) by (vm_compute; reflexivity). vm_compute. reflexivity. Defined.

Lemma wheel_invariant_witness : on_one_list later 8.
Proof.
  destruct (wheel_invariant false call j0 later) as [_ Hi].
  - split; vm_compute; congruence.
  - eapply rtc_subrel; [|exact later_reached]. intros s s' Ha. by apply step_api.
  - destruct (Hi 8 (Timer 200 (Some 2) 0 false true)) as [[Hp _] _]; [vm_compute; reflexivity|]. apply Hp. reflexivity.
Defined.

Lemma tick_collects_due_witness : ∃ s', collect false later = Some (tt, s') ∧ 9 ∈ work_list s'.
Proof.
  destruct (tick_collects_due false later) as (s' & Hc & _ & _ & _ & _ & Hiff).
  - exact later_ok.
  - vm_compute. reflexivity.
  - exists s'. split; [exact Hc|]. apply Hiff. exists (Timer (j0 - 3) (Some 2) 0 false true).
    split; [vm_compute; reflexivity|]. split; [reflexivity|vm_compute; discriminate].
Defined.

Lemma round_jiffies_spec_witness : 1000 < round_jiffies 1000 1234 ∧ round_jiffies 1000 1234 = 1300.
Proof. destruct (round_jiffies_spec 1000 1234) as [H1 _]; [lia|lia|done|]. split; [exact H1|]. vm_compute. reflexivity. Defined.

End TimerWheelDemo.
