(* ===== verification/TimerNext.v ===== *)
(** kernel/timer.c, CONFIG_NO_HZ: when the next timer is due.

    Before the tick is stopped the idle loop asks the timer wheel for the next
    expiry time (__next_timer_interrupt, get_next_timer_interrupt).  The search
    looks at the lists of tv1 from the current tick on, and at the list of each
    coarser vector that is cascaded before the time found. *)

From S2P Require Import Prelude.
From S2P Require Import Ktime.
From S2P Require Import Time.
From S2P Require Import Timer.

Section Next.
Context (BASE_SMALL : bool).
Abbreviation TVN_MASK := (TVN_MASK BASE_SMALL).
Abbreviation TVR_MASK := (TVR_MASK BASE_SMALL).
Abbreviation TVN_SIZE := (TVN_SIZE BASE_SMALL).
Abbreviation TVR_SIZE := (TVR_SIZE BASE_SMALL).

Definition NEXT_TIMER_MAX_DELTA : Z := Z.shiftl 1 30 - 1.

(** The timers linked to a list, in order. *)
Definition entries (s : tsys) (l i : Z) : list timer_list := omap (λ t, timers s !! t) (slot s l i).

(** The loop over tv1: the expiry time of the first timer that is not
    deferrable, and whether the cascade lists must be looked at too. *)
Fixpoint scan_tv1 (n : nat) (s : tsys) (slot index : Z) : option (Z * bool) :=
  match n with
  | O => None
  | S n =>
      match list_find (λ tm, deferrable tm = false) (entries s 0 slot) with
      | Some (_, tm) => Some (expires tm, (index =? 0) || (slot <? index))
      | None =>
          let slot := Z.land (slot + 1) TVR_MASK in
          if slot =? index then None else scan_tv1 n s slot index
      end
  end.

Definition earlier (m : Z) (tm : timer_list) : Z := if time_before (expires tm) m then expires tm else m.

(** The loop over a coarser vector: [inl] is the [return], [inr] goes on with
    the next vector. *)
Fixpoint scan_tvn (n : nat) (s : tsys) (l slot index : Z) (found : bool) (exp : Z) : Z + bool * Z :=
  match n with
  | O => inr (found, exp)
  | S n =>
      let es := entries s l slot in
      let found := found || negb (bool_decide (es = [])) in
      let exp := foldl earlier exp es in
      if found then
        if (index =? 0) || (slot <? index) then inr (found, exp) else inl exp
      else
        let slot := Z.land (slot + 1) TVN_MASK in
        if slot =? index then inr (found, exp) else scan_tvn n s l slot index found exp
  end.

Fixpoint scan_levels (n : nat) (s : tsys) (l tj : Z) (found : bool) (exp : Z) : Z :=
  match n with
  | O => exp
  | S n =>
      let index := Z.land tj TVN_MASK in
      match scan_tvn (Z.to_nat TVN_SIZE) s l index index found exp with
      | inl exp => exp
      | inr (found, exp) =>
          let tj := if index =? 0 then tj else u32 (tj + (TVN_SIZE - index)) in
          scan_levels n s (l + 1) (Z.shiftr tj (TVN_BITS BASE_SMALL)) found exp
      end
  end.

Definition next_timer_interrupt_ (s : tsys) : Z :=
  let tj := timer_jiffies s in
  let exp := u32 (tj + NEXT_TIMER_MAX_DELTA) in
  let index := Z.land tj TVR_MASK in
  let cascade (found : bool) (exp : Z) :=
    let tj := if index =? 0 then tj else u32 (tj + (TVR_SIZE - index)) in
    scan_levels 4 s 1 (Z.shiftr tj (TVR_BITS BASE_SMALL)) found exp in
  match scan_tv1 (Z.to_nat TVR_SIZE) s index index with
  | Some (exp, true) => cascade true exp
  | Some (exp, false) => exp
  | None => cascade false exp
  end.

(** [hr_delta] is what hrtimer_get_next_event returned, a ktime. *)
Definition cmp_next_hrtimer_event (now exp hr_delta : Z) : Z :=
  if hr_delta =? KTIME_MAX then exp
  else if hr_delta <=? 0 then u32 (now + 1)
  else
    let tsdelta := ktime_to_timespec hr_delta in
    let delta := timespec_to_jiffies tsdelta.1 tsdelta.2 in
    let delta := if NEXT_TIMER_MAX_DELTA <? delta then NEXT_TIMER_MAX_DELTA else delta in
    let delta := if delta <? 1 then 1 else delta in
    let now := u32 (now + delta) in
    if time_before now exp then now else exp.

Definition get_next_timer_interrupt (s : tsys) (now hr_delta : Z) : Z :=
  let exp := next_timer_interrupt_ s in
  if time_after_eq now exp then now else cmp_next_hrtimer_event now exp hr_delta.
End Next.

(** * The search is right *)

Section NextOk.
Implicit Types (s : tsys) (t e l i j T m : Z) (tm : timer_list).
Abbreviation lvl := (lvl false).

(** Ticks from [T] to the next cascade of vector [l], and the number of that
    cascade. *)
Definition ahead T l : Z := (- T) mod 2 ^ lvl l.
Definition turn T l : Z := (T + ahead T l) / 2 ^ lvl l.

Lemma lvl_pos l : 1 <= l <= 4 -> 8 <= lvl l <= 26 ∧ 0 < 2 ^ lvl l ∧ 2 ^ lvl (l + 1) = 2 ^ lvl l * 64.
Proof.
  intros Hl. unfold Timer.lvl. cbn [TVR_BITS TVN_BITS]. replace (8 + (l + 1 - 1) * 6) with (8 + (l - 1) * 6 + 6) by lia.
  rewrite (Z.pow_add_r 2 _ 6) by lia. assert (0 < 2 ^ (8 + (l - 1) * 6)) by (apply Z.pow_pos_nonneg; lia). split_and!; lia.
Qed.

Lemma ahead_turn T l : 1 <= l <= 4 -> 0 <= ahead T l < 2 ^ lvl l ∧ T + ahead T l = 2 ^ lvl l * turn T l.
Proof.
  intros Hl. destruct (lvl_pos l Hl) as (_ & Hq & _). unfold turn, ahead. split; [apply Z.mod_pos_bound; lia|].
  set (q := 2 ^ lvl l) in *. assert ((T + (- T) mod q) mod q = 0) as Hm by (rewrite Zplus_mod_idemp_r, Z.add_opp_diag_r; apply Z.mod_0_l; lia).
  pose proof (Z.div_mod (T + (- T) mod q) q ltac:(lia)). lia.
Qed.

(** The next coarser vector is cascaded when the finer one starts over. *)
Lemma ahead_succ T l : 1 <= l <= 3 -> 0 <= T ->
  ahead T (l + 1) = (if turn T l mod 64 =? 0 then ahead T l else ahead T l + (64 - turn T l mod 64) * 2 ^ lvl l) ∧
  turn T (l + 1) = if turn T l mod 64 =? 0 then turn T l / 64 else (turn T l + (64 - turn T l mod 64)) / 64.
Proof.
  intros Hl HT. destruct (ahead_turn T l ltac:(lia)) as [Ha Ht]. destruct (ahead_turn T (l + 1) ltac:(lia)) as [Ha' Ht'].
  destruct (lvl_pos l ltac:(lia)) as (_ & Hq & Hs). rewrite Hs in *. set (q := 2 ^ lvl l) in *.
  set (a := ahead T l) in *. set (b := turn T l) in *. set (a' := ahead T (l + 1)) in *. set (b' := turn T (l + 1)) in *.
  pose proof (Z.mod_pos_bound b 64 ltac:(lia)). pose proof (Z.div_mod b 64 ltac:(lia)) as Hdm.
  destruct (Z.eqb_spec (b mod 64) 0) as [Hz|Hz].
  - assert (b' = b / 64) as Hb' by nia. split; [|done]. subst b'. rewrite Hb' in Ht'. nia.
  - assert (b' = b / 64 + 1) as Hb' by nia. rewrite Hb' in *. split; [nia|].
    replace (b + (64 - b mod 64)) with ((b / 64 + 1) * 64) by lia. by rewrite Z.div_mul.
Qed.

(** Where in its vector a timer is. *)
Lemma level_offset T l i e : in_u 32 T -> in_u 32 e -> fits false T l i e -> 1 <= l ->
  ∃ j, 0 <= j < 64 ∧ i = (turn T l + j) mod 64 ∧ ahead T l + j * 2 ^ lvl l <= dist T e < ahead T l + (j + 1) * 2 ^ lvl l ∧ dist T e < 2 ^ 31.
Proof.
  intros HT He [[-> _]|(Hl & Hd & -> & Hle)] Hl1; [lia|]. destruct (ahead_turn T l Hl) as [Ha Ht]. destruct (lvl_pos l Hl) as (Hlv & Hq & Hs).
  pose proof (reach_le false l Hl) as Hrl. pose proof (dist_range T e) as Hdr.
  assert (2 ^ 32 = 2 ^ lvl l * (64 * 2 ^ (26 - lvl l))) as H32.
  { assert (2 ^ (lvl l + (6 + (26 - lvl l))) = 2 ^ lvl l * (64 * 2 ^ (26 - lvl l))) as <-.
    { rewrite (Z.pow_add_r 2 (lvl l)), (Z.pow_add_r 2 6) by lia. done. }
    f_equal. lia. }
  assert (∃ c, T + dist T e = e + c * 2 ^ 32) as [c Hc].
  { unfold dist, u32, wrap. exists (- ((e - T) / 2 ^ 32)). pose proof (Z.div_mod (e - T) (2 ^ 32) ltac:(lia)). lia. }
  set (q := 2 ^ lvl l) in *. set (d := dist T e) in *. set (x := T + d) in *.
  set (p := 2 ^ (26 - lvl l)) in *. assert (x = e + (c * (64 * p)) * q) as Hx by (rewrite Hc, H32; ring).
  assert (x mod q = e mod q) as Hm by (rewrite Hx; apply Z.mod_add; lia).
  assert (x / q = e / q + (c * p) * 64) as Hdv by (rewrite Hx, Z.div_add by lia; lia).
  assert ((x / q) mod 64 = (e / q) mod 64) as Hdm by (rewrite Hdv; apply Z.mod_add; lia).
  pose proof (Z.div_mod x q ltac:(lia)) as Hxq. pose proof (Z.mod_pos_bound x q ltac:(lia)).
  assert (turn T l <= x / q) as Hge by nia.
  exists (x / q - turn T l). assert (x = T + d) as Hxd by done. split_and!.
  - lia.
  - assert (d < q * 64); [|nia]. eapply Z.lt_le_trans; [exact Hd|]. unfold reach. destruct (Z.eqb_spec l 4) as [->|]; [done|lia].
  - change (TVN_SIZE false) with 64. rewrite <- Hdm. f_equal. lia.
  - nia.
  - nia.
  - lia.
Qed.

(** ** Comparing times *)

(** Not overdue by more than 2^30 ticks. *)
Definition sane T m : Prop := dist T m < 2 ^ 31 ∨ 2 ^ 32 - 2 ^ 30 <= dist T m.
#[export] Instance sane_dec T m : Decision (sane T m).
Proof. unfold sane. apply _. Defined.

Lemma s32_dist_diff T e m : s32 (e - m) = s32 (dist T e - dist T m).
Proof.
  unfold s32, sx, dist, u32. replace (wrap 32 (wrap 32 (e - T) - wrap 32 (m - T))) with (wrap 32 (e - m)); [done|].
  rewrite wrap_sub_l, wrap_sub_r. f_equal. lia.
Qed.

Lemma earlier_ok T m tm : sane T m -> dist T (expires tm) < 2 ^ 31 -> (2 ^ 31 <= dist T m -> dist T (expires tm) < 2 ^ 30) ->
  delay T (earlier m tm) = Z.min (delay T m) (delay T (expires tm)) ∧
  (earlier m tm = m ∨ earlier m tm = expires tm ∧ dist T (earlier m tm) < 2 ^ 31).
Proof.
  intros Hs He Ho. unfold earlier, time_before, time_after. rewrite (s32_dist_diff T). unfold delay.
  pose proof (dist_range T m). pose proof (dist_range T (expires tm)).
  destruct (Z.ltb_spec (dist T m) (2 ^ 31)) as [Hm|Hm].
  - rewrite s32_id by lia. destruct (Z.ltb_spec (dist T (expires tm)) (2 ^ 31)); [|lia].
    destruct (Z.ltb_spec (dist T (expires tm) - dist T m) 0); case_cmp; try lia; split; try lia; auto.
  - destruct Hs as [|Hs]; [lia|]. specialize (Ho Hm).
    assert (s32 (dist T (expires tm) - dist T m) = dist T (expires tm) - dist T m + 2 ^ 32) as ->.
    { rewrite <- s32_u32. assert (u32 (dist T (expires tm) - dist T m) = u32 (dist T (expires tm) - dist T m + 2 ^ 32)) as ->.
      { unfold u32, wrap. by rewrite <- Zplus_mod_idemp_r, Z.mod_same, Z.add_0_r by lia. }
      rewrite s32_u32. apply s32_id. lia. }
    case_cmp; try lia; split; try lia; by left.
Qed.

Lemma fold_earlier T es m : sane T m ->
  (∀ tm, tm ∈ es -> dist T (expires tm) < 2 ^ 31 ∧ (2 ^ 31 <= dist T m -> dist T (expires tm) < 2 ^ 30)) ->
  let r := foldl earlier m es in
  sane T r ∧ delay T r <= delay T m ∧ (∀ tm, tm ∈ es -> delay T r <= delay T (expires tm)) ∧
  (r = m ∨ ∃ tm, tm ∈ es ∧ r = expires tm).
Proof.
  revert m. induction es as [|tm es IH]; intros m Hs Hes; cbn [foldl]; cbv zeta.
  { split_and!; try done; [by intros ? ?%elem_of_nil|by left]. }
  destruct (Hes tm ltac:(by left)) as [He Ho]. destruct (earlier_ok T m tm Hs He Ho) as [Hd Hor].
  destruct (IH (earlier m tm)) as (H1 & H2 & H3 & H4).
  { destruct Hor as [->|[_ ?]]; [done|by left]. }
  { intros tm' Hin. destruct (Hes tm' ltac:(by right)) as [He' Ho']. split; [done|]. destruct Hor as [->|[_ ?]]; [done|lia]. }
  split_and!; [done|lia| |].
  - intros tm' [->|Hin]%elem_of_cons; [lia|by apply H3].
  - destruct H4 as [->|(tm' & Hin & ->)]; [|right; exists tm'; split; [by right|done]].
    destruct Hor as [->|[-> _]]; [by left|right; exists tm; split; [by left|done]].
Qed.
End NextOk.

(** ** The search *)

Section Search.
Context (s : tsys) (Hwf : wf false s [] None).
Abbreviation T := (timer_jiffies s).
Abbreviation lvl := (lvl false).
Implicit Types (t l i j m : Z) (tm : timer_list).

Lemma in_entries l i tm : tm ∈ entries s l i <-> ∃ t, t ∈ slot s l i ∧ timers s !! t = Some tm.
Proof. apply list_elem_of_omap. Qed.

(** [m] is not later than the timers of the vectors from [lo] to [hi - 1],
    deferrable ones of tv1 excepted. *)
Definition covers (lo hi m : Z) : Prop := ∀ l i tm, lo <= l < hi -> tm ∈ entries s l i -> (l = 0 -> deferrable tm = false) ->
  delay T m <= delay T (expires tm).

(** [m] is the default or the expiry time of a timer. *)
Definition origin m : Prop := m = u32 (T + NEXT_TIMER_MAX_DELTA) ∨ ∃ l i tm, tm ∈ entries s l i ∧ expires tm = m.

Lemma default_dist : dist T (u32 (T + NEXT_TIMER_MAX_DELTA)) = NEXT_TIMER_MAX_DELTA.
Proof.
  unfold dist, u32. rewrite wrap_sub_l. replace (T + NEXT_TIMER_MAX_DELTA - T) with NEXT_TIMER_MAX_DELTA by lia. done.
Qed.

Lemma entry_offset l i tm : 1 <= l -> tm ∈ entries s l i ->
  l <= 4 ∧ ∃ j, 0 <= j < 64 ∧ i = (turn T l + j) mod 64 ∧
    ahead T l + j * 2 ^ lvl l <= delay T (expires tm) < ahead T l + (j + 1) * 2 ^ lvl l ∧ dist T (expires tm) < 2 ^ 31.
Proof.
  intros Hl (t & Hin & Htm)%in_entries. destruct (wf_fits _ _ _ _ Hwf l i t Hin) as [_ Hf]. specialize (Hf tm Htm).
  assert (l <= 4) by (destruct Hf as [[? _]|[? _]]; lia). split; [done|].
  destruct (level_offset T l i (expires tm) (wf_time _ _ _ _ Hwf) (wf_expires _ _ _ _ Hwf t tm Htm) Hf Hl) as (j & Hj & Hi & Hd & H31).
  exists j. split_and!; try done; unfold delay; destruct (Z.ltb_spec (dist T (expires tm)) (2 ^ 31)); lia.
Qed.

(** Later vectors hold later timers. *)
Lemma covers_beyond l m : 1 <= l <= 5 -> (l <= 4 -> delay T m <= ahead T l) -> covers l 5 m.
Proof.
  intros Hl Hm l' i tm Hl' Hin _. destruct (entry_offset l' i tm ltac:(lia) Hin) as (_ & j & Hj & _ & Hd & _).
  destruct (lvl_pos l' ltac:(lia)) as (_ & Hq & _).
  assert (∀ n : nat, l + Z.of_nat n <= 4 -> ahead T l <= ahead T (l + Z.of_nat n)) as Hmono.
  { induction n as [|n IH]; intros Hn; [by rewrite Z.add_0_r|]. specialize (IH ltac:(lia)).
    replace (l + Z.of_nat (S n)) with (l + Z.of_nat n + 1) by lia.
    destruct (ahead_succ T (l + Z.of_nat n) ltac:(lia) ltac:(apply (wf_time _ _ _ _ Hwf))) as [-> _].
    destruct (lvl_pos (l + Z.of_nat n) ltac:(lia)) as (_ & Hq' & _).
    pose proof (Z.mod_pos_bound (turn T (l + Z.of_nat n)) 64 ltac:(lia)). case_cmp; [done|nia]. }
  specialize (Hmono (Z.to_nat (l' - l)) ltac:(lia)). rewrite Z2Nat.id in Hmono by lia. replace (l + (l' - l)) with l' in Hmono by lia.
  specialize (Hm ltac:(lia)). nia.
Qed.

(** What a search may return so far. *)
Definition good m : Prop := sane T m ∧ origin m.

Lemma good_fold l i m : good m -> 1 <= l -> (∀ tm, tm ∈ entries s l i -> 2 ^ 31 <= dist T m -> dist T (expires tm) < 2 ^ 30) ->
  let r := foldl earlier m (entries s l i) in
  good r ∧ delay T r <= delay T m ∧ ∀ tm, tm ∈ entries s l i -> delay T r <= delay T (expires tm).
Proof.
  intros [Hs Ho] Hl He. destruct (fold_earlier T (entries s l i) m Hs) as (H1 & H2 & H3 & H4).
  { intros tm Hin. split; [|by apply He]. destruct (entry_offset l i tm Hl Hin) as (_ & j & _ & _ & _ & Hd). done. }
  split_and!; try done. split; [done|]. destruct H4 as [->|(tm & Hin & ->)]; [done|]. right. by exists l, i, tm.
Qed.

(** The state of the search before vector [l]: everything finer is covered,
    and what was found is before the end of the first list of [l]. *)
Definition ready l (found : bool) m : Prop := good m ∧ covers 0 l m ∧
  (if found then l <= 4 -> delay T m < ahead T l + 2 ^ lvl l else dist T m = NEXT_TIMER_MAX_DELTA).

Lemma mod64_next x j : (x + j + 1) mod 64 = Z.land ((x + j) mod 64 + 1) (TVN_MASK false).
Proof. rewrite mask_n. change (TVN_SIZE false) with 64. by rewrite Zplus_mod_idemp_l. Qed.

Lemma scan_tvn_ok l n j found m : 1 <= l <= 4 -> 0 <= j -> j + Z.of_nat n = 64 -> (0 < n)%nat -> (found = true -> j = 0) ->
  ready l found m -> (∀ j' tm, 0 <= j' < j -> tm ∉ entries s l ((turn T l + j') mod 64)) ->
  match scan_tvn false n s l ((turn T l + j) mod 64) (turn T l mod 64) found m with
  | inl r => good r ∧ covers 0 5 r
  | inr (found, r) => ready (l + 1) found r
  end.
Proof.
  intros Hl. revert j found m. induction n as [|n IH]; intros j found m Hj Hn Hpos Hf0 (Hg & Hc & Hf) Hempty; [lia|].
  destruct (lvl_pos l Hl) as (Hlv & Hq & Hqs). destruct (ahead_turn T l Hl) as [Ha _]. cbn [scan_tvn].
  set (x := turn T l) in *. set (i := (x + j) mod 64). pose proof (Z.mod_pos_bound x 64 ltac:(lia)) as Hx.
  assert (2 ^ lvl l <= 2 ^ 26) as H26 by (apply Z.pow_le_mono_r; lia).
  assert (∀ tm, tm ∈ entries s l i -> ahead T l + j * 2 ^ lvl l <= delay T (expires tm) < ahead T l + (j + 1) * 2 ^ lvl l) as Hhere.
  { intros tm Hin. destruct (entry_offset l i tm ltac:(lia) Hin) as (_ & j' & Hj' & Hi & Hd & _). fold x in Hi. unfold i in Hi.
    assert (j' = j) as -> by (Z.to_euclidean_division_equations; lia). done. }
  assert (∀ tm, tm ∈ entries s l i -> 2 ^ 31 <= dist T m -> dist T (expires tm) < 2 ^ 30) as Hov.
  { intros tm Hin Hm. destruct found; [|rewrite Hf in Hm; done]. specialize (Hf0 eq_refl). subst j. specialize (Hhere tm Hin).
    destruct (entry_offset l i tm ltac:(lia) Hin) as (_ & _ & _ & _ & _ & Hd). unfold delay in Hhere.
    destruct (Z.ltb_spec (dist T (expires tm)) (2 ^ 31)); lia. }
  destruct (good_fold l i m Hg ltac:(lia) Hov) as (Hgr & Hrm & Hre). set (r := foldl earlier m (entries s l i)) in *.
  assert (covers 0 l r) as Hcr by (intros l' i' tm Hl' Hin Hdf; specialize (Hc l' i' tm Hl' Hin Hdf); lia).
  destruct (found || negb (bool_decide (entries s l i = []))) eqn:Efound.
  - assert (delay T r < ahead T l + (j + 1) * 2 ^ lvl l) as Hr.
    { destruct found; [specialize (Hf0 eq_refl); subst j; specialize (Hf ltac:(lia)); lia|].
      destruct (entries s l i) as [|tm es] eqn:Ees; [by rewrite bool_decide_true in Efound by done|].
      specialize (Hre tm ltac:(by left)). specialize (Hhere tm ltac:(by left)). lia. }
    assert (covers 0 (l + 1) r) as Hcl.
    { intros l' i' tm Hl' Hin Hdf. destruct (decide (l' < l)); [by apply (Hcr l' i'); [lia|..]|]. assert (l' = l) as -> by lia.
      destruct (entry_offset l i' tm ltac:(lia) Hin) as (_ & j' & Hj' & Hi' & Hd & _). fold x in Hi'.
      destruct (decide (j' < j)); [subst i'; by destruct (Hempty j' tm ltac:(lia))|].
      destruct (decide (j' = j)) as [->|]; [subst i'; by apply Hre|]. nia. }
    destruct (Z.eqb_spec (x mod 64) 0) as [Hx0|Hx0]; cbn [orb]; [|destruct (Z.ltb_spec i (x mod 64)) as [Hw|Hw]].
    + split_and!; try done. intros Hl4. rewrite Hqs.
      destruct (ahead_succ T l ltac:(lia) ltac:(apply (wf_time _ _ _ _ Hwf))) as [-> _]. fold x. rewrite Hx0. cbn [Z.eqb]. nia.
    + split_and!; try done. intros Hl4. rewrite Hqs.
      destruct (ahead_succ T l ltac:(lia) ltac:(apply (wf_time _ _ _ _ Hwf))) as [-> _]. fold x. case_cmp; nia.
    + split; [done|]. intros l' i' tm Hl' Hin Hdf. destruct (decide (l' < l + 1)); [by apply (Hcl l' i'); [lia|..]|].
      apply (covers_beyond (l + 1) r ltac:(lia)) with l' i'; [|lia|done|lia]. intros Hl4.
      destruct (ahead_succ T l ltac:(lia) ltac:(apply (wf_time _ _ _ _ Hwf))) as [-> _]. fold x. destruct (Z.eqb_spec (x mod 64) 0); [done|].
      assert (j + 1 <= 64 - x mod 64); [|nia]. unfold i in Hw. Z.to_euclidean_division_equations; lia.
  - apply orb_false_iff in Efound as [-> Hnil]. apply negb_false_iff, bool_decide_eq_true in Hnil.
    assert (r = m) as Hrm' by (unfold r; by rewrite Hnil). rewrite Hrm' in *. clear r Hrm'.
    unfold i. rewrite <- mod64_next. destruct (Z.eqb_spec ((x + j + 1) mod 64) (x mod 64)) as [Hlast|Hmore].
    + split_and!; try done. intros l' i' tm Hl' Hin Hdf. destruct (decide (l' < l)); [by apply (Hc l' i'); [lia|..]|].
      assert (l' = l) as -> by lia. destruct (entry_offset l i' tm ltac:(lia) Hin) as (_ & j' & Hj' & Hi' & Hd & _). fold x in Hi'.
      assert (j = 63) as -> by (Z.to_euclidean_division_equations; lia).
      destruct (decide (j' = 63)) as [->|]; [subst i'; fold i in Hin; rewrite Hnil in Hin; by apply elem_of_nil in Hin|].
      subst i'. by destruct (Hempty j' tm ltac:(lia)).
    + replace (x + j + 1) with (x + (j + 1)) by lia. apply IH; try done; try lia.
      * assert (j <> 63); [|lia]. intros ->. apply Hmore. replace (x + 63 + 1) with (x + 1 * 64) by lia. by rewrite Z.mod_add.
      * intros j' tm Hj'. destruct (decide (j' = j)) as [->|]; [|apply Hempty; lia]. fold i. rewrite Hnil. apply not_elem_of_nil.
Qed.

(** The vectors in turn; [tj] is the number of the cascade, up to the bits that
    the shifts have lost. *)
Lemma scan_levels_ok n l tj found m : 1 <= l -> l + Z.of_nat n = 5 -> ready l found m ->
  (l <= 4 -> 0 <= tj <= 2 ^ 24 ∧ ∃ c, tj = turn T l + c * (64 * 2 ^ (26 - lvl l))) ->
  good (scan_levels false n s l tj found m) ∧ covers 0 5 (scan_levels false n s l tj found m).
Proof.
  revert l tj found m. induction n as [|n IH]; intros l tj found m Hl Hn Hrd Htj; cbn [scan_levels].
  { replace l with 5 in Hrd by lia. split; apply Hrd. }
  destruct (Htj ltac:(lia)) as [Hb [c Hc]]. clear Htj. rewrite mask_n. change (TVN_SIZE false) with 64.
  assert (tj mod 64 = turn T l mod 64) as Hmod.
  { rewrite Hc. replace (c * (64 * 2 ^ (26 - lvl l))) with (c * 2 ^ (26 - lvl l) * 64) by lia. apply Z.mod_add. lia. }
  rewrite Hmod. pose proof (scan_tvn_ok l 64 0 found m ltac:(lia) ltac:(lia) ltac:(lia) ltac:(lia) ltac:(done) Hrd ltac:(lia)) as Hscan.
  rewrite Z.add_0_r in Hscan. change (Z.to_nat 64) with 64%nat.
  destruct (scan_tvn false 64 s l (turn T l mod 64) (turn T l mod 64) found m) as [r|[found' r]]; [done|].
  apply IH; try done; try lia. intros Hl4. destruct (lvl_pos l ltac:(lia)) as (Hlv & Hq & Hqs).
  destruct (ahead_succ T l ltac:(lia) ltac:(apply (wf_time _ _ _ _ Hwf))) as [_ ->]. change (TVN_BITS false) with 6.
  assert (2 ^ (26 - lvl l) = 64 * 2 ^ (26 - lvl (l + 1))) as Hp.
  { assert (lvl (l + 1) = lvl l + 6) as -> by (unfold Timer.lvl; cbn [TVR_BITS TVN_BITS]; lia).
    destruct (lvl_pos (l + 1) ltac:(lia)) as (Hlv' & _). unfold Timer.lvl in *. cbn [TVR_BITS TVN_BITS] in *.
    rewrite <- (Z.pow_add_r 2 6) by lia. f_equal. lia. }
  rewrite Hp in Hc. set (p := 2 ^ (26 - lvl (l + 1))) in *.
  pose proof (Z.mod_pos_bound (turn T l) 64 ltac:(lia)). rewrite Z.shiftr_div_pow2 by lia. change (2 ^ 6) with 64.
  destruct (Z.eqb_spec (turn T l mod 64) 0).
  - split; [Z.to_euclidean_division_equations; lia|]. exists c. rewrite Hc. replace (c * (64 * (64 * p))) with (c * (64 * p) * 64) by lia.
    rewrite Z.div_add by lia. done.
  - unfold u32. rewrite wrap_id by (unfold in_u; lia). split; [Z.to_euclidean_division_equations; lia|]. exists c. rewrite Hc.
    replace (turn T l + c * (64 * (64 * p)) + (64 - turn T l mod 64)) with (turn T l + (64 - turn T l mod 64) + c * (64 * p) * 64) by lia.
    rewrite Z.div_add by lia. done.
Qed.

(** ** tv1 *)

Lemma entry_tv1 i tm : tm ∈ entries s 0 i -> i = (T + delay T (expires tm)) mod 256 ∧ delay T (expires tm) < 256.
Proof.
  intros (t & Hin & Htm)%in_entries. destruct (wf_fits _ _ _ _ Hwf 0 i t Hin) as [_ Hf].
  destruct (Hf tm Htm) as [[_ Hf']|[? _]]; [|lia]. change (TVR_SIZE false) with 256 in Hf'. unfold delay. pose proof (dist_range T (expires tm)).
  destruct Hf' as [[Hd ->]|[Hd ->]]; destruct (Z.ltb_spec (dist T (expires tm)) (2 ^ 31)); try lia.
  - split; [|done]. pose proof (dist_mod T (expires tm) 8 ltac:(lia)) as Hm. change (2 ^ 8) with 256 in Hm.
    rewrite <- Zplus_mod_idemp_r, Hm, Zplus_mod_idemp_r. f_equal. lia.
  - split; [f_equal; lia|lia].
Qed.

Lemma scan_tv1_ok n j : 0 <= j -> j + Z.of_nat n = 256 -> (0 < n)%nat ->
  (∀ i tm, tm ∈ entries s 0 i -> deferrable tm = false -> j <= delay T (expires tm)) ->
  match scan_tv1 false n s ((T + j) mod 256) (T mod 256) with
  | Some (m, b) => ∃ i tm, tm ∈ entries s 0 i ∧ expires tm = m ∧ covers 0 1 m ∧
      b = (T mod 256 =? 0) || ((T + delay T m) mod 256 <? T mod 256)
  | None => ∀ i tm, tm ∈ entries s 0 i -> deferrable tm = true
  end.
Proof.
  revert j. induction n as [|n IH]; intros j Hj Hn Hpos Hge; [lia|]. cbn [scan_tv1].
  destruct (list_find _ (entries s 0 ((T + j) mod 256))) as [[k tm]|] eqn:Ef.
  - apply list_find_Some in Ef as (Hk & Hdf & _). apply list_elem_of_lookup_2 in Hk. exists ((T + j) mod 256), tm.
    destruct (entry_tv1 _ _ Hk) as [Hi Hd]. pose proof (delay_range T (expires tm)). specialize (Hge _ _ Hk Hdf) as Hjd.
    assert (delay T (expires tm) = j) as He by (Z.to_euclidean_division_equations; lia). split_and!; try done.
    + intros l i tm' Hl Hin Hdf'. assert (l = 0) as -> by lia. rewrite He. by eapply Hge; [done|apply Hdf'].
    + by rewrite He.
  - apply list_find_None in Ef. rewrite Forall_forall in Ef.
    assert (Z.land ((T + j) mod 256 + 1) (TVR_MASK false) = (T + (j + 1)) mod 256) as ->.
    { rewrite mask_r. change (TVR_SIZE false) with 256. rewrite Zplus_mod_idemp_l. f_equal. lia. }
    assert (∀ i tm, tm ∈ entries s 0 i -> deferrable tm = false -> j + 1 <= delay T (expires tm)) as Hge'.
    { intros i tm Hin Hdf. destruct (entry_tv1 _ _ Hin) as [Hi Hd]. specialize (Hge i tm Hin Hdf).
      assert (delay T (expires tm) <> j); [|lia]. intros <-. subst i. by apply (Ef tm). }
    destruct (Z.eqb_spec ((T + (j + 1)) mod 256) (T mod 256)) as [Hlast|Hmore].
    + intros i tm Hin. destruct (deferrable tm) eqn:Hdf; [done|]. specialize (Hge' i tm Hin Hdf). destruct (entry_tv1 _ _ Hin) as [_ Hd].
      assert (j = 255); [|lia]. Z.to_euclidean_division_equations; lia.
    + apply IH; try done; try lia. assert (j <> 255); [|lia]. intros ->. apply Hmore. change (255 + 1) with (1 * 256). by rewrite Z.mod_add.
Qed.

(** ** The whole search *)

(** The cascade that follows the current tick. *)
Lemma first_turn : 0 <= Z.shiftr (if T mod 256 =? 0 then T else u32 (T + (256 - T mod 256))) 8 <= 2 ^ 24 ∧
  ∃ c, Z.shiftr (if T mod 256 =? 0 then T else u32 (T + (256 - T mod 256))) 8 = turn T 1 + c * (64 * 2 ^ (26 - lvl 1)).
Proof.
  pose proof (wf_time _ _ _ _ Hwf) as HT. unfold in_u in HT. destruct (ahead_turn T 1 ltac:(lia)) as [Ha Ht].
  change (lvl 1) with 8 in *. change (2 ^ 8) with 256 in *. change (64 * 2 ^ (26 - 8)) with (2 ^ 24).
  rewrite Z.shiftr_div_pow2 by lia. change (2 ^ 8) with 256.
  pose proof (Z.mod_pos_bound T 256 ltac:(lia)). pose proof (Z.div_mod T 256 ltac:(lia)).
  destruct (Z.eqb_spec (T mod 256) 0).
  - split; [Z.to_euclidean_division_equations; lia|]. exists 0. nia.
  - replace (T + (256 - T mod 256)) with ((T / 256 + 1) * 256) by lia. unfold u32, wrap.
    change (2 ^ 32) with (2 ^ 24 * 256). rewrite Z.mul_mod_distr_r, Z.div_mul by lia.
    pose proof (Z.mod_pos_bound (T / 256 + 1) (2 ^ 24) ltac:(lia)). pose proof (Z.div_mod (T / 256 + 1) (2 ^ 24) ltac:(lia)).
    split; [lia|]. exists (- ((T / 256 + 1) / 2 ^ 24)). nia.
Qed.

Lemma ahead_1 : ahead T 1 = if T mod 256 =? 0 then 0 else 256 - T mod 256.
Proof.
  unfold ahead. change (2 ^ lvl 1) with 256. case_cmp; [by apply Z.mod_opp_l_z|by apply Z.mod_opp_l_nz].
Qed.

Lemma next_timer_search : (∀ l i tm, tm ∈ entries s l i -> sane T (expires tm)) ->
  good (next_timer_interrupt_ false s) ∧ covers 0 5 (next_timer_interrupt_ false s).
Proof.
  intros Hsane. unfold next_timer_interrupt_. rewrite mask_r. change (TVR_SIZE false) with 256. change (Z.to_nat 256) with 256%nat.
  change (TVR_BITS false) with 8. pose proof (wf_time _ _ _ _ Hwf) as HT. unfold in_u in HT.
  pose proof (scan_tv1_ok 256 0 ltac:(lia) ltac:(lia) ltac:(lia) ltac:(intros; apply delay_range)) as Hscan. rewrite Z.add_0_r in Hscan.
  destruct (scan_tv1 false 256 s (T mod 256) (T mod 256)) as [[m b]|].
  - destruct Hscan as (i & tm & Hin & <- & Hc & Hb). assert (good (expires tm)) as Hg.
    { split; [by eapply Hsane|]. right. by exists 0, i, tm. }
    destruct (entry_tv1 _ _ Hin) as [_ Hd]. pose proof (delay_range T (expires tm)). destruct b.
    + apply scan_levels_ok; try done; [|intros _; apply first_turn]. split_and!; try done. intros _. change (2 ^ lvl 1) with 256.
      destruct (ahead_turn T 1 ltac:(lia)). lia.
    + split; [done|]. intros l i' tm' Hl Hin' Hdf. destruct (decide (l = 0)) as [->|]; [by apply (Hc 0 i'); [lia|..]|].
      apply (covers_beyond 1 (expires tm) ltac:(lia)) with l i'; [|lia|done|lia]. intros _. rewrite ahead_1.
      symmetry in Hb. apply orb_false_iff in Hb as [Hb1 Hb2]. rewrite Hb1. apply Z.eqb_neq in Hb1. apply Z.ltb_ge in Hb2.
      Z.to_euclidean_division_equations; lia.
  - apply scan_levels_ok; try done; [|intros _; apply first_turn]. split_and!.
    + split; [left; by rewrite default_dist|by left].
    + intros l i tm Hl Hin Hdf. assert (l = 0) as -> by lia. rewrite (Hscan i tm Hin) in Hdf. by specialize (Hdf eq_refl).
    + apply default_dist.
Qed.
End Search.

(** C11: __next_timer_interrupt, on the wheel of this configuration and between
    two runs of the timers, returns a time that is not after the expiry of any
    pending timer that is not deferrable, and it is the expiry of a pending
    timer unless it is the default, NEXT_TIMER_MAX_DELTA ticks away; timers may
    be overdue by up to 2^30 ticks, and the clock may wrap. *)
Theorem next_timer_sound s : wheel_ok false s -> work_list s = [] ->
  (∀ t tm, timers s !! t = Some tm -> pending tm = true -> sane (timer_jiffies s) (expires tm)) ->
  let r := next_timer_interrupt_ false s in
  (∀ t tm, timers s !! t = Some tm -> pending tm = true -> deferrable tm = false ->
     delay (timer_jiffies s) r <= delay (timer_jiffies s) (expires tm)) ∧
  (r = u32 (timer_jiffies s + NEXT_TIMER_MAX_DELTA) ∨ ∃ t tm, timers s !! t = Some tm ∧ pending tm = true ∧ expires tm = r).
Proof.
  intros [Hwf _] Hw Hsane r. rewrite Hw in Hwf.
  assert (∀ t tm l i, t ∈ slot s l i -> timers s !! t = Some tm -> pending tm = true) as Hp.
  { intros t tm l i Hin Htm. apply (wf_pending _ _ _ _ Hwf t tm Htm); [done|]. right. by exists l, i. }
  destruct (next_timer_search s Hwf) as [[_ Ho] Hc].
  { intros l i tm (t & Hin & Htm)%in_entries. by eapply Hsane, Hp. }
  fold r in Ho, Hc. split.
  - intros t tm Htm Hpd Hdf. destruct (proj1 (wf_pending _ _ _ _ Hwf t tm Htm ltac:(done)) Hpd) as [Hx|(l & i & Hin)]; [by apply elem_of_nil in Hx|].
    apply (Hc l i tm); [|apply in_entries; by exists t|done]. destruct (wf_fits _ _ _ _ Hwf l i t Hin) as [_ Hf].
    destruct (Hf tm Htm) as [[? _]|[? _]]; lia.
  - destruct Ho as [->|(l & i & tm & (t & Hin & Htm)%in_entries & He)]; [by left|]. right. exists t, tm. split_and!; try done. by eapply Hp.
Qed.

(** The ticks until a high-resolution timer [x] nanoseconds ahead. *)
Definition hr_ticks (x : Z) : Z :=
  if x <? MAX_SEC_IN_JIFFIES * NSEC_PER_SEC then ceil_div x TICK_NSEC else MAX_SEC_IN_JIFFIES * HZ.

Lemma hr_ticks_range x : 0 < x -> 1 <= hr_ticks x < NEXT_TIMER_MAX_DELTA.
Proof.
  intros Hx. unfold hr_ticks, ceil_div, NSEC_PER_SEC. change MAX_SEC_IN_JIFFIES with 10737418. change TICK_NSEC with 10000000.
  change NEXT_TIMER_MAX_DELTA with (2 ^ 30 - 1). change HZ with 100. destruct (Z.ltb_spec x (10737418 * 1000000000)); [|lia].
  split; [apply Z.div_le_lower_bound; lia|apply Z.div_lt_upper_bound; lia].
Qed.

Lemma ktime_ticks x : 0 < x -> fits_ns x ->
  let ts := ktime_to_timespec (of_ns x) in timespec_to_jiffies ts.1 ts.2 = hr_ticks x.
Proof.
  intros Hx Hf. unfold ktime_to_timespec. destruct (tv_of_ns x Hf) as [-> ->]. unfold hr_ticks, fits_ns, NSEC_PER_SEC in *. cbv zeta. unfold fst, snd.
  pose proof (Z.div_mod x 1000000000 ltac:(lia)). pose proof (Z.mod_pos_bound x 1000000000 ltac:(lia)).
  assert (0 <= x / 1000000000 < 2 ^ 31) by (split; [apply Z.div_pos; lia|apply Z.div_lt_upper_bound; lia]).
  destruct (Z.ltb_spec x (MAX_SEC_IN_JIFFIES * 1000000000)).
  - rewrite timespec_ticks; [f_equal; unfold NSEC_PER_SEC; lia| |done]. change MAX_SEC_IN_JIFFIES with 10737418 in *. lia.
  - apply timespec_saturates; [lia|]. change MAX_SEC_IN_JIFFIES with 10737418 in *. lia.
Qed.

(** Cmp_next_hrtimer_event: without a high-resolution timer the tick of the
    timer wheel stays; with one that has expired it is the next tick; with one
    [x] nanoseconds ahead it is the earlier of the wheel's tick and the first
    tick that is not before that timer, which is at least one tick ahead and
    stays below NEXT_TIMER_MAX_DELTA.  This holds across the wrap of the tick
    counter. *)
Theorem next_hrtimer_tick now exp x : in_u 32 now -> in_u 32 exp -> fits_ns x -> dist now exp < 2 ^ 31 ->
  cmp_next_hrtimer_event now exp KTIME_MAX = exp ∧
  (x <= 0 -> cmp_next_hrtimer_event now exp (of_ns x) = u32 (now + 1)) ∧
  (0 < x -> dist now (cmp_next_hrtimer_event now exp (of_ns x)) = dist now exp `min` hr_ticks x).
Proof.
  intros Hn He Hf Hx. split; [done|]. pose proof (of_ns_ltb0 x Hf) as H0. destruct (of_ns_proper x Hf) as [[Hr Hm] _].
  assert (of_ns x ≠ KTIME_MAX) as Hmax. { intros Heq. rewrite Heq in Hm. vm_compute in Hm. congruence. }
  unfold cmp_next_hrtimer_event. rewrite (proj2 (Z.eqb_neq _ _) Hmax). pose proof (of_ns_lt 0 x ltac:(by vm_compute) Hf) as Hpos.
  change (of_ns 0) with 0 in Hpos. destruct (Z.leb_spec (of_ns x) 0) as [Hle|Hlt]; (split; intros Hsgn); [done|lia|lia|].
  pose proof (ktime_ticks x Hsgn Hf) as Ht. cbv zeta in Ht |- *. rewrite Ht. pose proof (hr_ticks_range x Hsgn) as Hd. set (d := hr_ticks x) in *.
  destruct (Z.ltb_spec NEXT_TIMER_MAX_DELTA d); [lia|]. destruct (Z.ltb_spec d 1); [lia|]. change NEXT_TIMER_MAX_DELTA with (2 ^ 30 - 1) in Hd.
  assert (dist now (u32 (now + d)) = d) as Hdist.
  { unfold dist, u32. rewrite wrap_sub_l. replace (now + d - now) with d by lia. apply wrap_id. unfold in_u. lia. }
  unfold time_before, time_after. rewrite (s32_dist_diff now), Hdist. pose proof (dist_range now exp). rewrite s32_id by lia.
  case_cmp; lia.
Qed.
Lemma next_hrtimer_tick_witness :
  cmp_next_hrtimer_event (2 ^ 32 - 2) 7 (of_ns 25000000) = 1 ∧ dist (2 ^ 32 - 2) 1 = 3.
Proof.
  assert (cmp_next_hrtimer_event (2 ^ 32 - 2) 7 (of_ns 25000000) = 1) as He by (vm_compute; reflexivity). split; [exact He|].
  assert (in_u 32 (2 ^ 32 - 2)) as Hn by (unfold in_u; lia). assert (in_u 32 7) as Hx by (unfold in_u; lia).
  assert (fits_ns 25000000) as Hf by (unfold fits_ns, NSEC_PER_SEC; lia).
  assert (dist (2 ^ 32 - 2) 7 = 9) as Hw by reflexivity.
  pose proof (next_hrtimer_tick (2 ^ 32 - 2) 7 25000000 Hn Hx Hf) as Hd. rewrite Hw, He in Hd.
  apply Hd; lia.
Defined.

Module TimerNextDemo.
Import TimerWheelDemo.

(** Timer 8 is due after the wrap of the clock, in 300 ticks, timer 7 in
    70000; nothing is in tv1. *)
Definition waiting : tsys := start 8 200 (start 7 69900 three).

Lemma waiting_ok : wheel_ok false waiting.
Proof.
  eapply (apis_leave _ _ (init_timers_cpu j0)); [apply init_ok; split; vm_compute; congruence|].
  eapply rtc_l; [apply (api_write _ (λ _, True) 7 (idle 1)); [exact I|reflexivity|split; vm_compute; congruence|by vm_compute]|].
  eapply rtc_l; [apply (api_write _ _ 8 (idle 2)); [exact I|reflexivity|split; vm_compute; congruence|by vm_compute]|].
  eapply rtc_l; [apply (api_write _ _ 9 (idle 2)); [exact I|reflexivity|split; vm_compute; congruence|by vm_compute]|].
  eapply rtc_l; [eapply (start_api 7 69900); [split; vm_compute; congruence|vm_compute; reflexivity]|].
  apply rtc_once. eapply (start_api 8 200); [split; vm_compute; congruence|vm_compute; reflexivity].
Qed.

Lemma waiting_sane t tm : timers waiting !! t = Some tm -> pending tm = true -> sane (timer_jiffies waiting) (expires tm).
Proof.
  intros Htm _. revert t tm Htm. apply (bool_decide_unpack (map_Forall (λ _ tm, sane (timer_jiffies waiting) (expires tm)) (timers waiting))).
  vm_compute. exact I.
Qed.

Lemma next_timer_sound_witness : next_timer_interrupt_ false waiting = 200 ∧
  ∀ t tm, timers waiting !! t = Some tm -> pending tm = true -> deferrable tm = false -> 300 <= delay j0 (expires tm).
Proof.
  assert (next_timer_interrupt_ false waiting = 200) as Hr by (vm_compute; reflexivity). split; [exact Hr|].
  destruct (next_timer_sound waiting) as [Hle _].
  - exact waiting_ok.
  - vm_compute. reflexivity.
  - exact waiting_sane.
  - rewrite Hr in Hle. exact Hle.
Defined.

(** With CONFIG_BASE_SMALL the last vector holds several turns of its sixteen
    lists, and the search stops at the first list that is not empty: it answers
    with timer 1, five turns ahead, although timer 2 is due within the first. *)
Definition small_start (t e : Z) (s : tsys) : tsys := match mod_timer_ true t e s with Some (_, s') => s' | None => s end.
Definition small : tsys := small_start 2 (2 ^ 19) (small_start 1 (5 * 2 ^ 22 + 2 ^ 18)
  (set_timers (insert 2 (idle 2)) (set_timers (insert 1 (idle 2)) (init_timers_cpu 0)))).

Example base_small_misses : expires <$> timers small !! 2 = Some (2 ^ 19) ∧ pending <$> timers small !! 2 = Some true ∧
  next_timer_interrupt_ true small = 5 * 2 ^ 22 + 2 ^ 18.
Proof. vm_compute. done. Qed.
End TimerNextDemo.
