(* ===== verification/Rwsem.v ===== *)
(** lib/rwsem-spinlock.c: reader/writer semaphores, the generic spinlock
    implementation (CONFIG_RWSEM_GENERIC_SPINLOCK is set on this board).

    Every operation runs its critical section under [sem->wait_lock], so it is
    one atomic step on the semaphore and on the tasks; the waiting loops of
    __down_read and __down_write end when the waker has cleared
    [waiter.task], which is the grant.  A task is idle, queued, or holds the
    semaphore.  The step relation [step] lets any task do any operation that
    its state allows, in any order. *)

From S2P Require Import Prelude.

Definition RWSEM_WAITING_FOR_READ : Z := 0x00000001.
Definition RWSEM_WAITING_FOR_WRITE : Z := 0x00000002.

Abbreviation task := positive.

Record rwsem_waiter := Waiter { w_task : task; w_flags : Z }.

(** [activity] is an [__s32]: 0 free, n > 0 readers, -1 a writer. *)
Record rw_semaphore := Rwsem { activity : Z; wait_list : list rwsem_waiter }.

(** What a task is doing with the semaphore. *)
Inductive holding := Idle | WaitRead | WaitWrite | Reading | Writing.

#[export] Instance holding_eq_dec : EqDecision holding.
Proof. solve_decision. Defined.

Record sys := Sys { sem : rw_semaphore; tasks : gmap task holding }.

(** Clearing [waiter->task] and waking the sleeper: it now holds the
    semaphore. *)
Definition wake (h : holding) (t : task) (ts : gmap task holding) : gmap task holding := <[t := h]> ts.

(** The [while] loop: readers leave the front of the queue; returns how many
    were woken. *)
Fixpoint wake_readers (l : list rwsem_waiter) (ts : gmap task holding) (woken : Z) :
    Z * list rwsem_waiter * gmap task holding :=
  match l with
  | [] => (woken, [], ts)
  | w :: l' =>
      if tst (w_flags w) RWSEM_WAITING_FOR_READ then
        let ts := wake Reading (w_task w) ts in
        wake_readers l' ts (s32 (woken + 1))
      else (woken, l, ts)
  end.

(** __rwsem_do_wake; called with a non-empty queue. *)
Definition rwsem_do_wake (wakewrite : bool) (s : sys) : sys :=
  match wait_list (sem s) with
  | [] => s
  | w :: l =>
      let readers (_ : unit) :=
        let '(woken, l', ts) := wake_readers (w :: l) (tasks s) 0 in
        Sys (Rwsem (s32 (activity (sem s) + woken)) l') ts in
      if negb wakewrite then
        if tst (w_flags w) RWSEM_WAITING_FOR_WRITE then s else readers tt
      else if tst (w_flags w) RWSEM_WAITING_FOR_WRITE then
        Sys (Rwsem (-1) l) (wake Writing (w_task w) (tasks s))
      else readers tt
  end.

(** __rwsem_wake_one_writer: whoever is first in the queue is taken to be a
    writer. *)
Definition rwsem_wake_one_writer (s : sys) : sys :=
  match wait_list (sem s) with
  | [] => s
  | w :: l => Sys (Rwsem (-1) l)
      (wake (if tst (w_flags w) RWSEM_WAITING_FOR_WRITE then Writing else Reading) (w_task w) (tasks s))
  end.

Definition list_empty (s : sys) : bool := match wait_list (sem s) with [] => true | _ => false end.

Definition down_read (t : task) (s : sys) : sys :=
  if (0 <=? activity (sem s)) && list_empty s
  then Sys (Rwsem (s32 (activity (sem s) + 1)) (wait_list (sem s))) (<[t := Reading]> (tasks s))
  else Sys (Rwsem (activity (sem s)) (wait_list (sem s) ++ [Waiter t RWSEM_WAITING_FOR_READ]))
         (<[t := WaitRead]> (tasks s)).

Definition down_read_trylock (t : task) (s : sys) : Z * sys :=
  if (0 <=? activity (sem s)) && list_empty s
  then (1, Sys (Rwsem (s32 (activity (sem s) + 1)) (wait_list (sem s))) (<[t := Reading]> (tasks s)))
  else (0, s).

Definition down_write_nested (t : task) (s : sys) : sys :=
  if (activity (sem s) =? 0) && list_empty s
  then Sys (Rwsem (-1) (wait_list (sem s))) (<[t := Writing]> (tasks s))
  else Sys (Rwsem (activity (sem s)) (wait_list (sem s) ++ [Waiter t RWSEM_WAITING_FOR_WRITE]))
         (<[t := WaitWrite]> (tasks s)).

Definition down_write (t : task) (s : sys) : sys := down_write_nested t s.

Definition down_write_trylock (t : task) (s : sys) : Z * sys :=
  if (activity (sem s) =? 0) && list_empty s
  then (1, Sys (Rwsem (-1) (wait_list (sem s))) (<[t := Writing]> (tasks s)))
  else (0, s).

Definition up_read (t : task) (s : sys) : sys :=
  let s := Sys (Rwsem (s32 (activity (sem s) - 1)) (wait_list (sem s))) (<[t := Idle]> (tasks s)) in
  if (activity (sem s) =? 0) && negb (list_empty s) then rwsem_wake_one_writer s else s.

Definition up_write (t : task) (s : sys) : sys :=
  let s := Sys (Rwsem 0 (wait_list (sem s))) (<[t := Idle]> (tasks s)) in
  if negb (list_empty s) then rwsem_do_wake true s else s.

Definition downgrade_write (t : task) (s : sys) : sys :=
  let s := Sys (Rwsem 1 (wait_list (sem s))) (<[t := Reading]> (tasks s)) in
  if negb (list_empty s) then rwsem_do_wake false s else s.

(** __init_rwsem, with a set of idle tasks. *)
Definition init_rwsem (ts : gset task) : sys := Sys (Rwsem 0 []) (gset_to_gmap Idle ts).

(** * The tasks' protocol *)

Inductive op := DownRead | DownReadTry | DownWrite | DownWriteTry | UpRead | UpWrite | Downgrade.

Inductive step : op -> sys -> sys -> Prop :=
  | step_down_read s t : tasks s !! t = Some Idle -> step DownRead s (down_read t s)
  | step_down_read_trylock s t : tasks s !! t = Some Idle -> step DownReadTry s (down_read_trylock t s).2
  | step_down_write s t : tasks s !! t = Some Idle -> step DownWrite s (down_write t s)
  | step_down_write_trylock s t : tasks s !! t = Some Idle -> step DownWriteTry s (down_write_trylock t s).2
  | step_up_read s t : tasks s !! t = Some Reading -> step UpRead s (up_read t s)
  | step_up_write s t : tasks s !! t = Some Writing -> step UpWrite s (up_write t s)
  | step_downgrade s t : tasks s !! t = Some Writing -> step Downgrade s (downgrade_write t s).

(** What the tasks of [T] can bring a fresh semaphore to. *)
Definition reachable (T : gset task) : sys -> Prop := rtc (λ s s', ∃ o, step o s s') (init_rwsem T).

Definition is_release (o : op) : bool := match o with UpRead | UpWrite => true | _ => false end.

(** [w] is first in the queue all the way from [s] to [s'], during which [n]
    locks are released. *)
Inductive waits (w : rwsem_waiter) : Z -> sys -> sys -> Prop :=
  | waits_here s : head (wait_list (sem s)) = Some w -> waits w 0 s s
  | waits_step n o s s1 s2 : head (wait_list (sem s)) = Some w -> step o s s1 -> waits w n s1 s2 ->
      waits w ((if is_release o then 1 else 0) + n) s s2.

(** The tasks that hold the semaphore in a given way. *)
Definition holders (h : holding) (s : sys) : gset task := dom (filter (λ x, x.2 = h) (tasks s)).

Definition is_read (w : rwsem_waiter) : Prop := w_flags w = RWSEM_WAITING_FOR_READ.
Definition is_write (w : rwsem_waiter) : Prop := w_flags w = RWSEM_WAITING_FOR_WRITE.

(** A queued task's state. *)
Definition waiting_as (w : rwsem_waiter) : holding :=
  if tst (w_flags w) RWSEM_WAITING_FOR_READ then WaitRead else WaitWrite.

(** * Counting holders *)

Section Count.
Implicit Types (ts : gmap task holding) (h : holding) (t : task).

Definition cnt h ts : Z := Z.of_nat (size (filter (λ x, x.2 = h) ts)).
Definition ind (P : Prop) `{Decision P} : Z := if decide P then 1 else 0.

Lemma cnt_fresh h ts t h1 : ts !! t = None -> cnt h (<[t := h1]> ts) = cnt h ts + ind (h1 = h).
Proof.
  intros Ht. unfold cnt, ind. rewrite map_filter_insert. simpl. case_decide as Hh.
  - rewrite map_size_insert_None; [lia|]. apply map_lookup_filter_None. by left.
  - rewrite delete_id by done. lia.
Qed.

Lemma cnt_insert h ts t h0 h1 : ts !! t = Some h0 ->
  cnt h (<[t := h1]> ts) = cnt h ts - ind (h0 = h) + ind (h1 = h).
Proof.
  intros Ht. pose proof (lookup_delete_eq ts t) as Hd.
  pose proof (cnt_fresh h _ _ h0 Hd) as H0. rewrite insert_delete_id in H0 by done.
  pose proof (cnt_fresh h _ _ h1 Hd) as H1. rewrite insert_delete_eq in H1. lia.
Qed.

Lemma cnt_le h ts : 0 <= cnt h ts <= Z.of_nat (size ts).
Proof.
  unfold cnt. split; [lia|]. apply Nat2Z.inj_le, map_subseteq_size, map_filter_subseteq.
Qed.

Lemma cnt_pos h ts t : ts !! t = Some h -> 1 <= cnt h ts.
Proof.
  intros Ht. unfold cnt.
  assert (size (filter (λ x : task * holding, x.2 = h) ts) <> 0%nat); [|lia].
  apply map_size_non_empty_iff. intros He.
  assert (filter (λ x : task * holding, x.2 = h) ts !! t = Some h) as Hf by by apply map_lookup_filter_Some.
  by rewrite He, lookup_empty in Hf.
Qed.

Lemma cnt_zero h ts t : cnt h ts = 0 -> ts !! t <> Some h.
Proof. intros Hc Ht. pose proof (cnt_pos h ts t Ht). lia. Qed.

(** At most one task holds a state that is counted once. *)
Lemma cnt_one_unique h ts t t' : cnt h ts = 1 -> ts !! t = Some h -> ts !! t' = Some h -> t = t'.
Proof.
  intros Hc Ht Ht'. destruct (decide (t = t')) as [|Hne]; [done|]. exfalso.
  assert (∃ h', h' <> h) as [h' Hh'] by (destruct h; first [by exists Idle | by exists Reading]).
  pose proof (cnt_insert h ts t h h' Ht) as Hi.
  assert (<[t := h']> ts !! t' = Some h) as Hs by by rewrite lookup_insert_ne.
  apply cnt_pos in Hs. unfold ind in Hi. rewrite decide_True, decide_False in Hi by done. lia.
Qed.
End Count.

(** * The invariant *)

Section Invariant.
Implicit Types (s : sys) (t : task) (l : list rwsem_waiter) (ts : gmap task holding).

Definition queue_ok l ts : Prop :=
  NoDup (w_task <$> l) ∧
  Forall (λ w, (is_read w ∨ is_write w) ∧ ts !! w_task w = Some (waiting_as w)) l ∧
  ∀ t, ts !! t = Some WaitRead ∨ ts !! t = Some WaitWrite -> t ∈ w_task <$> l.

(** The activity count is the number of readers, or -1 for one writer. *)
Definition active_ok (a : Z) ts : Prop :=
  (a = -1 ∧ cnt Writing ts = 1 ∧ cnt Reading ts = 0) ∨ (a = cnt Reading ts ∧ cnt Writing ts = 0).

(** Behind readers waits a writer; behind nobody waits nobody. *)
Definition front_ok (a : Z) l : Prop :=
  (a = 0 -> l = []) ∧ (0 < a -> ∀ w, head l = Some w -> is_write w).

Definition inv s : Prop :=
  queue_ok (wait_list (sem s)) (tasks s) ∧ active_ok (activity (sem s)) (tasks s) ∧
  front_ok (activity (sem s)) (wait_list (sem s)) ∧ Z.of_nat (size (tasks s)) < 2 ^ 31.

Lemma init_inv (T : gset task) : Z.of_nat (size T) < 2 ^ 31 -> inv (init_rwsem T).
Proof.
  intros Hs. unfold inv, init_rwsem; simpl.
  assert (∀ t h, gset_to_gmap Idle T !! t = Some h -> h = Idle) as Hidle
    by (intros t h Ht%lookup_gset_to_gmap_Some; by destruct Ht).
  assert (∀ h, h <> Idle -> cnt h (gset_to_gmap Idle T) = 0) as Hc.
  { intros h Hh. unfold cnt. apply (inj_iff Z.of_nat _ 0%nat), map_size_empty_iff, map_empty.
    intros t. apply map_lookup_filter_None. right. intros h' Ht Heq. simpl in Heq. apply Hidle in Ht. congruence. }
  split_and!.
  - split_and!; [constructor|constructor|]. intros t [Ht|Ht]; by apply Hidle in Ht.
  - right. rewrite !Hc by done. done.
  - split; done.
  - rewrite <- size_dom, dom_gset_to_gmap. done.
Qed.

(** Changing a task that is not queued, to a state that is not queued. *)
Lemma queue_ok_insert l ts t h0 h1 : queue_ok l ts -> ts !! t = Some h0 ->
  h0 <> WaitRead -> h0 <> WaitWrite -> h1 <> WaitRead -> h1 <> WaitWrite -> queue_ok l (<[t := h1]> ts).
Proof.
  intros (Hnd & Hall & Hin) Ht H1 H2 H3 H4. split_and!; [done| |].
  - eapply Forall_impl; [done|]. intros w [Hk Hw]. split; [done|].
    rewrite lookup_insert_ne; [done|]. intros He. rewrite <- He, Ht in Hw. injection Hw as ->.
    unfold waiting_as in *. by destruct (tst _ _).
  - intros t' Ht'. destruct (decide (t = t')) as [<-|].
    + rewrite lookup_insert, decide_True in Ht' by done. destruct Ht' as [[= ->]|[= ->]]; done.
    + rewrite !lookup_insert_ne in Ht' by done. by apply Hin.
Qed.

(** A task joins the queue. *)
Lemma queue_ok_push l ts t h0 f : queue_ok l ts -> ts !! t = Some h0 -> h0 <> WaitRead -> h0 <> WaitWrite ->
  is_read (Waiter t f) ∨ is_write (Waiter t f) ->
  queue_ok (l ++ [Waiter t f]) (<[t := waiting_as (Waiter t f)]> ts).
Proof.
  intros (Hnd & Hall & Hin) Ht H1 H2 Hf.
  assert (t ∉ w_task <$> l) as Hnin.
  { intros (w & -> & Hw)%list_elem_of_fmap. rewrite Forall_forall in Hall. destruct (Hall w Hw) as [_ Hs].
    rewrite Ht in Hs. injection Hs as ->. unfold waiting_as in *. by destruct (tst _ _). }
  split_and!.
  - rewrite fmap_app. apply NoDup_app. split_and!; [done|set_solver|]. simpl. apply NoDup_singleton.
  - apply Forall_app. split; [|constructor; [|constructor]].
    + apply Forall_forall. intros w Hw. rewrite Forall_forall in Hall. destruct (Hall w Hw) as [Hk Hs].
      split; [done|]. rewrite lookup_insert_ne; [done|]. intros He. apply Hnin. rewrite He.
      by apply list_elem_of_fmap_2.
    + split; [done|]. simpl. by rewrite lookup_insert, decide_True.
  - intros t' Ht'. rewrite fmap_app. apply elem_of_app. destruct (decide (t = t')) as [<-|].
    + right. simpl. set_solver.
    + left. rewrite !lookup_insert_ne in Ht' by done. by apply Hin.
Qed.

(** The first of the queue is granted. *)
Lemma queue_ok_pop w l ts h : queue_ok (w :: l) ts -> h <> WaitRead -> h <> WaitWrite ->
  queue_ok l (<[w_task w := h]> ts).
Proof.
  intros (Hnd & Hall & Hin) H1 H2. simpl in Hnd. apply NoDup_cons in Hnd as [Hw Hnd].
  apply Forall_cons in Hall as [[Hk Hs] Hall]. split_and!; [done| |].
  - apply Forall_forall. intros w' Hw'. rewrite Forall_forall in Hall. destruct (Hall w' Hw') as [Hk' Hs'].
    split; [done|]. rewrite lookup_insert_ne; [done|]. intros He. apply Hw. rewrite He.
    by apply list_elem_of_fmap_2.
  - intros t' Ht'. destruct (decide (w_task w = t')) as [<-|].
    + rewrite lookup_insert, decide_True in Ht' by done. destruct Ht' as [[= ->]|[= ->]]; done.
    + rewrite !lookup_insert_ne in Ht' by done. apply Hin in Ht'. simpl in Ht'. set_solver.
Qed.

Lemma queue_len l ts : queue_ok l ts -> (length l <= size ts)%nat.
Proof.
  intros (Hnd & Hall & _). rewrite <- (length_fmap w_task), <- (size_list_to_set (C:=gset task)), <- size_dom by done.
  apply subseteq_size. intros t (w & -> & Hw)%elem_of_list_to_set%list_elem_of_fmap.
  rewrite Forall_forall in Hall. destruct (Hall w Hw) as [_ Hs]. by eapply elem_of_dom_2.
Qed.

Lemma flag_read w : is_read w -> tst (w_flags w) RWSEM_WAITING_FOR_READ = true ∧
  tst (w_flags w) RWSEM_WAITING_FOR_WRITE = false ∧ waiting_as w = WaitRead.
Proof. intros Hw. unfold waiting_as. by rewrite Hw. Qed.

Lemma flag_write w : is_write w -> tst (w_flags w) RWSEM_WAITING_FOR_READ = false ∧
  tst (w_flags w) RWSEM_WAITING_FOR_WRITE = true ∧ waiting_as w = WaitWrite.
Proof. intros Hw. unfold waiting_as. by rewrite Hw. Qed.

(** The readers at the front of the queue, and nobody else, are woken. *)
Lemma wake_readers_spec l ts k : queue_ok l ts -> 0 <= k -> k + Z.of_nat (length l) < 2 ^ 31 ->
  ∃ l1 l2 ts', l = l1 ++ l2 ∧ wake_readers l ts k = (k + Z.of_nat (length l1), l2, ts') ∧
    Forall is_read l1 ∧ (∀ w, head l2 = Some w -> is_write w) ∧ queue_ok l2 ts' ∧
    cnt Reading ts' = cnt Reading ts + Z.of_nat (length l1) ∧ cnt Writing ts' = cnt Writing ts ∧
    size ts' = size ts ∧ (∀ w, w ∈ l1 -> ts' !! w_task w = Some Reading) ∧
    (∀ t, t ∉ w_task <$> l1 -> ts' !! t = ts !! t).
Proof.
  revert ts k. induction l as [|w l IH]; intros ts k Hq Hk Hb.
  { exists [], [], ts. cbn [length Z.of_nat wake_readers]. rewrite !Z.add_0_r. split_and!; set_solver. }
  pose proof Hq as (Hnd & Hall & _). apply Forall_cons in Hall as [[[Hr|Hw] Hs] _].
  - destruct (flag_read w Hr) as (Hf & _ & Hwa). cbn [wake_readers]. rewrite Hf. unfold wake.
    rewrite s32_id by (cbn [length] in Hb; lia).
    destruct (IH (<[w_task w := Reading]> ts) (k + 1)) as (l1 & l2 & ts' & -> & Hrun & Hr1 & Hh & Hq' & HR & HW & Hsz & Hin & Hout);
      [by apply queue_ok_pop|lia|cbn [length] in Hb; lia|].
    rewrite Hwa in Hs. rewrite (cnt_insert Reading _ _ _ _ Hs) in HR. rewrite (cnt_insert Writing _ _ _ _ Hs) in HW.
    unfold ind in HR, HW. simpl in HR, HW.
    exists (w :: l1), l2, ts'. rewrite Hrun. cbn [length].
    simpl in Hnd. apply NoDup_cons in Hnd as [Hnw _].
    split_and!; try done.
    + f_equal. f_equal. lia.
    + by constructor.
    + lia.
    + lia.
    + rewrite Hsz. by rewrite map_size_insert, Hs.
    + intros w' [->|Hw']%elem_of_cons; [|by apply Hin]. rewrite Hout.
      * by rewrite lookup_insert, decide_True.
      * rewrite fmap_app in Hnw. set_solver.
    + intros t Ht. simpl in Ht. rewrite Hout by set_solver. apply lookup_insert_ne. set_solver.
  - destruct (flag_write w Hw) as (Hf & _ & _). cbn [wake_readers]. rewrite Hf.
    exists [], (w :: l), ts. cbn [length Z.of_nat]. rewrite !Z.add_0_r. split_and!; set_solver.
Qed.

(** One task changes state: what the counts become. *)
Lemma change ts t h0 h1 : ts !! t = Some h0 ->
  size (<[t := h1]> ts) = size ts ∧
  cnt Reading (<[t := h1]> ts) = cnt Reading ts - ind (h0 = Reading) + ind (h1 = Reading) ∧
  cnt Writing (<[t := h1]> ts) = cnt Writing ts - ind (h0 = Writing) + ind (h1 = Writing).
Proof.
  intros Ht. split_and!; [|by apply cnt_insert..]. by rewrite map_size_insert, Ht.
Qed.

Lemma list_empty_spec s : list_empty s = true <-> wait_list (sem s) = [].
Proof. unfold list_empty. by destruct (wait_list (sem s)). Qed.

Lemma head_waiting w l ts : queue_ok (w :: l) ts -> ts !! w_task w = Some (waiting_as w) ∧ (is_read w ∨ is_write w).
Proof. intros (_ & Hall & _). by apply Forall_cons in Hall as [[? ?] _]. Qed.
End Invariant.

(** [count H] adds what the counts become when the task of [H] changes. *)
Ltac counts Ht h1 :=
  let H := fresh "Hc" in
  pose proof (change _ _ _ h1 Ht) as H; unfold ind in H; simpl in H; destruct H as (? & ? & ?).

Section Preserved.
Implicit Types (s : sys) (t : task).

Ltac start s Hi Ht :=
  destruct s as [[a l] ts]; cbn [sem tasks activity wait_list] in *;
  destruct Hi as (Hq & Ha & Hf & Hz); cbn [sem tasks activity wait_list] in *.

Lemma enqueue_inv s t h0 f : inv s -> tasks s !! t = Some Idle ->
  is_read (Waiter t f) ∨ is_write (Waiter t f) ->
  activity (sem s) <> 0 ∨ wait_list (sem s) <> [] ->
  (0 < activity (sem s) -> wait_list (sem s) = [] -> is_write (Waiter t f)) ->
  h0 = waiting_as (Waiter t f) ->
  inv (Sys (Rwsem (activity (sem s)) (wait_list (sem s) ++ [Waiter t f])) (<[t := h0]> (tasks s))).
Proof.
  intros Hi Ht Hk Hne Hw ->. start s Hi Ht. unfold inv; cbn [sem tasks activity wait_list].
  assert (waiting_as (Waiter t f) <> Reading ∧ waiting_as (Waiter t f) <> Writing) as [Hr Hwr]
    by (unfold waiting_as; by destruct (tst _ _)).
  destruct (change _ _ _ (waiting_as (Waiter t f)) Ht) as (Hs & HR & HW). unfold ind in HR, HW.
  rewrite !decide_False in HR by done. rewrite !decide_False in HW by done.
  split_and!.
  - by eapply queue_ok_push.
  - unfold active_ok in *. lia.
  - destruct Hf as [Hf0 Hf1]. split.
    + intros ->. destruct Hne; [lia|]. by rewrite Hf0 in *.
    + intros Hp w. destruct l as [|w0 l]; [|by apply Hf1]. simpl. intros [= <-]. by apply Hw.
  - lia.
Qed.

Lemma down_read_inv s t : inv s -> tasks s !! t = Some Idle -> inv (down_read t s).
Proof.
  intros Hi Ht. unfold down_read. destruct (_ && _) eqn:Hb.
  - apply andb_true_iff in Hb as [Hge He%list_empty_spec]. start s Hi Ht. subst l. unfold inv; cbn [sem tasks activity wait_list].
    counts Ht Reading. pose proof (cnt_le Reading (<[t := Reading]> ts)). unfold active_ok in *.
    rewrite s32_id by lia. split_and!; [by eapply queue_ok_insert|lia|by split|lia].
  - apply enqueue_inv; try done; [by left| |].
    + apply andb_false_iff in Hb as [Hb|Hb]; [left; lia|right]. rewrite <- list_empty_spec. by rewrite Hb.
    + intros Hp He%list_empty_spec. rewrite He in Hb. lia.
Qed.

Lemma down_read_trylock_inv s t : inv s -> tasks s !! t = Some Idle -> inv (down_read_trylock t s).2.
Proof.
  intros Hi Ht. pose proof (down_read_inv s t Hi Ht) as H. unfold down_read, down_read_trylock in *.
  by destruct (_ && _).
Qed.

Lemma down_write_inv s t : inv s -> tasks s !! t = Some Idle -> inv (down_write t s).
Proof.
  intros Hi Ht. unfold down_write, down_write_nested. destruct (_ && _) eqn:Hb.
  - apply andb_true_iff in Hb as [Hge He%list_empty_spec]. start s Hi Ht. subst l. unfold inv; cbn [sem tasks activity wait_list].
    counts Ht Writing. unfold active_ok in *.
    split_and!; [by eapply queue_ok_insert|lia|by split|lia].
  - apply enqueue_inv; try done; [by right|].
    apply andb_false_iff in Hb as [Hb|Hb]; [left; lia|right]. rewrite <- list_empty_spec. by rewrite Hb.
Qed.

Lemma down_write_trylock_inv s t : inv s -> tasks s !! t = Some Idle -> inv (down_write_trylock t s).2.
Proof.
  intros Hi Ht. pose proof (down_write_inv s t Hi Ht) as H. unfold down_write, down_write_nested, down_write_trylock in *.
  by destruct (_ && _).
Qed.

(** How a queued task holds the semaphore once it is granted. *)
Definition granted_as (w : rwsem_waiter) : holding :=
  if tst (w_flags w) RWSEM_WAITING_FOR_READ then Reading else Writing.

(** The waiters [l1] leave the front of the queue, each with its lock, and no
    other task changes. *)
Definition woken (l1 : list rwsem_waiter) (s s' : sys) : Prop :=
  wait_list (sem s) = l1 ++ wait_list (sem s') ∧
  (∀ w, w ∈ l1 -> tasks s' !! w_task w = Some (granted_as w)) ∧
  (∀ t, t ∉ w_task <$> l1 -> tasks s' !! t = tasks s !! t).

Lemma woken_none s : woken [] s s.
Proof. split_and!; set_solver. Qed.

(** No writer: the state in which a release looks at the queue. *)
Definition no_writer s : Prop :=
  queue_ok (wait_list (sem s)) (tasks s) ∧ activity (sem s) = cnt Reading (tasks s) ∧
  cnt Writing (tasks s) = 0 ∧ Z.of_nat (size (tasks s)) < 2 ^ 31.

Lemma wake_one_writer_spec s w l : no_writer s -> activity (sem s) = 0 ->
  wait_list (sem s) = w :: l -> is_write w ->
  inv (rwsem_wake_one_writer s) ∧ woken [w] s (rwsem_wake_one_writer s).
Proof.
  intros (Hq & Ha & Hw0 & Hz) H0 Hl Hw. unfold rwsem_wake_one_writer. rewrite Hl in *.
  destruct (head_waiting _ _ _ Hq) as [Hs _]. destruct (flag_write w Hw) as (Hf1 & Hf2 & Hf3).
  rewrite Hf2. rewrite Hf3 in Hs. unfold wake. counts Hs Writing.
  unfold inv, woken, active_ok, front_ok, granted_as; cbn [sem tasks activity wait_list]. split_and!.
  - by apply queue_ok_pop.
  - left. lia.
  - lia.
  - lia.
  - lia.
  - by rewrite Hl.
  - intros w' ->%list_elem_of_singleton. by rewrite Hf1, lookup_insert, decide_True.
  - intros t Ht. apply lookup_insert_ne. set_solver.
Qed.

(** The readers at the front are let in. *)
Lemma wake_readers_inv s : no_writer s -> 
  (activity (sem s) = 0 -> ∀ w, head (wait_list (sem s)) = Some w -> is_read w) ->
  ∃ l1, let r := wake_readers (wait_list (sem s)) (tasks s) 0 in
    let s' := Sys (Rwsem (s32 (activity (sem s) + r.1.1)) r.1.2) r.2 in
    inv s' ∧ woken l1 s s' ∧ (∀ w, head (wait_list (sem s)) = Some w -> is_read w -> w ∈ l1).
Proof.
  intros (Hq & Ha & Hw0 & Hz) Hh. pose proof (queue_len _ _ Hq) as Hlen.
  destruct (wake_readers_spec _ _ 0 Hq) as (l1 & l2 & ts' & Hl & Hr & Hrd & Hh2 & Hq' & HR & HW & Hsz & Hin & Hout);
    [lia..|].
  exists l1. rewrite Hr. cbn [fst snd]. pose proof (cnt_le Reading ts') as Hc1. pose proof (cnt_le Reading (tasks s)) as Hc2.
  rewrite s32_id by lia. unfold inv, woken, active_ok, front_ok; cbn [sem tasks activity wait_list].
  rewrite Forall_forall in Hrd.
  split_and!; try done; try lia.
  - intros H0. destruct l1 as [|w l1]; [|cbn [length] in H0; lia]. simpl in Hl.
    destruct l2 as [|w l2]; [done|]. exfalso.
    assert (is_write w) as Hw by by apply Hh2. assert (is_read w) as Hr' by (apply Hh; [lia|by rewrite Hl]).
    unfold is_read, is_write in *. by rewrite Hr' in Hw.
  - intros w Hw. rewrite (Hin w Hw). unfold granted_as. by destruct (flag_read w (Hrd w Hw)) as (-> & _).
  - intros w Hw Hr'. rewrite Hl in Hw. destruct l1 as [|w' l1]; [|injection Hw as ->; set_solver].
    simpl in Hw. apply Hh2 in Hw. unfold is_read, is_write in *. by rewrite Hr' in Hw.
Qed.

Lemma do_wake_spec s (ww : bool) w l : no_writer s -> wait_list (sem s) = w :: l ->
  (if ww then activity (sem s) = 0 else 0 < activity (sem s)) ->
  ∃ l1, inv (rwsem_do_wake ww s) ∧ woken l1 s (rwsem_do_wake ww s) ∧
    (w ∈ l1 ∨ (ww = false ∧ rwsem_do_wake ww s = s)).
Proof.
  intros Hn Hl Hww. unfold rwsem_do_wake. rewrite Hl.
  pose proof Hn as (Hq & Ha & Hw0 & Hz). rewrite Hl in Hq.
  destruct (head_waiting _ _ _ Hq) as [_ [Hr|Hw]].
  - destruct (flag_read w Hr) as (_ & -> & _).
    destruct (wake_readers_inv s Hn) as (l1 & Hi & Hwk & Hin); [by rewrite Hl; intros ? ? [= <-]|].
    rewrite Hl in Hi, Hwk, Hin. exists l1. destruct (wake_readers (w :: l) (tasks s) 0) as [[n l'] ts'].
    destruct ww; cbn [negb]; split_and!; auto.
  - destruct (flag_write w Hw) as (_ & Hf & _). rewrite Hf. destruct ww; cbn [negb].
    + exists [w]. destruct (wake_one_writer_spec s w l) as [Hi Hwk]; [done..|].
      unfold rwsem_wake_one_writer in *. rewrite Hl, Hf in *. split_and!; [done|done|set_solver].
    + exists []. split_and!; [|by apply woken_none|by right]. unfold inv, active_ok, front_ok. rewrite Hl.
      split_and!; [done|by right|lia| |done]. by intros _ ? [= <-].
Qed.

Lemma reader_in s t : inv s -> tasks s !! t = Some Reading ->
  0 < activity (sem s) ∧ activity (sem s) = cnt Reading (tasks s) ∧ cnt Writing (tasks s) = 0.
Proof.
  intros (_ & Ha & _) Ht. pose proof (cnt_pos _ _ _ Ht). unfold active_ok in Ha. lia.
Qed.

Lemma writer_in s t : inv s -> tasks s !! t = Some Writing ->
  activity (sem s) = -1 ∧ cnt Reading (tasks s) = 0 ∧ cnt Writing (tasks s) = 1.
Proof.
  intros (_ & Ha & _) Ht. pose proof (cnt_pos _ _ _ Ht). unfold active_ok in Ha. lia.
Qed.

(** What a release or a downgrade by [t] does: [t] becomes [h], then the
    waiters [l1] are let in. *)
Definition lets_in l1 t h s s' : Prop :=
  inv s' ∧ woken l1 (Sys (sem s) (<[t := h]> (tasks s))) s'.

Lemma up_read_spec s t : inv s -> tasks s !! t = Some Reading ->
  ∃ l1, lets_in l1 t Idle s (up_read t s) ∧
    (activity (sem s) = 1 -> ∀ w, head (wait_list (sem s)) = Some w -> w ∈ l1) ∧
    (1 < activity (sem s) -> activity (sem (up_read t s)) = activity (sem s) - 1).
Proof.
  intros Hi Ht. destruct (reader_in s t Hi Ht) as (Hpos & Ha & Hw0).
  destruct Hi as (Hq & _ & (Hf0 & Hf1) & Hz). counts Ht Idle.
  pose proof (cnt_le Reading (tasks s)) as Hle.
  assert (queue_ok (wait_list (sem s)) (<[t := Idle]> (tasks s))) as Hq' by by eapply queue_ok_insert.
  unfold up_read, lets_in. rewrite s32_id by lia.
  set (s1 := Sys (Rwsem (activity (sem s) - 1) (wait_list (sem s))) (<[t := Idle]> (tasks s))).
  assert (no_writer s1) as Hn by (split_and!; simpl; [done|lia..]).
  destruct (_ && _) eqn:Hb.
  - apply andb_true_iff in Hb as [Hb He]. simpl in Hb. unfold list_empty in He. simpl in He.
    destruct (wait_list (sem s)) as [|w l] eqn:Hl; [done|].
    destruct (wake_one_writer_spec s1 w l) as [Hi' Hwk]; [done|simpl; lia|done|by apply Hf1|].
    exists [w]. split_and!; [done| |set_solver|lia]. unfold woken in *. simpl in *. by rewrite Hl.
  - exists []. unfold inv, active_ok, front_ok, woken; simpl. split_and!; try done; try lia; try set_solver.
    + intros Hx. simpl in Hb. rewrite Hx in Hb. simpl in Hb. apply negb_false_iff in Hb.
      by apply (list_empty_spec s1) in Hb.
    + intros Hx. simpl in Hb. rewrite Hx in Hb. simpl in Hb. apply negb_false_iff, (list_empty_spec s1) in Hb.
      simpl in Hb. rewrite Hb. done.
Qed.

Lemma up_write_spec s t : inv s -> tasks s !! t = Some Writing ->
  ∃ l1, lets_in l1 t Idle s (up_write t s) ∧ (∀ w, head (wait_list (sem s)) = Some w -> w ∈ l1).
Proof.
  intros Hi Ht. destruct (writer_in s t Hi Ht) as (Hm1 & Hr0 & Hw1).
  destruct Hi as (Hq & _ & (Hf0 & Hf1) & Hz). counts Ht Idle.
  assert (queue_ok (wait_list (sem s)) (<[t := Idle]> (tasks s))) as Hq' by by eapply queue_ok_insert.
  unfold up_write, lets_in.
  set (s1 := Sys (Rwsem 0 (wait_list (sem s))) (<[t := Idle]> (tasks s))).
  assert (no_writer s1) as Hn by (split_and!; simpl; [done|lia..]).
  destruct (list_empty s1) eqn:He; cbn [negb].
  - apply list_empty_spec in He. simpl in He. exists []. unfold inv, active_ok, front_ok, woken; simpl.
    split_and!; try done; try lia; [set_solver|by rewrite He].
  - unfold list_empty in He. simpl in He. destruct (wait_list (sem s)) as [|w l] eqn:Hl; [done|].
    destruct (do_wake_spec s1 true w l) as (l1 & Hi' & Hwk & Hin); [done|simpl; congruence|done|].
    exists l1. split_and!; [done| |by intros ? [= <-]; destruct Hin as [|[? _]]]. unfold woken in *. simpl in *. by rewrite Hl.
Qed.

Lemma downgrade_write_spec s t : inv s -> tasks s !! t = Some Writing ->
  ∃ l1, lets_in l1 t Reading s (downgrade_write t s) ∧
    (∀ w, head (wait_list (sem s)) = Some w -> w ∈ l1 ∨ activity (sem (downgrade_write t s)) = 1).
Proof.
  intros Hi Ht. destruct (writer_in s t Hi Ht) as (Hm1 & Hr0 & Hw1).
  destruct Hi as (Hq & _ & (Hf0 & Hf1) & Hz). counts Ht Reading.
  assert (queue_ok (wait_list (sem s)) (<[t := Reading]> (tasks s))) as Hq' by by eapply queue_ok_insert.
  unfold downgrade_write, lets_in.
  set (s1 := Sys (Rwsem 1 (wait_list (sem s))) (<[t := Reading]> (tasks s))).
  assert (no_writer s1) as Hn by (split_and!; simpl; [done|lia..]).
  destruct (list_empty s1) eqn:He; cbn [negb].
  - apply list_empty_spec in He. simpl in He. exists []. unfold inv, active_ok, front_ok, woken; simpl.
    rewrite He. split_and!; try done; try lia; [by rewrite He in Hq'|set_solver].
  - unfold list_empty in He. simpl in He. destruct (wait_list (sem s)) as [|w l] eqn:Hl; [done|].
    destruct (do_wake_spec s1 false w l) as (l1 & Hi' & Hwk & Hin); [done|simpl; congruence|done|].
    exists l1. split_and!; [done|unfold woken in *; simpl in *; by rewrite Hl|].
    intros ? [= <-]. destruct Hin as [|[_ ->]]; [by left|by right].
Qed.
End Preserved.

(** * Reachable semaphores *)

Section Reachable.
Implicit Types (s : sys) (t : task).

Lemma step_inv o s s' : inv s -> step o s s' -> inv s'.
Proof.
  intros Hi Hs. inversion Hs; subst.
  - by apply down_read_inv.
  - by apply down_read_trylock_inv.
  - by apply down_write_inv.
  - by apply down_write_trylock_inv.
  - by edestruct up_read_spec as (? & [? _] & _).
  - by edestruct up_write_spec as (? & [? _] & _).
  - by edestruct downgrade_write_spec as (? & [? _] & _).
Qed.

Lemma reachable_inv (T : gset task) s : Z.of_nat (size T) < 2 ^ 31 -> reachable T s -> inv s.
Proof.
  intros HT. pose proof (init_inv T HT) as Hi. unfold reachable. generalize dependent (init_rwsem T).
  intros s0 Hi Hr. induction Hr as [|s1 s2 s3 [o Ho] _ IH]; [done|]. by apply IH; eapply step_inv.
Qed.

Lemma holders_size h s : Z.of_nat (size (holders h s)) = cnt h (tasks s).
Proof. unfold holders, cnt. by rewrite size_dom. Qed.

Lemma elem_of_holders h s t : t ∈ holders h s <-> tasks s !! t = Some h.
Proof.
  unfold holders. rewrite elem_of_dom. split.
  - intros [h' [? ?]%map_lookup_filter_Some]. simpl in *. congruence.
  - intros Ht. exists h. by apply map_lookup_filter_Some.
Qed.

Lemma holders_none h s : cnt h (tasks s) = 0 -> holders h s = ∅.
Proof. intros Hc. apply leibniz_equiv, size_empty_inv. pose proof (holders_size h s). lia. Qed.

(** C22: mutual exclusion.  In every state that any number of tasks below
    2^31 can reach by locking, try-locking, releasing and downgrading in any
    order, either there is no writer and [activity] is the exact number of
    readers (so the [__s32] never overflows), or there is exactly one writer,
    no reader, and [activity] is -1. *)
Theorem rwsem_exclusion (T : gset task) s :
  Z.of_nat (size T) < 2 ^ 31 -> reachable T s ->
  (holders Writing s = ∅ ∧ activity (sem s) = Z.of_nat (size (holders Reading s))) ∨
  (∃ t, holders Writing s = {[t]} ∧ holders Reading s = ∅ ∧ activity (sem s) = -1).
Proof.
  intros HT Hr. destruct (reachable_inv T s HT Hr) as (_ & [(Ha & HW & HR)|(Ha & HW)] & _).
  - right. rewrite <- holders_size in HW. destruct (size_1_elem_of (holders Writing s)) as [t Ht]; [lia|].
    exists t. split_and!; [by apply leibniz_equiv|by apply holders_none|done].
  - left. rewrite holders_size. split; [by apply holders_none|done].
Qed.

(** An operation either lets a newcomer act on an empty-handed queue or queues
    it, or lets in a prefix of the queue. *)
Definition serves (l1 new : list rwsem_waiter) s s' : Prop :=
  ∃ l2, wait_list (sem s) = l1 ++ l2 ∧ wait_list (sem s') = l2 ++ new ∧
  (∀ w, w ∈ l1 -> tasks s' !! w_task w = Some (granted_as w)) ∧
  (∀ t, tasks s !! t <> Some Reading -> tasks s !! t <> Some Writing ->
     tasks s' !! t = Some Reading ∨ tasks s' !! t = Some Writing ->
     t ∈ w_task <$> l1 ∨ wait_list (sem s) = []).

Lemma lets_in_serves l1 t h s s' : inv s -> lets_in l1 t h s s' ->
  (tasks s !! t = Some Reading ∨ tasks s !! t = Some Writing) -> serves l1 [] s s'.
Proof.
  intros Hi [_ (Hl & Hin & Hout)] Ht. simpl in Hl, Hout. exists (wait_list (sem s')). rewrite app_nil_r.
  split_and!; try done. intros t' Hr Hw Hg. left. destruct (decide (t' ∈ w_task <$> l1)) as [|Hn]; [done|].
  exfalso. rewrite (Hout t' Hn) in Hg. destruct (decide (t' = t)) as [->|Hne]; [naive_solver|].
  rewrite lookup_insert_ne in Hg by done. naive_solver.
Qed.

(** A newcomer is queued, or let in when nobody waits. *)
Lemma queued_serves s t h w a : tasks s !! t = Some Idle -> h <> Reading -> h <> Writing ->
  serves [] [w] s (Sys (Rwsem a (wait_list (sem s) ++ [w])) (<[t := h]> (tasks s))).
Proof.
  intros Ht Hr Hw. exists (wait_list (sem s)). simpl. split_and!; try done; [set_solver|].
  intros t' Hr' Hw' Hg. destruct (decide (t = t')) as [<-|Hne].
  - rewrite lookup_insert, decide_True in Hg by done. naive_solver.
  - rewrite lookup_insert_ne in Hg by done. naive_solver.
Qed.

Lemma taken_serves s t h a (b : bool) : b && list_empty s = true ->
  serves [] [] s (Sys (Rwsem a (wait_list (sem s))) (<[t := h]> (tasks s))).
Proof.
  intros [_ He%list_empty_spec]%andb_true_iff. exists (wait_list (sem s)). rewrite app_nil_r. simpl.
  split_and!; try done; [set_solver|]. by right.
Qed.

Lemma refl_serves s : serves [] [] s s.
Proof. exists (wait_list (sem s)). rewrite app_nil_r. split_and!; set_solver. Qed.

(** C23: first come, first served.  Whatever operation a task does on a
    reachable semaphore, it lets in a prefix of the queue (each waiter with
    the lock it asked for), appends at most one newcomer at the back, keeps
    everybody else in order, and gives the lock to a task that was not waiting
    only when the queue is empty: readers never overtake a waiting writer. *)
Theorem rwsem_fifo (T : gset task) o s s' :
  Z.of_nat (size T) < 2 ^ 31 -> reachable T s -> step o s s' ->
  ∃ l1 new, serves l1 new s s' ∧ (length new <= 1)%nat.
Proof.
  intros HT Hr Hs. pose proof (reachable_inv T s HT Hr) as Hi. inversion Hs; subst.
  - unfold down_read. destruct (_ && _) eqn:Hb; eexists [], _; (split; [by eapply taken_serves || by apply queued_serves|simpl; lia]).
  - exists [], []. split; [|simpl; lia]. unfold down_read_trylock. destruct (_ && _) eqn:Hb;
      [by eapply taken_serves|apply refl_serves].
  - unfold down_write, down_write_nested. destruct (_ && _) eqn:Hb; eexists [], _; (split; [by eapply taken_serves || by apply queued_serves|simpl; lia]).
  - exists [], []. split; [|simpl; lia]. unfold down_write_trylock. destruct (_ && _) eqn:Hb;
      [by eapply taken_serves|apply refl_serves].
  - destruct (up_read_spec s t) as (l1 & Hl & _); [done..|]. exists l1, []. split; [|simpl; lia].
    eapply lets_in_serves; eauto.
  - destruct (up_write_spec s t) as (l1 & Hl & _); [done..|]. exists l1, []. split; [|simpl; lia].
    eapply lets_in_serves; eauto.
  - destruct (downgrade_write_spec s t) as (l1 & Hl & _); [done..|]. exists l1, []. split; [|simpl; lia].
    eapply lets_in_serves; eauto.
Qed.

Lemma not_both l1 t h s s' w : lets_in l1 t h s s' -> w ∈ l1 -> head (wait_list (sem s')) = Some w -> False.
Proof.
  intros [(Hq & _) (_ & Hin & _)] Hw Hh. specialize (Hin w Hw).
  destruct (wait_list (sem s')) as [|w' l]; [done|]. injection Hh as ->.
  destruct (head_waiting _ _ _ Hq) as [Hs _]. rewrite Hs in Hin. unfold waiting_as, granted_as in Hin.
  by destruct (tst _ _).
Qed.

Lemma waiting_not_free s w : inv s -> head (wait_list (sem s)) = Some w -> 1 <= Z.abs (activity (sem s)) ∧ list_empty s = false.
Proof.
  intros (_ & _ & [Hf0 _] & _) Hh. unfold list_empty. split; [|by destruct (wait_list (sem s))].
  destruct (decide (activity (sem s) = 0)) as [H0|]; [|lia]. by rewrite Hf0 in Hh.
Qed.

(** While [w] stays first, every release uses up one holder. *)
Lemma step_waits o s s' w : inv s -> step o s s' -> head (wait_list (sem s)) = Some w ->
  head (wait_list (sem s')) = Some w ->
  (if is_release o then 1 else 0) + Z.abs (activity (sem s')) <= Z.abs (activity (sem s)).
Proof.
  intros Hi Hs Hw Hw'. destruct (waiting_not_free s w Hi Hw) as [Hnz Hne]. inversion Hs; subst; simpl.
  - unfold down_read. rewrite Hne, andb_false_r. simpl. lia.
  - unfold down_read_trylock. rewrite Hne, andb_false_r. simpl. lia.
  - unfold down_write, down_write_nested. rewrite Hne, andb_false_r. simpl. lia.
  - unfold down_write_trylock. rewrite Hne, andb_false_r. simpl. lia.
  - destruct (up_read_spec s t) as (l1 & Hl & H1 & Hgt); [done..|].
    destruct (reader_in s t) as (Hpos & _); [done..|].
    destruct (decide (activity (sem s) = 1)) as [Ha|]; [|lia].
    exfalso. eapply not_both; eauto.
  - destruct (up_write_spec s t) as (l1 & Hl & Hin); [done..|]. exfalso. eapply not_both; eauto.
  - destruct (downgrade_write_spec s t) as (l1 & Hl & Hin); [done..|].
    destruct (Hin w Hw) as [Hx|Hx]; [exfalso; eapply not_both; eauto|rewrite Hx; lia].
Qed.

(** C24: no lost wake-up, and a bounded wait.  While a waiter is first in the
    queue of a reachable semaphore, fewer locks are released than were held
    when it became first: it is let in at the latest by the release of the
    last of those holders, whatever other tasks try meanwhile.  In particular
    (no release yet) nobody ever waits for a semaphore that is free. *)
Theorem rwsem_head_served (T : gset task) s s' w n :
  Z.of_nat (size T) < 2 ^ 31 -> reachable T s -> waits w n s s' -> 0 <= n < Z.abs (activity (sem s)).
Proof.
  intros HT Hr. pose proof (reachable_inv T s HT Hr) as Hi. clear Hr. induction 1 as [s Hw|n o s s1 s2 Hw Hs Hr IH].
  - destruct (waiting_not_free s w Hi Hw). lia.
  - specialize (IH (step_inv _ _ _ Hi Hs)). assert (head (wait_list (sem s1)) = Some w) as Hw1 by by destruct Hr.
    pose proof (step_waits _ _ _ _ Hi Hs Hw Hw1). destruct (is_release o); lia.
Qed.
End Reachable.

(** * A concrete run: two readers, then a writer, then a reader *)

Module RwsemDemo.
Definition T : gset task := list_to_set [1; 2; 3; 4]%positive.
Definition s1 : sys := down_read 2 (down_read 1 (init_rwsem T)).
Definition s2 : sys := down_read 4 (down_write 3 s1).
Definition s3 : sys := up_read 1 s2.
Definition s4 : sys := up_read 2 s3.

Lemma path : step DownRead (init_rwsem T) (down_read 1 (init_rwsem T)) ∧
  step DownRead (down_read 1 (init_rwsem T)) s1 ∧ step DownWrite s1 (down_write 3 s1) ∧
  step DownRead (down_write 3 s1) s2 ∧ step UpRead s2 s3 ∧ step UpRead s3 s4.
Proof. split_and!; constructor; vm_compute; reflexivity. Qed.

Lemma reach2 : reachable T s2.
Proof.
  destruct path as (H1 & H2 & H3 & H4 & _). unfold reachable.
  eapply rtc_l; [by eexists|]. eapply rtc_l; [by eexists|]. eapply rtc_l; [by eexists|]. eapply rtc_l; [by eexists|]. apply rtc_refl.
Qed.

(** The reader that came after the writer waits behind it; the second release
    lets the writer in. *)
Lemma rwsem_exclusion_witness :
  (holders Writing s2 = ∅ ∧ activity (sem s2) = Z.of_nat (size (holders Reading s2))) ∨
  (∃ t, holders Writing s2 = {[t]} ∧ holders Reading s2 = ∅ ∧ activity (sem s2) = -1).
Proof. apply (rwsem_exclusion T s2); [by vm_compute|exact reach2]. Defined.

Lemma rwsem_fifo_witness : ∃ l1 new, serves l1 new s2 s3 ∧ (length new <= 1)%nat.
Proof. apply (rwsem_fifo T UpRead s2 s3); [by vm_compute|exact reach2|apply path]. Defined.

Lemma rwsem_head_served_witness : 0 <= 1 < Z.abs (activity (sem s2)).
Proof.
  apply (rwsem_head_served T s2 s3 (Waiter 3 RWSEM_WAITING_FOR_WRITE) 1); [by vm_compute|exact reach2|].
  apply (waits_step _ 0 UpRead s2 s3 s3); [by vm_compute|apply path|]. apply waits_here. by vm_compute.
Defined.

(** The writer gets in with the second release. *)
Lemma writer_in_s4 : activity (sem s4) = -1 ∧ tasks s4 !! 3%positive = Some Writing ∧
  wait_list (sem s4) = [Waiter 4 RWSEM_WAITING_FOR_READ].
Proof. split_and!; vm_compute; reflexivity. Qed.
End RwsemDemo.
