(* ===== verification/Bitops.v ===== *)
(** Bit searching and counting: include/asm-generic/bitops/fls.h, __ffs.h,
    ffz.h, ffs.h (the ARM920T is ARMv4T, which has no [clz], so the generic
    versions are the ones used) and lib/hweight.c. *)

From S2P Require Import Prelude.

(** * Searching a word *)

(** One [if] of fls: when the top [s] bits are clear, shift them out. *)
Definition fls_step (s : Z) (xr : Z * Z) : Z * Z :=
  let '(x, r) := xr in
  if Z.land x (Z.shiftl (Z.ones s) (32 - s)) =? 0 then (u32 (Z.shiftl x s), r - s) else (x, r).

(** [x] is the 32-bit pattern of the [int]. *)
Definition fls (x : Z) : Z :=
  if x =? 0 then 0
  else (fls_step 1 (fls_step 2 (fls_step 4 (fls_step 8 (fls_step 16 (x, 32)))))).2.

(** One [if] of __ffs: when the low [s] bits are clear, shift them out. *)
Definition ffs_step (s : Z) (xr : Z * Z) : Z * Z :=
  let '(x, r) := xr in
  if Z.land x (Z.ones s) =? 0 then (Z.shiftr x s, r + s) else (x, r).

Definition ffs_ (word : Z) : Z :=
  (ffs_step 1 (ffs_step 2 (ffs_step 4 (ffs_step 8 (ffs_step 16 (word, 0)))))).2.

(** [~x] of an [unsigned long]. *)
Definition not32 (x : Z) : Z := u32 (Z.lnot x).

Definition ffz (x : Z) : Z := ffs_ (not32 x).

(** [x] is the signed value of the [int]; [>>] is arithmetic. *)
Definition ffs (x : Z) : Z :=
  if x =? 0 then 0
  else (ffs_step 1 (ffs_step 2 (ffs_step 4 (ffs_step 8 (ffs_step 16 (x, 1)))))).2.

(** * Counting bits: lib/hweight.c *)

Definition hweight32 (w : Z) : Z :=
  let res := u32 (w - Z.land (Z.shiftr w 1) 0x55555555) in
  let res := u32 (Z.land res 0x33333333 + Z.land (Z.shiftr res 2) 0x33333333) in
  let res := Z.land (u32 (res + Z.shiftr res 4)) 0x0F0F0F0F in
  let res := u32 (res + Z.shiftr res 8) in
  Z.land (u32 (res + Z.shiftr res 16)) 0x000000FF.

Definition hweight16 (w : Z) : Z :=
  let res := u32 (w - Z.land (Z.shiftr w 1) 0x5555) in
  let res := u32 (Z.land res 0x3333 + Z.land (Z.shiftr res 2) 0x3333) in
  let res := Z.land (u32 (res + Z.shiftr res 4)) 0x0F0F in
  Z.land (u32 (res + Z.shiftr res 8)) 0x00FF.

Definition hweight8 (w : Z) : Z :=
  let res := u32 (w - Z.land (Z.shiftr w 1) 0x55) in
  let res := u32 (Z.land res 0x33 + Z.land (Z.shiftr res 2) 0x33) in
  Z.land (u32 (res + Z.shiftr res 4)) 0x0F.

(** BITS_PER_LONG is 32. *)
Definition hweight64 (w : Z) : Z := u32 (hweight32 (u32 (Z.shiftr w 32)) + hweight32 (u32 w)).

(** * Reference: the number of set bits below [n] *)

Fixpoint popcount (n : nat) (w : Z) : Z :=
  match n with
  | O => 0
  | S n => popcount n w + Z.b2z (Z.testbit w (Z.of_nat n))
  end.

(** * The searches *)

Lemma land_ones_0 x s : 0 <= s -> (Z.land x (Z.ones s) =? 0) = true <-> (∀ i, 0 <= i < s -> Z.testbit x i = false).
Proof.
  intros Hs. rewrite Z.eqb_eq. split.
  - intros H i Hi. assert (Z.testbit (Z.land x (Z.ones s)) i = false) as Hb by by rewrite H, Z.bits_0.
    rewrite Z.land_spec, Z.testbit_ones_nonneg in Hb by lia. destruct (Z.ltb_spec i s); [|lia].
    by rewrite andb_true_r in Hb.
  - intros H. apply Z.bits_inj'. intros i Hi. rewrite Z.land_spec, Z.testbit_ones_nonneg, Z.bits_0 by lia.
    destruct (Z.ltb_spec i s); [|by rewrite andb_false_r]. by rewrite H.
Qed.

(** The top [s] of 32 bits are clear exactly below [2^(32-s)]. *)
Lemma top_clear x s : in_u 32 x -> 0 <= s <= 32 ->
  (Z.land x (Z.shiftl (Z.ones s) (32 - s)) =? 0) = (x <? 2 ^ (32 - s)).
Proof.
  intros Hx Hs. apply eq_true_iff_eq. rewrite Z.eqb_eq, Z.ltb_lt. split.
  - intros H. apply (in_u_bits (32 - s) x); [lia|apply Hx|]. intros i Hi.
    destruct (decide (i < 32)); [|apply (testbit_high 32); [done|lia]].
    assert (Z.testbit (Z.land x (Z.shiftl (Z.ones s) (32 - s))) i = false) as Hb by by rewrite H, Z.bits_0.
    rewrite Z.land_spec, field_testbit in Hb by lia.
    revert Hb. case_cmp; try lia. by rewrite andb_true_r.
  - intros Hlt. apply Z.bits_inj'. intros i Hi. rewrite Z.land_spec, field_testbit, Z.bits_0 by lia.
    destruct (decide (i < 32 - s)); [case_cmp; try lia; by rewrite andb_false_r|].
    rewrite (testbit_high (32 - s) x); [done|split; [apply Hx|done]|lia].
Qed.

(** What the steps of fls keep: the original word is [x] shifted right by
    [32 - r] and [x] fills at least [32 - s] bits. *)
Definition fls_inv (x0 s : Z) (xr : Z * Z) : Prop :=
  in_u 32 xr.1 ∧ xr.2 <= 32 ∧ xr.1 = x0 * 2 ^ (32 - xr.2) ∧ 2 ^ (32 - s) <= xr.1.

Lemma fls_step_inv x0 s xr : 1 <= s <= 16 ->
  fls_inv x0 (2 * s) xr -> fls_inv x0 s (fls_step s xr).
Proof.
  destruct xr as [x r]. intros Hs (Hx & Hr2 & Hx0 & Hge). unfold fls_step. cbn [fst snd] in *.
  rewrite top_clear by (done || lia). destruct (Z.ltb_spec x (2 ^ (32 - s))) as [Hlt|].
  - unfold fls_inv. cbn [fst snd]. rewrite Z.shiftl_mul_pow2 by lia.
    assert (2 ^ 32 = 2 ^ (32 - s) * 2 ^ s) as Hp by (rewrite <- Z.pow_add_r by lia; f_equal; lia).
    assert (2 ^ (32 - s) = 2 ^ (32 - 2 * s) * 2 ^ s) as Hq by (rewrite <- Z.pow_add_r by lia; f_equal; lia).
    assert (0 < 2 ^ s) by lia. destruct Hx as [Hx Hx'].
    rewrite (wrap_id 32) by (split; nia). split_and!; [split; nia|lia| |nia].
    rewrite Hx0, <- Z.mul_assoc, <- Z.pow_add_r by lia. do 2 f_equal. lia.
  - by split_and!.
Qed.

Lemma fls_inv_done x0 x r : 0 < x0 -> fls_inv x0 1 (x, r) -> r = Z.log2 x0 + 1.
Proof.
  intros H0 (Hx & Hr & Hx0 & Hge). cbn [fst snd] in *.
  assert (Z.log2 x = 31) as Hl by (apply Z.log2_unique; [lia|]; unfold in_u in Hx; split; [exact Hge|apply Hx]).
  rewrite Hx0, Z.log2_mul_pow2 in Hl by lia. lia.
Qed.

Lemma fls_log2 x : 0 < x < 2 ^ 32 -> fls x = Z.log2 x + 1.
Proof.
  intros Hx. unfold fls. destruct (Z.eqb_spec x 0); [lia|].
  assert (fls_inv x 32 (x, 32)) as H by (unfold fls_inv, in_u; cbn [fst snd]; lia).
  apply (fls_step_inv _ 16) in H; [|lia]. apply (fls_step_inv _ 8) in H; [|lia].
  apply (fls_step_inv _ 4) in H; [|lia]. apply (fls_step_inv _ 2) in H; [|lia].
  apply (fls_step_inv _ 1) in H; [|lia].
  destruct (fls_step 1 _) as [y r]. cbn [snd]. apply (fls_inv_done x y r); [lia|done].
Qed.

Lemma nonzero_bit w x : in_u w x -> x <> 0 -> ∃ i, 0 <= i < w ∧ Z.testbit x i = true.
Proof.
  intros [Hx Hlt] Hn. exists (Z.log2 x). pose proof (Z.log2_nonneg x). split.
  - split; [done|]. apply Z.log2_lt_pow2; [lia|done].
  - apply Z.bit_log2. lia.
Qed.

(** What the steps of __ffs keep: the original word is [x] shifted left by
    what was counted, and a bit of [x] below [s] is set. *)
Definition ffs_inv (x0 r0 s : Z) (xr : Z * Z) : Prop :=
  r0 <= xr.2 ∧ xr.2 + s <= r0 + 32 ∧ x0 = Z.shiftl xr.1 (xr.2 - r0) ∧ ∃ i, 0 <= i < s ∧ Z.testbit xr.1 i = true.

Lemma ffs_step_inv x0 r0 s xr : 1 <= s -> ffs_inv x0 r0 (2 * s) xr -> ffs_inv x0 r0 s (ffs_step s xr).
Proof.
  destruct xr as [x r]. intros Hs (Hr & Hr2 & Hx & i & Hi & Hb). unfold ffs_step. cbn [fst snd] in *.
  destruct (Z.land x (Z.ones s) =? 0) eqn:Hz.
  - pose proof Hz as Hlow. rewrite land_ones_0 in Hlow by lia. apply Z.eqb_eq in Hz. split_and!; cbn [fst snd]; [lia|lia| |].
    + rewrite Hx. replace (r + s - r0) with (s + (r - r0)) by lia. rewrite <- Z.shiftl_shiftl by lia. f_equal.
      apply Z.bits_inj'. intros j Hj. destruct (decide (j < s)).
      * rewrite Z.shiftl_spec_low, Hlow by lia. done.
      * rewrite Z.shiftl_spec, Z.shiftr_spec by lia. f_equal. lia.
    + exists (i - s). destruct (decide (i < s)) as [|]; [by rewrite Hlow in Hb by lia|]. split; [lia|].
      rewrite Z.shiftr_spec by lia. rewrite <- Hb. f_equal. lia.
  - split_and!; cbn [fst snd]; [lia|lia|done|].
    apply Z.eqb_neq in Hz. destruct (nonzero_bit s (Z.land x (Z.ones s))) as (j & Hj & Hbj); [|done|].
    { rewrite Z.land_ones by lia. apply Z.mod_pos_bound. lia. }
    exists j. split; [done|]. rewrite Z.land_spec in Hbj. by apply andb_true_iff in Hbj as [? _].
Qed.

(** The lowest set bit of [x]. *)
Definition lowest_bit (x n : Z) : Prop := Z.testbit x n = true ∧ ∀ i, 0 <= i < n -> Z.testbit x i = false.

Lemma ffs_inv_done x0 r0 x r : ffs_inv x0 r0 1 (x, r) -> r0 <= r < r0 + 32 ∧ lowest_bit x0 (r - r0).
Proof.
  intros (Hr & Hr2 & -> & i & Hi & Hb). cbn [fst snd] in *. assert (i = 0) as -> by lia. split; [lia|]. split.
  - rewrite Z.shiftl_spec by lia. by rewrite Z.sub_diag.
  - intros j Hj. apply Z.shiftl_spec_low. lia.
Qed.

Lemma ffs_steps x r0 : (∃ i, 0 <= i < 32 ∧ Z.testbit x i = true) ->
  let r := (ffs_step 1 (ffs_step 2 (ffs_step 4 (ffs_step 8 (ffs_step 16 (x, r0)))))).2 in
  r0 <= r < r0 + 32 ∧ lowest_bit x (r - r0).
Proof.
  intros Hb. assert (ffs_inv x r0 32 (x, r0)) as H.
  { split_and!; cbn [fst snd]; [lia|lia|by rewrite Z.sub_diag, Z.shiftl_0_r|done]. }
  apply (ffs_step_inv _ _ 16) in H; [|lia]. apply (ffs_step_inv _ _ 8) in H; [|lia].
  apply (ffs_step_inv _ _ 4) in H; [|lia]. apply (ffs_step_inv _ _ 2) in H; [|lia].
  apply (ffs_step_inv _ _ 1) in H; [|lia].
  destruct (ffs_step 1 _) as [y r]. by apply (ffs_inv_done x r0 y r).
Qed.

Lemma signed_nonzero_bit x : - 2 ^ 31 <= x < 2 ^ 31 -> x <> 0 -> ∃ i, 0 <= i < 32 ∧ Z.testbit x i = true.
Proof.
  intros Hx Hn. destruct (nonzero_bit 32 (wrap 32 x)) as (i & Hi & Hb).
  - by apply wrap_range.
  - intros H0. apply Hn. rewrite <- (sx_id 32 x) by (done || lia). rewrite <- sx_wrap, H0 by lia. done.
  - exists i. split; [done|]. rewrite wrap_testbit in Hb by lia. by apply andb_true_iff in Hb as [_ ?].
Qed.

Lemma ffs__lowest x : in_u 32 x -> x <> 0 -> 0 <= ffs_ x < 32 ∧ lowest_bit x (ffs_ x).
Proof.
  intros Hx Hn. destruct (ffs_steps x 0 (nonzero_bit 32 x Hx Hn)) as [Hr Hl]. rewrite Z.sub_0_r in Hl. by split.
Qed.

(** The bit searches of the generic bitops are what their names promise,
    on every argument: [fls] is the position (from 1) of the highest set bit
    and 0 for 0, [__ffs] of a non-zero word is the position of its lowest set
    bit, [ffz] of a word that is not all ones that of its lowest clear bit,
    and [ffs] of any [int] is 0 for 0 and otherwise one more than the position
    of its lowest set bit. *)
Theorem bit_search_spec :
  (∀ x, in_u 32 x -> fls x = if x =? 0 then 0 else Z.log2 x + 1) ∧
  (∀ x, in_u 32 x -> x <> 0 -> 0 <= ffs_ x < 32 ∧ lowest_bit x (ffs_ x)) ∧
  (∀ x, in_u 32 x -> x <> Z.ones 32 -> 0 <= ffz x < 32 ∧ lowest_bit (Z.lnot x) (ffz x)) ∧
  (∀ x, - 2 ^ 31 <= x < 2 ^ 31 -> if x =? 0 then ffs x = 0 else 1 <= ffs x <= 32 ∧ lowest_bit x (ffs x - 1)).
Proof.
  split_and!.
  - intros x Hx. destruct (Z.eqb_spec x 0) as [->|]; [done|]. apply fls_log2. destruct Hx; lia.
  - apply ffs__lowest.
  - intros x Hx Hn. destruct (ffs__lowest (not32 x)) as [Hr [Hb Hl]].
    + apply u32_range.
    + unfold not32, u32. intros H0. apply Hn. apply Z.bits_inj'. intros i Hi. rewrite Z.testbit_ones_nonneg by lia.
      assert (Z.testbit (wrap 32 (Z.lnot x)) i = false) as Hz by by rewrite H0, Z.bits_0.
      rewrite wrap_testbit, Z.lnot_spec in Hz by lia. destruct (Z.ltb_spec i 32); [by destruct (Z.testbit x i)|].
      by rewrite (testbit_high 32 x).
    + unfold ffz. split; [done|]. unfold lowest_bit, not32, u32 in *.
      rewrite wrap_testbit in Hb by lia. apply andb_true_iff in Hb as [_ Hb]. split; [done|].
      intros i Hi. specialize (Hl i Hi). rewrite wrap_testbit in Hl by lia.
      destruct (Z.ltb_spec i 32); [done|lia].
  - intros x Hx. destruct (Z.eqb_spec x 0) as [->|Hn]; [done|]. unfold ffs. destruct (Z.eqb_spec x 0); [done|].
    destruct (ffs_steps x 1 (signed_nonzero_bit x Hx Hn)) as [Hr Hl]. split; [lia|done].
Qed.

(** * Counting *)

(** A word of two parts: masks and shifts act on each part. *)
Lemma land_split k hi lo mh ml : 0 <= k -> in_u k lo -> in_u k ml ->
  Z.land (hi * 2 ^ k + lo) (mh * 2 ^ k + ml) = Z.land hi mh * 2 ^ k + Z.land lo ml.
Proof.
  intros Hk Hl Hm. rewrite <- !Z.shiftl_mul_pow2, !shiftl_add_lor by (done || by apply land_in_u; [| |apply Hm]).
  apply Z.bits_inj'. intros i Hi. rewrite !Z.land_spec, !Z.lor_spec, Z.land_spec.
  destruct (decide (i < k)).
  - by rewrite !Z.shiftl_spec_low by lia.
  - rewrite !Z.shiftl_spec, Z.land_spec by lia. rewrite (testbit_high k lo), (testbit_high k ml) by (done || lia).
    by rewrite !orb_false_r.
Qed.

Lemma shr_split k s hi lo : 0 <= s <= k -> in_u k lo ->
  Z.shiftr (hi * 2 ^ k + lo) s = Z.shiftr hi s * 2 ^ k + ((hi mod 2 ^ s) * 2 ^ (k - s) + Z.shiftr lo s).
Proof.
  intros Hs Hl. rewrite !Z.shiftr_div_pow2 by lia.
  assert (2 ^ k = 2 ^ (k - s) * 2 ^ s) as Hp by (rewrite <- Z.pow_add_r by lia; f_equal; lia).
  rewrite Hp at 1. rewrite Z.mul_assoc, Z.add_comm, Z.div_add by lia.
  rewrite (Z.div_mod hi (2 ^ s)) at 1 by lia. rewrite Hp. lia.
Qed.

Lemma shr_in_u k s lo : 0 <= s <= k -> in_u k lo -> in_u (k - s) (Z.shiftr lo s).
Proof.
  intros Hs [Hl Hlt]. rewrite Z.shiftr_div_pow2 by lia. split; [apply Z.div_pos; lia|].
  apply Z.div_lt_upper_bound; [lia|]. rewrite <- Z.pow_add_r by lia. by replace (s + (k - s)) with k by lia.
Qed.

Lemma shr_land_split k s hi lo mh ml : 0 <= s <= k -> in_u k lo -> in_u (k - s) ml ->
  Z.land (Z.shiftr (hi * 2 ^ k + lo) s) (mh * 2 ^ k + ml) =
  Z.land (Z.shiftr hi s) mh * 2 ^ k + Z.land (Z.shiftr lo s) ml.
Proof.
  intros Hs Hl Hm. pose proof (shr_in_u k s lo Hs Hl) as Hls.
  assert (2 ^ k = 2 ^ s * 2 ^ (k - s)) as Hp by (rewrite <- Z.pow_add_r by lia; f_equal; lia).
  pose proof (Z.mod_pos_bound hi (2 ^ s)). rewrite shr_split, land_split; try done; try lia.
  - f_equal. pose proof (land_split (k - s) (hi mod 2 ^ s) (Z.shiftr lo s) 0 ml) as Hb.
    rewrite Z.mul_0_l, Z.land_0_r in Hb. rewrite Z.add_0_l in Hb. rewrite Hb; [lia|lia|done|done].
  - unfold in_u in *. nia.
  - unfold in_u in *. nia.
Qed.

(** The first three lines of every hweight, on one part. *)
Definition st1 (m w : Z) : Z := w - Z.land (Z.shiftr w 1) m.
Definition st2 (m w : Z) : Z := Z.land w m + Z.land (Z.shiftr w 2) m.
Definition st4 (m w : Z) : Z := Z.land (w + Z.shiftr w 4) m.

Definition bytes3 (w : Z) : Z := st4 0x0F (st2 0x33 (st1 0x55 w)).

Lemma all_bytes (P : Z -> Prop) `{∀ b, Decision (P b)} :
  forallb (λ n, bool_decide (P (Z.of_nat n))) (seq 0 256) = true -> ∀ b, in_u 8 b -> P b.
Proof.
  intros Hf b [Hb1 Hb2]. rewrite forallb_forall in Hf. specialize (Hf (Z.to_nat b)).
  rewrite Z2Nat.id in Hf by done. eapply bool_decide_eq_true_1. apply Hf, in_seq. change (2 ^ 8) with 256 in Hb2. lia.
Qed.

(** On one byte: by computation. *)
Lemma byte_facts b : in_u 8 b ->
  in_u 8 (st1 0x55 b) ∧ 0 <= st2 0x33 (st1 0x55 b) <= 0x44 ∧ st2 0x33 (st1 0x55 b) mod 16 <= 4 ∧ bytes3 b = popcount 8 b ∧ 0 <= popcount 8 b <= 8.
Proof.
  revert b. refine (all_bytes (λ b, in_u 8 (st1 0x55 b) ∧ 0 <= st2 0x33 (st1 0x55 b) <= 0x44 ∧ st2 0x33 (st1 0x55 b) mod 16 <= 4 ∧
    bytes3 b = popcount 8 b ∧ 0 <= popcount 8 b <= 8) _). vm_compute. reflexivity.
Qed.

(** The three stages on a word whose lower part is a byte. *)
Lemma st1_split hi lo mh : in_u 8 lo -> st1 (mh * 2 ^ 8 + 0x55) (hi * 2 ^ 8 + lo) = st1 mh hi * 2 ^ 8 + st1 0x55 lo.
Proof. intros Hl. unfold st1. rewrite shr_land_split by (done || lia). lia. Qed.

Lemma st2_split hi lo mh : in_u 8 lo -> st2 (mh * 2 ^ 8 + 0x33) (hi * 2 ^ 8 + lo) = st2 mh hi * 2 ^ 8 + st2 0x33 lo.
Proof. intros Hl. unfold st2. rewrite shr_land_split, land_split by (done || lia). lia. Qed.

Lemma st4_split hi lo mh : 0 <= lo <= 0x44 -> hi mod 16 <= 4 ->
  st4 (mh * 2 ^ 8 + 0x0F) (hi * 2 ^ 8 + lo) = st4 mh hi * 2 ^ 8 + st4 0x0F lo.
Proof.
  intros Hl Hh. unfold st4. rewrite (shr_split 8 4) by (unfold in_u; lia). change (2 ^ 4) with 16. change (2 ^ (8 - 4)) with 16.
  pose proof (Z.mod_pos_bound hi 16). assert (0 <= Z.shiftr lo 4 <= 4) as Hs by (rewrite Z.shiftr_div_pow2 by lia; change (2 ^ 4) with 16; Z.to_euclidean_division_equations; lia).
  replace (hi * 2 ^ 8 + lo + (Z.shiftr hi 4 * 2 ^ 8 + (hi mod 16 * 16 + Z.shiftr lo 4)))
    with ((hi + Z.shiftr hi 4) * 2 ^ 8 + (lo + Z.shiftr lo 4 + hi mod 16 * 16)) by lia.
  rewrite land_split; [|lia|unfold in_u; lia|done]. f_equal. change 0x0F with (Z.ones 4).
  rewrite !Z.land_ones by lia. change (2 ^ 4) with 16. by rewrite Z.mod_add by lia.
Qed.

(** The masks of [n] bytes. *)
Fixpoint bmask (c : Z) (n : nat) : Z := match n with O => 0 | S n => bmask c n * 2 ^ 8 + c end.

Definition bstages (n : nat) (w : Z) : Z := st4 (bmask 0x0F n) (st2 (bmask 0x33 n) (st1 (bmask 0x55 n) w)).

(** The bytes' counts, as bytes. *)
Fixpoint bcounts (n : nat) (w : Z) : Z :=
  match n with O => 0 | S n => bcounts n (Z.shiftr w 8) * 2 ^ 8 + popcount 8 (w mod 2 ^ 8) end.

Lemma stages_counts n w : in_u (8 * Z.of_nat n) w ->
  bstages n w = bcounts n w ∧ st2 (bmask 0x33 n) (st1 (bmask 0x55 n) w) mod 16 <= 4 ∧
  0 <= st1 (bmask 0x55 n) w < 2 ^ (8 * Z.of_nat n) ∧
  0 <= 2 * st2 (bmask 0x33 n) (st1 (bmask 0x55 n) w) < 2 ^ (8 * Z.of_nat n).
Proof.
  revert w. induction n as [|n IH]; intros w Hw.
  { unfold in_u in Hw. assert (w = 0) as -> by lia. by vm_compute. }
  assert (in_u 8 (w mod 2 ^ 8)) as Hlo by (by apply Z.mod_pos_bound).
  assert (in_u (8 * Z.of_nat n) (Z.shiftr w 8)) as Hhi
    by (replace (8 * Z.of_nat n) with (8 * Z.of_nat (S n) - 8) by lia; apply shr_in_u; [lia|done]).
  assert (2 ^ (8 * Z.of_nat (S n)) = 2 ^ (8 * Z.of_nat n) * 2 ^ 8) as Hp by (rewrite <- Z.pow_add_r by lia; f_equal; lia).
  destruct (IH _ Hhi) as (Hc & Hm & H1 & H2). destruct (byte_facts _ Hlo) as (Hb1 & Hb2 & Hx & Hb3 & Hb4).
  unfold bstages in *. cbn [bmask bcounts]. rewrite <- Hc.
  assert (w = Z.shiftr w 8 * 2 ^ 8 + w mod 2 ^ 8) as Hw'
    by (rewrite Z.shiftr_div_pow2 by lia; pose proof (Z.div_mod w (2 ^ 8)); lia).
  set (hi := Z.shiftr w 8) in *. set (lo := w mod 2 ^ 8) in *. rewrite Hw'. clear Hw'.
  rewrite st1_split by done. rewrite st2_split by done. rewrite st4_split by lia.
  rewrite Hp. unfold in_u in Hb1. split_and!; try lia.
  - unfold bytes3 in Hb3. by rewrite Hb3.
  - change (2 ^ 8) with 256. 
    rewrite (Z.add_comm (_ * 256)). replace 256 with (16 * 16) by lia. rewrite Z.mul_assoc, Z.mod_add by lia. done.
Qed.

(** The bytes' counts add up. *)
Lemma popcount_split k n w : 0 <= w -> popcount (k + n) w = popcount k (w mod 2 ^ Z.of_nat k) + popcount n (Z.shiftr w (Z.of_nat k)).
Proof.
  intros Hw. induction n as [|n IH].
  - rewrite Nat.add_0_r, Z.add_0_r. assert (∀ j, (j <= k)%nat -> popcount j w = popcount j (w mod 2 ^ Z.of_nat k)) as H; [|by apply H].
    induction j as [|j IHj]; intros Hj; [done|]. cbn [popcount]. rewrite IHj by lia. do 2 f_equal.
    by rewrite Z.mod_pow2_bits_low by lia.
  - rewrite Nat.add_succ_r. cbn [popcount]. rewrite IH, Z.shiftr_spec by lia.
    replace (Z.of_nat n + Z.of_nat k) with (Z.of_nat (k + n)) by lia. lia.
Qed.

Lemma popcount_range n w : 0 <= popcount n w <= Z.of_nat n.
Proof. induction n as [|n IH]; [done|]. cbn [popcount]. destruct (Z.testbit w _); cbn [Z.b2z]; lia. Qed.

Lemma hweight8_pop w : in_u 8 w -> hweight8 w = popcount 8 w.
Proof. revert w. refine (all_bytes (λ b, hweight8 b = popcount 8 b) _). vm_compute. reflexivity. Qed.

(** The three stages do not wrap. *)
Lemma stages_u32 n w : (n <= 4)%nat -> in_u (8 * Z.of_nat n) w ->
  let r1 := u32 (w - Z.land (Z.shiftr w 1) (bmask 0x55 n)) in
  let r2 := u32 (Z.land r1 (bmask 0x33 n) + Z.land (Z.shiftr r1 2) (bmask 0x33 n)) in
  Z.land (u32 (r2 + Z.shiftr r2 4)) (bmask 0x0F n) = bcounts n w.
Proof.
  intros Hn Hw. destruct (stages_counts n w Hw) as (<- & _ & H1 & H2).
  assert (2 ^ (8 * Z.of_nat n) <= 2 ^ 32) as Hp by (apply Z.pow_le_mono_r; lia).
  cbv zeta. fold (st1 (bmask 0x55 n) w). unfold u32. rewrite (wrap_id 32 (st1 _ _)) by (unfold in_u; lia).
  fold (st2 (bmask 0x33 n) (st1 (bmask 0x55 n) w)). rewrite (wrap_id 32 (st2 _ _)) by (unfold in_u; lia).
  unfold bstages, st4. rewrite wrap_id; [done|]. rewrite Z.shiftr_div_pow2 by lia. change (2 ^ 4) with 16.
  unfold in_u. Z.to_euclidean_division_equations. lia.
Qed.

Lemma hweight16_pop w : in_u 16 w -> hweight16 w = popcount 16 w.
Proof.
  intros Hw. unfold hweight16. pose proof (stages_u32 2 w ltac:(lia) Hw) as Hs. cbv zeta in *.
  change (bmask 0x55 2) with 0x5555 in Hs. change (bmask 0x33 2) with 0x3333 in Hs. change (bmask 0x0F 2) with 0x0F0F in Hs.
  rewrite Hs. clear Hs. cbn [bcounts].
  change 16%nat with (8 + 8)%nat. rewrite (popcount_split 8 8 w) by apply Hw. change (Z.of_nat 8) with 8.
  assert (Z.shiftr w 8 mod 2 ^ 8 = Z.shiftr w 8) as -> by (apply Z.mod_small, (shr_in_u 16 8 w); [lia|done]).
  pose proof (popcount_range 8 (w mod 2 ^ 8)). pose proof (popcount_range 8 (Z.shiftr w 8)).
  set (a := popcount 8 (w mod 2 ^ 8)) in *. set (b := popcount 8 (Z.shiftr w 8)) in *.
  clearbody a b. clear -H H0. change (Z.of_nat 8) with 8 in *. change (0x00FF) with (Z.ones 8).
  unfold u32. rewrite Z.mul_0_l, Z.add_0_l, Z.shiftr_div_pow2, Z.land_ones by lia. change (2 ^ 8) with 256.
  rewrite wrap_id by (unfold in_u; Z.to_euclidean_division_equations; lia).
  Z.to_euclidean_division_equations; lia.
Qed.

Lemma hweight32_pop w : in_u 32 w -> hweight32 w = popcount 32 w.
Proof.
  intros Hw. unfold hweight32. pose proof (stages_u32 4 w ltac:(lia) Hw) as Hs. cbv zeta in *.
  change (bmask 0x55 4) with 0x55555555 in Hs. change (bmask 0x33 4) with 0x33333333 in Hs. change (bmask 0x0F 4) with 0x0F0F0F0F in Hs.
  rewrite Hs. clear Hs. cbn [bcounts].
  change 32%nat with (8 + 24)%nat. rewrite (popcount_split 8 24 w) by apply Hw. change (Z.of_nat 8) with 8.
  pose proof (shr_in_u 32 8 w ltac:(lia) Hw) as H1. change 24%nat with (8 + 16)%nat. rewrite (popcount_split 8 16 (Z.shiftr w 8)) by apply H1. change (Z.of_nat 8) with 8.
  pose proof (shr_in_u 24 8 _ ltac:(lia) H1) as H2. change 16%nat with (8 + 8)%nat. rewrite (popcount_split 8 8 (Z.shiftr (Z.shiftr w 8) 8)) by apply H2.
  change (Z.of_nat 8) with 8. pose proof (shr_in_u 16 8 _ ltac:(lia) H2) as H3.
  set (w1 := Z.shiftr w 8) in *. set (w2 := Z.shiftr w1 8) in *. set (w3 := Z.shiftr w2 8) in *.
  assert (w3 mod 2 ^ 8 = w3) as -> by (apply Z.mod_small; exact H3).
  pose proof (popcount_range 8 (w mod 2 ^ 8)). pose proof (popcount_range 8 (w1 mod 2 ^ 8)).
  pose proof (popcount_range 8 (w2 mod 2 ^ 8)). pose proof (popcount_range 8 w3).
  set (a := popcount 8 (w mod 2 ^ 8)) in *. set (b := popcount 8 (w1 mod 2 ^ 8)) in *.
  set (c := popcount 8 (w2 mod 2 ^ 8)) in *. set (d := popcount 8 w3) in *.
  clearbody a b c d. clear -H H0 H4 H5. change (Z.of_nat 8) with 8 in *. change (0x000000FF) with (Z.ones 8).
  unfold u32. rewrite Z.mul_0_l, Z.add_0_l. rewrite !Z.shiftr_div_pow2 by lia. change (2 ^ 8) with 256. change (2 ^ 16) with 65536.
  rewrite (wrap_id 32 (_ + _ / 256)) by (unfold in_u; Z.to_euclidean_division_equations; lia).
  rewrite wrap_id by (unfold in_u; Z.to_euclidean_division_equations; lia).
  rewrite Z.land_ones by lia. change (2 ^ 8) with 256. Z.to_euclidean_division_equations; lia.
Qed.

(** The parallel bit counts of lib/hweight.c give the number of set bits
    of every 8, 16, 32 and 64 bit word, as the bit by bit count does. *)
Theorem hweight_popcount w :
  (in_u 8 w -> hweight8 w = popcount 8 w) ∧ (in_u 16 w -> hweight16 w = popcount 16 w) ∧
  (in_u 32 w -> hweight32 w = popcount 32 w) ∧ (in_u 64 w -> hweight64 w = popcount 64 w).
Proof.
  split_and!; [apply hweight8_pop|apply hweight16_pop|apply hweight32_pop|].
  intros Hw. unfold hweight64, u32. rewrite (wrap_id 32 (Z.shiftr w 32)) by (apply (shr_in_u 64 32); [lia|done]).
  rewrite !hweight32_pop; [|by apply wrap_range|by apply (shr_in_u 64 32)].
  change 64%nat with (32 + 32)%nat. rewrite (popcount_split 32 32 w) by apply Hw. change (Z.of_nat 32) with 32. fold (wrap 32 w). unfold wrap at 1.
  pose proof (popcount_range 32 (Z.shiftr w 32)). pose proof (popcount_range 32 (wrap 32 w)).
  rewrite Z.mod_small by lia. lia.
Qed.
