(* ===== verification/Kfifo.v ===== *)
(** kernel/kfifo.c and include/linux/kfifo.h: the kernel FIFO, a byte ring
    whose size is a power of two and whose [in] and [out] indices run freely
    over 32 bits.

    Three levels: the C functions on the buffer ([kfifo_put_], [kfifo_get_],
    ...), the abstract bounded queue they implement, and the unlocked
    protocol of one reader and one writer in which the two memory copies are
    interleaved byte by byte. *)

From S2P Require Import Prelude Bitops.

(** * The C functions *)

Record kfifo := Kfifo { buffer : list Z; size : Z; fin : Z; fout : Z }.

(** include/linux/log2.h *)
Definition is_power_of_2 (n : Z) : bool := negb (n =? 0) && (Z.land n (u32 (n - 1)) =? 0).
Definition roundup_pow_of_two (n : Z) : Z := u32 (Z.shiftl 1 (fls (u32 (n - 1)))).

(** [memcpy(dst + doff, src + soff, n)]; a copy that leaves either object is a
    fault. *)
Definition memcpy (dst : list Z) (doff : Z) (src : list Z) (soff n : Z) : option (list Z) :=
  if bool_decide (0 <= doff ∧ doff + n <= Z.of_nat (length dst) ∧ 0 <= soff ∧ soff + n <= Z.of_nat (length src) ∧ 0 <= n)
  then Some (take (Z.to_nat doff) dst ++ take (Z.to_nat n) (drop (Z.to_nat soff) src)
             ++ drop (Z.to_nat (doff + n)) dst)
  else None.

(** [BUG_ON] is [None]; [inl] is the error number.  [mem] says whether the
    allocation of the structure succeeds. *)
Definition kfifo_init (buf : list Z) (sz : Z) (mem : bool) : option (Z + kfifo) :=
  if negb (is_power_of_2 sz) then None
  else if negb mem then Some (inl (- ENOMEM))
  else Some (inr (Kfifo buf sz 0 0)).

(** [kmalloc] gives a buffer of the asked size or nothing. *)
Definition kfifo_alloc (kmalloc : Z -> option (list Z)) (mem : bool) (sz : Z) : option (Z + kfifo) :=
  sz ← (if negb (Z.land sz (u32 (sz - 1)) =? 0) then
          if 0x80000000 <? sz then None else Some (roundup_pow_of_two sz)
        else Some sz);
  match kmalloc sz with
  | None => Some (inl (- ENOMEM))
  | Some buf => kfifo_init buf sz mem
  end.

Definition kfifo_reset_ (f : kfifo) : kfifo := Kfifo (buffer f) (size f) 0 0.

Definition kfifo_len_ (f : kfifo) : Z := u32 (fin f - fout f).

(** How many bytes a put of [len] bytes takes, and how many of them go before
    the end of the buffer. *)
Definition put_len (f : kfifo) (len : Z) : Z := Z.min len (u32 (u32 (size f - fin f) + fout f)).
Definition put_first (f : kfifo) (len : Z) : Z := Z.min len (u32 (size f - Z.land (fin f) (u32 (size f - 1)))).

(** __kfifo_put *)
Definition kfifo_put_ (f : kfifo) (buf : list Z) (len : Z) : option (Z * kfifo) :=
  let len := put_len f len in
  let l := put_first f len in
  b1 ← memcpy (buffer f) (Z.land (fin f) (u32 (size f - 1))) buf 0 l;
  b2 ← memcpy b1 0 buf l (u32 (len - l));
  Some (len, Kfifo b2 (size f) (u32 (fin f + len)) (fout f)).

Definition get_len (f : kfifo) (len : Z) : Z := Z.min len (u32 (fin f - fout f)).
Definition get_first (f : kfifo) (len : Z) : Z := Z.min len (u32 (size f - Z.land (fout f) (u32 (size f - 1)))).

(** __kfifo_get: also returns the caller's buffer. *)
Definition kfifo_get_ (f : kfifo) (buf : list Z) (len : Z) : option (Z * list Z * kfifo) :=
  let len := get_len f len in
  let l := get_first f len in
  d1 ← memcpy buf 0 (buffer f) (Z.land (fout f) (u32 (size f - 1))) l;
  d2 ← memcpy d1 l (buffer f) 0 (u32 (len - l));
  Some (len, d2, Kfifo (buffer f) (size f) (fin f) (u32 (fout f + len))).

(** The locked versions. *)
Definition kfifo_put (f : kfifo) (buf : list Z) (len : Z) : option (Z * kfifo) := kfifo_put_ f buf len.

Definition kfifo_get (f : kfifo) (buf : list Z) (len : Z) : option (Z * list Z * kfifo) :=
  '(n, d, f) ← kfifo_get_ f buf len;
  Some (n, d, if fin f =? fout f then kfifo_reset_ f else f).

Definition kfifo_len (f : kfifo) : Z := kfifo_len_ f.
Definition kfifo_reset (f : kfifo) : kfifo := kfifo_reset_ f.

(** * Well-formed rings and their contents *)

Definition wf (f : kfifo) : Prop :=
  (∃ k, 0 <= k <= 31 ∧ size f = 2 ^ k) ∧ Z.of_nat (length (buffer f)) = size f ∧
  in_u 32 (fin f) ∧ in_u 32 (fout f) ∧ u32 (fin f - fout f) <= size f.

(** The byte a free-running index names. *)
Definition cell (f : kfifo) (x : Z) : Z := buffer f !!! Z.to_nat (x mod size f).

(** The queue a ring stands for. *)
Definition contents (f : kfifo) : list Z := (λ j, cell f (fout f + j)) <$> seqZ 0 (kfifo_len_ f).

Section Ring.
Implicit Types (f : kfifo).

Lemma wf_size f : wf f -> 1 <= size f <= 2 ^ 31 ∧ (2 ^ 32) mod size f = 0 ∧
  (∀ x, Z.land x (u32 (size f - 1)) = x mod size f).
Proof.
  intros ((k & Hk & Hs) & _). rewrite Hs.
  assert (2 ^ k <= 2 ^ 31) by (apply Z.pow_le_mono_r; lia). split_and!; [lia|done| |].
  - apply Z.mod_divide; [lia|]. exists (2 ^ (32 - k)). rewrite <- Z.pow_add_r by lia. f_equal. lia.
  - intros x. unfold u32. rewrite wrap_id by (unfold in_u; lia).
    rewrite <- (Z.land_ones x k) by lia. f_equal. rewrite Z.ones_equiv. lia.
Qed.

(** A 32-bit wrap does not disturb a position. *)
Lemma wrap_mod_size f x : wf f -> u32 x mod size f = x mod size f.
Proof.
  intros Hw. destruct (wf_size f Hw) as (Hs & Hd & _). unfold u32, wrap.
  apply Z.mod_mod_divide. apply Z.mod_divide in Hd; [done|lia].
Qed.

Lemma len_contents f : Z.of_nat (length (contents f)) = kfifo_len_ f.
Proof.
  unfold contents. rewrite length_fmap, length_seqZ. apply Z2Nat.id.
  unfold kfifo_len_. apply u32_range.
Qed.

(** [in] is [out] plus the length, as positions. *)
Lemma fin_pos f j : wf f -> (fin f + j) mod size f = (fout f + (kfifo_len_ f + j)) mod size f.
Proof.
  intros Hw. destruct (wf_size f Hw) as (Hs & _). unfold kfifo_len_.
  rewrite (Z.add_comm (u32 _)), Z.add_assoc, <- (Z.add_mod_idemp_r (fout f + j)), wrap_mod_size, Z.add_mod_idemp_r
    by (done || lia).
  f_equal. lia.
Qed.

(** Distinct offsets below the size are distinct positions. *)
Lemma mod_inj n x a b : 0 < n -> 0 <= a < n -> 0 <= b < n -> (x + a) mod n = (x + b) mod n -> a = b.
Proof.
  intros Hn Ha Hb H. assert ((a - b) mod n = 0) as Hz.
  { replace (a - b) with ((x + a) - (x + b)) by lia. rewrite Zminus_mod, H, Z.sub_diag. done. }
  apply Z.mod_divide in Hz as [q Hq]; [|lia]. assert (q = 0) as -> by nia. lia.
Qed.

(** The room left, as the code computes it. *)
Lemma put_len_room f len : wf f -> put_len f len = Z.min len (size f - kfifo_len_ f).
Proof.
  intros Hw. destruct (wf_size f Hw) as (Hs & _). destruct Hw as (_ & _ & _ & _ & Hu).
  unfold put_len, kfifo_len_ in *. f_equal. unfold u32. rewrite wrap_add_l.
  replace (size f - fin f + fout f) with (size f - (fin f - fout f)) by lia.
  rewrite <- wrap_sub_r, wrap_id; [done|]. pose proof (u32_range (fin f - fout f)) as Hr. unfold in_u, u32 in *. lia.
Qed.

(** What the two copies of a put do: byte [j] lands at position [in + j], all
    other positions keep their byte. *)
Lemma first_room f x len : wf f -> in_u 32 x -> 0 <= len ->
  Z.min len (u32 (size f - Z.land x (u32 (size f - 1)))) = Z.min len (size f - x mod size f).
Proof.
  intros Hw Hx Hl. destruct (wf_size f Hw) as (Hs & _ & Hm). rewrite Hm.
  pose proof (Z.mod_pos_bound x (size f)). unfold u32. rewrite wrap_id; [done|]. unfold in_u. lia.
Qed.

Lemma memcpy_Some dst doff src soff n : 0 <= doff -> doff + n <= Z.of_nat (length dst) ->
  0 <= soff -> soff + n <= Z.of_nat (length src) -> 0 <= n ->
  memcpy dst doff src soff n = Some (take (Z.to_nat doff) dst ++ take (Z.to_nat n) (drop (Z.to_nat soff) src)
    ++ drop (Z.to_nat (doff + n)) dst).
Proof. intros. unfold memcpy. by rewrite bool_decide_true. Qed.

Lemma length_memcpy dst doff src soff n d : memcpy dst doff src soff n = Some d -> length d = length dst.
Proof.
  unfold memcpy. case_bool_decide as H; [|done]. intros [= <-].
  rewrite !length_app, !length_take, !length_drop. lia.
Qed.

(** A byte of the result of a copy. *)
Lemma memcpy_lookup dst doff src soff n d i : memcpy dst doff src soff n = Some d -> 0 <= i < Z.of_nat (length dst) ->
  d !!! Z.to_nat i =
    if bool_decide (doff <= i < doff + n) then src !!! Z.to_nat (soff + (i - doff)) else dst !!! Z.to_nat i.
Proof.
  unfold memcpy. case_bool_decide as H; [|done]. intros [= <-] Hi. rewrite !list_lookup_total_alt.
  case_bool_decide.
  - rewrite lookup_app_r by (rewrite length_take; lia). rewrite length_take, lookup_app_l
      by (rewrite length_take, length_drop; lia).
    rewrite lookup_take_lt, lookup_drop by lia. do 2 f_equal. lia.
  - destruct (decide (i < doff)).
    + rewrite lookup_app_l by (rewrite length_take; lia). by rewrite lookup_take_lt by lia.
    + rewrite lookup_app_r by (rewrite length_take; lia).
      rewrite lookup_app_r by (rewrite !length_take, length_drop; lia).
      rewrite lookup_drop, !length_take, length_drop. do 2 f_equal. lia.
Qed.

(** Splitting an offset at the end of the buffer. *)
Lemma pos_split n x j : 0 < n -> 0 <= j < n ->
  (x + j) mod n = if bool_decide (j < n - x mod n) then x mod n + j else j - (n - x mod n).
Proof.
  intros Hn Hj. pose proof (Z.mod_pos_bound x n Hn). rewrite <- Z.add_mod_idemp_l by lia. case_bool_decide.
  - apply Z.mod_small. lia.
  - symmetry. apply (Z.mod_unique_pos _ _ 1); lia.
Qed.

Lemma put_copies f buf len : wf f -> 0 <= len <= size f -> len <= Z.of_nat (length buf) ->
  ∃ b1 b2, memcpy (buffer f) (Z.land (fin f) (u32 (size f - 1))) buf 0 (put_first f len) = Some b1 ∧
    memcpy b1 0 buf (put_first f len) (u32 (len - put_first f len)) = Some b2 ∧ length b2 = length (buffer f) ∧
    (∀ j, 0 <= j < len -> b2 !!! Z.to_nat ((fin f + j) mod size f) = buf !!! Z.to_nat j) ∧
    (∀ j, len <= j < size f ->
       b2 !!! Z.to_nat ((fin f + j) mod size f) = buffer f !!! Z.to_nat ((fin f + j) mod size f)).
Proof.
  intros Hw Hl Hb. destruct (wf_size f Hw) as (Hs & _ & Hm). pose proof Hw as (_ & Hlen & Hin & _).
  unfold put_first. rewrite first_room, Hm by (done || lia). set (o := fin f mod size f).
  assert (0 <= o < size f) as Ho by (apply Z.mod_pos_bound; lia).
  set (l := Z.min len (size f - o)). unfold u32. rewrite wrap_id by (unfold in_u; lia).
  eexists _, _. split; [apply memcpy_Some; lia|]. set (b1 := _ ++ _ ++ _).
  assert (memcpy (buffer f) o buf 0 l = Some b1) as H1 by (apply memcpy_Some; lia).
  pose proof (length_memcpy _ _ _ _ _ _ H1) as Hl1.
  split; [apply memcpy_Some; lia|]. set (b2 := _ ++ _ ++ _).
  assert (memcpy b1 0 buf l (len - l) = Some b2) as H2 by (apply memcpy_Some; lia).
  pose proof (length_memcpy _ _ _ _ _ _ H2) as Hl2. split; [lia|].
  split; intros j Hj; pose proof (pos_split (size f) (fin f) j ltac:(lia) ltac:(lia)) as Hp; fold o in Hp.
  - rewrite (memcpy_lookup _ _ _ _ _ _ _ H2), (memcpy_lookup _ _ _ _ _ _ _ H1) by (rewrite Hp; case_bool_decide; lia).
    rewrite Hp. repeat case_bool_decide; try lia; do 2 f_equal; lia.
  - rewrite (memcpy_lookup _ _ _ _ _ _ _ H2), (memcpy_lookup _ _ _ _ _ _ _ H1) by (rewrite Hp; case_bool_decide; lia).
    rewrite Hp. repeat case_bool_decide; try lia; done.
Qed.

Lemma fmap_seqZ_take (g : Z -> Z) a n (l : list Z) : 0 <= n <= Z.of_nat (length l) ->
  (∀ j, 0 <= j < n -> g (a + j) = l !!! Z.to_nat j) -> g <$> seqZ a n = take (Z.to_nat n) l.
Proof.
  intros Hn Hg. apply list_eq. intros i. rewrite list_lookup_fmap. destruct (decide (Z.of_nat i < n)).
  - rewrite lookup_seqZ_lt by lia. simpl. rewrite Hg, lookup_take_lt by lia. rewrite Nat2Z.id.
    symmetry. apply list_lookup_lookup_total_lt. lia.
  - rewrite lookup_seqZ_ge by lia. simpl. rewrite lookup_take_ge by lia. done.
Qed.

(** Advancing [in] by what fits. *)
Lemma len_grow f n : wf f -> 0 <= n <= size f - kfifo_len_ f -> u32 (u32 (fin f + n) - fout f) = kfifo_len_ f + n.
Proof.
  intros Hw Hn. destruct (wf_size f Hw) as (Hs & _). unfold u32. rewrite wrap_sub_l.
  replace (fin f + n - fout f) with (fin f - fout f + n) by lia. rewrite <- wrap_add_l. fold (u32 (fin f - fout f)).
  pose proof (u32_range (fin f - fout f)) as Hr. unfold kfifo_len_ in *. apply wrap_id. unfold in_u in *. lia.
Qed.

Lemma put_refines f buf len : wf f -> in_u 32 len -> len <= Z.of_nat (length buf) ->
  ∃ f', let n := Z.min len (size f - Z.of_nat (length (contents f))) in
    kfifo_put_ f buf len = Some (n, f') ∧ wf f' ∧ size f' = size f ∧
    contents f' = contents f ++ take (Z.to_nat n) buf.
Proof.
  intros Hw Hl Hb. destruct (wf_size f Hw) as (Hs & _ & Hm). pose proof Hw as (Hpow & Hlen & Hin & Hout & Hu).
  rewrite len_contents. unfold kfifo_put_. rewrite put_len_room by done. fold (kfifo_len_ f) in Hu.
  set (n := Z.min len (size f - kfifo_len_ f)). assert (0 <= n <= size f - kfifo_len_ f) as Hn by (destruct Hl; lia).
  pose proof (u32_range (fin f - fout f)) as Hr. fold (kfifo_len_ f) in Hr.
  destruct (put_copies f buf n Hw) as (b1 & b2 & H1 & H2 & Hl2 & Hnew & Hold); [destruct Hr; lia|lia|].
  eexists. cbv zeta. split; [|split; [|split]].
  - rewrite H1. simpl. rewrite H2. simpl. reflexivity.
  - unfold wf. simpl. split_and!; [done|lia|apply u32_range|done|]. rewrite len_grow by done. lia.
  - done.
  - unfold contents at 1, kfifo_len_. simpl. rewrite len_grow by done. fold (kfifo_len_ f). destruct Hr as [Hr _].
    rewrite seqZ_app by lia. rewrite fmap_app. f_equal.
    + unfold contents. apply list_fmap_ext. intros i j Hij%lookup_seqZ. destruct Hij as [-> Hij].
      unfold cell. simpl. specialize (Hold (size f - kfifo_len_ f + Z.of_nat i) ltac:(lia)).
      rewrite fin_pos in Hold by done.
      replace (kfifo_len_ f + (size f - kfifo_len_ f + Z.of_nat i)) with (0 + Z.of_nat i + 1 * size f) in Hold by lia.
      rewrite Z.add_assoc, Z.mod_add in Hold by lia. done.
    + apply fmap_seqZ_take; [lia|]. intros j Hj. unfold cell. simpl. rewrite Z.add_0_l, <- fin_pos by done. by apply Hnew.
Qed.

Lemma list_eq_total (l1 l2 : list Z) : length l1 = length l2 ->
  (∀ j, 0 <= j < Z.of_nat (length l2) -> l1 !!! Z.to_nat j = l2 !!! Z.to_nat j) -> l1 = l2.
Proof.
  intros Hl Hj. apply (list_eq_same_length _ _ (length l2)); [done|done|]. intros i x y Hi H1 H2.
  specialize (Hj (Z.of_nat i) ltac:(lia)). rewrite Nat2Z.id in Hj.
  apply list_lookup_total_correct in H1, H2. congruence.
Qed.

Lemma contents_lookup f j : 0 <= j < kfifo_len_ f -> contents f !!! Z.to_nat j = cell f (fout f + j).
Proof.
  intros Hj. apply list_lookup_total_correct. unfold contents. rewrite list_lookup_fmap, lookup_seqZ_lt by lia.
  simpl. do 2 f_equal. lia.
Qed.

Lemma get_copies f buf n : wf f -> 0 <= n <= kfifo_len_ f -> n <= Z.of_nat (length buf) ->
  ∃ d1, memcpy buf 0 (buffer f) (Z.land (fout f) (u32 (size f - 1))) (get_first f n) = Some d1 ∧
    memcpy d1 (get_first f n) (buffer f) 0 (u32 (n - get_first f n)) =
      Some (take (Z.to_nat n) (contents f) ++ drop (Z.to_nat n) buf).
Proof.
  intros Hw Hn Hb. destruct (wf_size f Hw) as (Hs & _ & Hm). pose proof Hw as (_ & Hlen & _ & Hout & Hu).
  fold (kfifo_len_ f) in Hu. unfold get_first. rewrite first_room, Hm by (done || lia). set (o := fout f mod size f).
  assert (0 <= o < size f) as Ho by (apply Z.mod_pos_bound; lia).
  set (l := Z.min n (size f - o)). unfold u32. rewrite wrap_id by (unfold in_u; lia).
  eexists. split; [apply memcpy_Some; lia|]. set (d1 := _ ++ _ ++ _).
  assert (memcpy buf 0 (buffer f) o l = Some d1) as H1 by (apply memcpy_Some; lia).
  pose proof (length_memcpy _ _ _ _ _ _ H1) as Hl1.
  rewrite memcpy_Some by lia. f_equal. set (d2 := _ ++ _ ++ _).
  assert (memcpy d1 l (buffer f) 0 (n - l) = Some d2) as H2 by (apply memcpy_Some; lia).
  pose proof (length_memcpy _ _ _ _ _ _ H2) as Hl2. pose proof (len_contents f) as Hlc.
  apply list_eq_total; [rewrite length_app, length_take, length_drop; lia|].
  intros j Hj. rewrite length_app, length_take, length_drop in Hj.
  rewrite (memcpy_lookup _ _ _ _ _ _ _ H2), (memcpy_lookup _ _ _ _ _ _ _ H1) by lia.
  destruct (decide (j < n)).
  - rewrite lookup_total_app_l by (rewrite length_take; lia). rewrite lookup_total_take, decide_True by lia.
    rewrite contents_lookup by lia. unfold cell.
    pose proof (pos_split (size f) (fout f) j ltac:(lia) ltac:(lia)) as Hp. fold o in Hp. rewrite Hp.
    repeat case_bool_decide; try lia; do 2 f_equal; lia.
  - rewrite lookup_total_app_r by (rewrite length_take; lia). rewrite length_take, lookup_total_drop.
    repeat case_bool_decide; try lia. f_equal. lia.
Qed.

Lemma len_shrink f n : wf f -> 0 <= n <= kfifo_len_ f -> u32 (fin f - u32 (fout f + n)) = kfifo_len_ f - n.
Proof.
  intros Hw Hn. unfold u32. rewrite wrap_sub_r.
  replace (fin f - (fout f + n)) with (fin f - fout f - n) by lia. rewrite <- wrap_sub_l. fold (u32 (fin f - fout f)).
  pose proof (u32_range (fin f - fout f)) as Hr. unfold kfifo_len_ in *. apply wrap_id. unfold in_u in *. lia.
Qed.

(** Advancing [out] drops from the front. *)
Lemma contents_drop f n : wf f -> 0 <= n <= kfifo_len_ f ->
  contents (Kfifo (buffer f) (size f) (fin f) (u32 (fout f + n))) = drop (Z.to_nat n) (contents f).
Proof.
  intros Hw Hn. pose proof (len_contents f) as Hlc. apply list_eq_total.
  { rewrite length_drop. apply Nat2Z.inj. rewrite len_contents. unfold kfifo_len_ at 1. simpl. rewrite len_shrink by done. lia. }
  intros j. rewrite length_drop. intros Hj. rewrite contents_lookup
    by (unfold kfifo_len_ at 1; simpl; rewrite len_shrink by done; lia).
  rewrite lookup_total_drop. replace (Z.to_nat n + Z.to_nat j)%nat with (Z.to_nat (n + j)) by lia.
  rewrite contents_lookup by lia. unfold cell; simpl. destruct (wf_size f Hw) as (Hs & _).
  rewrite <- Z.add_mod_idemp_l, wrap_mod_size, Z.add_mod_idemp_l by (done || lia). do 3 f_equal. lia.
Qed.

Lemma get_refines f buf len : wf f -> in_u 32 len -> len <= Z.of_nat (length buf) ->
  ∃ f', let n := Z.min len (Z.of_nat (length (contents f))) in
    kfifo_get_ f buf len = Some (n, take (Z.to_nat n) (contents f) ++ drop (Z.to_nat n) buf, f') ∧
    wf f' ∧ size f' = size f ∧ contents f' = drop (Z.to_nat n) (contents f).
Proof.
  intros Hw Hl Hb. pose proof Hw as (Hpow & Hlen & Hin & Hout & Hu).
  rewrite len_contents. unfold kfifo_get_, get_len. fold (kfifo_len_ f) in *.
  pose proof (u32_range (fin f - fout f)) as Hr. fold (kfifo_len_ f) in Hr.
  set (n := Z.min len (kfifo_len_ f)). assert (0 <= n <= kfifo_len_ f) as Hn by (destruct Hl, Hr; lia).
  destruct (get_copies f buf n Hw Hn) as (d1 & H1 & H2); [lia|].
  eexists. cbv zeta. split; [|split; [|split]].
  - rewrite H1. simpl. rewrite H2. simpl. reflexivity.
  - unfold wf. simpl. split_and!; [done|done|done|apply u32_range|]. rewrite len_shrink by done. lia.
  - done.
  - by apply contents_drop.
Qed.
End Ring.

(** * The contract *)

(** A bounded queue of bytes. *)
Record queue_ops (Q : Type) := QueueOps {
  q_items : Q -> list Z;
  q_cap : Q -> Z;
  q_put : Q -> list Z -> Z -> option (Z * Q);
  q_get : Q -> list Z -> Z -> option (Z * list Z * Q);
}.
Arguments q_items {Q}. Arguments q_cap {Q}. Arguments q_put {Q}. Arguments q_get {Q}.

(** What its users rely on: a put of [len] bytes takes as many as fit, from
    the front of the buffer, and says how many; a get delivers the oldest
    bytes in order, says how many, and leaves the rest of the caller's buffer
    alone; neither faults. *)
Class BoundedQueue {Q} (ops : queue_ops Q) (ok : Q -> Prop) : Prop := {
  bq_bound q : ok q -> Z.of_nat (length (q_items ops q)) <= q_cap ops q;
  bq_put q buf len : ok q -> in_u 32 len -> len <= Z.of_nat (length buf) ->
    ∃ q', let n := Z.min len (q_cap ops q - Z.of_nat (length (q_items ops q))) in
      q_put ops q buf len = Some (n, q') ∧ ok q' ∧ q_cap ops q' = q_cap ops q ∧
      q_items ops q' = q_items ops q ++ take (Z.to_nat n) buf;
  bq_get q buf len : ok q -> in_u 32 len -> len <= Z.of_nat (length buf) ->
    ∃ q', let n := Z.min len (Z.of_nat (length (q_items ops q))) in
      q_get ops q buf len = Some (n, take (Z.to_nat n) (q_items ops q) ++ drop (Z.to_nat n) buf, q') ∧
      ok q' ∧ q_cap ops q' = q_cap ops q ∧ q_items ops q' = drop (Z.to_nat n) (q_items ops q);
}.

Definition kfifo_unlocked : queue_ops kfifo := QueueOps _ contents size kfifo_put_ kfifo_get_.
Definition kfifo_locked : queue_ops kfifo := QueueOps _ contents size kfifo_put kfifo_get.

Lemma contents_reset f : contents (kfifo_reset_ f) = [].
Proof. done. Qed.

Lemma reset_wf f : wf f -> wf (kfifo_reset_ f).
Proof.
  intros Hw. destruct (wf_size f Hw) as (Hs & _). destruct Hw as (Hp & Hl & _). unfold wf. simpl. split_and!; try done.
  change (0 <= size f). lia.
Qed.

Lemma wf_bound f : wf f -> Z.of_nat (length (contents f)) <= size f.
Proof. intros Hw. rewrite len_contents. apply Hw. Qed.

(** The unlocked functions refine the queue. *)
#[export] Instance kfifo_unlocked_queue : BoundedQueue kfifo_unlocked wf.
Proof. split; [apply wf_bound|apply put_refines|apply get_refines]. Qed.

(** The locked FIFO functions refine the bounded queue, for every ring
    size, every position of the free-running indices (wrapped around 2^32 or
    not) and every length, full and empty rings included; the reset of the
    indices that an emptying get does is not visible. *)
Theorem kfifo_refines_queue : BoundedQueue kfifo_locked wf.
Proof.
  split; [apply wf_bound|apply put_refines|].
  intros f buf len Hw Hl Hb. destruct (get_refines f buf len Hw Hl Hb) as (f' & Hg & Hw' & Hs & Hc).
  exists (if fin f' =? fout f' then kfifo_reset_ f' else f'). cbv zeta. simpl. unfold kfifo_get. rewrite Hg. simpl.
  split; [done|]. destruct (Z.eqb_spec (fin f') (fout f')) as [He|]; [|by split_and!].
  split_and!; [by apply reset_wf|done|]. rewrite <- Hc, contents_reset. symmetry. apply length_zero_iff_nil.
  apply Nat2Z.inj. rewrite len_contents. unfold kfifo_len_. by rewrite He, Z.sub_diag.
Qed.

(** * Allocation *)

Section Alloc.

Lemma pow2_land x : 0 < x -> Z.land x (x - 1) = 0 -> x = 2 ^ Z.log2 x.
Proof.
  intros Hx Hl. destruct (decide (x = 2 ^ Z.log2 x)) as [|Hn]; [done|]. exfalso.
  pose proof (Z.log2_spec x Hx) as [Hlo Hhi]. pose proof (Z.log2_nonneg x).
  assert (Z.log2 (x - 1) = Z.log2 x) as Hl1 by (apply Z.log2_unique; lia).
  assert (0 < 2 ^ Z.log2 x) by lia.
  assert (Z.testbit (Z.land x (x - 1)) (Z.log2 x) = true) as Hb.
  { rewrite Z.land_spec, Z.bit_log2 by done. rewrite <- Hl1, Z.bit_log2 by lia. done. }
  by rewrite Hl, Z.bits_0 in Hb.
Qed.

Lemma land_pow2 k : 0 <= k -> Z.land (2 ^ k) (2 ^ k - 1) = 0.
Proof.
  intros Hk. replace (2 ^ k - 1) with (Z.ones k) by (rewrite Z.ones_equiv; lia).
  rewrite Z.land_ones by done. apply Z.mod_same. lia.
Qed.

Lemma roundup_log2_up x : 1 < x <= 2 ^ 31 -> roundup_pow_of_two x = 2 ^ Z.log2_up x.
Proof.
  intros Hx. unfold roundup_pow_of_two, u32. rewrite (wrap_id 32 (x - 1)) by (unfold in_u; lia).
  rewrite fls_log2 by lia. rewrite Z.shiftl_1_l.
  assert (Z.log2_up x = Z.log2 (x - 1) + 1) as <- by (rewrite Z.log2_up_eqn by lia; replace (Z.pred x) with (x - 1) by lia; lia).
  apply wrap_id. split; [lia|]. apply Z.pow_lt_mono_r; [lia|lia|].
  assert (Z.log2_up x <= Z.log2_up (2 ^ 31)) as Hle by (apply Z.log2_up_le_mono; lia).
  rewrite Z.log2_up_pow2 in Hle by lia. lia.
Qed.

Lemma is_power_pow2 k : 0 <= k <= 31 -> is_power_of_2 (2 ^ k) = true.
Proof.
  intros Hk. assert (2 ^ k <= 2 ^ 31) by (apply Z.pow_le_mono_r; lia). unfold is_power_of_2, u32.
  rewrite wrap_id by (unfold in_u; lia). rewrite land_pow2 by lia. destruct (Z.eqb_spec (2 ^ k) 0); [lia|done].
Qed.

(** Allocation.  For a size from 1 to 2^31 kfifo_alloc never reaches
    [BUG]: it returns a well-formed empty FIFO whose size is the least power
    of two that is not smaller, or -ENOMEM exactly when an allocation fails.
    Size 0, and sizes above 2^31 (which have no 32-bit power of two above
    them), stop the kernel. *)
Theorem kfifo_alloc_spec kmalloc mem sz : in_u 32 sz ->
  (∀ n b, kmalloc n = Some b -> Z.of_nat (length b) = n) ->
  (1 <= sz <= 2 ^ 31 ->
     match kmalloc (2 ^ Z.log2_up sz), mem with
     | Some b, true => ∃ f, kfifo_alloc kmalloc mem sz = Some (inr f) ∧ wf f ∧ contents f = [] ∧
         size f = 2 ^ Z.log2_up sz ∧ sz <= size f < 2 * sz
     | _, _ => kfifo_alloc kmalloc mem sz = Some (inl (- ENOMEM))
     end) ∧
  (2 ^ 31 < sz -> kfifo_alloc kmalloc mem sz = None) ∧
  (sz = 0 -> is_Some (kmalloc 0) -> kfifo_alloc kmalloc mem sz = None).
Proof.
  intros Hu Hk. split_and!.
  - intros Hs. assert (0 <= Z.log2_up sz <= 31) as Hlog.
    { split; [apply Z.log2_up_nonneg|]. rewrite <- (Z.log2_up_pow2 31) by lia. apply Z.log2_up_le_mono. lia. }
    assert (sz <= 2 ^ Z.log2_up sz < 2 * sz) as Hb.
    { destruct (decide (sz = 1)) as [->|]; [by vm_compute|].
      pose proof (Z.log2_up_spec sz ltac:(lia)) as [H1 H2].
      assert (2 ^ Z.log2_up sz = 2 * 2 ^ Z.pred (Z.log2_up sz)); [|lia].
      rewrite <- Z.pow_succ_r; [f_equal; lia|]. pose proof (Z.log2_up_pos sz). lia. }
    assert (kfifo_alloc kmalloc mem sz = match kmalloc (2 ^ Z.log2_up sz) with
      None => Some (inl (- ENOMEM)) | Some buf => kfifo_init buf (2 ^ Z.log2_up sz) mem end) as ->.
    { unfold kfifo_alloc. destruct (Z.eqb_spec (Z.land sz (u32 (sz - 1))) 0) as [H0|H0]; simpl.
      - unfold u32 in H0. rewrite wrap_id in H0 by (unfold in_u; lia). apply pow2_land in H0; [|lia].
        rewrite H0, Z.log2_up_pow2 by apply Z.log2_nonneg. done.
      - destruct (Z.ltb_spec 2147483648 sz); [lia|]. simpl. rewrite roundup_log2_up; [done|].
        split; [|lia]. destruct (decide (sz = 1)) as [->|]; [done|lia]. }
    destruct (kmalloc (2 ^ Z.log2_up sz)) as [b|] eqn:Hm; [|done]. unfold kfifo_init. rewrite is_power_pow2 by done.
    destruct mem; [|done]. simpl. eexists. split; [done|]. cbn [size].
    split_and!; [|done|done|lia|lia].
    unfold wf. cbn [size buffer fin fout]. split_and!; [eauto|by apply Hk|done|done|]. change (0 <= 2 ^ Z.log2_up sz). lia.
  - intros Hs. unfold kfifo_alloc. destruct (Z.eqb_spec (Z.land sz (u32 (sz - 1))) 0) as [H0|H0]; simpl.
    + exfalso. unfold u32 in H0. rewrite wrap_id in H0 by (destruct Hu; unfold in_u; lia). apply pow2_land in H0; [|lia].
      destruct Hu as [_ Hu]. pose proof (Z.log2_nonneg sz). rewrite H0 in Hs, Hu. apply Z.pow_lt_mono_r_iff in Hs, Hu; lia.
    + destruct (Z.ltb_spec 2147483648 sz); [done|lia].
  - intros -> [b Hb]. unfold kfifo_alloc. simpl. rewrite Hb. done.
Qed.
End Alloc.

(** * One reader and one writer, without a lock

    The writer samples [out], copies its bytes one by one, then publishes
    [in]; the reader samples [in], copies, then publishes [out] (the barriers
    of the code keep that order).  The two are interleaved freely. *)

Inductive wstate := WIdle | WCopy (src : list Z) (len k : Z).
Inductive rstate := RIdle | RCopy (len : Z) (got : list Z).

(** [produced] and [consumed] record every byte ever put and got. *)
Record spsc := Spsc { ring : kfifo; wpc : wstate; rpc : rstate; produced : list Z; consumed : list Z }.

(** Where the two copies put, or take, byte [j]. *)
Definition copy_off (f : kfifo) (x first j : Z) : Z :=
  if j <? first then Z.land x (u32 (size f - 1)) + j else j - first.
Definition put_off (f : kfifo) (len j : Z) : Z := copy_off f (fin f) (put_first f len) j.
Definition get_off (f : kfifo) (len j : Z) : Z := copy_off f (fout f) (get_first f len) j.

Definition store (f : kfifo) (o b : Z) : kfifo := Kfifo (<[Z.to_nat o := b]> (buffer f)) (size f) (fin f) (fout f).
Definition publish_in (f : kfifo) (len : Z) : kfifo := Kfifo (buffer f) (size f) (u32 (fin f + len)) (fout f).
Definition publish_out (f : kfifo) (len : Z) : kfifo := Kfifo (buffer f) (size f) (fin f) (u32 (fout f + len)).

Inductive spsc_step : spsc -> spsc -> Prop :=
  | put_begin f r p c src len : in_u 32 len -> len <= Z.of_nat (length src) ->
      spsc_step (Spsc f WIdle r p c) (Spsc f (WCopy src (put_len f len) 0) r p c)
  | put_byte f r p c src len k b : k < len -> src !! Z.to_nat k = Some b ->
      spsc_step (Spsc f (WCopy src len k) r p c) (Spsc (store f (put_off f len k) b) (WCopy src len (k + 1)) r p c)
  | put_end f r p c src len :
      spsc_step (Spsc f (WCopy src len len) r p c) (Spsc (publish_in f len) WIdle r (p ++ take (Z.to_nat len) src) c)
  | get_begin f w p c len : in_u 32 len ->
      spsc_step (Spsc f w RIdle p c) (Spsc f w (RCopy (get_len f len) []) p c)
  | get_byte f w p c len got b : Z.of_nat (length got) < len ->
      buffer f !! Z.to_nat (get_off f len (Z.of_nat (length got))) = Some b ->
      spsc_step (Spsc f w (RCopy len got) p c) (Spsc f w (RCopy len (got ++ [b])) p c)
  | get_end f w p c len got : Z.of_nat (length got) = len ->
      spsc_step (Spsc f w (RCopy len got) p c) (Spsc (publish_out f len) w RIdle p (c ++ got)).

(** The specification: an atomic bounded queue, as the bytes put and got. *)
Inductive queue_step (cap : Z) : list Z * list Z -> list Z * list Z -> Prop :=
  | enqueue p c l : Z.of_nat (length p) + Z.of_nat (length l) - Z.of_nat (length c) <= cap ->
      queue_step cap (p, c) (p ++ l, c)
  | dequeue p c l rest : p = c ++ l ++ rest -> queue_step cap (p, c) (p, c ++ l).

(** What the interleaving keeps. *)
Definition w_ok (f : kfifo) (w : wstate) : Prop :=
  match w with
  | WIdle => True
  | WCopy src len k => 0 <= k <= len ∧ len <= size f - kfifo_len_ f ∧ len <= Z.of_nat (length src) ∧
      ∀ j, 0 <= j < k -> cell f (fin f + j) = src !!! Z.to_nat j
  end.

Definition r_ok (f : kfifo) (r : rstate) : Prop :=
  match r with
  | RIdle => True
  | RCopy len got => Z.of_nat (length got) <= len <= kfifo_len_ f ∧ got = take (length got) (contents f)
  end.

Definition spsc_inv (x : spsc) : Prop :=
  wf (ring x) ∧ w_ok (ring x) (wpc x) ∧ r_ok (ring x) (rpc x) ∧ produced x = consumed x ++ contents (ring x).

Section Spsc.
Implicit Types (f : kfifo).

Lemma copy_off_mod f x len j : wf f -> in_u 32 x -> 0 <= j < len -> len <= size f ->
  copy_off f x (Z.min len (u32 (size f - Z.land x (u32 (size f - 1))))) j = (x + j) mod size f.
Proof.
  intros Hw Hx Hj Hl. destruct (wf_size f Hw) as (Hs & _ & Hm). rewrite first_room by (done || lia).
  unfold copy_off. rewrite Hm, pos_split by lia. pose proof (Z.mod_pos_bound x (size f) ltac:(lia)).
  destruct (Z.ltb_spec j (Z.min len (size f - x mod size f))); case_bool_decide; lia.
Qed.

Lemma put_off_mod f len k : wf f -> 0 <= k < len -> len <= size f -> put_off f len k = (fin f + k) mod size f.
Proof. intros Hw Hk Hl. apply copy_off_mod; try done. apply Hw. Qed.

Lemma get_off_mod f len k : wf f -> 0 <= k < len -> len <= size f -> get_off f len k = (fout f + k) mod size f.
Proof. intros Hw Hk Hl. apply copy_off_mod; try done. apply Hw. Qed.

(** A store changes one cell. *)
Lemma store_cell f y b z : wf f ->
  cell (store f (y mod size f) b) z = if bool_decide (z mod size f = y mod size f) then b else cell f z.
Proof.
  intros Hw. destruct (wf_size f Hw) as (Hs & _). pose proof Hw as (_ & Hl & _). unfold cell, store. cbn [size buffer].
  pose proof (Z.mod_pos_bound y (size f) ltac:(lia)). pose proof (Z.mod_pos_bound z (size f) ltac:(lia)).
  case_bool_decide as He.
  - rewrite He. apply list_lookup_total_insert_eq. lia.
  - apply list_lookup_total_insert_ne. lia.
Qed.

Lemma store_wf f o b : wf f -> wf (store f o b).
Proof. intros (Hp & Hl & H). unfold wf, store. cbn [size buffer fin fout]. by rewrite length_insert. Qed.

(** The writer's bytes stay out of the contents. *)
Lemma store_contents f k b : wf f -> 0 <= k < size f - kfifo_len_ f ->
  contents (store f ((fin f + k) mod size f) b) = contents f.
Proof.
  intros Hw Hk. unfold contents. apply list_fmap_ext. intros i j [-> Hij]%lookup_seqZ.
  rewrite store_cell by done. rewrite bool_decide_false; [done|]. rewrite fin_pos by done. cbn [fout store].
  destruct (wf_size f Hw) as (Hs & _). unfold kfifo_len_ in *. cbn [fin fout store] in *.
  pose proof (u32_range (fin f - fout f)) as [? _].
  intros He. apply mod_inj in He; lia.
Qed.

Lemma put_byte_inv f r p c src len k b : k < len -> src !! Z.to_nat k = Some b ->
  spsc_inv (Spsc f (WCopy src len k) r p c) ->
  spsc_inv (Spsc (store f (put_off f len k) b) (WCopy src len (k + 1)) r p c).
Proof.
  intros Hk Hb (Hw & (Hk1 & Hroom & Hsrc & Hc) & Hr & Hp). cbn [ring wpc rpc produced consumed] in *.
  destruct (wf_size f Hw) as (Hs & _). pose proof (u32_range (fin f - fout f)) as [Hge _]. fold (kfifo_len_ f) in Hge.
  rewrite put_off_mod by (done || lia).
  split_and!; cbn [ring wpc rpc produced consumed w_ok].
  - by apply store_wf.
  - split_and!; [lia|lia|done|done|]. intros j Hj. rewrite store_cell by done. cbn [fin store].
    case_bool_decide as He.
    + apply mod_inj in He; [|lia..]. subst j. symmetry. by apply list_lookup_total_correct.
    + apply Hc. destruct (decide (j = k)) as [->|]; [done|lia].
  - destruct r as [|len' got]; [done|]. destruct Hr as [Hl Hg]. split; [done|]. rewrite store_contents by (done || lia). done.
  - rewrite store_contents by (done || lia). done.
Qed.

(** A ring whose [in] is published. *)
Lemma publish_in_contents f src len : wf f -> 0 <= len <= size f - kfifo_len_ f -> len <= Z.of_nat (length src) ->
  (∀ j, 0 <= j < len -> cell f (fin f + j) = src !!! Z.to_nat j) ->
  wf (publish_in f len) ∧ contents (publish_in f len) = contents f ++ take (Z.to_nat len) src.
Proof.
  intros Hw Hl Hs Hc. pose proof Hw as (Hp & Hb & Hi & Ho & Hu). pose proof (u32_range (fin f - fout f)) as [Hge _].
  fold (kfifo_len_ f) in *. destruct (wf_size f Hw) as (Hsz & _). split.
  - unfold wf, publish_in. cbn [size buffer fin fout]. split_and!; [done|done|apply u32_range|done|].
    rewrite len_grow by done. lia.
  - unfold contents at 1, kfifo_len_, publish_in. cbn [fin fout]. rewrite len_grow by done. fold (publish_in f len).
    rewrite seqZ_app by lia. rewrite fmap_app. f_equal. apply fmap_seqZ_take; [lia|]. intros j Hj.
    rewrite Z.add_0_l. unfold cell in *. cbn [size buffer publish_in]. rewrite <- fin_pos by done. by apply Hc.
Qed.

Lemma publish_out_contents f len : wf f -> 0 <= len <= kfifo_len_ f ->
  wf (publish_out f len) ∧ contents (publish_out f len) = drop (Z.to_nat len) (contents f) ∧
  kfifo_len_ (publish_out f len) = kfifo_len_ f - len.
Proof.
  intros Hw Hl. pose proof Hw as (Hp & Hb & Hi & Ho & Hu). fold (kfifo_len_ f) in Hu. split_and!.
  - unfold wf, publish_out. cbn [size buffer fin fout]. split_and!; [done|done|done|apply u32_range|].
    rewrite len_shrink by done. lia.
  - by apply contents_drop.
  - unfold kfifo_len_ at 1, publish_out. cbn [fin fout]. by apply len_shrink.
Qed.

Lemma get_byte_inv f w p c len got b : Z.of_nat (length got) < len ->
  buffer f !! Z.to_nat (get_off f len (Z.of_nat (length got))) = Some b ->
  spsc_inv (Spsc f w (RCopy len got) p c) -> spsc_inv (Spsc f w (RCopy len (got ++ [b])) p c).
Proof.
  intros Hlt Hb (Hw & Hwo & (Hl & Hg) & Hp). cbn [ring wpc rpc produced consumed] in *.
  pose proof (wf_bound f Hw) as Hbd. rewrite len_contents in Hbd.
  rewrite get_off_mod in Hb by (done || lia).
  split_and!; cbn [ring wpc rpc produced consumed r_ok]; try done. rewrite length_app. cbn [length]. split; [lia|].
  replace (length got + 1)%nat with (S (length got)) by lia.
  assert (contents f !! length got = Some b) as Hn.
  { unfold contents. rewrite list_lookup_fmap, lookup_seqZ_lt by lia. simpl. f_equal. unfold cell.
    rewrite Z.add_0_l. by apply list_lookup_total_correct. }
  rewrite (take_S_r _ _ b Hn). by rewrite <- Hg.
Qed.

Lemma spsc_step_ok x x' : spsc_inv x -> spsc_step x x' ->
  spsc_inv x' ∧ size (ring x') = size (ring x) ∧
  ((produced x', consumed x') = (produced x, consumed x) ∨
   queue_step (size (ring x)) (produced x, consumed x) (produced x', consumed x')).
Proof.
  intros Hi Hs. destruct Hs as [f r p c src len Hlen Hsrc|f r p c src len k b Hk Hb|f r p c src len|f w p c len Hlen|
    f w p c len got b Hlt Hb|f w p c len got Hg].
  - split; [|split; [done|by left]]. destruct Hi as (Hw & _ & Hr & Hp). split_and!; try done. cbn [ring wpc w_ok] in *.
    rewrite put_len_room by done. pose proof (wf_bound f Hw) as Hbd. rewrite len_contents in Hbd. destruct Hlen.
    split_and!; try lia.
  - split; [by apply put_byte_inv|]. split; [done|by left].
  - destruct Hi as (Hw & (Hk & Hroom & Hsrc & Hc) & Hr & Hp). cbn [ring wpc rpc produced consumed] in *.
    destruct (publish_in_contents f src len) as [Hw' Hc']; [done|lia|done|done|].
    split; [|split; [done|right]].
    + split_and!; cbn [ring wpc rpc produced consumed]; try done.
      * destruct r as [|l got]; [done|]. destruct Hr as [Hl Hg]. cbn [r_ok]. pose proof (len_contents (publish_in f len)) as Hn.
        rewrite Hc', length_app, length_take in Hn. pose proof (len_contents f) as Hn0. split; [lia|].
        rewrite Hc', take_app_le by lia. done.
      * rewrite Hc', Hp. by rewrite app_assoc.
    + constructor. rewrite length_take, Hp, length_app. pose proof (len_contents f). lia.
  - split; [|split; [done|by left]]. destruct Hi as (Hw & Hwo & _ & Hp). split_and!; try done. cbn [ring rpc r_ok] in *.
    unfold get_len. fold (kfifo_len_ f). pose proof (u32_range (fin f - fout f)) as [Hge _]. fold (kfifo_len_ f) in Hge.
    destruct Hlen. simpl. split; [lia|done].
  - split; [by apply get_byte_inv|]. split; [done|by left].
  - destruct Hi as (Hw & Hwo & (Hl & Hgot) & Hp). cbn [ring wpc rpc produced consumed] in *.
    destruct (publish_out_contents f len) as (Hw' & Hc' & Hn'); [done|lia|].
    assert (contents f = got ++ drop (Z.to_nat len) (contents f)) as Hsplit.
    { rewrite <- (take_drop (length got) (contents f)) at 1. rewrite <- Hgot. do 2 f_equal. lia. }
    split; [|split; [done|right]].
    + split_and!; cbn [ring wpc rpc produced consumed]; try done.
      * destruct w as [|src l k]; [done|]. destruct Hwo as (Hk & Hroom & Hsrc & Hc). cbn [w_ok]. rewrite Hn'.
        split_and!; try lia; [cbn [size publish_out]; lia|done].
      * rewrite Hc', Hp, <- app_assoc. by rewrite <- Hsplit.
    + econstructor. rewrite Hp. by rewrite <- Hsplit.
Qed.

(** ** The C functions are the uninterrupted runs of the two sides *)

Lemma put_bytes f r p c src len (n : nat) : wf f -> Z.of_nat n <= len <= size f - kfifo_len_ f ->
  len <= Z.of_nat (length src) ->
  ∃ b, rtc spsc_step (Spsc f (WCopy src len 0) r p c)
      (Spsc (Kfifo b (size f) (fin f) (fout f)) (WCopy src len (Z.of_nat n)) r p c) ∧
    length b = length (buffer f) ∧
    ∀ j, 0 <= j < size f -> b !!! Z.to_nat ((fin f + j) mod size f) =
      if j <? Z.of_nat n then src !!! Z.to_nat j else buffer f !!! Z.to_nat ((fin f + j) mod size f).
Proof.
  intros Hw Hn Hs. destruct (wf_size f Hw) as (Hsz & _). pose proof (u32_range (fin f - fout f)) as [Hge _].
  fold (kfifo_len_ f) in Hge. induction n as [|n IH].
  - exists (buffer f). split; [by destruct f|]. split; [done|]. intros j Hj. case_cmp; lia || done.
  - destruct IH as (b & Hr & Hl & Hb); [lia|]. set (g := Kfifo b (size f) (fin f) (fout f)) in *.
    assert (wf g) as Hg by (unfold wf, g in *; cbn [size buffer fin fout]; by rewrite Hl).
    destruct (lookup_lt_is_Some_2 src n) as [x Hx]; [lia|].
    exists (buffer (store g ((fin g + Z.of_nat n) mod size g) x)). split; [|split].
    + eapply rtc_r; [exact Hr|]. rewrite <- (put_off_mod g len (Z.of_nat n) Hg) by (unfold g; cbn [size]; lia).
      replace (Z.of_nat (S n)) with (Z.of_nat n + 1) by lia.
      apply (put_byte g r p c src len (Z.of_nat n) x); [lia|]. by rewrite Nat2Z.id.
    + cbn [buffer store]. by rewrite length_insert.
    + intros j Hj. pose proof (store_cell g (fin g + Z.of_nat n) x (fin f + j) Hg) as Hc. unfold cell in Hc.
      cbn [size store g] in Hc |- *. rewrite Hc. clear Hc. cbn [buffer g fin]. case_bool_decide as He.
      * apply mod_inj in He; [|lia..]. subst j. destruct (Z.ltb_spec (Z.of_nat n) (Z.of_nat (S n))); [|lia].
        rewrite Nat2Z.id. symmetry. by apply list_lookup_total_correct.
      * rewrite Hb by done. case_cmp; try lia; try done.
        exfalso. apply He. do 2 f_equal. lia.
Qed.

Lemma put_alone f r p c buf len n f' : wf f -> in_u 32 len -> len <= Z.of_nat (length buf) ->
  kfifo_put_ f buf len = Some (n, f') ->
  rtc spsc_step (Spsc f WIdle r p c) (Spsc f' WIdle r (p ++ take (Z.to_nat n) buf) c).
Proof.
  intros Hw Hl Hb. destruct (wf_size f Hw) as (Hs & _). pose proof (wf_bound f Hw) as Hbd. rewrite len_contents in Hbd.
  pose proof (u32_range (fin f - fout f)) as [Hge _]. fold (kfifo_len_ f) in Hge.
  pose proof (put_len_room f len Hw) as Hroom. unfold kfifo_put_. set (m := put_len f len) in *.
  destruct Hl as [Hl0 Hl1].
  destruct (put_copies f buf m Hw) as (b1 & b2 & H1 & H2 & Hl2 & Hnew & Hold); [lia|lia|].
  rewrite H1. simpl. rewrite H2. simpl. intros [= <- <-].
  destruct (put_bytes f r p c buf m (Z.to_nat m) Hw) as (b & Hr & Hlb & Hcell); [lia|lia|].
  rewrite Z2Nat.id in Hr, Hcell by lia. eapply rtc_l; [apply (put_begin f r p c buf len); [split; lia|done]|].
  eapply rtc_r; [exact Hr|].
  assert (b = b2) as ->; [|apply (put_end (Kfifo b2 (size f) (fin f) (fout f)))].
  pose proof Hw as (_ & Hlen & _). apply list_eq_total; [lia|]. intros i Hi.
  assert (i = (fin f + (i - fin f) mod size f) mod size f) as Hpos.
  { rewrite Z.add_mod_idemp_r by lia. replace (fin f + (i - fin f)) with i by lia. symmetry. apply Z.mod_small. lia. }
  pose proof (Z.mod_pos_bound (i - fin f) (size f) ltac:(lia)) as Hj. rewrite Hpos, Hcell by done.
  destruct (Z.ltb_spec ((i - fin f) mod size f) m); [by rewrite Hnew by lia|by rewrite Hold by lia].
Qed.

Lemma get_bytes f w p c len (n : nat) : wf f -> Z.of_nat n <= len <= kfifo_len_ f ->
  rtc spsc_step (Spsc f w (RCopy len []) p c) (Spsc f w (RCopy len (take n (contents f))) p c).
Proof.
  intros Hw Hn. pose proof (wf_bound f Hw) as Hbd. pose proof (len_contents f) as Hlc. rewrite Hlc in Hbd.
  destruct (wf_size f Hw) as (Hs & _). pose proof Hw as (_ & Hlen & _).
  induction n as [|n IH]; [apply rtc_refl|]. eapply rtc_r; [apply IH; lia|].
  destruct (lookup_lt_is_Some_2 (contents f) n) as [x Hx]; [lia|]. rewrite (take_S_r _ _ x Hx).
  assert (length (take n (contents f)) = n) as Hln by (rewrite length_take; lia).
  apply get_byte; rewrite Hln; [lia|]. rewrite get_off_mod by (done || lia).
  unfold contents in Hx. rewrite list_lookup_fmap, lookup_seqZ_lt in Hx by lia. injection Hx as <-. unfold cell.
  rewrite Z.add_0_l. apply list_lookup_lookup_total_lt. pose proof (Z.mod_pos_bound (fout f + Z.of_nat n) (size f)). lia.
Qed.

Lemma get_alone f w p c buf len n d f' : wf f -> in_u 32 len -> len <= Z.of_nat (length buf) ->
  kfifo_get_ f buf len = Some (n, d, f') ->
  rtc spsc_step (Spsc f w RIdle p c) (Spsc f' w RIdle p (c ++ take (Z.to_nat n) d)).
Proof.
  intros Hw Hl Hb Hg. destruct (get_refines f buf len Hw Hl Hb) as (g & Hg' & _). rewrite Hg in Hg'.
  injection Hg' as Hn Hd _. pose proof (len_contents f) as Hlc. rewrite Hlc in Hn.
  pose proof (u32_range (fin f - fout f)) as [Hge _]. fold (kfifo_len_ f) in Hge. destruct Hl as [Hl0 Hl1].
  assert (take (Z.to_nat n) d = take (Z.to_nat n) (contents f)) as ->.
  { rewrite Hd, Hlc, <- Hn. apply take_app_length'. rewrite length_take. lia. }
  assert (f' = publish_out f n) as ->.
  { unfold kfifo_get_ in Hg. fold (publish_out f (get_len f len)) in Hg.
    destruct (memcpy _ _ _ _ _) as [d1|]; [simpl in Hg|done]. destruct (memcpy d1 _ _ _ _) as [d2|]; [simpl in Hg|done].
    injection Hg as <- _ <-. done. }
  eapply rtc_l; [apply (get_begin f w p c len); by split|]. unfold get_len. fold (kfifo_len_ f). rewrite <- Hn.
  eapply rtc_r; [apply (get_bytes f w p c n (Z.to_nat n)); [done|lia]|]. apply get_end.
  rewrite length_take. lia.
Qed.

(** C27: one reader and one writer need no lock.  However the byte copies of
    __kfifo_put and __kfifo_get interleave, the bytes put and the bytes got
    are those of an atomic bounded queue: nothing is lost, duplicated,
    reordered or corrupted, the bytes not yet got are the ring's contents,
    and no copy ever leaves the ring. *)
Theorem kfifo_spsc_refines f0 x :
  wf f0 -> contents f0 = [] -> rtc spsc_step (Spsc f0 WIdle RIdle [] []) x ->
  rtc (queue_step (size f0)) ([], []) (produced x, consumed x) ∧
  produced x = consumed x ++ contents (ring x) ∧
  (∀ src len k, wpc x = WCopy src len k -> k < len ->
     0 <= put_off (ring x) len k < Z.of_nat (length (buffer (ring x))) ∧ k < Z.of_nat (length src)) ∧
  (∀ len got, rpc x = RCopy len got -> Z.of_nat (length got) < len ->
     0 <= get_off (ring x) len (Z.of_nat (length got)) < Z.of_nat (length (buffer (ring x)))).
Proof.
  intros Hw Hc Hr.
  assert (spsc_inv x ∧ size (ring x) = size f0 ∧ rtc (queue_step (size f0)) ([], []) (produced x, consumed x)) as (Hi & Hs & Hq).
  { assert (spsc_inv (Spsc f0 WIdle RIdle [] [])) as Hi0 by (split_and!; [done..|by simpl; rewrite Hc]).
    remember (Spsc f0 WIdle RIdle [] []) as x0 eqn:Hx0. assert (size (ring x0) = size f0) as Hs0 by by subst.
    assert (rtc (queue_step (size f0)) ([], []) (produced x0, consumed x0)) as Hq0 by by subst. clear Hx0.
    induction Hr as [|x y z Hxy _ IH]; [done|]. destruct (spsc_step_ok x y Hi0 Hxy) as (Hi1 & Hs1 & Hq1).
    apply IH; [done|congruence|]. destruct Hq1 as [->|Hq1]; [done|]. eapply rtc_r; [done|]. by rewrite <- Hs0. }
  destruct Hi as (Hwx & Hwo & Hro & Hp). pose proof Hwx as (_ & Hlen & _). destruct (wf_size _ Hwx) as (Hsz & _).
  pose proof (wf_bound _ Hwx) as Hbd. rewrite len_contents in Hbd.
  pose proof (u32_range (fin (ring x) - fout (ring x))) as [Hge _]. fold (kfifo_len_ (ring x)) in Hge.
  split_and!; [done|done| |].
  - intros src len k He Hk. rewrite He in Hwo. destruct Hwo as (Hk1 & Hroom & Hsrc & _). rewrite put_off_mod by (done || lia).
    rewrite Hlen. split; [apply Z.mod_pos_bound|]; lia.
  - intros len got He Hk. rewrite He in Hro. destruct Hro as (Hl & _). rewrite get_off_mod by (done || lia).
    rewrite Hlen. apply Z.mod_pos_bound. lia.
Qed.
End Spsc.

(** * A ring of eight bytes whose indices are about to wrap *)

Module KfifoDemo.
Definition ring8 : kfifo := Kfifo [1; 2; 3; 4; 5; 6; 7; 8] 8 0xfffffffe 0xfffffffe.

Lemma ring8_wf : wf ring8.
Proof.
  unfold wf. split_and!; [by exists 3|done|by vm_compute..].
Qed.

(** Six bytes in, across the end of the buffer and of the index range. *)
Example ring8_put : kfifo_put_ ring8 [10; 11; 12; 13; 14; 15] 6 =
  Some (6, Kfifo [12; 13; 14; 15; 5; 6; 10; 11] 8 4 0xfffffffe).
Proof. reflexivity. Qed.

Definition alloc8 (n : Z) : option (list Z) := if 0 <=? n then Some (replicate (Z.to_nat n) 0) else None.

Lemma kfifo_alloc_spec_witness : ∃ f, kfifo_alloc alloc8 true 6 = Some (inr f) ∧ wf f ∧ contents f = [] ∧
  size f = 8 ∧ 6 <= size f < 12.
Proof.
  destruct (kfifo_alloc_spec alloc8 true 6) as (H & _).
  - by vm_compute.
  - intros n b. unfold alloc8. destruct (Z.leb_spec 0 n); [|done]. intros [= <-]. rewrite length_replicate. lia.
  - exact (H ltac:(lia)).
Defined.

(** The writer publishes while the reader is half-way through its copy. *)
Definition ring2 : kfifo := Kfifo [7; 7] 2 0xffffffff 0xffffffff.
Definition mid : spsc :=
  Spsc (Kfifo [22; 11] 2 1 0xffffffff) WIdle (RCopy 1 []) [11; 22] [].

Lemma mid_reachable : rtc spsc_step (Spsc ring2 WIdle RIdle [] []) mid.
Proof.
  eapply rtc_l; [apply (put_begin _ _ _ _ [11] 1); [by vm_compute|simpl; lia]|].
  eapply rtc_l; [apply (put_byte _ _ _ _ _ _ _ 11); [by vm_compute|done]|].
  eapply rtc_l; [apply put_end|].
  eapply rtc_l; [apply (get_begin _ _ _ _ 9); by vm_compute|].
  eapply rtc_l; [apply (put_begin _ _ _ _ [22; 33] 2); [by vm_compute|simpl; lia]|].
  eapply rtc_l; [apply (put_byte _ _ _ _ _ _ _ 22); [by vm_compute|done]|].
  eapply rtc_l; [apply put_end|]. vm_compute. apply rtc_refl.
Qed.

Lemma kfifo_spsc_refines_witness :
  rtc (queue_step 2) ([], []) ([11; 22], []) ∧ [11; 22] = [] ++ contents (ring mid).
Proof.
  destruct (kfifo_spsc_refines ring2 mid) as (H1 & H2 & _).
  - unfold wf. split_and!; [by exists 1|done|by vm_compute..].
  - reflexivity.
  - exact mid_reachable.
  - split; [exact H1|exact H2].
Defined.
End KfifoDemo.
