(* ===== verification/Sort.v ===== *)
(** lib/sort.c: the kernel's heapsort.

    The C function works on bytes: its counters are pre-scaled by the element
    size and the elements are compared and exchanged through pointers.  It is
    modelled that way ([sort], [sift], [generic_swap], [u32_swap] on a list of
    bytes, an access outside it being a fault) and shown to implement the
    heapsort on a list of elements ([hsort], [hsift]) that the heap argument
    is about. *)

From S2P Require Import Prelude.

(** * The C code *)

Abbreviation mem := (list Z).
Abbreviation elem := (list Z).

Definition slice (m : mem) (off n : Z) : option elem :=
  if (0 <=? off) && (0 <=? n) && (off + n <=? Z.of_nat (length m))
  then Some (take (Z.to_nat n) (drop (Z.to_nat off) m)) else None.

Definition store (m : mem) (off : Z) (x : elem) : option mem :=
  if (0 <=? off) && (off + Z.of_nat (length x) <=? Z.of_nat (length m))
  then Some (take (Z.to_nat off) m ++ x ++ drop (Z.to_nat off + length x) m) else None.

Definition u32_swap (m : mem) (a b size : Z) : option mem :=
  t ← slice m a 4;
  v ← slice m b 4;
  m ← store m a v;
  store m b t.

(** [k] turns of the [do] loop. *)
Fixpoint swap_bytes (k : nat) (m : mem) (a b : Z) : option mem :=
  match k with
  | O => Some m
  | S k =>
      t ← slice m a 1;
      v ← slice m b 1;
      m ← store m a v;
      m ← store m b t;
      swap_bytes k m (a + 1) (b + 1)
  end.

Definition generic_swap (m : mem) (a b size : Z) : option mem := swap_bytes (Z.to_nat (Z.max 1 size)) m a b.

Section CSort.
Context (cmp : elem -> elem -> Z) (swap : mem -> Z -> Z -> Z -> option mem) (size : Z).

(** The inner [for] loops; [r], [c] and [n] are [int]s, [size] a [size_t]. *)
Fixpoint sift (fuel : nat) (m : mem) (r n : Z) : option mem :=
  match fuel with
  | O => None
  | S fuel =>
      if u32 (s32 (r * 2) + size) <? u32 n then
        let c := s32 (s32 (r * 2) + size) in
        right ← (if u32 c <? u32 (n - size)
                 then x ← slice m c size; y ← slice m (c + size) size; Some (cmp x y <? 0)
                 else Some false);
        let c := if (right : bool) then s32 (c + size) else c in
        x ← slice m r size;
        y ← slice m c size;
        if 0 <=? cmp x y then Some m
        else m ← swap m r c size; sift fuel m c n
      else Some m
  end.

Fixpoint heapify (fuel : nat) (m : mem) (i n : Z) : option mem :=
  match fuel with
  | O => None
  | S f =>
      if 0 <=? i then m ← sift (Z.to_nat n + 1) m i n; heapify f m (s32 (i - size)) n
      else Some m
  end.

Fixpoint sort_down (fuel : nat) (m : mem) (i : Z) : option mem :=
  match fuel with
  | O => None
  | S f =>
      if 0 <? i then
        m ← swap m 0 i size;
        m ← sift (Z.to_nat i + 1) m 0 i;
        sort_down f m (s32 (i - size))
      else Some m
  end.
End CSort.

Definition default_swap (size : Z) : mem -> Z -> Z -> Z -> option mem :=
  if size =? 4 then u32_swap else generic_swap.

Definition sort (m : mem) (num size : Z) (cmp : elem -> elem -> Z)
    (swap : option (mem -> Z -> Z -> Z -> option mem)) : option mem :=
  let i := s32 (u32 (num / 2 - 1) * size) in
  let n := s32 (num * size) in
  let swap := match swap with None => default_swap size | Some f => f end in
  m ← heapify cmp swap size (Z.to_nat num + 1) m i n;
  sort_down cmp swap size (Z.to_nat num + 1) m (s32 (n - size)).

(** * Heapsort on a list of elements *)

Section Heap.
Context {A : Type} `{!Inhabited A} (cmp : A -> A -> Z).
Implicit Types (a : list A).

Definition exch a (i j : nat) : list A := <[i := a !!! j]> (<[j := a !!! i]> a).

Fixpoint hsift (fuel : nat) a (r n : nat) : list A :=
  match fuel with
  | O => a
  | S f =>
      let c := (2 * r + 1)%nat in
      if (c <? n)%nat then
        let c := if (c + 1 <? n)%nat && (cmp (a !!! c) (a !!! (c + 1)%nat) <? 0) then (c + 1)%nat else c in
        if 0 <=? cmp (a !!! r) (a !!! c) then a else hsift f (exch a r c) c n
      else a
  end.

Fixpoint hheap (k : nat) a (n : nat) : list A :=
  match k with O => a | S k => hheap k (hsift n a k n) n end.

Fixpoint hdown (i : nat) a : list A :=
  match i with O => a | S j => hdown j (hsift i (exch a 0 i) 0 i) end.

Definition hsort a : list A :=
  let n := length a in hdown (n - 1) (hheap (n / 2) a n).

(** ** Exchanges *)

Lemma length_exch a i j : length (exch a i j) = length a.
Proof. unfold exch. by rewrite !length_insert. Qed.

Lemma exch_perm a i j : (i < length a)%nat -> (j < length a)%nat -> exch a i j ≡ₚ a.
Proof.
  intros Hi Hj. unfold exch. apply Permutation_insert_swap; by apply list_lookup_lookup_total_lt.
Qed.

Lemma exch_lookup a i j k : (i < length a)%nat -> (j < length a)%nat ->
  exch a i j !!! k = if decide (k = i) then a !!! j else if decide (k = j) then a !!! i else a !!! k.
Proof.
  intros Hi Hj. unfold exch. repeat case_decide; subst.
  - by rewrite list_lookup_total_insert_eq by (rewrite length_insert; lia).
  - rewrite list_lookup_total_insert_ne by lia. by rewrite list_lookup_total_insert_eq by lia.
  - by rewrite !list_lookup_total_insert_ne by lia.
Qed.

(** Where sifting looks next. *)
Definition pick a (r n : nat) : nat :=
  let c := (2 * r + 1)%nat in
  if (c + 1 <? n)%nat && (cmp (a !!! c) (a !!! (c + 1)%nat) <? 0) then (c + 1)%nat else c.

Lemma pick_child a r n : (2 * r + 1 < n)%nat ->
  (pick a r n = 2 * r + 1 ∨ pick a r n = 2 * r + 2)%nat ∧ (pick a r n < n)%nat.
Proof.
  intros Hr. unfold pick. destruct (Nat.ltb_spec (2 * r + 1 + 1) n); simpl; [destruct (_ <? 0)|]; lia.
Qed.

Lemma hsift_eq f a r n : hsift (S f) a r n =
  if (2 * r + 1 <? n)%nat then
    if 0 <=? cmp (a !!! r) (a !!! pick a r n) then a else hsift f (exch a r (pick a r n)) (pick a r n) n
  else a.
Proof. done. Qed.

(** Induction over a sift: [P] holds of the array at every turn. *)
Lemma hsift_ind (P : list A -> Prop) f a r n : (n <= length a)%nat ->
  P a -> (∀ b i j, length b = length a -> (r <= i < n)%nat -> (i < j < n)%nat -> P b -> P (exch b i j)) ->
  P (hsift f a r n).
Proof.
  revert a r. induction f as [|f IH]; intros a r Hn Ha Hs; [done|]. rewrite hsift_eq.
  destruct (Nat.ltb_spec (2 * r + 1) n) as [Hc|]; [|done]. destruct (_ <=? _); [done|].
  pose proof (pick_child a r n Hc). apply IH.
  - by rewrite length_exch.
  - apply Hs; [done|lia|lia|done].
  - intros b i j Hl Hi Hj Hb. rewrite length_exch in Hl. apply Hs; [done|lia|lia|done].
Qed.

Lemma length_hsift f a r n : (n <= length a)%nat -> length (hsift f a r n) = length a.
Proof.
  intros Hn. apply (hsift_ind (λ b, length b = length a)); [done|done|]. intros. by rewrite length_exch.
Qed.

Lemma hsift_perm f a r n : (n <= length a)%nat -> hsift f a r n ≡ₚ a.
Proof.
  intros Hn. apply (hsift_ind (λ b, b ≡ₚ a)); [done|done|]. intros b i j Hl Hi Hj Hp.
  rewrite exch_perm by lia. done.
Qed.

(** Positions outside [r, n) are not touched; what holds of every element
    below [n] keeps holding. *)
Lemma hsift_frame f a r n k : (n <= length a)%nat -> (k < r ∨ n <= k)%nat -> hsift f a r n !!! k = a !!! k.
Proof.
  intros Hn Hk. apply (hsift_ind (λ b, length b = length a ∧ b !!! k = a !!! k)); [done|done|].
  intros b i j Hl Hi Hj [_ Hp]. rewrite length_exch, exch_lookup by lia. split; [done|].
  rewrite !decide_False by lia. done.
Qed.

Lemma hsift_all (Q : A -> Prop) f a r n : (n <= length a)%nat ->
  (∀ k, (k < n)%nat -> Q (a !!! k)) -> ∀ k, (k < n)%nat -> Q (hsift f a r n !!! k).
Proof.
  intros Hn HQ. apply (hsift_ind (λ b, ∀ k, (k < n)%nat -> Q (b !!! k))); [done|done|].
  intros b i j Hl Hi Hj Hp k Hk. rewrite exch_lookup by lia. repeat case_decide; apply Hp; lia.
Qed.
Lemma hheap_perm_length k a n : (n <= length a)%nat ->
  hheap k a n ≡ₚ a ∧ length (hheap k a n) = length a.
Proof.
  revert a. induction k as [|k IH]; intros a Hn; [done|]. cbn [hheap].
  destruct (IH (hsift n a k n)) as [H1 H2]; [by rewrite length_hsift|].
  rewrite length_hsift in H2 by done. split; [|done]. by rewrite H1, hsift_perm.
Qed.

End Heap.

(** * The heap order *)

(** What a comparison function must be: [cmp x y >= 0] is a total preorder. *)
Class Comparison {A} (cmp : A -> A -> Z) : Prop := {
  cmp_total x y : cmp x y < 0 -> 0 <= cmp y x;
  cmp_trans x y z : 0 <= cmp x y -> 0 <= cmp y z -> 0 <= cmp x z;
}.

Section Order.
Context {A : Type} `{!Inhabited A} (cmp : A -> A -> Z) `{!Comparison cmp}.
Implicit Types (a : list A).

Definition child (p c : nat) : Prop := (c = 2 * p + 1 ∨ c = 2 * p + 2)%nat.
Definition geq (x y : A) : Prop := 0 <= cmp x y.

Lemma geq_refl x : geq x x.
Proof. destruct (decide (0 <= cmp x x)) as [|Hn]; [done|]. apply cmp_total. lia. Qed.

Lemma geq_of_lt x y : cmp x y < 0 -> geq y x.
Proof. apply cmp_total. Qed.

(** From position [k] on, every parent is at least its children below [n]. *)
Definition heap (k n : nat) a : Prop :=
  ∀ p c, (k <= p)%nat -> child p c -> (c < n)%nat -> geq (a !!! p) (a !!! c).

(** The same, except below [r]. *)
Definition almost (k r n : nat) a : Prop :=
  (∀ p c, (k <= p)%nat -> p <> r -> child p c -> (c < n)%nat -> geq (a !!! p) (a !!! c)) ∧
  (∀ p c, (k <= p)%nat -> child p r -> child r c -> (c < n)%nat -> geq (a !!! p) (a !!! c)).

(** The chosen child is at least every child. *)
Lemma pick_max a r n c : (2 * r + 1 < n)%nat -> child r c -> (c < n)%nat -> geq (a !!! pick cmp a r n) (a !!! c).
Proof.
  intros Hr Hc Hn. unfold pick. destruct (Nat.ltb_spec (2 * r + 1 + 1) n) as [H2|H2]; cbn [andb].
  - destruct (Z.ltb_spec (cmp (a !!! (2 * r + 1)%nat) (a !!! (2 * r + 1 + 1)%nat)) 0) as [Hlt|Hge];
      destruct Hc as [->| ->].
    + by apply geq_of_lt.
    + replace (2 * r + 2)%nat with (2 * r + 1 + 1)%nat by lia. apply geq_refl.
    + apply geq_refl.
    + replace (2 * r + 2)%nat with (2 * r + 1 + 1)%nat by lia. done.
  - destruct Hc as [->| ->]; [apply geq_refl|lia].
Qed.

Lemma almost_step k r n a : (k <= r)%nat -> (n <= length a)%nat -> (2 * r + 1 < n)%nat ->
  cmp (a !!! r) (a !!! pick cmp a r n) < 0 -> almost k r n a ->
  almost k (pick cmp a r n) n (exch a r (pick cmp a r n)).
Proof.
  intros Hk Hn Hr Hlt [H1 H2]. pose proof (pick_child cmp a r n Hr) as [Hc Hcn].
  pose proof (λ d, pick_max a r n d Hr) as Hmax. set (c := pick cmp a r n) in *. split.
  - intros p d Hp Hpc Hd Hdn. rewrite !exch_lookup by lia. rewrite (decide_False (P := p = c)) by done.
    destruct (decide (p = r)) as [->|Hpr].
    + rewrite (decide_False (P := d = r)) by (destruct Hd; lia).
      destruct (decide (d = c)) as [->|]; [by apply geq_of_lt|by apply Hmax].
    + destruct (decide (d = r)) as [->|Hdr]; [by apply H2|].
      destruct (decide (d = c)) as [->|]; [destruct Hd; lia|by apply H1].
  - intros p d Hp Hpc Hd Hdn. rewrite !exch_lookup by lia.
    rewrite decide_True by (destruct Hpc; lia). rewrite (decide_False (P := d = r)) by (destruct Hd; lia).
    rewrite (decide_False (P := d = c)) by (destruct Hd; lia). apply H1; [lia|lia|done|done].
Qed.

Lemma hsift_heap f k r n a : (k <= r)%nat -> (n <= length a)%nat -> (n <= r + f)%nat ->
  almost k r n a -> heap k n (hsift cmp f a r n).
Proof.
  revert a r. induction f as [|f IH]; intros a r Hk Hn Hf Ha.
  { intros p c Hp Hc Hcn. destruct Ha as [H1 _]. apply H1; try done. destruct Hc; lia. }
  pose proof Ha as [H1 _]. rewrite hsift_eq. destruct (Nat.ltb_spec (2 * r + 1) n) as [Hr|Hr].
  - destruct (Z.leb_spec 0 (cmp (a !!! r) (a !!! pick cmp a r n))) as [Hge|Hlt].
    + intros p c Hp Hc Hcn. destruct (decide (p = r)) as [->|]; [|by apply H1].
      eapply cmp_trans; [exact Hge|]. by apply pick_max.
    + pose proof (pick_child cmp a r n Hr). apply IH; [lia|by rewrite length_exch|lia|by apply almost_step].
  - intros p c Hp Hc Hcn. apply H1; try done. destruct Hc; lia.
Qed.

Lemma heap_almost k n a : heap (S k) n a -> almost k k n a.
Proof.
  intros Hh. split.
  - intros p c Hp Hpk Hc Hcn. apply Hh; [lia|done|done].
  - intros p c Hp Hc. destruct Hc; lia.
Qed.

Lemma hheap_heap k a n : (n <= length a)%nat -> heap k n a ->
  heap 0 n (hheap cmp k a n) ∧ length (hheap cmp k a n) = length a ∧ hheap cmp k a n ≡ₚ a.
Proof.
  revert a. induction k as [|k IH]; intros a Hn Hh; [done|]. cbn [hheap].
  destruct (IH (hsift cmp n a k n)) as (H1 & H2 & H3).
  - by rewrite length_hsift.
  - apply hsift_heap; [lia|done|lia|by apply heap_almost].
  - rewrite length_hsift in H2 by done. split_and!; [done|done|]. by rewrite H3, hsift_perm.
Qed.

(** The root is the largest. *)
Lemma heap_root n a j : heap 0 n a -> (j < n)%nat -> geq (a !!! 0%nat) (a !!! j).
Proof.
  intros Hh. induction (lt_wf j) as [j _ IH]. intros Hj. destruct j as [|j]; [apply geq_refl|].
  assert (child (j / 2) (S j)) as Hc by (unfold child; pose proof (Nat.div_mod_eq j 2); pose proof (Nat.mod_upper_bound j 2); lia).
  eapply cmp_trans; [apply (IH (j / 2)%nat)|apply Hh; [lia|done|done]]; destruct Hc; lia.
Qed.

(** The largest elements are in place from [i] on. *)
Definition placed (i : nat) a : Prop :=
  ∀ j l, (j < l)%nat -> (i <= l < length a)%nat -> geq (a !!! l) (a !!! j).

Lemma hdown_sorted i a : (i < length a)%nat -> heap 0 (S i) a -> placed (S i) a ->
  placed 0 (hdown cmp i a) ∧ hdown cmp i a ≡ₚ a.
Proof.
  revert a. induction i as [|i IH]; intros a Hi Hh Hp.
  { split; [|done]. intros j l Hjl Hl. cbn [hdown] in *. apply Hp; lia. }
  cbn [hdown]. set (b := exch a 0 (S i)). assert (length b = length a) as Hlb by apply length_exch.
  assert (heap 0 (S i) (hsift cmp (S i) b 0 (S i))) as Hh'.
  { apply hsift_heap; [lia|lia|lia|]. apply heap_almost. intros p c Hpp Hc Hcn. unfold b. rewrite !exch_lookup by lia.
    rewrite !decide_False by (destruct Hc; lia). apply Hh; [lia|done|lia]. }
  destruct (IH (hsift cmp (S i) b 0 (S i))) as [H1 H2].
  - rewrite length_hsift by lia. lia.
  - done.
  - intros j l Hjl Hl. rewrite length_hsift in Hl by lia. rewrite (hsift_frame cmp _ _ _ _ l) by lia.
    destruct (decide (j < S i)%nat) as [Hj|Hj].
    + revert j Hj Hjl. intros j Hj _. revert j Hj.
      apply (hsift_all cmp (λ y, geq (b !!! l) y)); [lia|]. intros j Hj. unfold b. rewrite !exch_lookup by lia.
      rewrite (decide_False (P := l = 0%nat)), (decide_False (P := j = S i)) by lia.
      destruct (decide (l = S i)) as [->|].
      * destruct (decide (j = 0%nat)); apply (heap_root (S (S i))); lia || done.
      * destruct (decide (j = 0%nat)); apply Hp; lia.
    + rewrite (hsift_frame cmp _ _ _ _ j) by lia. unfold b. rewrite !exch_lookup by lia.
      rewrite (decide_False (P := l = 0%nat)), (decide_False (P := l = S i)), (decide_False (P := j = 0%nat)) by lia.
      destruct (decide (j = S i)); apply Hp; lia.
  - split; [done|]. rewrite H2, hsift_perm by lia. unfold b. apply exch_perm; lia.
Qed.

Lemma hsort_sorted a : placed 0 (hsort cmp a) ∧ hsort cmp a ≡ₚ a.
Proof.
  unfold hsort. destruct (hheap_heap (length a / 2) a (length a)) as (Hh & Hl & Hp); [done| |].
  { intros p c Hk Hc Hcn. pose proof (Nat.div_mod_eq (length a) 2). pose proof (Nat.mod_upper_bound (length a) 2).
    destruct Hc; lia. }
  destruct (decide (length a = 0)%nat) as [H0|Hn].
  - apply length_zero_iff_nil in H0 as ->. split; [|done]. intros j l _ Hl0. simpl in Hl0. lia.
  - destruct (hdown_sorted (length a - 1) (hheap cmp (length a / 2) a (length a))) as [H1 H2].
    + lia.
    + by replace (S (length a - 1)) with (length a) by lia.
    + intros j l _ Hl'. lia.
    + split; [done|]. by rewrite H2.
Qed.
End Order.

(** * From bytes to elements *)

Section Bytes.
Implicit Types (m p x y s : list Z) (l : list elem).

Lemma slice_app p x s : slice (p ++ x ++ s) (Z.of_nat (length p)) (Z.of_nat (length x)) = Some x.
Proof.
  unfold slice. rewrite !length_app. destruct (Z.leb_spec 0 (Z.of_nat (length p))); [|lia].
  destruct (Z.leb_spec 0 (Z.of_nat (length x))); [|lia].
  destruct (Z.leb_spec (Z.of_nat (length p) + Z.of_nat (length x)) (Z.of_nat (length p + (length x + length s)))); [|lia].
  simpl. rewrite !Nat2Z.id, drop_app_length, take_app_length. done.
Qed.

Lemma store_app p x y s : length x = length y -> store (p ++ x ++ s) (Z.of_nat (length p)) y = Some (p ++ y ++ s).
Proof.
  intros Hl. unfold store. rewrite !length_app. destruct (Z.leb_spec 0 (Z.of_nat (length p))); [|lia].
  destruct (Z.leb_spec (Z.of_nat (length p) + Z.of_nat (length y)) (Z.of_nat (length p + (length x + length s)))); [|lia].
  simpl. rewrite Nat2Z.id, take_app_length. do 3 f_equal. rewrite <- Hl, app_assoc.
  rewrite drop_app_length'; [done|]. by rewrite length_app.
Qed.

(** Exchanging two blocks of a memory. *)
Definition swaps (f : mem -> Z -> Z -> Z -> option mem) (size : Z) : Prop :=
  ∀ p x m y s, Z.of_nat (length x) = size -> Z.of_nat (length y) = size ->
    f (p ++ x ++ m ++ y ++ s) (Z.of_nat (length p)) (Z.of_nat (length (p ++ x ++ m))) size = Some (p ++ y ++ m ++ x ++ s).

Lemma slice_second p x m y s :
  slice (p ++ x ++ m ++ y ++ s) (Z.of_nat (length (p ++ x ++ m))) (Z.of_nat (length y)) = Some y.
Proof. pose proof (slice_app (p ++ x ++ m) y s) as H. by rewrite <- !app_assoc in H. Qed.

Lemma store_second p x m y z s : length y = length z ->
  store (p ++ x ++ m ++ y ++ s) (Z.of_nat (length (p ++ x ++ m))) z = Some (p ++ x ++ m ++ z ++ s).
Proof. intros Hl. pose proof (store_app (p ++ x ++ m) y z s Hl) as H. by rewrite <- !app_assoc in H. Qed.

Lemma u32_swap_swaps : swaps u32_swap 4.
Proof.
  intros p x m y s Hx Hy. unfold u32_swap. rewrite <- Hx at 1. rewrite slice_app. simpl.
  rewrite <- Hy at 1. rewrite slice_second. simpl. rewrite store_app by lia. simpl.
  replace (length (p ++ x ++ m)) with (length (p ++ y ++ m)) by (rewrite !length_app; lia).
  apply store_second. lia.
Qed.

Lemma swap_bytes_swaps k p x m y s : length x = k -> length y = k ->
  swap_bytes k (p ++ x ++ m ++ y ++ s) (Z.of_nat (length p)) (Z.of_nat (length (p ++ x ++ m))) = Some (p ++ y ++ m ++ x ++ s).
Proof.
  revert p x m y. induction k as [|k IH]; intros p x m y Hx Hy.
  { apply length_zero_iff_nil in Hx as ->, Hy as ->. done. }
  destruct x as [|x0 x], y as [|y0 y]; [done..|]. cbn [swap_bytes]. injection Hx as Hx. injection Hy as Hy.
  assert (slice (p ++ (x0 :: x) ++ m ++ (y0 :: y) ++ s) (Z.of_nat (length p)) 1 = Some [x0]) as ->
    by apply (slice_app p [x0] (x ++ m ++ (y0 :: y) ++ s)).
  assert (slice (p ++ (x0 :: x) ++ m ++ (y0 :: y) ++ s) (Z.of_nat (length (p ++ (x0 :: x) ++ m))) 1 = Some [y0]) as ->
    by apply (slice_second p (x0 :: x) m [y0] (y ++ s)).
  simpl.
  assert (store (p ++ x0 :: x ++ m ++ y0 :: y ++ s) (Z.of_nat (length p)) [y0] = Some (p ++ (y0 :: x) ++ m ++ (y0 :: y) ++ s)) as ->
    by apply (store_app p [x0] [y0] (x ++ m ++ (y0 :: y) ++ s) eq_refl).
  simpl.
  assert (store (p ++ y0 :: x ++ m ++ y0 :: y ++ s) (Z.of_nat (length (p ++ x0 :: x ++ m))) [x0] =
    Some (p ++ (y0 :: x) ++ m ++ (x0 :: y) ++ s)) as ->.
  { replace (length (p ++ x0 :: x ++ m)) with (length (p ++ (y0 :: x) ++ m))
      by (rewrite !length_app; cbn [length]; rewrite ?length_app; lia).
    apply (store_second p (y0 :: x) m [y0] [x0] (y ++ s) eq_refl). }
  simpl. specialize (IH (p ++ [y0]) x (m ++ [x0]) y Hx Hy).
  replace (Z.of_nat (length p) + 1) with (Z.of_nat (length (p ++ [y0]))) by (rewrite length_app; simpl; lia).
  replace (Z.of_nat (length (p ++ x0 :: x ++ m)) + 1) with (Z.of_nat (length ((p ++ [y0]) ++ x ++ m ++ [x0])))
    by (rewrite !length_app; cbn [length]; rewrite !length_app; cbn [length]; lia).
  rewrite <- !app_assoc in IH. rewrite <- !app_assoc. exact IH.
Qed.

Lemma generic_swap_swaps size : 1 <= size -> swaps generic_swap size.
Proof.
  intros Hs p x m y s Hx Hy. unfold generic_swap. rewrite Z.max_r by lia. apply swap_bytes_swaps; lia.
Qed.

Lemma default_swap_swaps size : 1 <= size -> swaps (default_swap size) size.
Proof.
  intros Hs. unfold default_swap. destruct (Z.eqb_spec size 4) as [->|]; [apply u32_swap_swaps|by apply generic_swap_swaps].
Qed.
End Bytes.

(** Elements of one size, laid out one after the other. *)
Section Layout.
Context (size : Z) (Hsize : 1 <= size).
Implicit Types (l : list elem).

Definition uniform l : Prop := Forall (λ x, Z.of_nat (length x) = size) l.

Lemma length_concat_uniform l : uniform l -> Z.of_nat (length (concat l)) = Z.of_nat (length l) * size.
Proof. induction 1 as [|x l Hx _ IH]; [done|]. cbn [concat length]. rewrite length_app. lia. Qed.

Lemma uniform_perm l l' : l ≡ₚ l' -> uniform l' -> uniform l.
Proof. unfold uniform. by intros ->. Qed.

Lemma uniform_lookup l i : uniform l -> (i < length l)%nat -> Z.of_nat (length (l !!! i)) = size.
Proof.
  intros Hu Hi. unfold uniform in Hu. rewrite Forall_lookup in Hu. apply (Hu i). by apply list_lookup_lookup_total_lt.
Qed.

Lemma uniform_take l i : uniform l -> (i <= length l)%nat -> Z.of_nat (length (concat (take i l))) = Z.of_nat i * size.
Proof.
  intros Hu Hi. rewrite length_concat_uniform by (by apply Forall_take). rewrite length_take. do 2 f_equal. lia.
Qed.

Lemma slice_concat l i : uniform l -> (i < length l)%nat ->
  slice (concat l) (Z.of_nat i * size) size = Some (l !!! i).
Proof.
  intros Hu Hi. pose proof (uniform_lookup l i Hu Hi) as Hx. pose proof (uniform_take l i Hu ltac:(lia)) as Hp.
  rewrite <- (take_drop_middle l i (l !!! i)) at 1 by (by apply list_lookup_lookup_total_lt).
  rewrite concat_app. cbn [concat]. rewrite <- Hx at 2. rewrite <- Hp. apply slice_app.
Qed.

(** A list cut at two positions. *)
Lemma cut l i j : (i < j < length l)%nat ->
  l = take i l ++ (l !!! i) :: take (j - S i) (drop (S i) l) ++ (l !!! j) :: drop (S j) l.
Proof.
  intros Hij. rewrite <- (take_drop_middle l i (l !!! i)) at 1 by (apply list_lookup_lookup_total_lt; lia).
  do 2 f_equal. rewrite <- (take_drop_middle (drop (S i) l) (j - S i) (l !!! j)) at 1.
  - do 2 f_equal. rewrite drop_drop. do 2 f_equal. lia.
  - rewrite lookup_drop. replace (S i + (j - S i))%nat with j by lia. apply list_lookup_lookup_total_lt. lia.
Qed.

Lemma exch_cut p x m y s : exch (p ++ x :: m ++ y :: s : list elem) (length p) (length (p ++ x :: m)) =
  p ++ y :: m ++ x :: s.
Proof.
  unfold exch.
  assert ((p ++ x :: m ++ y :: s) !!! length (p ++ x :: m) = y) as ->.
  { replace (p ++ x :: m ++ y :: s) with ((p ++ x :: m) ++ y :: s) by by rewrite <- app_assoc. by apply list_lookup_total_middle. }
  assert ((p ++ x :: m ++ y :: s) !!! length p = x) as -> by by apply list_lookup_total_middle.
  replace (p ++ x :: m ++ y :: s) with ((p ++ x :: m) ++ y :: s) by by rewrite <- app_assoc.
  rewrite <- (Nat.add_0_r (length (p ++ x :: m))), insert_app_r. simpl. rewrite <- app_assoc. simpl.
  rewrite <- (Nat.add_0_r (length p)), insert_app_r. done.
Qed.

Lemma swap_concat f l i j : swaps f size -> uniform l -> (i < j < length l)%nat ->
  f (concat l) (Z.of_nat i * size) (Z.of_nat j * size) size = Some (concat (exch l i j)).
Proof.
  intros Hf Hu Hij. pose proof (cut l i j Hij) as Hc. pose proof (uniform_take l i Hu ltac:(lia)) as Hp.
  pose proof (uniform_take l j Hu ltac:(lia)) as Hq.
  pose proof (uniform_lookup l i Hu ltac:(lia)) as Hx. pose proof (uniform_lookup l j Hu ltac:(lia)) as Hy.
  assert (take j l = take i l ++ (l !!! i) :: take (j - S i) (drop (S i) l)) as Hj.
  { rewrite Hc at 1. rewrite app_comm_cons, app_assoc. apply take_app_length'.
    rewrite length_app. cbn [length]. rewrite !length_take, length_drop. lia. }
  set (p := take i l) in *. set (md := take (j - S i) (drop (S i) l)) in *. set (s := drop (S j) l) in *.
  set (x := l !!! i) in *. set (y := l !!! j) in *.
  assert (exch l i j = p ++ y :: md ++ x :: s) as ->.
  { rewrite <- (exch_cut p x md y s), <- Hc, <- Hj. f_equal; unfold p; rewrite length_take; lia. }
  rewrite Hj in Hq. rewrite Hc, <- Hp, <- Hq, !concat_app. cbn [concat]. rewrite !concat_app. cbn [concat].
  apply Hf; done.
Qed.
End Layout.

(** * The C loops implement the element-level heapsort *)

Section Refine.
Context (cmp : elem -> elem -> Z) (swap : mem -> Z -> Z -> Z -> option mem) (size : Z).
Implicit Types (l : list elem).

Lemma scaled_small k n size' : 1 <= size' -> 0 <= k -> k <= n -> n * size' <= 2 ^ 30 -> 0 <= k * size' <= 2 ^ 30.
Proof. nia. Qed.

Lemma sift_refines f F l r n : 1 <= size -> swaps swap size -> uniform size l ->
  (n <= length l)%nat -> (r < n)%nat -> (n <= r + f)%nat -> (n < r + F)%nat -> Z.of_nat n * size <= 2 ^ 30 ->
  sift cmp swap size F (concat l) (Z.of_nat r * size) (Z.of_nat n * size) = Some (concat (hsift cmp f l r n)).
Proof.
  intros Hs Hsw. revert f l r. induction F as [|F IH]; intros f l r Hu Hn Hr Hf HF Hb; [lia|].
  destruct f as [|f]; [lia|]. cbn [sift]. rewrite hsift_eq.
  assert (0 <= Z.of_nat r * size ∧ Z.of_nat r * size + size <= 2 ^ 30) as Hrs by nia.
  assert (s32 (Z.of_nat r * size * 2) = Z.of_nat r * size * 2) as -> by (apply s32_id; lia).
  replace (Z.of_nat r * size * 2 + size) with (Z.of_nat (2 * r + 1) * size) by lia.
  unfold u32. rewrite (wrap_id 32 (Z.of_nat (2 * r + 1) * size)) by (unfold in_u; lia).
  rewrite (wrap_id 32 (Z.of_nat n * size)) by (unfold in_u; lia).
  destruct (Nat.ltb_spec (2 * r + 1) n) as [Hc|Hc].
  2: { destruct (Z.ltb_spec (Z.of_nat (2 * r + 1) * size) (Z.of_nat n * size)); [nia|done]. }
  destruct (Z.ltb_spec (Z.of_nat (2 * r + 1) * size) (Z.of_nat n * size)) as [_|]; [|nia].
  assert (Z.of_nat (2 * r + 1) * size + size <= 2 ^ 30) as Hc1 by nia.
  rewrite (s32_id (Z.of_nat (2 * r + 1) * size)) by lia.
  rewrite (wrap_id 32 (Z.of_nat (2 * r + 1) * size)) by (unfold in_u; lia).
  rewrite (wrap_id 32 (Z.of_nat n * size - size)) by (unfold in_u; nia).
  pose proof (pick_child cmp l r n Hc) as [Hpc Hpn].
  assert (∀ k : nat, (k < n)%nat -> slice (concat l) (Z.of_nat k * size) size = Some (l !!! k)) as Hsl
    by (intros k Hk; apply slice_concat; [done|lia]).
  set (c := (2 * r + 1)%nat) in *.
  assert ((if Z.of_nat c * size <? Z.of_nat n * size - size
           then x ← slice (concat l) (Z.of_nat c * size) size; y ← slice (concat l) (Z.of_nat c * size + size) size;
                Some (cmp x y <? 0)
           else Some false) = Some ((c + 1 <? n)%nat && (cmp (l !!! c) (l !!! (c + 1)%nat) <? 0))) as ->.
  { destruct (Nat.ltb_spec (c + 1) n) as [H2|H2].
    - destruct (Z.ltb_spec (Z.of_nat c * size) (Z.of_nat n * size - size)); [|nia].
      replace (Z.of_nat c * size + size) with (Z.of_nat (c + 1) * size) by lia. rewrite !Hsl by lia. done.
    - destruct (Z.ltb_spec (Z.of_nat c * size) (Z.of_nat n * size - size)); [nia|done]. }
  cbn [mbind option_bind].
  assert ((if (c + 1 <? n)%nat && (cmp (l !!! c) (l !!! (c + 1)%nat) <? 0)
           then s32 (Z.of_nat c * size + size) else Z.of_nat c * size) = Z.of_nat (pick cmp l r n) * size) as ->.
  { unfold pick. fold c. destruct (_ && _); [|done]. rewrite s32_id by lia. lia. }
  rewrite !Hsl by lia. cbn [mbind option_bind]. destruct (0 <=? _); [done|].
  rewrite (swap_concat size Hs swap l r (pick cmp l r n) Hsw Hu) by lia. cbn [mbind option_bind].
  apply IH; try lia.
  - eapply uniform_perm; [apply exch_perm; lia|done].
  - by rewrite length_exch.
Qed.

Lemma heapify_refines k F l n : 1 <= size -> swaps swap size -> uniform size l ->
  (n <= length l)%nat -> (k <= n)%nat -> (k < F)%nat -> Z.of_nat n * size <= 2 ^ 30 ->
  heapify cmp swap size F (concat l) (Z.of_nat k * size - size) (Z.of_nat n * size) = Some (concat (hheap cmp k l n)).
Proof.
  intros Hs Hsw. revert F l. induction k as [|k IH]; intros F l Hu Hn Hk HF Hb; (destruct F as [|F]; [lia|]); cbn [heapify].
  - destruct (Z.leb_spec 0 (Z.of_nat 0 * size - size)); [lia|done].
  - replace (Z.of_nat (S k) * size - size) with (Z.of_nat k * size) by lia.
    destruct (Z.leb_spec 0 (Z.of_nat k * size)); [|lia].
    rewrite (sift_refines n); try done; try lia; [|nia]. cbn [mbind option_bind hheap].
    assert (0 <= Z.of_nat k * size <= 2 ^ 30) by (apply (scaled_small _ (Z.of_nat n)); lia).
    assert (size <= 2 ^ 30) by nia.
    rewrite s32_id by lia. apply IH; try done; try lia.
    + eapply uniform_perm; [by apply hsift_perm|done].
    + by rewrite length_hsift.
Qed.

Lemma sort_down_refines i F l : 1 <= size -> swaps swap size -> uniform size l ->
  (i < length l)%nat -> (i < F)%nat -> Z.of_nat (length l) * size <= 2 ^ 30 ->
  sort_down cmp swap size F (concat l) (Z.of_nat i * size) = Some (concat (hdown cmp i l)).
Proof.
  intros Hs Hsw. revert F l. induction i as [|i IH]; intros F l Hu Hi HF Hb; (destruct F as [|F]; [lia|]); cbn [sort_down].
  - destruct (Z.ltb_spec 0 (Z.of_nat 0 * size)); [lia|done].
  - destruct (Z.ltb_spec 0 (Z.of_nat (S i) * size)); [|nia].
    assert (0 <= Z.of_nat (S i) * size <= 2 ^ 30) by (apply (scaled_small _ (Z.of_nat (length l))); lia).
    replace 0 with (Z.of_nat 0 * size) by lia. rewrite (swap_concat size Hs swap l 0 (S i) Hsw Hu) by lia.
    cbn [mbind option_bind]. set (b := exch l 0 (S i)). assert (length b = length l) as Hlb by apply length_exch.
    assert (uniform size b) as Hub by (eapply uniform_perm; [apply exch_perm; lia|done]).
    rewrite (sift_refines (S i)); try done; try lia; [|nia]. cbn [mbind option_bind hdown].
    replace (Z.of_nat (S i) * size - size) with (Z.of_nat i * size) by lia.
    rewrite s32_id by lia. fold b. apply IH; rewrite ?length_hsift, ?Hlb by lia; try done; try lia.
    eapply uniform_perm; [apply hsift_perm; lia|done].
Qed.
End Refine.

Definition NULL_or_swaps (sw : option (mem -> Z -> Z -> Z -> option mem)) (size : Z) : Prop :=
  match sw with None => True | Some f => swaps f size end.

Lemma sort_refines (l : list elem) size cmp sw : 1 <= size <= 2 ^ 30 -> uniform size l -> NULL_or_swaps sw size ->
  Z.of_nat (length l) * size <= 2 ^ 30 ->
  sort (concat l) (Z.of_nat (length l)) size cmp sw = Some (concat (hsort cmp l)).
Proof.
  intros Hs Hu Hsw Hb. unfold sort. set (f := match sw with None => _ | Some f => f end).
  assert (swaps f size) as Hf by (destruct sw; [done|apply default_swap_swaps; lia]).
  set (n := length l) in *. assert (s32 (Z.of_nat n * size) = Z.of_nat n * size) as -> by (apply s32_id; lia).
  rewrite Nat2Z.id. pose proof (Nat.div_mod_eq n 2) as Hd. pose proof (Nat.mod_upper_bound n 2) as Hm.
  assert (s32 (u32 (Z.of_nat n / 2 - 1) * size) = Z.of_nat (n / 2) * size - size) as ->.
  { rewrite Nat2Z.inj_div. change (Z.of_nat 2) with 2. set (h := Z.of_nat n / 2).
    assert (0 <= h <= Z.of_nat n) as Hh by (unfold h; Z.to_euclidean_division_equations; lia).
    rewrite <- s32_u32. unfold u32, wrap. rewrite Z.mul_mod_idemp_l by lia. fold (wrap 32 ((h - 1) * size)).
    fold (u32 ((h - 1) * size)). rewrite s32_u32, s32_id by nia. lia. }
  rewrite heapify_refines by (done || lia). cbn [mbind option_bind].
  destruct (decide (n = 0)%nat) as [Hz|Hz].
  - rewrite Hz, Z.mul_0_l, Z.sub_0_l, s32_id by lia. unfold n in Hz. apply length_zero_iff_nil in Hz as ->.
    cbn [Nat.add sort_down]. destruct (Z.ltb_spec 0 (- size)); [lia|done].
  - replace (Z.of_nat n * size - size) with (Z.of_nat (n - 1) * size) by (rewrite Nat2Z.inj_sub by lia; lia).
    pose proof (hheap_perm_length cmp (n / 2) l n ltac:(lia)) as [Hp Hl].
    rewrite s32_id by nia. rewrite sort_down_refines; try done; try lia.
    by apply (uniform_perm _ _ l).
Qed.

(** C26: kernel sort() works.  For a comparison function that is a total
    preorder, every array of at most 2^30 bytes, every element size and both
    built-in exchange routines (or a caller's one that exchanges), sort
    terminates without an access outside the array, leaves a permutation of
    the elements, and every element compares at least equal to all before it. *)
Theorem sort_correct (l : list elem) size (cmp : elem -> elem -> Z) sw : Comparison cmp ->
  1 <= size <= 2 ^ 30 -> uniform size l -> NULL_or_swaps sw size -> Z.of_nat (length l) * size <= 2 ^ 30 ->
  ∃ l', sort (concat l) (Z.of_nat (length l)) size cmp sw = Some (concat l') ∧ l' ≡ₚ l ∧ uniform size l' ∧
    ∀ i j, (i < j < length l')%nat -> 0 <= cmp (l' !!! j) (l' !!! i).
Proof.
  intros Hc Hs Hu Hsw Hb. exists (hsort cmp l). destruct (hsort_sorted cmp l) as [Hp Hperm].
  split_and!; [by apply sort_refines|done|by apply (uniform_perm _ _ l)|]. intros i j Hij. apply Hp; lia.
Qed.

(** * Four-byte little-endian integers *)

Module SortDemo.
(** The comparison of the regression test in the source: [*a - *b]. *)
Definition word (x : elem) : Z :=
  match x with [a; b; c; d] => a + 256 * b + 65536 * c + 16777216 * d | _ => 0 end.
Definition cmpint (x y : elem) : Z := word x - word y.

#[export] Instance cmpint_comparison : Comparison cmpint.
Proof. split; unfold cmpint; lia. Qed.

Definition input : list elem := [[9; 1; 0; 0]; [3; 0; 0; 0]; [7; 0; 0; 0]; [3; 0; 0; 0]; [1; 0; 2; 0]; [0; 0; 0; 0]].

Example sort_input : sort (concat input) 6 4 cmpint None =
  Some (concat [[0; 0; 0; 0]; [3; 0; 0; 0]; [3; 0; 0; 0]; [7; 0; 0; 0]; [9; 1; 0; 0]; [1; 0; 2; 0]]).
Proof. vm_compute. reflexivity. Qed.

Lemma sort_correct_witness :
  ∃ l', sort (concat input) 6 4 cmpint None = Some (concat l') ∧ l' ≡ₚ input ∧ uniform 4 l' ∧
    ∀ i j, (i < j < length l')%nat -> 0 <= cmpint (l' !!! j) (l' !!! i).
Proof.
  apply (sort_correct input 4 cmpint None cmpint_comparison); [lia|by repeat constructor|exact I|by vm_compute].
Defined.
End SortDemo.
