(* ===== verification/Bitmap.v ===== *)
(** lib/bitmap.c: bit arrays in arrays of 32-bit words.

    A bitmap is the list of its words; an access outside it is a fault.
    Destination and operands may be the same array, which the model keeps: an
    operand is a separate array or the destination itself. *)

From S2P Require Import Prelude Bitops.

Abbreviation bitmap := (list Z).

Definition BITS_PER_LONG : Z := 32.
Definition BITS_TO_LONGS (bits : Z) : Z := (bits + BITS_PER_LONG - 1) / BITS_PER_LONG.
Definition BITMAP_LAST_WORD_MASK (nbits : Z) : Z :=
  if nbits mod BITS_PER_LONG =? 0 then Z.ones 32 else u32 (Z.shiftl 1 (nbits mod BITS_PER_LONG) - 1).

(** * Reading loops *)

(** [for (k = k0; k < k0 + n; ++k) if (test) return]: whether the loop
    returns early. *)
Fixpoint scan (test : nat -> option bool) (k n : nat) : option bool :=
  match n with
  | O => Some false
  | S n => b ← test k; if (b : bool) then Some true else scan test (S k) n
  end.

(** The shape of the predicates: the whole words, then the masked last one. *)
Definition any_word (test : nat -> option bool) (last : nat -> option Z) (bits : Z) : option bool :=
  let lim := Z.to_nat (bits / BITS_PER_LONG) in
  hit ← scan test 0 lim;
  if (hit : bool) then Some true
  else if bits mod BITS_PER_LONG =? 0 then Some false
  else w ← last lim; Some (tst w (BITMAP_LAST_WORD_MASK bits)).

Definition bitmap_empty (m : bitmap) (bits : Z) : option Z :=
  hit ← any_word (λ k, w ← m !! k; Some (negb (w =? 0))) (λ k, m !! k) bits;
  Some (if (hit : bool) then 0 else 1).

Definition bitmap_full (m : bitmap) (bits : Z) : option Z :=
  hit ← any_word (λ k, w ← m !! k; Some (negb (not32 w =? 0))) (λ k, w ← m !! k; Some (not32 w)) bits;
  Some (if (hit : bool) then 0 else 1).

Definition bitmap_equal (m1 m2 : bitmap) (bits : Z) : option Z :=
  hit ← any_word (λ k, w1 ← m1 !! k; w2 ← m2 !! k; Some (negb (w1 =? w2)))
    (λ k, w1 ← m1 !! k; w2 ← m2 !! k; Some (Z.lxor w1 w2)) bits;
  Some (if (hit : bool) then 0 else 1).

Definition bitmap_intersects (m1 m2 : bitmap) (bits : Z) : option Z :=
  hit ← any_word (λ k, w1 ← m1 !! k; w2 ← m2 !! k; Some (negb (Z.land w1 w2 =? 0)))
    (λ k, w1 ← m1 !! k; w2 ← m2 !! k; Some (Z.land w1 w2)) bits;
  Some (if (hit : bool) then 1 else 0).

Definition bitmap_subset (m1 m2 : bitmap) (bits : Z) : option Z :=
  hit ← any_word (λ k, w1 ← m1 !! k; w2 ← m2 !! k; Some (negb (Z.land w1 (not32 w2) =? 0)))
    (λ k, w1 ← m1 !! k; w2 ← m2 !! k; Some (Z.land w1 (not32 w2))) bits;
  Some (if (hit : bool) then 0 else 1).

Fixpoint weight_words (m : bitmap) (k n : nat) (w : Z) : option Z :=
  match n with
  | O => Some w
  | S n => x ← m !! k; weight_words m (S k) n (s32 (w + hweight32 x))
  end.

Definition bitmap_weight (m : bitmap) (bits : Z) : option Z :=
  let lim := Z.to_nat (bits / BITS_PER_LONG) in
  w ← weight_words m 0 lim 0;
  if bits mod BITS_PER_LONG =? 0 then Some w
  else x ← m !! lim; Some (s32 (w + hweight32 (Z.land x (BITMAP_LAST_WORD_MASK bits)))).

(** * Writing loops *)

Inductive operand := Own (m : bitmap) | Dst.
Definition opnd (dst : bitmap) (o : operand) : bitmap := match o with Own m => m | Dst => dst end.

Definition setw (dst : bitmap) (k : nat) (v : Z) : option bitmap :=
  if (k <? length dst)%nat then Some (<[k := v]> dst) else None.

Fixpoint for_up (body : nat -> bitmap -> option bitmap) (k n : nat) (dst : bitmap) : option bitmap :=
  match n with
  | O => Some dst
  | S n => dst ← body k dst; for_up body (S k) n dst
  end.

(** [for (k = n - 1; k >= 0; --k)] *)
Fixpoint for_down (body : nat -> bitmap -> option bitmap) (n : nat) (dst : bitmap) : option bitmap :=
  match n with
  | O => Some dst
  | S n => dst ← body n dst; for_down body n dst
  end.

Definition bitmap_complement (dst : bitmap) (src : operand) (bits : Z) : option bitmap :=
  let lim := Z.to_nat (bits / BITS_PER_LONG) in
  dst ← for_up (λ k dst, w ← opnd dst src !! k; setw dst k (not32 w)) 0 lim dst;
  if bits mod BITS_PER_LONG =? 0 then Some dst
  else w ← opnd dst src !! lim; setw dst lim (Z.land (not32 w) (BITMAP_LAST_WORD_MASK bits)).

(** [dst[k] = f(bitmap1[k], bitmap2[k])] for all words. *)
Definition bitmap_op (f : Z -> Z -> Z) (dst : bitmap) (m1 m2 : operand) (bits : Z) : option bitmap :=
  for_up (λ k dst, w1 ← opnd dst m1 !! k; w2 ← opnd dst m2 !! k; setw dst k (f w1 w2))
    0 (Z.to_nat (BITS_TO_LONGS bits)) dst.

Definition bitmap_and := bitmap_op Z.land.
Definition bitmap_or := bitmap_op Z.lor.
Definition bitmap_xor := bitmap_op Z.lxor.
Definition bitmap_andnot := bitmap_op (λ w1 w2, Z.land w1 (not32 w2)).

(** [memset(&dst[k], 0, n * sizeof(unsigned long))] *)
Definition clear_words (dst : bitmap) (k n : Z) : option bitmap :=
  if (0 <=? k) && (0 <=? n) && (k + n <=? Z.of_nat (length dst))
  then Some (take (Z.to_nat k) dst ++ replicate (Z.to_nat n) 0 ++ drop (Z.to_nat (k + n)) dst) else None.

Definition bitmap_shift_right (dst : bitmap) (src : operand) (shift bits : Z) : option bitmap :=
  let lim := BITS_TO_LONGS bits in
  let left := bits mod BITS_PER_LONG in
  let off := shift / BITS_PER_LONG in
  let rem := shift mod BITS_PER_LONG in
  let mask := u32 (Z.shiftl 1 left - 1) in
  let rd dst k := opnd dst src !! Z.to_nat k in
  dst ← for_up (λ k dst,
    let k := Z.of_nat k in
    upper ← (if (rem =? 0) || (lim <=? off + k + 1) then Some 0
             else u ← rd dst (off + k + 1);
                  Some (if (off + k + 1 =? lim - 1) && negb (left =? 0) then Z.land u mask else u));
    lower ← rd dst (off + k);
    let lower := if negb (left =? 0) && (off + k =? lim - 1) then Z.land lower mask else lower in
    let v := Z.lor (u32 (Z.shiftl upper (BITS_PER_LONG - rem))) (Z.shiftr lower rem) in
    let v := if negb (left =? 0) && (k =? lim - 1) then Z.land v mask else v in
    setw dst (Z.to_nat k) v) 0 (Z.to_nat (lim - off)) dst;
  if off =? 0 then Some dst else clear_words dst (lim - off) off.

Definition bitmap_shift_left (dst : bitmap) (src : operand) (shift bits : Z) : option bitmap :=
  let lim := BITS_TO_LONGS bits in
  let left := bits mod BITS_PER_LONG in
  let off := shift / BITS_PER_LONG in
  let rem := shift mod BITS_PER_LONG in
  let mask := u32 (Z.shiftl 1 left - 1) in
  let rd dst k := opnd dst src !! Z.to_nat k in
  dst ← for_down (λ k dst,
    let k := Z.of_nat k in
    lower ← (if negb (rem =? 0) && (0 <? k) then rd dst (k - 1) else Some 0);
    upper ← rd dst k;
    let upper := if negb (left =? 0) && (k =? lim - 1) then Z.land upper mask else upper in
    let v := Z.lor (Z.shiftr lower (BITS_PER_LONG - rem)) (u32 (Z.shiftl upper rem)) in
    let v := if negb (left =? 0) && (k + off =? lim - 1) then Z.land v mask else v in
    setw dst (Z.to_nat (k + off)) v) (Z.to_nat (lim - off)) dst;
  if off =? 0 then Some dst else clear_words dst 0 off.

(** * Regions *)

Inductive reg_op := REG_OP_ISFREE | REG_OP_ALLOC | REG_OP_RELEASE.

(** The words a region covers and its bits in each of them; [int] arithmetic
    does not overflow for orders up to 30. *)
Definition reg_index (pos : Z) : Z := pos / BITS_PER_LONG.
Definition reg_longs (order : Z) : Z := BITS_TO_LONGS (Z.shiftl 1 order).
Definition reg_mask (pos order : Z) : Z :=
  let nbits_reg := Z.shiftl 1 order in
  let offset := pos - reg_index pos * BITS_PER_LONG in
  let nbitsinlong := Z.min nbits_reg BITS_PER_LONG in
  let mask := u32 (Z.shiftl 1 (nbitsinlong - 1)) in
  let mask := u32 (mask + (mask - 1)) in
  u32 (Z.shiftl mask offset).

(** __reg_op *)
Definition reg_op_ (m : bitmap) (pos order : Z) (op : reg_op) : option (Z * bitmap) :=
  let index := Z.to_nat (reg_index pos) in
  let nlongs_reg := Z.to_nat (reg_longs order) in
  let mask := reg_mask pos order in
  match op with
  | REG_OP_ISFREE =>
      hit ← scan (λ k, w ← m !! k; Some (tst w mask)) index nlongs_reg;
      Some (if (hit : bool) then 0 else 1, m)
  | REG_OP_ALLOC =>
      m ← for_up (λ k m, w ← m !! k; setw m k (Z.lor w mask)) index nlongs_reg m;
      Some (0, m)
  | REG_OP_RELEASE =>
      m ← for_up (λ k m, w ← m !! k; setw m k (clr w mask)) index nlongs_reg m;
      Some (0, m)
  end.

(** The search; [fuel] bounds its turns. *)
Fixpoint find_region (fuel : nat) (m : bitmap) (bits order pos : Z) : option Z :=
  match fuel with
  | O => None
  | S fuel =>
      if pos <? bits then
        '(free, _) ← reg_op_ m pos order REG_OP_ISFREE;
        if negb (free =? 0) then Some pos else find_region fuel m bits order (s32 (pos + Z.shiftl 1 order))
      else Some pos
  end.

Definition bitmap_find_free_region (m : bitmap) (bits order : Z) : option (Z * bitmap) :=
  pos ← find_region (S (Z.to_nat bits)) m bits order 0;
  if pos =? bits then Some (- ENOMEM, m)
  else '(_, m) ← reg_op_ m pos order REG_OP_ALLOC; Some (pos, m).

Definition bitmap_release_region (m : bitmap) (pos order : Z) : option bitmap :=
  '(_, m) ← reg_op_ m pos order REG_OP_RELEASE; Some m.

Definition bitmap_allocate_region (m : bitmap) (pos order : Z) : option (Z * bitmap) :=
  '(free, _) ← reg_op_ m pos order REG_OP_ISFREE;
  if free =? 0 then Some (- EBUSY, m)
  else '(_, m) ← reg_op_ m pos order REG_OP_ALLOC; Some (0, m).

(** * Bits *)

(** Bit [i] of a bitmap. *)
Definition bit (m : bitmap) (i : Z) : bool := Z.testbit (m !!! Z.to_nat (i / 32)) (i mod 32).

(** A bitmap that holds [bits] bits. *)
Definition holds (bits : Z) (m : bitmap) : Prop :=
  0 <= bits < 2 ^ 31 ∧ BITS_TO_LONGS bits <= Z.of_nat (length m) ∧ Forall (in_u 32) m.

(** A C truth value that decides a property. *)
Definition decides (o : option Z) (P : Prop) : Prop := (o = Some 1 ∧ P) ∨ (o = Some 0 ∧ ¬ P).

Section Bits.
Implicit Types (m dst : bitmap) (bits i : Z).

Lemma longs_bounds bits : 0 <= bits ->
  bits <= 32 * BITS_TO_LONGS bits < bits + 32 ∧ 0 <= BITS_TO_LONGS bits ∧
  (bits mod 32 = 0 -> BITS_TO_LONGS bits = bits / 32) ∧ (bits mod 32 <> 0 -> BITS_TO_LONGS bits = bits / 32 + 1).
Proof. intros Hb. unfold BITS_TO_LONGS, BITS_PER_LONG. Z.to_euclidean_division_equations. lia. Qed.

Lemma word_u32 m k : Forall (in_u 32) m -> in_u 32 (m !!! k).
Proof.
  intros Hm. rewrite list_lookup_total_alt. destruct (m !! k) as [w|] eqn:E; [|by vm_compute].
  rewrite Forall_lookup in Hm. by apply (Hm k).
Qed.

Lemma bit_word m (k : nat) b : 0 <= b < 32 -> bit m (32 * Z.of_nat k + b) = Z.testbit (m !!! k) b.
Proof.
  intros Hb. unfold bit. replace ((32 * Z.of_nat k + b) / 32) with (Z.of_nat k) by (Z.to_euclidean_division_equations; lia).
  replace ((32 * Z.of_nat k + b) mod 32) with b by (Z.to_euclidean_division_equations; lia). by rewrite Nat2Z.id.
Qed.

Lemma holds_lookup bits m k : holds bits m -> Z.of_nat k < BITS_TO_LONGS bits -> m !! k = Some (m !!! k).
Proof. intros (_ & Hl & _) Hk. apply list_lookup_lookup_total_lt. lia. Qed.

Lemma not32_bit w b : 0 <= b < 32 -> Z.testbit (not32 w) b = negb (Z.testbit w b).
Proof.
  intros Hb. unfold not32, u32. rewrite wrap_testbit, Z.lnot_spec by lia. destruct (Z.ltb_spec b 32); [done|lia].
Qed.

Lemma last_mask_testbit bits b : 0 <= b < 32 ->
  Z.testbit (BITMAP_LAST_WORD_MASK bits) b = (bits mod 32 =? 0) || (b <? bits mod 32).
Proof.
  intros Hb. unfold BITMAP_LAST_WORD_MASK, BITS_PER_LONG. pose proof (Z.mod_pos_bound bits 32).
  destruct (Z.eqb_spec (bits mod 32) 0) as [H0|H0]; simpl.
  - rewrite Z.testbit_ones_nonneg by lia. destruct (Z.ltb_spec b 32); [done|lia].
  - rewrite Z.shiftl_1_l. unfold u32. rewrite wrap_testbit by lia.
    replace (2 ^ (bits mod 32) - 1) with (Z.ones (bits mod 32)) by (rewrite Z.ones_equiv; lia).
    rewrite Z.testbit_ones_nonneg by lia. destruct (Z.ltb_spec b 32); [done|lia].
Qed.

Lemma tst_bits w v : in_u 32 w -> tst w v = true <-> ∃ b, 0 <= b < 32 ∧ Z.testbit w b = true ∧ Z.testbit v b = true.
Proof.
  intros Hw. unfold tst. rewrite negb_true_iff, Z.eqb_neq. split.
  - intros Hn. destruct (decide (0 <= Z.land w v)) as [Hp|Hp].
    + destruct (nonzero_bit 32 (Z.land w v)) as (b & Hb & Hbit); [|done|].
      * apply in_u_bits; [lia|done|]. intros i Hi. rewrite Z.land_spec, (testbit_high 32 w) by done. done.
      * exists b. rewrite Z.land_spec in Hbit. by apply andb_true_iff in Hbit.
    + exfalso. apply Hp. apply Z.land_nonneg. left. apply Hw.
  - intros (b & Hb & H1 & H2) H0. assert (Z.testbit (Z.land w v) b = false) as Hz by by rewrite H0, Z.bits_0.
    by rewrite Z.land_spec, H1, H2 in Hz.
Qed.

Lemma nonzero_bits w : in_u 32 w -> negb (w =? 0) = true <-> ∃ b, 0 <= b < 32 ∧ Z.testbit w b = true.
Proof.
  intros Hw. rewrite negb_true_iff, Z.eqb_neq. split; [by apply nonzero_bit|].
  intros (b & _ & Hb) ->. by rewrite Z.bits_0 in Hb.
Qed.

(** ** Early-return scans *)

Lemma scan_spec (test : nat -> option bool) (t : nat -> bool) k n :
  (∀ j, (k <= j < k + n)%nat -> test j = Some (t j)) ->
  ∃ h, scan test k n = Some h ∧ (h = true <-> ∃ j, (k <= j < k + n)%nat ∧ t j = true).
Proof.
  revert k. induction n as [|n IH]; intros k Ht.
  - exists false. split; [done|]. split; [done|]. intros (j & Hj & _). lia.
  - cbn [scan]. rewrite Ht by lia. cbn [mbind option_bind]. destruct (t k) eqn:Hk.
    + exists true. split; [done|]. split; [|done]. intros _. exists k. split; [lia|done].
    + destruct (IH (S k)) as (h & -> & Hh); [intros j Hj; apply Ht; lia|]. exists h. split; [done|].
      rewrite Hh. split; intros (j & Hj & Htj); exists j; (split; [|done]); [lia|].
      destruct (decide (j = k)) as [->|]; [congruence|lia].
Qed.

(** The whole-words-then-last-word scan finds a bit of [v] below [bits]. *)
Lemma any_word_spec (test : nat -> option bool) (last : nat -> option Z) (v : nat -> Z) bits : 0 <= bits ->
  (∀ k, Z.of_nat k < BITS_TO_LONGS bits -> in_u 32 (v k) ∧ test k = Some (negb (v k =? 0)) ∧ last k = Some (v k)) ->
  ∃ h, any_word test last bits = Some h ∧
    (h = true <-> ∃ i, 0 <= i < bits ∧ Z.testbit (v (Z.to_nat (i / 32))) (i mod 32) = true).
Proof.
  intros Hb Hv. destruct (longs_bounds bits Hb) as (Hlb & Hl0 & He & Hne). unfold any_word, BITS_PER_LONG.
  set (lim := Z.to_nat (bits / 32)). assert (0 <= bits / 32) as Hd by (apply Z.div_pos; lia).
  destruct (scan_spec test (λ k, negb (v k =? 0)) 0 lim) as (h & -> & Hh).
  { intros j Hj. apply Hv. destruct (decide (bits mod 32 = 0)); [rewrite He by done|rewrite Hne by done]; lia. }
  cbn [mbind option_bind].
  assert (h = true <-> ∃ i, 0 <= i < 32 * (bits / 32) ∧ Z.testbit (v (Z.to_nat (i / 32))) (i mod 32) = true) as Hh'.
  { rewrite Hh. split.
    - intros (j & Hj & Hnz). apply nonzero_bits in Hnz as (b & Hb' & Hbit).
      + exists (32 * Z.of_nat j + b). split; [lia|].
        replace ((32 * Z.of_nat j + b) / 32) with (Z.of_nat j) by (Z.to_euclidean_division_equations; lia).
        replace ((32 * Z.of_nat j + b) mod 32) with b by (Z.to_euclidean_division_equations; lia). by rewrite Nat2Z.id.
      + apply Hv. lia.
    - intros (i & Hi & Hbit). exists (Z.to_nat (i / 32)). assert (0 <= i / 32 < bits / 32) as Hid by (Z.to_euclidean_division_equations; lia).
      split; [lia|]. apply nonzero_bits; [apply Hv; lia|]. exists (i mod 32). split; [by apply Z.mod_pos_bound|done]. }
  destruct (Z.eqb_spec (bits mod 32) 0) as [H0|H0].
  - exists h. assert (bits = 32 * (bits / 32)) as Hbb by (Z.to_euclidean_division_equations; lia). rewrite <- Hbb in Hh'.
    split; [|done]. by destruct h.
  - destruct (Hv lim) as (Hw & _ & ->); [lia|]. cbn [mbind option_bind]. destruct h.
    + exists true. split; [done|]. split; [|done]. intros _. destruct (proj1 Hh' eq_refl) as (i & Hi & Hbit).
      exists i. split; [|done]. Z.to_euclidean_division_equations. lia.
    + eexists. split; [done|]. rewrite tst_bits by done. split.
      * intros (b & Hb' & Hbit & Hm). rewrite last_mask_testbit in Hm by done.
        destruct (Z.eqb_spec (bits mod 32) 0); [done|]. simpl in Hm. apply Z.ltb_lt in Hm.
        exists (32 * (bits / 32) + b). split; [Z.to_euclidean_division_equations; lia|].
        replace ((32 * (bits / 32) + b) / 32) with (bits / 32) by (Z.to_euclidean_division_equations; lia).
        replace ((32 * (bits / 32) + b) mod 32) with b by (Z.to_euclidean_division_equations; lia). done.
      * intros (i & Hi & Hbit). destruct (decide (i < 32 * (bits / 32))) as [Hlt|Hge].
        { exfalso. assert (false = true); [|done]. apply Hh'. exists i. split; [lia|done]. }
        assert (i / 32 = bits / 32) as Hq by (Z.to_euclidean_division_equations; lia).
        exists (i mod 32). split; [by apply Z.mod_pos_bound|]. rewrite Hq in Hbit. split; [done|].
        rewrite last_mask_testbit by (by apply Z.mod_pos_bound). destruct (Z.eqb_spec (bits mod 32) 0); [done|]. simpl.
        apply Z.ltb_lt. Z.to_euclidean_division_equations. lia.
Qed.
End Bits.

(** * The predicates *)

Section Predicates.
Implicit Types (m : bitmap).

(** From a scan to a truth value. *)
Lemma decides_none o (h : bool) (P : Z -> bool) bits :
  o = Some h -> (h = true <-> ∃ i, 0 <= i < bits ∧ P i = true) ->
  decides (hit ← o; Some (if (hit : bool) then 0 else 1)) (∀ i, 0 <= i < bits -> P i = false).
Proof.
  intros -> Hh. cbn [mbind option_bind]. destruct h; [right|left]; (split; [done|]).
  - destruct (proj1 Hh eq_refl) as (i & Hi & Hp). intros Hall. by rewrite Hall in Hp.
  - intros i Hi. destruct (P i) eqn:E; [|done]. assert (false = true); [|done]. apply Hh. by exists i.
Qed.

Lemma decides_proper o P Q : (P <-> Q) -> decides o P -> decides o Q.
Proof. unfold decides. tauto. Qed.

Lemma index_word bits i : 0 <= bits -> 0 <= i < bits ->
  Z.of_nat (Z.to_nat (i / 32)) < BITS_TO_LONGS bits ∧ 0 <= i mod 32 < 32.
Proof.
  intros Hb Hi. destruct (longs_bounds bits Hb) as (Hl & _). split; [|by apply Z.mod_pos_bound].
  Z.to_euclidean_division_equations. lia.
Qed.

(** The bitmap predicates decide what they are named after: whether no
    bit, every bit, or the same bits of the first [bits] are set, whether the
    two sets meet, and whether one contains the other.  The unused bits of
    the last word never matter, and no word outside the bitmaps is read. *)
Theorem bitmap_predicates bits m1 m2 : holds bits m1 -> holds bits m2 ->
  decides (bitmap_empty m1 bits) (∀ i, 0 <= i < bits -> bit m1 i = false) ∧
  decides (bitmap_full m1 bits) (∀ i, 0 <= i < bits -> bit m1 i = true) ∧
  decides (bitmap_equal m1 m2 bits) (∀ i, 0 <= i < bits -> bit m1 i = bit m2 i) ∧
  decides (bitmap_intersects m1 m2 bits) (∃ i, 0 <= i < bits ∧ bit m1 i = true ∧ bit m2 i = true) ∧
  decides (bitmap_subset m1 m2 bits) (∀ i, 0 <= i < bits -> bit m1 i = true -> bit m2 i = true).
Proof.
  intros H1 H2. pose proof (proj1 (proj1 H1)) as Hb. pose proof H1 as (_ & _ & Hu1). pose proof H2 as (_ & _ & Hu2).
  assert (∀ k, Z.of_nat k < BITS_TO_LONGS bits -> m1 !! k = Some (m1 !!! k)) as L1 by by (intros; eapply holds_lookup).
  assert (∀ k, Z.of_nat k < BITS_TO_LONGS bits -> m2 !! k = Some (m2 !!! k)) as L2 by by (intros; eapply holds_lookup).
  assert (∀ k, in_u 32 (m1 !!! k)) as U1 by (intros; by apply word_u32).
  assert (∀ k, in_u 32 (m2 !!! k)) as U2 by (intros; by apply word_u32).
  assert (∀ a c, in_u 32 a -> in_u 32 c -> in_u 32 (Z.lxor a c)) as Hx.
  { intros a c Ha Hc. apply in_u_bits; [lia|apply Z.lxor_nonneg; destruct Ha, Hc; lia|].
    intros i Hi. by rewrite Z.lxor_spec, (testbit_high 32 a), (testbit_high 32 c). }
  split_and!.
  - destruct (any_word_spec (λ k, w ← m1 !! k; Some (negb (w =? 0))) (λ k, m1 !! k) (λ k, m1 !!! k) bits Hb)
      as (h & Hh & Hiff); [intros k Hk; by rewrite L1|]. by apply (decides_none _ h (bit m1)).
  - destruct (any_word_spec (λ k, w ← m1 !! k; Some (negb (not32 w =? 0))) (λ k, w ← m1 !! k; Some (not32 w))
      (λ k, not32 (m1 !!! k)) bits Hb) as (h & Hh & Hiff);
      [intros k Hk; rewrite L1 by done; split; [apply u32_range|done]|].
    eapply decides_proper; [|apply (decides_none _ h (λ i, Z.testbit (not32 (m1 !!! Z.to_nat (i / 32))) (i mod 32)) bits Hh Hiff)].
    apply forall_proper; intros i. split; intros Hi Hr; specialize (Hi Hr);
      destruct (index_word bits i Hb Hr) as [_ Hm]; rewrite not32_bit in * by done; unfold bit in *; by destruct (Z.testbit _ _).
  - destruct (any_word_spec (λ k, w1 ← m1 !! k; w2 ← m2 !! k; Some (negb (w1 =? w2)))
      (λ k, w1 ← m1 !! k; w2 ← m2 !! k; Some (Z.lxor w1 w2)) (λ k, Z.lxor (m1 !!! k) (m2 !!! k)) bits Hb) as (h & Hh & Hiff).
    { intros k Hk. rewrite L1, L2 by done. split; [by apply Hx|]. split; [|done]. simpl. do 2 f_equal.
      apply eq_true_iff_eq. by rewrite !Z.eqb_eq, Z.lxor_eq_0_iff. }
    eapply decides_proper; [|apply (decides_none _ h
      (λ i, Z.testbit (Z.lxor (m1 !!! Z.to_nat (i / 32)) (m2 !!! Z.to_nat (i / 32))) (i mod 32)) bits Hh Hiff)].
    apply forall_proper; intros i. unfold bit. rewrite Z.lxor_spec.
    split; intros Hi Hr; specialize (Hi Hr); destruct (Z.testbit _ _), (Z.testbit _ _); done.
  - destruct (any_word_spec (λ k, w1 ← m1 !! k; w2 ← m2 !! k; Some (negb (Z.land w1 w2 =? 0)))
      (λ k, w1 ← m1 !! k; w2 ← m2 !! k; Some (Z.land w1 w2)) (λ k, Z.land (m1 !!! k) (m2 !!! k)) bits Hb) as (h & Hh & Hiff).
    { intros k Hk. rewrite L1, L2 by done. split; [|done]. apply land_in_u; [lia|done|apply U2]. }
    unfold bitmap_intersects. rewrite Hh. cbn [mbind option_bind].
    assert (h = true <-> ∃ i, 0 <= i < bits ∧ bit m1 i = true ∧ bit m2 i = true) as Hi.
    { rewrite Hiff. apply exist_proper; intros i. unfold bit. by rewrite Z.land_spec, andb_true_iff. }
    destruct h; [left|right]; (split; [done|]); [by apply Hi|intros Hn; by apply Hi in Hn].
  - destruct (any_word_spec (λ k, w1 ← m1 !! k; w2 ← m2 !! k; Some (negb (Z.land w1 (not32 w2) =? 0)))
      (λ k, w1 ← m1 !! k; w2 ← m2 !! k; Some (Z.land w1 (not32 w2))) (λ k, Z.land (m1 !!! k) (not32 (m2 !!! k))) bits Hb)
      as (h & Hh & Hiff).
    { intros k Hk. rewrite L1, L2 by done. split; [|done]. apply land_in_u; [lia|done|apply u32_range]. }
    eapply decides_proper; [|apply (decides_none _ h
      (λ i, Z.testbit (Z.land (m1 !!! Z.to_nat (i / 32)) (not32 (m2 !!! Z.to_nat (i / 32)))) (i mod 32)) bits Hh Hiff)].
    apply forall_proper; intros i. unfold bit.
    split; intros Hi Hr; specialize (Hi Hr); destruct (index_word bits i Hb Hr) as [_ Hm];
      rewrite Z.land_spec, not32_bit in * by done; destruct (Z.testbit _ _), (Z.testbit _ _); naive_solver.
Qed.
End Predicates.

(** * Writing loops *)

Section Loops.
Implicit Types (dst : bitmap).

Lemma setw_Some dst k v : (k < length dst)%nat -> setw dst k v = Some (<[k := v]> dst).
Proof. intros Hk. unfold setw. destruct (Nat.ltb_spec k (length dst)); [done|lia]. Qed.

(** An ascending loop that writes word [k] at turn [k], whatever it reads at
    or above [k]. *)
Lemma for_up_spec body (v : nat -> Z) k n d0 :
  (∀ j d, (k <= j < k + n)%nat -> length d = length d0 -> (∀ i, (j <= i)%nat -> d !!! i = d0 !!! i) ->
     body j d = Some (<[j := v j]> d)) ->
  (k + n <= length d0)%nat ->
  ∃ d', for_up body k n d0 = Some d' ∧ length d' = length d0 ∧
    ∀ i, d' !!! i = if decide (k <= i < k + n)%nat then v i else d0 !!! i.
Proof.
  intros Hbody Hlen.
  assert (∀ n' j d, (k <= j)%nat -> (j + n' = k + n)%nat -> length d = length d0 ->
    (∀ i, d !!! i = if decide (k <= i < j)%nat then v i else d0 !!! i) ->
    ∃ d', for_up body j n' d = Some d' ∧ length d' = length d0 ∧
      ∀ i, d' !!! i = if decide (k <= i < k + n)%nat then v i else d0 !!! i) as Hgen.
  { induction n' as [|n' IH]; intros j d Hj Hn Hl Hd.
    - exists d. split_and!; [done|done|]. intros i. rewrite Hd. by replace j with (k + n)%nat by lia.
    - cbn [for_up]. rewrite Hbody; [|lia|done|]. 2: { intros i Hi. rewrite Hd, decide_False by lia. done. }
      cbn [mbind option_bind]. apply IH; [lia|lia|by rewrite length_insert|]. intros i.
      destruct (decide (i = j)) as [->|Hij].
      + rewrite list_lookup_total_insert_eq by lia. by rewrite decide_True by lia.
      + rewrite list_lookup_total_insert_ne, Hd by lia. repeat case_decide; lia || done. }
  apply (Hgen n k d0); [lia|lia|done|]. intros i. rewrite decide_False by lia. done.
Qed.

(** A descending loop that writes word [k + off] at turn [k], whatever it
    reads at or below that. *)
Lemma for_down_spec body (v : nat -> Z) off n d0 :
  (∀ j d, (j < n)%nat -> length d = length d0 -> (∀ i, (i <= j + off)%nat -> d !!! i = d0 !!! i) ->
     body j d = Some (<[(j + off)%nat := v j]> d)) ->
  (off + n <= length d0)%nat ->
  ∃ d', for_down body n d0 = Some d' ∧ length d' = length d0 ∧
    ∀ i, d' !!! i = if decide (off <= i < off + n)%nat then v (i - off)%nat else d0 !!! i.
Proof.
  intros Hbody Hlen.
  assert (∀ n' d, (n' <= n)%nat -> length d = length d0 ->
    (∀ i, d !!! i = if decide (off + n' <= i < off + n)%nat then v (i - off)%nat else d0 !!! i) ->
    ∃ d', for_down body n' d = Some d' ∧ length d' = length d0 ∧
      ∀ i, d' !!! i = if decide (off <= i < off + n)%nat then v (i - off)%nat else d0 !!! i) as Hgen.
  { induction n' as [|n' IH]; intros d Hn Hl Hd.
    - exists d. split_and!; [done|done|]. intros i. rewrite Hd. by rewrite Nat.add_0_r.
    - cbn [for_down]. rewrite Hbody; [|lia|done|]. 2: { intros i Hi. rewrite Hd, decide_False by lia. done. }
      cbn [mbind option_bind]. apply IH; [lia|by rewrite length_insert|]. intros i.
      destruct (decide (i = n' + off)%nat) as [->|Hij].
      + rewrite list_lookup_total_insert_eq by lia. rewrite decide_True by lia. f_equal. lia.
      + rewrite list_lookup_total_insert_ne, Hd by lia. repeat case_decide; lia || done. }
  apply (Hgen n d0); [lia|done|]. intros i. rewrite decide_False by lia. done.
Qed.

Lemma clear_words_spec dst k n : 0 <= k -> 0 <= n -> k + n <= Z.of_nat (length dst) ->
  ∃ d', clear_words dst k n = Some d' ∧ length d' = length dst ∧
    ∀ i, d' !!! i = if decide (k <= Z.of_nat i < k + n) then 0 else dst !!! i.
Proof.
  intros Hk Hn Hl. unfold clear_words. destruct (Z.leb_spec 0 k); [|lia]. destruct (Z.leb_spec 0 n); [|lia].
  destruct (Z.leb_spec (k + n) (Z.of_nat (length dst))); [|lia]. cbn [andb]. eexists. split; [done|]. split.
  - rewrite !length_app, length_take, length_replicate, length_drop. lia.
  - intros i. destruct (decide (i < Z.to_nat k)%nat) as [|Hge].
    + rewrite lookup_total_app_l by (rewrite length_take; lia). rewrite lookup_total_take, decide_True by lia.
      rewrite decide_False by lia. done.
    + rewrite lookup_total_app_r by (rewrite length_take; lia). rewrite length_take.
      destruct (decide (Z.of_nat i < k + n)).
      * rewrite lookup_total_app_l by (rewrite length_replicate; lia). rewrite decide_True by lia.
        apply lookup_total_replicate_2. lia.
      * rewrite lookup_total_app_r by (rewrite length_replicate; lia). rewrite length_replicate, lookup_total_drop.
        rewrite decide_False by lia. f_equal. lia.
Qed.
End Loops.

(** * Logical operations *)

Section Logic.
Implicit Types (dst m : bitmap) (o : operand).

(** A word of an operand that this loop has not written yet. *)
Lemma opnd_read bits d d0 o k : holds bits (opnd d0 o) -> Z.of_nat k < BITS_TO_LONGS bits ->
  length d = length d0 -> d !!! k = d0 !!! k -> opnd d o !! k = Some (opnd d0 o !!! k).
Proof.
  intros Hh Hk Hl He. destruct o as [m|]; simpl in *; [by eapply holds_lookup|].
  rewrite <- He. apply list_lookup_lookup_total_lt. destruct Hh as (_ & Hlen & _). lia.
Qed.

Lemma holds_of_words bits d d0 : holds bits d0 -> length d = length d0 -> (∀ k, in_u 32 (d !!! k)) -> holds bits d.
Proof.
  intros (Hb & Hl & _) He Hw. split; [done|]. split; [lia|]. apply Forall_lookup. intros k w Hk.
  apply list_lookup_total_correct in Hk. by rewrite <- Hk.
Qed.

Lemma bitmap_op_spec f (g : bool -> bool -> bool) bits dst o1 o2 :
  (∀ x y, in_u 32 x -> in_u 32 y -> in_u 32 (f x y)) ->
  (∀ x y b, 0 <= b < 32 -> Z.testbit (f x y) b = g (Z.testbit x b) (Z.testbit y b)) ->
  holds bits dst -> holds bits (opnd dst o1) -> holds bits (opnd dst o2) ->
  ∃ d', bitmap_op f dst o1 o2 bits = Some d' ∧ holds bits d' ∧
    ∀ i, 0 <= i < bits -> bit d' i = g (bit (opnd dst o1) i) (bit (opnd dst o2) i).
Proof.
  intros Hf Hg Hd H1 H2. pose proof (proj1 (proj1 Hd)) as Hb. destruct (longs_bounds bits Hb) as (Hlb & Hl0 & _).
  pose proof Hd as (_ & Hlen & Hu). pose proof H1 as (_ & _ & Hu1). pose proof H2 as (_ & _ & Hu2). unfold bitmap_op.
  edestruct (for_up_spec (λ k d, w1 ← opnd d o1 !! k; w2 ← opnd d o2 !! k; setw d k (f w1 w2))
    (λ k, f (opnd dst o1 !!! k) (opnd dst o2 !!! k)) 0 (Z.to_nat (BITS_TO_LONGS bits)) dst) as (d' & Hr & Hl & Hw).
  { intros j d Hj Hld He. rewrite (opnd_read bits d dst o1), (opnd_read bits d dst o2) by (done || lia || by apply He).
    simpl. apply setw_Some. lia. }
  { lia. }
  exists d'. split; [done|]. split.
  - apply (holds_of_words bits d' dst Hd Hl). intros k. rewrite Hw. case_decide; [|by apply word_u32].
    apply Hf; by apply word_u32.
  - intros i Hi. destruct (index_word bits i Hb Hi) as [Hk Hm]. unfold bit. rewrite Hw, decide_True by lia. by apply Hg.
Qed.

Lemma lxor_in_u x y : in_u 32 x -> in_u 32 y -> in_u 32 (Z.lxor x y).
Proof.
  intros Hx Hy. apply in_u_bits; [lia|apply Z.lxor_nonneg; destruct Hx, Hy; lia|].
  intros i Hi. by rewrite Z.lxor_spec, (testbit_high 32 x), (testbit_high 32 y).
Qed.

Lemma bitmap_logic bits dst o1 o2 : holds bits dst -> holds bits (opnd dst o1) -> holds bits (opnd dst o2) ->
  (∃ d, bitmap_and dst o1 o2 bits = Some d ∧ holds bits d ∧
     ∀ i, 0 <= i < bits -> bit d i = bit (opnd dst o1) i && bit (opnd dst o2) i) ∧
  (∃ d, bitmap_or dst o1 o2 bits = Some d ∧ holds bits d ∧
     ∀ i, 0 <= i < bits -> bit d i = bit (opnd dst o1) i || bit (opnd dst o2) i) ∧
  (∃ d, bitmap_xor dst o1 o2 bits = Some d ∧ holds bits d ∧
     ∀ i, 0 <= i < bits -> bit d i = xorb (bit (opnd dst o1) i) (bit (opnd dst o2) i)) ∧
  (∃ d, bitmap_andnot dst o1 o2 bits = Some d ∧ holds bits d ∧
     ∀ i, 0 <= i < bits -> bit d i = bit (opnd dst o1) i && negb (bit (opnd dst o2) i)).
Proof.
  intros Hd H1 H2. split_and!.
  - apply (bitmap_op_spec Z.land andb); try done; intros.
    + apply land_in_u; [lia|done|]. by apply H0.
    + apply Z.land_spec.
  - apply (bitmap_op_spec Z.lor orb); try done; intros; [by apply lor_in_u|apply Z.lor_spec].
  - apply (bitmap_op_spec Z.lxor xorb); try done; intros; [by apply lxor_in_u|apply Z.lxor_spec].
  - apply (bitmap_op_spec _ (λ a b, a && negb b)); try done; intros.
    + apply land_in_u; [lia|done|]. apply u32_range.
    + by rewrite Z.land_spec, not32_bit.
Qed.

(** The complement also clears the unused bits of the last word. *)
Lemma bitmap_complement_spec bits dst o : holds bits dst -> holds bits (opnd dst o) ->
  ∃ d', bitmap_complement dst o bits = Some d' ∧ holds bits d' ∧
    ∀ i, 0 <= i < 32 * BITS_TO_LONGS bits -> bit d' i = (i <? bits) && negb (bit (opnd dst o) i).
Proof.
  intros Hd Ho. pose proof (proj1 (proj1 Hd)) as Hb. destruct (longs_bounds bits Hb) as (Hlb & Hl0 & He & Hne).
  pose proof Hd as (_ & Hlen & Hu). unfold bitmap_complement, BITS_PER_LONG. set (lim := Z.to_nat (bits / 32)).
  assert (0 <= bits / 32) as Hq by (apply Z.div_pos; lia).
  assert (Z.of_nat lim <= BITS_TO_LONGS bits) as Hlim by (destruct (decide (bits mod 32 = 0)); lia).
  edestruct (for_up_spec (λ k d, w ← opnd d o !! k; setw d k (not32 w)) (λ k, not32 (opnd dst o !!! k)) 0 lim dst)
    as (d1 & Hr & Hl & Hw).
  { intros j d Hj Hld Heq. rewrite (opnd_read bits d dst o) by (done || lia || by apply Heq). simpl. apply setw_Some. lia. }
  { lia. }
  rewrite Hr. cbn [mbind option_bind]. destruct (Z.eqb_spec (bits mod 32) 0) as [H0|H0].
  - exists d1. split; [done|]. split.
    + apply (holds_of_words bits d1 dst Hd Hl). intros k. rewrite Hw. case_decide; [apply u32_range|by apply word_u32].
    + intros i Hi. rewrite He in Hi by done. assert (bits = 32 * (bits / 32)) as Hbb by (Z.to_euclidean_division_equations; lia).
      destruct (index_word bits i Hb ltac:(lia)) as [Hk Hm]. rewrite He in Hk by done. unfold bit.
      rewrite Hw, decide_True, not32_bit by lia. destruct (Z.ltb_spec i bits); [done|lia].
  - rewrite (opnd_read bits d1 dst o lim) by (done || lia || (rewrite Hw, decide_False by lia; done)).
    cbn [mbind option_bind]. rewrite setw_Some by lia. eexists. split; [done|]. split.
    + apply (holds_of_words bits _ dst Hd); [by rewrite length_insert|]. intros k. destruct (decide (k = lim)) as [->|].
      * rewrite list_lookup_total_insert_eq by lia. apply land_in_u; [lia|apply u32_range|].
        unfold BITMAP_LAST_WORD_MASK. destruct (_ =? 0); [done|]. apply u32_range.
      * rewrite list_lookup_total_insert_ne, Hw by lia. case_decide; [apply u32_range|by apply word_u32].
    + intros i Hi. rewrite Hne in Hi by done. pose proof (Z.mod_pos_bound i 32 ltac:(lia)) as Hm. unfold bit.
      destruct (decide (i < 32 * (bits / 32))) as [Hlt|Hge].
      * assert (0 <= i / 32 < bits / 32) by (Z.to_euclidean_division_equations; lia).
        rewrite list_lookup_total_insert_ne, Hw, decide_True, not32_bit by lia.
        destruct (Z.ltb_spec i bits); [done|]. Z.to_euclidean_division_equations; lia.
      * assert (i / 32 = bits / 32) as -> by (Z.to_euclidean_division_equations; lia). fold lim.
        rewrite list_lookup_total_insert_eq by lia. rewrite Z.land_spec, not32_bit, last_mask_testbit by done.
        destruct (Z.eqb_spec (bits mod 32) 0); [done|]. simpl. rewrite andb_comm. f_equal.
        apply eq_true_iff_eq. rewrite !Z.ltb_lt. Z.to_euclidean_division_equations. lia.
Qed.
End Logic.

(** * Shifts *)

Section Shifts.
Implicit Types (dst m : bitmap) (o : operand).

(** The word of index [k], with the unused bits of the last word removed. *)
Definition clip (bits k w : Z) : Z :=
  if negb (bits mod 32 =? 0) && (k =? BITS_TO_LONGS bits - 1) then Z.land w (u32 (Z.shiftl 1 (bits mod 32) - 1)) else w.

Lemma clip_testbit bits k w b : 0 <= bits -> 0 <= k < BITS_TO_LONGS bits -> 0 <= b < 32 ->
  Z.testbit (clip bits k w) b = (32 * k + b <? bits) && Z.testbit w b.
Proof.
  intros Hb Hk Hbb. destruct (longs_bounds bits Hb) as (Hl & _ & He & Hne). unfold clip.
  pose proof (last_mask_testbit bits b Hbb) as Hm. unfold BITMAP_LAST_WORD_MASK, BITS_PER_LONG in Hm.
  destruct (Z.eqb_spec (bits mod 32) 0) as [H0|H0]; cbn [negb andb orb] in *.
  - rewrite He in Hk by done. destruct (Z.ltb_spec (32 * k + b) bits); [done|]. Z.to_euclidean_division_equations; lia.
  - destruct (Z.eqb_spec k (BITS_TO_LONGS bits - 1)) as [->|Hkn].
    + rewrite Z.land_spec, Hm, andb_comm. f_equal. rewrite Hne by done.
      apply eq_true_iff_eq. rewrite !Z.ltb_lt. Z.to_euclidean_division_equations. lia.
    + destruct (Z.ltb_spec (32 * k + b) bits); [done|]. lia.
Qed.

Lemma clip_in_u bits k w : in_u 32 w -> in_u 32 (clip bits k w).
Proof. intros Hw. unfold clip. destruct (_ && _); [|done]. apply land_in_u; [lia|done|apply u32_range]. Qed.

(** The bits of a word assembled from two neighbours. *)
Lemma shr_pair_testbit rem u l b : 0 <= rem < 32 -> in_u 32 u -> in_u 32 l -> (rem = 0 -> u = 0) -> 0 <= b < 32 ->
  Z.testbit (Z.lor (u32 (Z.shiftl u (32 - rem))) (Z.shiftr l rem)) b =
  if b + rem <? 32 then Z.testbit l (b + rem) else Z.testbit u (b + rem - 32).
Proof.
  intros Hr Hu Hl H0 Hb. unfold u32. rewrite Z.lor_spec, wrap_testbit, Z.shiftr_spec by lia.
  destruct (Z.ltb_spec b 32); [|lia]. destruct (Z.ltb_spec (b + rem) 32).
  - destruct (decide (rem = 0)) as [->|]; [rewrite H0, Z.shiftl_0_l, Z.bits_0 by done; done|].
    rewrite Z.shiftl_spec_low by lia. done.
  - rewrite Z.shiftl_spec by lia. rewrite (testbit_high 32 l) by (done || lia). rewrite orb_false_r. cbn [andb].
    f_equal. lia.
Qed.

Lemma shl_pair_testbit rem u l b : 0 <= rem < 32 -> in_u 32 u -> in_u 32 l -> (rem = 0 -> l = 0) -> 0 <= b < 32 ->
  Z.testbit (Z.lor (Z.shiftr l (32 - rem)) (u32 (Z.shiftl u rem))) b =
  if b <? rem then Z.testbit l (b + 32 - rem) else Z.testbit u (b - rem).
Proof.
  intros Hr Hu Hl H0 Hb. unfold u32. rewrite Z.lor_spec, wrap_testbit, Z.shiftr_spec by lia.
  destruct (Z.ltb_spec b 32); [|lia]. destruct (Z.ltb_spec b rem).
  - rewrite Z.shiftl_spec_low, orb_false_r by lia. f_equal. lia.
  - rewrite Z.shiftl_spec by lia. cbn [andb]. replace (b + (32 - rem)) with (b - rem + 32) by lia.
    rewrite (testbit_high 32 l) by (done || lia). done.
Qed.

Lemma pair_in_u x y : in_u 32 y -> in_u 32 (Z.lor (u32 x) y).
Proof. intros Hy. apply lor_in_u; [lia|apply u32_range|done]. Qed.

Lemma shiftr_in_u s x : 0 <= s -> in_u 32 x -> in_u 32 (Z.shiftr x s).
Proof.
  intros Hs Hx. apply in_u_bits; [lia|apply Z.shiftr_nonneg, Hx|]. intros i Hi. rewrite Z.shiftr_spec by lia.
  apply (testbit_high 32); [done|lia].
Qed.

(** The word a right shift computes for index [k]. *)
Definition shr_word (m : bitmap) (shift bits k : Z) : Z :=
  let off := shift / 32 in let rem := shift mod 32 in
  let upper := if (rem =? 0) || (BITS_TO_LONGS bits <=? off + k + 1) then 0
               else clip bits (off + k + 1) (m !!! Z.to_nat (off + k + 1)) in
  clip bits k (Z.lor (u32 (Z.shiftl upper (32 - rem))) (Z.shiftr (clip bits (off + k) (m !!! Z.to_nat (off + k))) rem)).

Lemma shr_word_testbit m shift bits k b : Forall (in_u 32) m -> 0 <= bits -> 0 <= shift -> 0 <= k ->
  shift / 32 + k < BITS_TO_LONGS bits -> 0 <= b < 32 ->
  Z.testbit (shr_word m shift bits k) b = (32 * k + b + shift <? bits) && bit m (32 * k + b + shift).
Proof.
  intros Hm Hb Hs Hk Hlim Hbb. unfold shr_word. pose proof (Z.mod_pos_bound shift 32 ltac:(lia)) as Hr.
  assert (0 <= shift / 32) as Hoff by (apply Z.div_pos; lia).
  set (off := shift / 32) in *. set (rem := shift mod 32) in *.
  assert (shift = 32 * off + rem) as Hsh by (unfold off, rem; apply Z.div_mod; lia).
  set (upper := if _ || _ then 0 else _).
  assert (in_u 32 upper) as Hup by (unfold upper; destruct (_ || _); [done|apply clip_in_u; by apply word_u32]).
  rewrite clip_testbit by lia. rewrite shr_pair_testbit; try done; try lia.
  2: { apply clip_in_u. by apply word_u32. }
  2: { intros ->. done. }
  assert (∀ j c, 0 <= j -> 0 <= c < 32 -> bit m (32 * j + c) = Z.testbit (m !!! Z.to_nat j) c) as Hbw.
  { intros j c Hj Hc. rewrite <- (Z2Nat.id j) at 1 by lia. by apply bit_word. }
  destruct (Z.ltb_spec (b + rem) 32) as [Hlow|Hhigh].
  - replace (32 * k + b + shift) with (32 * (off + k) + (b + rem)) by lia. rewrite clip_testbit, Hbw by lia.
    destruct (Z.ltb_spec (32 * (off + k) + (b + rem)) bits), (Z.ltb_spec (32 * k + b) bits); cbn [andb]; try done; lia.
  - replace (32 * k + b + shift) with (32 * (off + k + 1) + (b + rem - 32)) by lia. unfold upper.
    destruct (Z.eqb_spec rem 0); [lia|]. cbn [orb]. destruct (Z.leb_spec (BITS_TO_LONGS bits) (off + k + 1)) as [Hge|Hlt].
    + rewrite Z.bits_0, andb_false_r. destruct (longs_bounds bits Hb) as (Hl & _).
      destruct (Z.ltb_spec (32 * (off + k + 1) + (b + rem - 32)) bits); [lia|done].
    + rewrite clip_testbit, Hbw by lia.
      destruct (Z.ltb_spec (32 * (off + k + 1) + (b + rem - 32)) bits), (Z.ltb_spec (32 * k + b) bits); cbn [andb]; try done; lia.
Qed.

Definition shl_word (m : bitmap) (shift bits k : Z) : Z :=
  let off := shift / 32 in let rem := shift mod 32 in
  let lower := if negb (rem =? 0) && (0 <? k) then m !!! Z.to_nat (k - 1) else 0 in
  clip bits (k + off) (Z.lor (Z.shiftr lower (32 - rem)) (u32 (Z.shiftl (clip bits k (m !!! Z.to_nat k)) rem))).

Lemma shl_word_testbit m shift bits k b : Forall (in_u 32) m -> 0 <= bits -> 0 <= shift -> 0 <= k ->
  k + shift / 32 < BITS_TO_LONGS bits -> 0 <= b < 32 ->
  let i := 32 * (k + shift / 32) + b in
  Z.testbit (shl_word m shift bits k) b = (i <? bits) && (shift <=? i) && bit m (i - shift).
Proof.
  intros Hm Hb Hs Hk Hlim Hbb i. unfold shl_word. pose proof (Z.mod_pos_bound shift 32 ltac:(lia)) as Hr.
  assert (0 <= shift / 32) as Hoff by (apply Z.div_pos; lia). unfold i. clear i.
  set (off := shift / 32) in *. set (rem := shift mod 32) in *.
  assert (shift = 32 * off + rem) as Hsh by (unfold off, rem; apply Z.div_mod; lia).
  set (lower := if _ && _ then _ else 0).
  assert (in_u 32 lower) as Hlo by (unfold lower; destruct (_ && _); [by apply word_u32|done]).
  rewrite clip_testbit, <- andb_assoc by lia. destruct (Z.ltb_spec (32 * (k + off) + b) bits) as [Hib|]; [cbn [andb]|done].
  rewrite shl_pair_testbit; try done; try lia.
  2: { apply clip_in_u. by apply word_u32. }
  2: { intros ->. done. }
  assert (∀ j c, 0 <= j -> 0 <= c < 32 -> bit m (32 * j + c) = Z.testbit (m !!! Z.to_nat j) c) as Hbw.
  { intros j c Hj Hc. rewrite <- (Z2Nat.id j) at 1 by lia. by apply bit_word. }
  destruct (Z.ltb_spec b rem) as [Hlow|Hhigh].
  - unfold lower. destruct (Z.eqb_spec rem 0); [lia|]. cbn [negb andb]. destruct (Z.ltb_spec 0 k).
    + replace (32 * (k + off) + b - shift) with (32 * (k - 1) + (b + 32 - rem)) by lia. rewrite Hbw by lia.
      destruct (Z.leb_spec shift (32 * (k + off) + b)); [done|lia].
    + rewrite Z.bits_0. destruct (Z.leb_spec shift (32 * (k + off) + b)); [lia|done].
  - replace (32 * (k + off) + b - shift) with (32 * k + (b - rem)) by lia. rewrite Hbw, clip_testbit by lia.
    destruct (Z.leb_spec shift (32 * (k + off) + b)); [|lia]. cbn [andb].
    destruct (Z.ltb_spec (32 * k + (b - rem)) bits); [done|lia].
Qed.

Lemma shr_word_in_u m shift bits k : Forall (in_u 32) m -> in_u 32 (shr_word m shift bits k).
Proof.
  intros Hm. unfold shr_word. apply clip_in_u, pair_in_u, shiftr_in_u; [by apply Z.mod_pos_bound|].
  apply clip_in_u. by apply word_u32.
Qed.

Lemma shl_word_in_u m shift bits k : Forall (in_u 32) m -> in_u 32 (shl_word m shift bits k).
Proof.
  intros Hm. unfold shl_word. apply clip_in_u. rewrite Z.lor_comm. apply pair_in_u, shiftr_in_u.
  - pose proof (Z.mod_pos_bound shift 32). lia.
  - destruct (_ && _); [by apply word_u32|done].
Qed.

(** ** Whole shifts *)

Lemma bitmap_shift_right_spec bits shift dst o : holds bits dst -> holds bits (opnd dst o) ->
  0 <= shift -> shift / 32 <= BITS_TO_LONGS bits ->
  ∃ d', bitmap_shift_right dst o shift bits = Some d' ∧ holds bits d' ∧
    ∀ i, 0 <= i < 32 * BITS_TO_LONGS bits -> bit d' i = (i + shift <? bits) && bit (opnd dst o) (i + shift).
Proof.
  intros Hd Ho Hs Hoff. pose proof (proj1 (proj1 Hd)) as Hb. destruct (longs_bounds bits Hb) as (Hlb & Hl0 & _).
  pose proof Hd as (_ & Hlen & Hu). pose proof Ho as (_ & _ & Huo).
  assert (0 <= shift / 32) as Hoff0 by (apply Z.div_pos; lia).
  unfold bitmap_shift_right, BITS_PER_LONG. cbv zeta. set (body := λ (k : nat) (d : bitmap), _).
  destruct (for_up_spec body (λ k, shr_word (opnd dst o) shift bits (Z.of_nat k)) 0
    (Z.to_nat (BITS_TO_LONGS bits - shift / 32)) dst) as (d1 & Hr & Hl & Hw).
  { intros j d Hj Hld He. unfold body.
    assert (∀ k, Z.of_nat j <= k < BITS_TO_LONGS bits -> opnd d o !! Z.to_nat k = Some (opnd dst o !!! Z.to_nat k)) as Hrd.
    { intros k Hk. apply (opnd_read bits); [done|lia|done|]. apply He. lia. }
    unfold shr_word. set (off := shift / 32) in *. set (rem := shift mod 32).
    assert ((if (rem =? 0) || (BITS_TO_LONGS bits <=? off + Z.of_nat j + 1) then Some 0
       else u ← opnd d o !! Z.to_nat (off + Z.of_nat j + 1);
            Some (if (off + Z.of_nat j + 1 =? BITS_TO_LONGS bits - 1) && negb (bits mod 32 =? 0)
                  then Z.land u (u32 (Z.shiftl 1 (bits mod 32) - 1)) else u)) =
      Some (if (rem =? 0) || (BITS_TO_LONGS bits <=? off + Z.of_nat j + 1) then 0
            else clip bits (off + Z.of_nat j + 1) (opnd dst o !!! Z.to_nat (off + Z.of_nat j + 1)))) as ->.
    { destruct (rem =? 0); [done|]. cbn [orb]. destruct (Z.leb_spec (BITS_TO_LONGS bits) (off + Z.of_nat j + 1)); [done|].
      rewrite Hrd by lia. simpl. f_equal. unfold clip. by rewrite andb_comm. }
    cbn [mbind option_bind]. rewrite Hrd by lia. cbn [mbind option_bind]. rewrite Nat2Z.id. apply setw_Some. lia. }
  { lia. }
  rewrite Hr. cbn [mbind option_bind]. clear Hr body.
  assert (∃ d', (if shift / 32 =? 0 then Some d1 else clear_words d1 (BITS_TO_LONGS bits - shift / 32) (shift / 32)) = Some d' ∧
    length d' = length dst ∧ ∀ i, d' !!! i =
      if decide (Z.of_nat i < BITS_TO_LONGS bits - shift / 32) then shr_word (opnd dst o) shift bits (Z.of_nat i)
      else if decide (Z.of_nat i < BITS_TO_LONGS bits) then 0 else dst !!! i) as (d' & Hr & Hl' & Hw').
  { destruct (Z.eqb_spec (shift / 32) 0) as [H0|H0].
    - exists d1. split_and!; [done|done|]. intros i. rewrite Hw, H0. repeat case_decide; lia || done.
    - destruct (clear_words_spec d1 (BITS_TO_LONGS bits - shift / 32) (shift / 32)) as (d' & Hc & Hlc & Hwc); [lia..|].
      exists d'. split_and!; [done|lia|]. intros i. rewrite Hwc, Hw. repeat case_decide; lia || done. }
  exists d'. split; [done|]. split.
  - apply (holds_of_words bits d' dst Hd Hl'). intros k. rewrite Hw'. case_decide; [by apply shr_word_in_u|].
    case_decide; [done|by apply word_u32].
  - intros i Hi. pose proof (Z.mod_pos_bound i 32 ltac:(lia)) as Hm. pose proof (Z.div_mod i 32 ltac:(lia)) as Hdm.
    assert (0 <= i / 32) by (apply Z.div_pos; lia). unfold bit at 1. rewrite Hw', Z2Nat.id by lia. case_decide.
    + rewrite shr_word_testbit by (done || lia). by rewrite <- Hdm.
    + rewrite decide_True, Z.bits_0 by lia. destruct (Z.ltb_spec (i + shift) bits); [|done].
      pose proof (Z.div_mod shift 32 ltac:(lia)). pose proof (Z.mod_pos_bound shift 32 ltac:(lia)). lia.
Qed.

Lemma bitmap_shift_left_spec bits shift dst o : holds bits dst -> holds bits (opnd dst o) ->
  0 <= shift -> shift / 32 <= BITS_TO_LONGS bits ->
  ∃ d', bitmap_shift_left dst o shift bits = Some d' ∧ holds bits d' ∧
    ∀ i, 0 <= i < 32 * BITS_TO_LONGS bits -> bit d' i = (i <? bits) && (shift <=? i) && bit (opnd dst o) (i - shift).
Proof.
  intros Hd Ho Hs Hoff. pose proof (proj1 (proj1 Hd)) as Hb. destruct (longs_bounds bits Hb) as (Hlb & Hl0 & _).
  pose proof Hd as (_ & Hlen & Hu). pose proof Ho as (_ & _ & Huo).
  assert (0 <= shift / 32) as Hoff0 by (apply Z.div_pos; lia).
  unfold bitmap_shift_left, BITS_PER_LONG. cbv zeta. set (body := λ (k : nat) (d : bitmap), _).
  destruct (for_down_spec body (λ k, shl_word (opnd dst o) shift bits (Z.of_nat k)) (Z.to_nat (shift / 32))
    (Z.to_nat (BITS_TO_LONGS bits - shift / 32)) dst) as (d1 & Hr & Hl & Hw).
  { intros j d Hj Hld He. unfold body.
    assert (∀ k, 0 <= k <= Z.of_nat j -> opnd d o !! Z.to_nat k = Some (opnd dst o !!! Z.to_nat k)) as Hrd.
    { intros k Hk. apply (opnd_read bits); [done|lia|done|]. apply He. lia. }
    unfold shl_word. set (off := shift / 32) in *. set (rem := shift mod 32).
    assert ((if negb (rem =? 0) && (0 <? Z.of_nat j) then opnd d o !! Z.to_nat (Z.of_nat j - 1) else Some 0) =
      Some (if negb (rem =? 0) && (0 <? Z.of_nat j) then opnd dst o !!! Z.to_nat (Z.of_nat j - 1) else 0)) as ->.
    { destruct (rem =? 0); [done|]. cbn [negb andb]. destruct (Z.ltb_spec 0 (Z.of_nat j)); [|done]. by rewrite Hrd by lia. }
    cbn [mbind option_bind]. rewrite Hrd by lia. cbn [mbind option_bind].
    replace (Z.to_nat (Z.of_nat j + off)) with (j + Z.to_nat off)%nat by lia. apply setw_Some. lia. }
  { lia. }
  rewrite Hr. cbn [mbind option_bind]. clear Hr body.
  assert (∃ d', (if shift / 32 =? 0 then Some d1 else clear_words d1 0 (shift / 32)) = Some d' ∧
    length d' = length dst ∧ ∀ i, d' !!! i =
      if decide (Z.of_nat i < shift / 32) then 0
      else if decide (Z.of_nat i < BITS_TO_LONGS bits) then shl_word (opnd dst o) shift bits (Z.of_nat i - shift / 32)
      else dst !!! i) as (d' & Hr & Hl' & Hw').
  { assert (∀ i, d1 !!! i = if decide (shift / 32 <= Z.of_nat i < BITS_TO_LONGS bits)
        then shl_word (opnd dst o) shift bits (Z.of_nat i - shift / 32) else dst !!! i) as Hw1.
    { intros i. rewrite Hw. case_decide; case_decide; try lia; try done. f_equal. lia. }
    destruct (Z.eqb_spec (shift / 32) 0) as [H0|H0].
    - exists d1. split_and!; [done|done|]. intros i. rewrite Hw1. repeat case_decide; lia || done.
    - destruct (clear_words_spec d1 0 (shift / 32)) as (d' & Hc & Hlc & Hwc); [lia..|].
      exists d'. split_and!; [done|lia|]. intros i. rewrite Hwc, Hw1. repeat case_decide; lia || done. }
  exists d'. split; [done|]. split.
  - apply (holds_of_words bits d' dst Hd Hl'). intros k. rewrite Hw'. case_decide; [done|].
    case_decide; [by apply shl_word_in_u|by apply word_u32].
  - intros i Hi. pose proof (Z.mod_pos_bound i 32 ltac:(lia)) as Hm. pose proof (Z.div_mod i 32 ltac:(lia)) as Hdm.
    pose proof (Z.div_mod shift 32 ltac:(lia)). pose proof (Z.mod_pos_bound shift 32 ltac:(lia)).
    assert (0 <= i / 32) by (apply Z.div_pos; lia). unfold bit at 1. rewrite Hw', Z2Nat.id by lia. case_decide.
    + rewrite Z.bits_0. destruct (Z.leb_spec shift i); [lia|]. by rewrite andb_false_r.
    + rewrite decide_True by lia. pose proof (shl_word_testbit (opnd dst o) shift bits (i / 32 - shift / 32) (i mod 32)) as Ht.
      rewrite Ht by (done || lia). replace (32 * (i / 32 - shift / 32 + shift / 32) + i mod 32) with i by lia. done.
Qed.

(** The shifts move every bit by [shift] positions, feed in zeros, drop
    what leaves the bitmap, and leave the unused bits of the last word clear
    even when the source has garbage there; in place ([Dst]) or into another
    array.  They need the whole-word part of the shift to be at most the
    number of words (a longer one writes before the array). *)
Theorem bitmap_shifts bits shift dst o : holds bits dst -> holds bits (opnd dst o) ->
  0 <= shift -> shift / 32 <= BITS_TO_LONGS bits ->
  (∃ d', bitmap_shift_right dst o shift bits = Some d' ∧ holds bits d' ∧
    ∀ i, 0 <= i < 32 * BITS_TO_LONGS bits -> bit d' i = (i + shift <? bits) && bit (opnd dst o) (i + shift)) ∧
  (∃ d', bitmap_shift_left dst o shift bits = Some d' ∧ holds bits d' ∧
    ∀ i, 0 <= i < 32 * BITS_TO_LONGS bits -> bit d' i = (i <? bits) && (shift <=? i) && bit (opnd dst o) (i - shift)).
Proof. intros. split; [by apply bitmap_shift_right_spec|by apply bitmap_shift_left_spec]. Qed.
End Shifts.

(** * Regions *)

Section Regions.
Implicit Types (m : bitmap).

(** An aligned region inside the words of [m]. *)
Definition region (m : bitmap) (pos order : Z) : Prop :=
  0 <= order <= 30 ∧ 0 <= pos ∧ pos mod 2 ^ order = 0 ∧ pos + 2 ^ order <= 32 * Z.of_nat (length m).

Definition in_region (pos order i : Z) : bool := (pos <=? i) && (i <? pos + 2 ^ order).
Definition free (m : bitmap) (pos order : Z) : Prop := ∀ i, in_region pos order i = true -> bit m i = false.

(** An aligned region of fewer than 32 bits does not cross a word. *)
Lemma region_offset pos order : 0 <= order <= 5 -> 0 <= pos -> pos mod 2 ^ order = 0 -> pos mod 32 + 2 ^ order <= 32.
Proof.
  intros Ho Hp Ha. assert (32 = 2 ^ (5 - order) * 2 ^ order) as H32
    by (rewrite <- Z.pow_add_r by lia; by replace (5 - order + order) with 5 by lia).
  assert (0 < 2 ^ order) by lia. apply Z.mod_divide in Ha as [q Hq]; [|lia].
  assert (pos mod 32 = (q mod 2 ^ (5 - order)) * 2 ^ order) as ->.
  { rewrite Hq, H32. apply Z.mul_mod_distr_r; lia. }
  pose proof (Z.mod_pos_bound q (2 ^ (5 - order))). nia.
Qed.

Lemma region_aligned pos order : 5 <= order -> pos mod 2 ^ order = 0 -> pos mod 32 = 0.
Proof.
  intros Ho Ha. apply Z.mod_divide in Ha as [q ->]; [|lia].
  replace (2 ^ order) with (2 ^ (order - 5) * 32) by (change 32 with (2 ^ 5); rewrite <- Z.pow_add_r by lia; f_equal; lia).
  rewrite Z.mul_assoc. apply Z.mod_mul. lia.
Qed.

Lemma reg_mask_eq pos order : 0 <= order -> reg_mask pos order = u32 (Z.shiftl (Z.ones (Z.min (2 ^ order) 32)) (pos mod 32)).
Proof.
  intros Ho. unfold reg_mask, reg_index, BITS_PER_LONG. cbv zeta. rewrite (Z.shiftl_1_l order). assert (0 < 2 ^ order) by lia.
  set (n := Z.min (2 ^ order) 32). rewrite (Z.shiftl_1_l (n - 1)).
  assert (2 ^ (n - 1) <= 2 ^ 31) by (apply Z.pow_le_mono_r; lia). assert (0 < 2 ^ (n - 1)) by lia.
  assert (2 ^ n = 2 * 2 ^ (n - 1)) by (rewrite <- Z.pow_succ_r by lia; f_equal; lia).
  unfold u32. rewrite (wrap_id 32 (2 ^ (n - 1))) by (unfold in_u; lia).
  rewrite (wrap_id 32 (_ + _)) by (unfold in_u; lia). do 2 f_equal.
  - rewrite Z.ones_equiv. lia.
  - rewrite Z.mod_eq by lia. lia.
Qed.

Lemma reg_mask_in_u pos order : 0 <= order -> in_u 32 (reg_mask pos order).
Proof. intros Ho. rewrite reg_mask_eq by done. apply u32_range. Qed.

(** A bit of a word is in the mask of a covered word exactly when it is in the
    region. *)
Lemma reg_mask_bit m pos order k b : region m pos order -> 0 <= b < 32 ->
  in_region pos order (32 * k + b) =
  bool_decide (reg_index pos <= k < reg_index pos + reg_longs order) && Z.testbit (reg_mask pos order) b.
Proof.
  intros (Ho & Hp & Ha & _) Hb. rewrite reg_mask_eq by lia. unfold u32, in_region. rewrite wrap_testbit by lia.
  pose proof (Z.mod_pos_bound pos 32 ltac:(lia)). pose proof (Z.div_mod pos 32 ltac:(lia)) as Hdm.
  rewrite field_testbit by lia. destruct (Z.ltb_spec b 32); [cbn [andb]|lia].
  assert (0 < 2 ^ order) by lia. unfold reg_longs, reg_index, BITS_TO_LONGS, BITS_PER_LONG. rewrite Z.shiftl_1_l.
  destruct (decide (order <= 5)) as [H5|H5].
  - pose proof (region_offset pos order ltac:(lia) Hp Ha).
    replace ((2 ^ order + 32 - 1) / 32) with 1 by (Z.to_euclidean_division_equations; lia).
    rewrite Z.min_l by lia. case_bool_decide; case_cmp; cbn [andb]; try done; lia.
  - pose proof (region_aligned pos order ltac:(lia) Ha) as Hal.
    assert (2 ^ order = 2 ^ (order - 5) * 32) as Hpw by (change 32 with (2 ^ 5); rewrite <- Z.pow_add_r by lia; f_equal; lia).
    assert (1 < 2 ^ (order - 5)) by (apply Z.pow_gt_1; lia).
    replace ((2 ^ order + 32 - 1) / 32) with (2 ^ (order - 5)) by (rewrite Hpw; Z.to_euclidean_division_equations; lia).
    rewrite Z.min_r by lia. case_bool_decide; case_cmp; cbn [andb]; try done; lia.
Qed.

Lemma region_words m pos order : region m pos order ->
  0 <= reg_index pos ∧ 0 <= reg_longs order ∧ reg_index pos + reg_longs order <= Z.of_nat (length m).
Proof.
  intros Hr. pose proof Hr as (Ho & Hp & Ha & Hl). assert (0 < 2 ^ order) by lia.
  unfold reg_longs, reg_index, BITS_TO_LONGS, BITS_PER_LONG. rewrite Z.shiftl_1_l.
  destruct (decide (order <= 5)) as [H5|H5].
  - pose proof (region_offset pos order ltac:(lia) Hp Ha). Z.to_euclidean_division_equations. lia.
  - pose proof (region_aligned pos order ltac:(lia) Ha) as Hal. Z.to_euclidean_division_equations. lia.
Qed.

Lemma in_region_pos pos order i : 0 <= pos -> in_region pos order i = true -> 0 <= i.
Proof. intros Hp. unfold in_region. rewrite andb_true_iff, Z.leb_le. lia. Qed.

Lemma isfree_spec m pos order : region m pos order -> Forall (in_u 32) m ->
  ∃ r, reg_op_ m pos order REG_OP_ISFREE = Some (r, m) ∧ ((r = 1 ∧ free m pos order) ∨ (r = 0 ∧ ¬ free m pos order)).
Proof.
  intros Hr Hu. destruct (region_words m pos order Hr) as (Hi & Hn & Hl). pose proof Hr as (Ho & Hp & _). unfold reg_op_.
  destruct (scan_spec (λ k, w ← m !! k; Some (tst w (reg_mask pos order))) (λ k, tst (m !!! k) (reg_mask pos order))
    (Z.to_nat (reg_index pos)) (Z.to_nat (reg_longs order))) as (h & -> & Hh).
  { intros j Hj. rewrite list_lookup_lookup_total_lt by lia. done. }
  cbn [mbind option_bind]. eexists. split; [done|].
  assert (h = true <-> ∃ i, in_region pos order i = true ∧ bit m i = true) as Hh'.
  { rewrite Hh. split.
    - intros (j & Hj & Ht). apply tst_bits in Ht as (b & Hb & Hw & Hm); [|by apply word_u32].
      exists (32 * Z.of_nat j + b). rewrite (reg_mask_bit m), bit_word, Hm, Hw, bool_decide_true by (done || lia). done.
    - intros (i & Hin & Hbit). pose proof (in_region_pos _ _ _ Hp Hin) as Hi0.
      pose proof (Z.div_mod i 32 ltac:(lia)) as Hdm. pose proof (Z.mod_pos_bound i 32 ltac:(lia)) as Hmb.
      rewrite Hdm in Hin. rewrite (reg_mask_bit m) in Hin by done. apply andb_true_iff in Hin as [Hk%bool_decide_eq_true Hm].
      exists (Z.to_nat (i / 32)). split; [lia|]. apply tst_bits; [by apply word_u32|]. by exists (i mod 32). }
  destruct h; [right|left]; (split; [done|]).
  - destruct (proj1 Hh' eq_refl) as (i & H1 & H2). intros Hf. by rewrite Hf in H2.
  - intros i Hi'. destruct (bit m i) eqn:E; [|done]. assert (false = true); [|done]. apply Hh'. by exists i.
Qed.

(** Writing the region with a mask operation. *)
Lemma region_write m pos order (f : Z -> Z) (g : bool -> bool) : region m pos order -> Forall (in_u 32) m ->
  (∀ w, in_u 32 w -> in_u 32 (f w)) ->
  (∀ w b, Z.testbit (f w) b = if Z.testbit (reg_mask pos order) b then g (Z.testbit w b) else Z.testbit w b) ->
  ∃ m', for_up (λ k m, w ← m !! k; setw m k (f w)) (Z.to_nat (reg_index pos)) (Z.to_nat (reg_longs order)) m = Some m' ∧
    length m' = length m ∧ Forall (in_u 32) m' ∧
    ∀ i, 0 <= i -> bit m' i = if in_region pos order i then g (bit m i) else bit m i.
Proof.
  intros Hr Hu Hf Hg. destruct (region_words m pos order Hr) as (Hi & Hn & Hl).
  edestruct (for_up_spec (λ k m, w ← m !! k; setw m k (f w)) (λ k, f (m !!! k))) as (m' & -> & Hlm & Hw).
  { intros j d Hj Hld He. rewrite list_lookup_lookup_total_lt by lia. simpl. rewrite (He j) by lia. apply setw_Some. lia. }
  { lia. }
  exists m'. split_and!; [done|done| |].
  - apply Forall_lookup. intros k w Hk. apply list_lookup_total_correct in Hk. rewrite <- Hk, Hw.
    case_decide; [apply Hf|]; by apply word_u32.
  - intros i Hi0. pose proof (Z.div_mod i 32 ltac:(lia)) as Hdm. pose proof (Z.mod_pos_bound i 32 ltac:(lia)) as Hmb.
    assert (0 <= i / 32) by (apply Z.div_pos; lia).
    rewrite Hdm at 2. rewrite (reg_mask_bit m) by done. unfold bit. rewrite Hw.
    case_decide; case_bool_decide; try lia; cbn [andb]; [by rewrite Hg|done].
Qed.

Lemma alloc_spec m pos order : region m pos order -> Forall (in_u 32) m ->
  ∃ m', reg_op_ m pos order REG_OP_ALLOC = Some (0, m') ∧ length m' = length m ∧ Forall (in_u 32) m' ∧
    ∀ i, 0 <= i -> bit m' i = bit m i || in_region pos order i.
Proof.
  intros Hr Hu. pose proof Hr as (Ho & _). unfold reg_op_.
  destruct (region_write m pos order (λ w, Z.lor w (reg_mask pos order)) (λ _, true) Hr Hu) as (m' & -> & H1 & H2 & H3).
  - intros w Hw. apply lor_in_u; [lia|done|]. apply reg_mask_in_u. lia.
  - intros w b. rewrite Z.lor_spec. by destruct (Z.testbit w b), (Z.testbit _ b).
  - exists m'. split_and!; [done|done|done|]. intros i Hi. rewrite H3 by done. by destruct (in_region _ _ _), (bit m i).
Qed.

Lemma release_spec m pos order : region m pos order -> Forall (in_u 32) m ->
  ∃ m', reg_op_ m pos order REG_OP_RELEASE = Some (0, m') ∧ length m' = length m ∧ Forall (in_u 32) m' ∧
    ∀ i, 0 <= i -> bit m' i = bit m i && negb (in_region pos order i).
Proof.
  intros Hr Hu. unfold reg_op_.
  destruct (region_write m pos order (λ w, clr w (reg_mask pos order)) (λ _, false) Hr Hu) as (m' & -> & H1 & H2 & H3).
  - intros w Hw. by apply clr_in_u.
  - intros w b. rewrite clr_testbit. by destruct (Z.testbit w b), (Z.testbit _ b).
  - exists m'. split_and!; [done|done|done|]. intros i Hi. rewrite H3 by done. by destruct (in_region _ _ _), (bit m i).
Qed.

Lemma holds_region bits m pos order : holds bits m -> 0 <= order <= 30 -> 0 <= pos -> pos mod 2 ^ order = 0 ->
  pos + 2 ^ order <= bits -> region m pos order.
Proof.
  intros (Hb & Hl & _) Ho Hp Ha Hle. destruct (longs_bounds bits ltac:(lia)) as (Hlb & _). split_and!; try done; lia.
Qed.

Lemma next_multiple n x y : 0 < n -> x mod n = 0 -> y mod n = 0 -> x < y -> x + n <= y.
Proof.
  intros Hn Hx Hy Hlt. pose proof (Z.div_mod x n ltac:(lia)) as Ex. pose proof (Z.div_mod y n ltac:(lia)) as Ey.
  assert (x / n < y / n) by (apply (Z.mul_lt_mono_pos_l n); lia). nia.
Qed.

(** The search stops at the first free region, or at [bits]. *)
Lemma find_region_spec bits order m fuel pos : holds bits m -> 0 <= order <= 30 -> bits mod 2 ^ order = 0 ->
  0 <= pos <= bits -> pos mod 2 ^ order = 0 -> bits - pos < Z.of_nat fuel ->
  ∃ q, find_region fuel m bits order pos = Some q ∧ pos <= q <= bits ∧ q mod 2 ^ order = 0 ∧
    (∀ p, pos <= p < q -> p mod 2 ^ order = 0 -> ¬ free m p order) ∧ (q < bits -> free m q order).
Proof.
  intros Hm Ho Hbits. assert (0 < 2 ^ order) as Hpow by lia. pose proof Hm as (Hb & _ & Hu).
  revert pos. induction fuel as [|fuel IH]; intros pos Hp Ha Hf; [lia|]. cbn [find_region].
  assert (∀ x, x mod 2 ^ order = 0 -> pos < x -> pos + 2 ^ order <= x) as Hnext.
  { intros x Hx Hlt. by apply next_multiple. }
  destruct (Z.ltb_spec pos bits) as [Hlt|Hge].
  - pose proof (Hnext bits Hbits Hlt) as Hin.
    destruct (isfree_spec m pos order) as (r & -> & Hr); [eapply (holds_region bits); done || lia|done|]. cbn [mbind option_bind].
    destruct Hr as [[-> Hfree]|[-> Hbusy]]; cbn [Z.eqb negb].
    + exists pos. split_and!; try done; lia.
    + rewrite Z.shiftl_1_l, s32_id by lia. destruct (IH (pos + 2 ^ order)) as (q & Hq & Hrange & Hqa & Hno & Hfr); [lia| |lia|].
      { rewrite Z.add_mod, Ha, Z.mod_same by lia. done. }
      exists q. split_and!; try done; try lia. intros p Hpr Hpa. destruct (decide (p = pos)) as [->|]; [done|].
      apply Hno; [|done]. pose proof (Hnext p Hpa). lia.
  - exists pos. split_and!; try done; lia.
Qed.

(** C28: region allocation.  When the bitmap's size is a multiple of the
    region size, bitmap_find_free_region returns the lowest free aligned
    region and sets exactly its bits, or -ENOMEM with the bitmap unchanged
    exactly when every aligned region has a bit set; releasing the region
    clears exactly its bits again, so every bit is back. *)
Theorem find_free_region_spec bits order m : holds bits m -> 0 <= order <= 30 -> bits mod 2 ^ order = 0 ->
  (∃ pos m' m'', bitmap_find_free_region m bits order = Some (pos, m') ∧
     0 <= pos ∧ pos mod 2 ^ order = 0 ∧ pos + 2 ^ order <= bits ∧ free m pos order ∧
     (∀ p, 0 <= p < pos -> p mod 2 ^ order = 0 -> ¬ free m p order) ∧
     (∀ i, 0 <= i -> bit m' i = bit m i || in_region pos order i) ∧
     bitmap_release_region m' pos order = Some m'' ∧ (∀ i, 0 <= i -> bit m'' i = bit m i)) ∨
  (bitmap_find_free_region m bits order = Some (- ENOMEM, m) ∧
     ∀ p, 0 <= p < bits -> p mod 2 ^ order = 0 -> ¬ free m p order).
Proof.
  intros Hm Ho Hbits. assert (0 < 2 ^ order) as Hpow by lia. pose proof Hm as (Hb & _ & Hu). unfold bitmap_find_free_region.
  destruct (find_region_spec bits order m (S (Z.to_nat bits)) 0) as (q & -> & Hq & Hqa & Hno & Hfr); try done; try lia.
  cbn [mbind option_bind]. destruct (Z.eqb_spec q bits) as [->|Hne]; [by right|left].
  assert (q + 2 ^ order <= bits) as Hle by (apply next_multiple; done || lia).
  assert (region m q order) as Hr by (eapply (holds_region bits); done || lia).
  destruct (alloc_spec m q order Hr Hu) as (m' & -> & Hl' & Hu' & Hbit). cbn [mbind option_bind].
  destruct (release_spec m' q order) as (m'' & Hrel & _ & _ & Hbit''); [by unfold region in *; rewrite Hl'|done|].
  exists q, m', m''. split_and!; try done; try lia; [apply Hfr; lia| |].
  - unfold bitmap_release_region. by rewrite Hrel.
  - intros i Hi. rewrite Hbit'', Hbit by done. destruct (in_region q order i) eqn:E; [|by rewrite orb_false_r, andb_true_r].
    rewrite (Hfr ltac:(lia) i E). by rewrite andb_false_r.
Qed.

Lemma allocate_region_spec m pos order : region m pos order -> Forall (in_u 32) m ->
  (free m pos order ∧ ∃ m', bitmap_allocate_region m pos order = Some (0, m') ∧
     ∀ i, 0 <= i -> bit m' i = bit m i || in_region pos order i) ∨
  (¬ free m pos order ∧ bitmap_allocate_region m pos order = Some (- EBUSY, m)).
Proof.
  intros Hr Hu. unfold bitmap_allocate_region. destruct (isfree_spec m pos order Hr Hu) as (r & -> & [[-> Hf]|[-> Hf]]).
  - left. split; [done|]. cbn [mbind option_bind Z.eqb]. destruct (alloc_spec m pos order Hr Hu) as (m' & -> & _ & _ & Hb).
    by exists m'.
  - right. by split.
Qed.
End Regions.

(** * Weights *)

(** The number of bits set below [n]. *)
Fixpoint bits_set (n : nat) (m : bitmap) : Z :=
  match n with O => 0 | S n => bits_set n m + Z.b2z (bit m (Z.of_nat n)) end.

Section Weight.
Implicit Types (m : bitmap).

Lemma bits_set_range n m : 0 <= bits_set n m <= Z.of_nat n.
Proof. induction n as [|n IH]; [done|]. cbn [bits_set]. destruct (bit m _); cbn [Z.b2z]; lia. Qed.

Lemma bits_set_add k n m : (n <= 32)%nat -> bits_set (32 * k + n) m = bits_set (32 * k) m + popcount n (m !!! k).
Proof.
  induction n as [|n IH]; intros Hn; [rewrite Nat.add_0_r; simpl; lia|]. rewrite Nat.add_succ_r. cbn [bits_set popcount].
  rewrite IH by lia. replace (Z.of_nat (32 * k + n)) with (32 * Z.of_nat k + Z.of_nat n) by lia. rewrite bit_word by lia. lia.
Qed.

Lemma weight_words_spec m n k w : (k + n <= length m)%nat -> Forall (in_u 32) m -> Z.of_nat (32 * (k + n)) < 2 ^ 31 ->
  w = bits_set (32 * k) m -> weight_words m k n w = Some (bits_set (32 * (k + n)) m).
Proof.
  intros Hl Hu. revert k w Hl. induction n as [|n IH]; intros k w Hl Hb Hw; cbn [weight_words].
  { rewrite Nat.add_0_r. congruence. }
  rewrite list_lookup_lookup_total_lt by lia. cbn [mbind option_bind]. rewrite hweight32_pop by (by apply word_u32).
  assert (w + popcount 32 (m !!! k) = bits_set (32 * S k) m) as He.
  { rewrite Hw, <- bits_set_add by lia. f_equal. lia. }
  pose proof (bits_set_range (32 * S k) m). rewrite He, s32_id by lia. rewrite IH; [|lia|lia|done]. do 2 f_equal. lia.
Qed.

Lemma popcount_mask n l w : (l <= n)%nat -> popcount n (Z.land w (Z.ones (Z.of_nat l))) = popcount l w.
Proof.
  intros Hl. assert (∀ j, popcount j (Z.land w (Z.ones (Z.of_nat l))) = popcount (Nat.min j l) w) as H.
  { induction j as [|j IH]; [done|]. cbn [popcount]. rewrite IH, Z.land_spec, Z.testbit_ones_nonneg by lia.
    destruct (Z.ltb_spec (Z.of_nat j) (Z.of_nat l)).
    - rewrite andb_true_r. replace (Nat.min (S j) l) with (S (Nat.min j l)) by lia. cbn [popcount]. do 3 f_equal. lia.
    - rewrite andb_false_r. replace (Nat.min (S j) l) with (Nat.min j l) by lia. cbn [Z.b2z]. lia. }
  rewrite H. f_equal. lia.
Qed.

(** The weight of a bitmap is the number of its bits that are set, whatever
    the unused bits are. *)
Lemma bitmap_weight_spec bits m : holds bits m -> bitmap_weight m bits = Some (bits_set (Z.to_nat bits) m).
Proof.
  intros (Hb & Hl & Hu). destruct (longs_bounds bits ltac:(lia)) as (Hlb & _ & He & Hne). unfold bitmap_weight, BITS_PER_LONG.
  assert (0 <= bits / 32) by (apply Z.div_pos; lia). pose proof (Z.div_mod bits 32 ltac:(lia)) as Hdm.
  pose proof (Z.mod_pos_bound bits 32 ltac:(lia)) as Hmb.
  rewrite (weight_words_spec m _ 0) by (done || destruct (decide (bits mod 32 = 0)); lia). cbn [mbind option_bind].
  rewrite Nat.add_0_l. destruct (Z.eqb_spec (bits mod 32) 0) as [H0|H0]; [do 2 f_equal; lia|].
  rewrite list_lookup_lookup_total_lt by lia. cbn [mbind option_bind]. set (k := Z.to_nat (bits / 32)) in *.
  assert (BITMAP_LAST_WORD_MASK bits = Z.ones (Z.of_nat (Z.to_nat (bits mod 32)))) as ->.
  { unfold BITMAP_LAST_WORD_MASK, BITS_PER_LONG. destruct (Z.eqb_spec (bits mod 32) 0); [done|].
    rewrite Z.shiftl_1_l, Z2Nat.id, Z.ones_equiv by lia. unfold u32. rewrite Z.sub_1_r.
    apply wrap_id. assert (2 ^ (bits mod 32) <= 2 ^ 31) by (apply Z.pow_le_mono_r; lia). unfold in_u. lia. }
  rewrite hweight32_pop by (apply land_in_u; [lia|by apply word_u32|rewrite Z.ones_equiv; lia]).
  rewrite popcount_mask by lia. rewrite <- bits_set_add by lia.
  replace (32 * k + Z.to_nat (bits mod 32))%nat with (Z.to_nat bits) by lia. f_equal. apply s32_id.
  pose proof (bits_set_range (Z.to_nat bits) m). lia.
Qed.
End Weight.

(** * Examples *)

Module BitmapDemo.
Definition m48 : bitmap := [0xffffffff; 0xabcd0f0f].

Lemma m48_holds : holds 48 m48.
Proof. split_and!; [done|done|by vm_compute|]. repeat constructor; by vm_compute. Qed.

Lemma bitmap_predicates_witness : decides (bitmap_subset m48 m48 48) (∀ i, 0 <= i < 48 -> bit m48 i = true -> bit m48 i = true).
Proof. apply (bitmap_predicates 48 m48 m48 m48_holds m48_holds). Defined.

(** In place, by a word and four bits; the unused bits were garbage. *)
Lemma bitmap_shifts_witness : ∃ d', bitmap_shift_left m48 Dst 36 48 = Some d' ∧ holds 48 d' ∧
  ∀ i, 0 <= i < 64 -> bit d' i = (i <? 48) && (36 <=? i) && bit m48 (i - 36).
Proof. apply (bitmap_shifts 48 36 m48 Dst m48_holds m48_holds); [lia|by vm_compute]. Defined.

Example shift_left_value : bitmap_shift_left m48 Dst 36 48 = Some [0; 0xfff0].
Proof. reflexivity. Qed.

Definition m64 : bitmap := [0xff; 0].

Lemma find_free_region_spec_witness :
  (∃ pos m' m'', bitmap_find_free_region m64 64 4 = Some (pos, m') ∧
     0 <= pos ∧ pos mod 2 ^ 4 = 0 ∧ pos + 2 ^ 4 <= 64 ∧ free m64 pos 4 ∧
     (∀ p, 0 <= p < pos -> p mod 2 ^ 4 = 0 -> ¬ free m64 p 4) ∧
     (∀ i, 0 <= i -> bit m' i = bit m64 i || in_region pos 4 i) ∧
     bitmap_release_region m' pos 4 = Some m'' ∧ (∀ i, 0 <= i -> bit m'' i = bit m64 i)) ∨
  (bitmap_find_free_region m64 64 4 = Some (- ENOMEM, m64) ∧ ∀ p, 0 <= p < 64 -> p mod 2 ^ 4 = 0 -> ¬ free m64 p 4).
Proof.
  apply (find_free_region_spec 64 4 m64); [|lia|by vm_compute].
  split_and!; [done|done|by vm_compute|]. repeat constructor; by vm_compute.
Defined.

(** The exit test of bitmap_find_free_region is [pos == bits], so when
    the size is not a multiple of the region size the search steps over the
    end: a bitmap of 48 bits whose 32-bit regions are all busy yields region
    64, and the words of that region (the third one) are set: with two words
    allocated this is a write outside the bitmap, with three it succeeds. *)
Theorem find_free_region_oversteps :
  bitmap_find_free_region [0xffffffff; 1] 48 5 = None ∧
  bitmap_find_free_region [0xffffffff; 1; 0] 48 5 = Some (64, [0xffffffff; 1; 0xffffffff]) ∧
  bitmap_find_free_region [0xffffffff; 1] 64 5 = Some (- ENOMEM, [0xffffffff; 1]).
Proof. split_and!; reflexivity. Qed.
End BitmapDemo.
