(* ===== verification/Crc.v ===== *)
(** Checksums and bit reversal: lib/crc16.c, crc-ccitt.c, crc-itu-t.c, crc7.c,
    crc32.c with the generator of its tables gen_crc32table.c, and bitrev.c.

    The reference is the shift register that takes one message bit at a time
    ([serial_lsb], [serial_msb]); the table-driven routines of the kernel are
    shown to compute the same remainder for every message, start value and
    alignment of the buffer.  The configuration is little-endian with
    CRC_LE_BITS = CRC_BE_BITS = 8. *)

From S2P Require Import Prelude.

(** * The tables *)

Definition crc16_table : list Z := [
  0x0000; 0xc0c1; 0xc181; 0x0140; 0xc301; 0x03c0; 0x0280; 0xc241; 0xc601; 0x06c0; 0x0780; 0xc741; 0x0500; 0xc5c1; 0xc481; 0x0440;
  0xcc01; 0x0cc0; 0x0d80; 0xcd41; 0x0f00; 0xcfc1; 0xce81; 0x0e40; 0x0a00; 0xcac1; 0xcb81; 0x0b40; 0xc901; 0x09c0; 0x0880; 0xc841;
  0xd801; 0x18c0; 0x1980; 0xd941; 0x1b00; 0xdbc1; 0xda81; 0x1a40; 0x1e00; 0xdec1; 0xdf81; 0x1f40; 0xdd01; 0x1dc0; 0x1c80; 0xdc41;
  0x1400; 0xd4c1; 0xd581; 0x1540; 0xd701; 0x17c0; 0x1680; 0xd641; 0xd201; 0x12c0; 0x1380; 0xd341; 0x1100; 0xd1c1; 0xd081; 0x1040;
  0xf001; 0x30c0; 0x3180; 0xf141; 0x3300; 0xf3c1; 0xf281; 0x3240; 0x3600; 0xf6c1; 0xf781; 0x3740; 0xf501; 0x35c0; 0x3480; 0xf441;
  0x3c00; 0xfcc1; 0xfd81; 0x3d40; 0xff01; 0x3fc0; 0x3e80; 0xfe41; 0xfa01; 0x3ac0; 0x3b80; 0xfb41; 0x3900; 0xf9c1; 0xf881; 0x3840;
  0x2800; 0xe8c1; 0xe981; 0x2940; 0xeb01; 0x2bc0; 0x2a80; 0xea41; 0xee01; 0x2ec0; 0x2f80; 0xef41; 0x2d00; 0xedc1; 0xec81; 0x2c40;
  0xe401; 0x24c0; 0x2580; 0xe541; 0x2700; 0xe7c1; 0xe681; 0x2640; 0x2200; 0xe2c1; 0xe381; 0x2340; 0xe101; 0x21c0; 0x2080; 0xe041;
  0xa001; 0x60c0; 0x6180; 0xa141; 0x6300; 0xa3c1; 0xa281; 0x6240; 0x6600; 0xa6c1; 0xa781; 0x6740; 0xa501; 0x65c0; 0x6480; 0xa441;
  0x6c00; 0xacc1; 0xad81; 0x6d40; 0xaf01; 0x6fc0; 0x6e80; 0xae41; 0xaa01; 0x6ac0; 0x6b80; 0xab41; 0x6900; 0xa9c1; 0xa881; 0x6840;
  0x7800; 0xb8c1; 0xb981; 0x7940; 0xbb01; 0x7bc0; 0x7a80; 0xba41; 0xbe01; 0x7ec0; 0x7f80; 0xbf41; 0x7d00; 0xbdc1; 0xbc81; 0x7c40;
  0xb401; 0x74c0; 0x7580; 0xb541; 0x7700; 0xb7c1; 0xb681; 0x7640; 0x7200; 0xb2c1; 0xb381; 0x7340; 0xb101; 0x71c0; 0x7080; 0xb041;
  0x5000; 0x90c1; 0x9181; 0x5140; 0x9301; 0x53c0; 0x5280; 0x9241; 0x9601; 0x56c0; 0x5780; 0x9741; 0x5500; 0x95c1; 0x9481; 0x5440;
  0x9c01; 0x5cc0; 0x5d80; 0x9d41; 0x5f00; 0x9fc1; 0x9e81; 0x5e40; 0x5a00; 0x9ac1; 0x9b81; 0x5b40; 0x9901; 0x59c0; 0x5880; 0x9841;
  0x8801; 0x48c0; 0x4980; 0x8941; 0x4b00; 0x8bc1; 0x8a81; 0x4a40; 0x4e00; 0x8ec1; 0x8f81; 0x4f40; 0x8d01; 0x4dc0; 0x4c80; 0x8c41;
  0x4400; 0x84c1; 0x8581; 0x4540; 0x8701; 0x47c0; 0x4680; 0x8641; 0x8201; 0x42c0; 0x4380; 0x8341; 0x4100; 0x81c1; 0x8081; 0x4040].

Definition crc_ccitt_table : list Z := [
  0x0000; 0x1189; 0x2312; 0x329b; 0x4624; 0x57ad; 0x6536; 0x74bf; 0x8c48; 0x9dc1; 0xaf5a; 0xbed3; 0xca6c; 0xdbe5; 0xe97e; 0xf8f7;
  0x1081; 0x0108; 0x3393; 0x221a; 0x56a5; 0x472c; 0x75b7; 0x643e; 0x9cc9; 0x8d40; 0xbfdb; 0xae52; 0xdaed; 0xcb64; 0xf9ff; 0xe876;
  0x2102; 0x308b; 0x0210; 0x1399; 0x6726; 0x76af; 0x4434; 0x55bd; 0xad4a; 0xbcc3; 0x8e58; 0x9fd1; 0xeb6e; 0xfae7; 0xc87c; 0xd9f5;
  0x3183; 0x200a; 0x1291; 0x0318; 0x77a7; 0x662e; 0x54b5; 0x453c; 0xbdcb; 0xac42; 0x9ed9; 0x8f50; 0xfbef; 0xea66; 0xd8fd; 0xc974;
  0x4204; 0x538d; 0x6116; 0x709f; 0x0420; 0x15a9; 0x2732; 0x36bb; 0xce4c; 0xdfc5; 0xed5e; 0xfcd7; 0x8868; 0x99e1; 0xab7a; 0xbaf3;
  0x5285; 0x430c; 0x7197; 0x601e; 0x14a1; 0x0528; 0x37b3; 0x263a; 0xdecd; 0xcf44; 0xfddf; 0xec56; 0x98e9; 0x8960; 0xbbfb; 0xaa72;
  0x6306; 0x728f; 0x4014; 0x519d; 0x2522; 0x34ab; 0x0630; 0x17b9; 0xef4e; 0xfec7; 0xcc5c; 0xddd5; 0xa96a; 0xb8e3; 0x8a78; 0x9bf1;
  0x7387; 0x620e; 0x5095; 0x411c; 0x35a3; 0x242a; 0x16b1; 0x0738; 0xffcf; 0xee46; 0xdcdd; 0xcd54; 0xb9eb; 0xa862; 0x9af9; 0x8b70;
  0x8408; 0x9581; 0xa71a; 0xb693; 0xc22c; 0xd3a5; 0xe13e; 0xf0b7; 0x0840; 0x19c9; 0x2b52; 0x3adb; 0x4e64; 0x5fed; 0x6d76; 0x7cff;
  0x9489; 0x8500; 0xb79b; 0xa612; 0xd2ad; 0xc324; 0xf1bf; 0xe036; 0x18c1; 0x0948; 0x3bd3; 0x2a5a; 0x5ee5; 0x4f6c; 0x7df7; 0x6c7e;
  0xa50a; 0xb483; 0x8618; 0x9791; 0xe32e; 0xf2a7; 0xc03c; 0xd1b5; 0x2942; 0x38cb; 0x0a50; 0x1bd9; 0x6f66; 0x7eef; 0x4c74; 0x5dfd;
  0xb58b; 0xa402; 0x9699; 0x8710; 0xf3af; 0xe226; 0xd0bd; 0xc134; 0x39c3; 0x284a; 0x1ad1; 0x0b58; 0x7fe7; 0x6e6e; 0x5cf5; 0x4d7c;
  0xc60c; 0xd785; 0xe51e; 0xf497; 0x8028; 0x91a1; 0xa33a; 0xb2b3; 0x4a44; 0x5bcd; 0x6956; 0x78df; 0x0c60; 0x1de9; 0x2f72; 0x3efb;
  0xd68d; 0xc704; 0xf59f; 0xe416; 0x90a9; 0x8120; 0xb3bb; 0xa232; 0x5ac5; 0x4b4c; 0x79d7; 0x685e; 0x1ce1; 0x0d68; 0x3ff3; 0x2e7a;
  0xe70e; 0xf687; 0xc41c; 0xd595; 0xa12a; 0xb0a3; 0x8238; 0x93b1; 0x6b46; 0x7acf; 0x4854; 0x59dd; 0x2d62; 0x3ceb; 0x0e70; 0x1ff9;
  0xf78f; 0xe606; 0xd49d; 0xc514; 0xb1ab; 0xa022; 0x92b9; 0x8330; 0x7bc7; 0x6a4e; 0x58d5; 0x495c; 0x3de3; 0x2c6a; 0x1ef1; 0x0f78].

Definition crc_itu_t_table : list Z := [
  0x0000; 0x1021; 0x2042; 0x3063; 0x4084; 0x50a5; 0x60c6; 0x70e7; 0x8108; 0x9129; 0xa14a; 0xb16b; 0xc18c; 0xd1ad; 0xe1ce; 0xf1ef;
  0x1231; 0x0210; 0x3273; 0x2252; 0x52b5; 0x4294; 0x72f7; 0x62d6; 0x9339; 0x8318; 0xb37b; 0xa35a; 0xd3bd; 0xc39c; 0xf3ff; 0xe3de;
  0x2462; 0x3443; 0x0420; 0x1401; 0x64e6; 0x74c7; 0x44a4; 0x5485; 0xa56a; 0xb54b; 0x8528; 0x9509; 0xe5ee; 0xf5cf; 0xc5ac; 0xd58d;
  0x3653; 0x2672; 0x1611; 0x0630; 0x76d7; 0x66f6; 0x5695; 0x46b4; 0xb75b; 0xa77a; 0x9719; 0x8738; 0xf7df; 0xe7fe; 0xd79d; 0xc7bc;
  0x48c4; 0x58e5; 0x6886; 0x78a7; 0x0840; 0x1861; 0x2802; 0x3823; 0xc9cc; 0xd9ed; 0xe98e; 0xf9af; 0x8948; 0x9969; 0xa90a; 0xb92b;
  0x5af5; 0x4ad4; 0x7ab7; 0x6a96; 0x1a71; 0x0a50; 0x3a33; 0x2a12; 0xdbfd; 0xcbdc; 0xfbbf; 0xeb9e; 0x9b79; 0x8b58; 0xbb3b; 0xab1a;
  0x6ca6; 0x7c87; 0x4ce4; 0x5cc5; 0x2c22; 0x3c03; 0x0c60; 0x1c41; 0xedae; 0xfd8f; 0xcdec; 0xddcd; 0xad2a; 0xbd0b; 0x8d68; 0x9d49;
  0x7e97; 0x6eb6; 0x5ed5; 0x4ef4; 0x3e13; 0x2e32; 0x1e51; 0x0e70; 0xff9f; 0xefbe; 0xdfdd; 0xcffc; 0xbf1b; 0xaf3a; 0x9f59; 0x8f78;
  0x9188; 0x81a9; 0xb1ca; 0xa1eb; 0xd10c; 0xc12d; 0xf14e; 0xe16f; 0x1080; 0x00a1; 0x30c2; 0x20e3; 0x5004; 0x4025; 0x7046; 0x6067;
  0x83b9; 0x9398; 0xa3fb; 0xb3da; 0xc33d; 0xd31c; 0xe37f; 0xf35e; 0x02b1; 0x1290; 0x22f3; 0x32d2; 0x4235; 0x5214; 0x6277; 0x7256;
  0xb5ea; 0xa5cb; 0x95a8; 0x8589; 0xf56e; 0xe54f; 0xd52c; 0xc50d; 0x34e2; 0x24c3; 0x14a0; 0x0481; 0x7466; 0x6447; 0x5424; 0x4405;
  0xa7db; 0xb7fa; 0x8799; 0x97b8; 0xe75f; 0xf77e; 0xc71d; 0xd73c; 0x26d3; 0x36f2; 0x0691; 0x16b0; 0x6657; 0x7676; 0x4615; 0x5634;
  0xd94c; 0xc96d; 0xf90e; 0xe92f; 0x99c8; 0x89e9; 0xb98a; 0xa9ab; 0x5844; 0x4865; 0x7806; 0x6827; 0x18c0; 0x08e1; 0x3882; 0x28a3;
  0xcb7d; 0xdb5c; 0xeb3f; 0xfb1e; 0x8bf9; 0x9bd8; 0xabbb; 0xbb9a; 0x4a75; 0x5a54; 0x6a37; 0x7a16; 0x0af1; 0x1ad0; 0x2ab3; 0x3a92;
  0xfd2e; 0xed0f; 0xdd6c; 0xcd4d; 0xbdaa; 0xad8b; 0x9de8; 0x8dc9; 0x7c26; 0x6c07; 0x5c64; 0x4c45; 0x3ca2; 0x2c83; 0x1ce0; 0x0cc1;
  0xef1f; 0xff3e; 0xcf5d; 0xdf7c; 0xaf9b; 0xbfba; 0x8fd9; 0x9ff8; 0x6e17; 0x7e36; 0x4e55; 0x5e74; 0x2e93; 0x3eb2; 0x0ed1; 0x1ef0].

Definition crc7_syndrome_table : list Z := [
  0x00; 0x09; 0x12; 0x1b; 0x24; 0x2d; 0x36; 0x3f; 0x48; 0x41; 0x5a; 0x53; 0x6c; 0x65; 0x7e; 0x77;
  0x19; 0x10; 0x0b; 0x02; 0x3d; 0x34; 0x2f; 0x26; 0x51; 0x58; 0x43; 0x4a; 0x75; 0x7c; 0x67; 0x6e;
  0x32; 0x3b; 0x20; 0x29; 0x16; 0x1f; 0x04; 0x0d; 0x7a; 0x73; 0x68; 0x61; 0x5e; 0x57; 0x4c; 0x45;
  0x2b; 0x22; 0x39; 0x30; 0x0f; 0x06; 0x1d; 0x14; 0x63; 0x6a; 0x71; 0x78; 0x47; 0x4e; 0x55; 0x5c;
  0x64; 0x6d; 0x76; 0x7f; 0x40; 0x49; 0x52; 0x5b; 0x2c; 0x25; 0x3e; 0x37; 0x08; 0x01; 0x1a; 0x13;
  0x7d; 0x74; 0x6f; 0x66; 0x59; 0x50; 0x4b; 0x42; 0x35; 0x3c; 0x27; 0x2e; 0x11; 0x18; 0x03; 0x0a;
  0x56; 0x5f; 0x44; 0x4d; 0x72; 0x7b; 0x60; 0x69; 0x1e; 0x17; 0x0c; 0x05; 0x3a; 0x33; 0x28; 0x21;
  0x4f; 0x46; 0x5d; 0x54; 0x6b; 0x62; 0x79; 0x70; 0x07; 0x0e; 0x15; 0x1c; 0x23; 0x2a; 0x31; 0x38;
  0x41; 0x48; 0x53; 0x5a; 0x65; 0x6c; 0x77; 0x7e; 0x09; 0x00; 0x1b; 0x12; 0x2d; 0x24; 0x3f; 0x36;
  0x58; 0x51; 0x4a; 0x43; 0x7c; 0x75; 0x6e; 0x67; 0x10; 0x19; 0x02; 0x0b; 0x34; 0x3d; 0x26; 0x2f;
  0x73; 0x7a; 0x61; 0x68; 0x57; 0x5e; 0x45; 0x4c; 0x3b; 0x32; 0x29; 0x20; 0x1f; 0x16; 0x0d; 0x04;
  0x6a; 0x63; 0x78; 0x71; 0x4e; 0x47; 0x5c; 0x55; 0x22; 0x2b; 0x30; 0x39; 0x06; 0x0f; 0x14; 0x1d;
  0x25; 0x2c; 0x37; 0x3e; 0x01; 0x08; 0x13; 0x1a; 0x6d; 0x64; 0x7f; 0x76; 0x49; 0x40; 0x5b; 0x52;
  0x3c; 0x35; 0x2e; 0x27; 0x18; 0x11; 0x0a; 0x03; 0x74; 0x7d; 0x66; 0x6f; 0x50; 0x59; 0x42; 0x4b;
  0x17; 0x1e; 0x05; 0x0c; 0x33; 0x3a; 0x21; 0x28; 0x5f; 0x56; 0x4d; 0x44; 0x7b; 0x72; 0x69; 0x60;
  0x0e; 0x07; 0x1c; 0x15; 0x2a; 0x23; 0x38; 0x31; 0x46; 0x4f; 0x54; 0x5d; 0x62; 0x6b; 0x70; 0x79].

Definition byte_rev_table : list Z := [
  0x00; 0x80; 0x40; 0xc0; 0x20; 0xa0; 0x60; 0xe0; 0x10; 0x90; 0x50; 0xd0; 0x30; 0xb0; 0x70; 0xf0;
  0x08; 0x88; 0x48; 0xc8; 0x28; 0xa8; 0x68; 0xe8; 0x18; 0x98; 0x58; 0xd8; 0x38; 0xb8; 0x78; 0xf8;
  0x04; 0x84; 0x44; 0xc4; 0x24; 0xa4; 0x64; 0xe4; 0x14; 0x94; 0x54; 0xd4; 0x34; 0xb4; 0x74; 0xf4;
  0x0c; 0x8c; 0x4c; 0xcc; 0x2c; 0xac; 0x6c; 0xec; 0x1c; 0x9c; 0x5c; 0xdc; 0x3c; 0xbc; 0x7c; 0xfc;
  0x02; 0x82; 0x42; 0xc2; 0x22; 0xa2; 0x62; 0xe2; 0x12; 0x92; 0x52; 0xd2; 0x32; 0xb2; 0x72; 0xf2;
  0x0a; 0x8a; 0x4a; 0xca; 0x2a; 0xaa; 0x6a; 0xea; 0x1a; 0x9a; 0x5a; 0xda; 0x3a; 0xba; 0x7a; 0xfa;
  0x06; 0x86; 0x46; 0xc6; 0x26; 0xa6; 0x66; 0xe6; 0x16; 0x96; 0x56; 0xd6; 0x36; 0xb6; 0x76; 0xf6;
  0x0e; 0x8e; 0x4e; 0xce; 0x2e; 0xae; 0x6e; 0xee; 0x1e; 0x9e; 0x5e; 0xde; 0x3e; 0xbe; 0x7e; 0xfe;
  0x01; 0x81; 0x41; 0xc1; 0x21; 0xa1; 0x61; 0xe1; 0x11; 0x91; 0x51; 0xd1; 0x31; 0xb1; 0x71; 0xf1;
  0x09; 0x89; 0x49; 0xc9; 0x29; 0xa9; 0x69; 0xe9; 0x19; 0x99; 0x59; 0xd9; 0x39; 0xb9; 0x79; 0xf9;
  0x05; 0x85; 0x45; 0xc5; 0x25; 0xa5; 0x65; 0xe5; 0x15; 0x95; 0x55; 0xd5; 0x35; 0xb5; 0x75; 0xf5;
  0x0d; 0x8d; 0x4d; 0xcd; 0x2d; 0xad; 0x6d; 0xed; 0x1d; 0x9d; 0x5d; 0xdd; 0x3d; 0xbd; 0x7d; 0xfd;
  0x03; 0x83; 0x43; 0xc3; 0x23; 0xa3; 0x63; 0xe3; 0x13; 0x93; 0x53; 0xd3; 0x33; 0xb3; 0x73; 0xf3;
  0x0b; 0x8b; 0x4b; 0xcb; 0x2b; 0xab; 0x6b; 0xeb; 0x1b; 0x9b; 0x5b; 0xdb; 0x3b; 0xbb; 0x7b; 0xfb;
  0x07; 0x87; 0x47; 0xc7; 0x27; 0xa7; 0x67; 0xe7; 0x17; 0x97; 0x57; 0xd7; 0x37; 0xb7; 0x77; 0xf7;
  0x0f; 0x8f; 0x4f; 0xcf; 0x2f; 0xaf; 0x6f; 0xef; 0x1f; 0x9f; 0x5f; 0xdf; 0x3f; 0xbf; 0x7f; 0xff].

(** An index masked to eight bits never leaves a table. *)
Definition entry (tab : list Z) (i : Z) : Z := default 0 (tab !! Z.to_nat i).

(** * Byte-wise routines *)

Definition crc16_byte (crc data : Z) : Z := Z.lxor (Z.shiftr crc 8) (entry crc16_table (Z.land (Z.lxor crc data) 0xff)).
Definition crc16 (crc : Z) (buffer : list Z) : Z := foldl crc16_byte crc buffer.

Definition crc_ccitt_byte (crc c : Z) : Z := Z.lxor (Z.shiftr crc 8) (entry crc_ccitt_table (Z.land (Z.lxor crc c) 0xff)).
Definition crc_ccitt (crc : Z) (buffer : list Z) : Z := foldl crc_ccitt_byte crc buffer.

(** The result is returned as a [u16]. *)
Definition crc_itu_t_byte (crc data : Z) : Z :=
  u16 (Z.lxor (Z.shiftl crc 8) (entry crc_itu_t_table (Z.land (Z.lxor (Z.shiftr crc 8) data) 0xff))).
Definition crc_itu_t (crc : Z) (buffer : list Z) : Z := foldl crc_itu_t_byte crc buffer.

(** The index is not masked: a value of more than seven bits leaves the table. *)
Definition crc7_byte (crc data : Z) : option Z := crc7_syndrome_table !! Z.to_nat (Z.lxor (Z.shiftl crc 1) data).
Fixpoint crc7 (crc : Z) (buffer : list Z) : option Z :=
  match buffer with [] => Some crc | c :: l => crc ← crc7_byte crc c; crc7 crc l end.

(** * Bit reversal *)

Definition bitrev8 (byte : Z) : Z := entry byte_rev_table byte.
Definition bitrev16 (x : Z) : Z := Z.lor (Z.shiftl (bitrev8 (Z.land x 0xff)) 8) (bitrev8 (Z.shiftr x 8)).
Definition bitrev32 (x : Z) : Z := Z.lor (Z.shiftl (bitrev16 (Z.land x 0xffff)) 16) (bitrev16 (Z.shiftr x 16)).

(** * CRC-32 *)

Definition CRCPOLY_LE : Z := 0xedb88320.
Definition CRCPOLY_BE : Z := 0x04c11db7.

(** gen_crc32table.c: the inner loop of crc32init_le stores [crc ^ tab[j]] at
    [i + j] for [j = 0, 2*i, ...]; [n] bounds its passes. *)
Fixpoint init_le_row (n : nat) (i j crc : Z) (tab : list Z) : list Z :=
  match n with
  | O => tab
  | S n => if j <? 256 then init_le_row n i (j + 2 * i) crc (<[Z.to_nat (i + j) := Z.lxor crc (entry tab j)]> tab) else tab
  end.

Fixpoint init_le_loop (n : nat) (i crc : Z) (tab : list Z) : list Z :=
  match n with
  | O => tab
  | S n =>
      if i =? 0 then tab
      else
        let crc := Z.lxor (Z.shiftr crc 1) (if tst crc 1 then CRCPOLY_LE else 0) in
        init_le_loop n (Z.shiftr i 1) crc (init_le_row 256 i 0 crc tab)
  end.

Definition crc32init_le : list Z := init_le_loop 9 (Z.shiftl 1 7) 1 (replicate 256 0).

Fixpoint init_be_row (n : nat) (i j crc : Z) (tab : list Z) : list Z :=
  match n with
  | O => tab
  | S n => if j <? i then init_be_row n i (j + 1) crc (<[Z.to_nat (i + j) := Z.lxor crc (entry tab j)]> tab) else tab
  end.

Fixpoint init_be_loop (n : nat) (i crc : Z) (tab : list Z) : list Z :=
  match n with
  | O => tab
  | S n =>
      if i <? 256 then
        let crc := Z.lxor (u32 (Z.shiftl crc 1)) (if tst crc 0x80000000 then CRCPOLY_BE else 0) in
        init_be_loop n (Z.shiftl i 1) crc (init_be_row 256 i 0 crc tab)
      else tab
  end.

Definition crc32init_be : list Z := init_be_loop 9 1 0x80000000 (replicate 256 0).

(** [__cpu_to_be32] on a little-endian machine *)
Definition swab32 (x : Z) : Z :=
  Z.lor (Z.lor (Z.shiftl (Z.land x 0xff) 24) (Z.shiftl (Z.land x 0xff00) 8))
        (Z.lor (Z.land (Z.shiftr x 8) 0xff00) (Z.land (Z.shiftr x 24) 0xff)).

(** The tables as crc32.c includes them: [tole] and [tobe] of the generated
    entries. *)
Definition crc32table_le : list Z := crc32init_le.
Definition crc32table_be : list Z := swab32 <$> crc32init_be.

Section Word.
Context (tab : list Z).

(** [DO_CRC] *)
Definition DO_CRC (crc x : Z) : Z := Z.lxor (entry tab (Z.land (Z.lxor crc x) 255)) (Z.shiftr crc 8).

(** Bytes up to a 4-byte boundary; [b] is the address. *)
Fixpoint align_it (crc b : Z) (data : list Z) : Z * list Z :=
  match data with
  | [] => (crc, [])
  | x :: l => if Z.land b 3 =? 0 then (crc, data) else align_it (DO_CRC crc x) (b + 1) l
  end.

(** A little-endian word load and four steps, [n] times. *)
Fixpoint by_words (n : nat) (crc : Z) (data : list Z) : Z * list Z :=
  match n, data with
  | S n, x0 :: x1 :: x2 :: x3 :: l =>
      let w := Z.lor (Z.lor x0 (Z.shiftl x1 8)) (Z.lor (Z.shiftl x2 16) (Z.shiftl x3 24)) in
      let crc := Z.lxor crc w in
      by_words n (DO_CRC (DO_CRC (DO_CRC (DO_CRC crc 0) 0) 0) 0) l
  | _, _ => (crc, data)
  end.

Definition crc_body (crc p : Z) (data : list Z) : Z :=
  let '(crc, data) := align_it crc p data in
  let '(crc, data) := by_words (length data / 4) crc data in
  foldl DO_CRC crc data.
End Word.

(** [p] is the address of the buffer. *)
Definition crc32_le (crc p : Z) (data : list Z) : Z := crc_body crc32table_le crc p data.
Definition crc32_be (crc p : Z) (data : list Z) : Z := swab32 (crc_body crc32table_be (swab32 crc) p data).

(** * The reference: one bit at a time *)

(** Least significant bit first, and most significant bit first on [w] bits. *)
Definition serial_lsb (p c : Z) (b : bool) : Z := Z.lxor (Z.shiftr c 1) (if xorb (Z.testbit c 0) b then p else 0).
Definition serial_msb (w p c : Z) (b : bool) : Z := Z.lxor (wrap w (Z.shiftl c 1)) (if xorb (Z.testbit c (w - 1)) b then p else 0).

(** The bits of an [n]-bit value in the two orders. *)
Fixpoint bits_lsb (n : nat) (x : Z) : list bool :=
  match n with O => [] | S n => Z.testbit x 0 :: bits_lsb n (Z.shiftr x 1) end.
Fixpoint bits_msb (n : nat) (x : Z) : list bool :=
  match n with O => [] | S n => Z.testbit x (Z.of_nat n) :: bits_msb n x end.

Definition remainder_lsb (p c : Z) (data : list Z) : Z := foldl (λ c x, foldl (serial_lsb p) c (bits_lsb 8 x)) c data.
Definition remainder_msb (w p c : Z) (data : list Z) : Z := foldl (λ c x, foldl (serial_msb w p) c (bits_msb 8 x)) c data.

(** ** Linearity *)

Section Linear.
Implicit Types (c x y : Z).

Definition linear (f : Z -> Z) : Prop := ∀ x y, f (Z.lxor x y) = Z.lxor (f x) (f y).

Lemma linear_iter f n : linear f -> linear (Nat.iter n f).
Proof. intros Hf x y. induction n as [|n IH]; [done|]. rewrite !Nat.iter_succ. by rewrite IH, Hf. Qed.

Lemma if_xorb (p : Z) (a b : bool) : (if xorb a b then p else 0) = Z.lxor (if a then p else 0) (if b then p else 0).
Proof. destruct a, b; cbn [xorb]; by rewrite ?Z.lxor_nilpotent, ?Z.lxor_0_r, ?Z.lxor_0_l. Qed.

Lemma lxor_swap a b c d : Z.lxor (Z.lxor a b) (Z.lxor c d) = Z.lxor (Z.lxor a c) (Z.lxor b d).
Proof. rewrite !Z.lxor_assoc. f_equal. rewrite <- !Z.lxor_assoc. f_equal. apply Z.lxor_comm. Qed.

Definition lsb (p c : Z) : Z := serial_lsb p c false.
Definition msb (w p c : Z) : Z := serial_msb w p c false.

Lemma wrap_lxor w x y : 0 <= w -> wrap w (Z.lxor x y) = Z.lxor (wrap w x) (wrap w y).
Proof.
  intros Hw. bitwise. rewrite !wrap_testbit, Z.lxor_spec by done. by destruct (i <? w).
Qed.

Lemma lsb_linear p : linear (lsb p).
Proof. intros x y. unfold lsb, serial_lsb. rewrite Z.shiftr_lxor, Z.lxor_spec, !xorb_false_r, if_xorb. apply lxor_swap. Qed.

Lemma msb_linear w p : 0 <= w -> linear (msb w p).
Proof.
  intros Hw x y. unfold msb, serial_msb. rewrite Z.shiftl_lxor, Z.lxor_spec, !xorb_false_r, if_xorb, wrap_lxor by done. apply lxor_swap.
Qed.

(** Zeros are shifted out. *)
Lemma lsb_shift p n y : Nat.iter n (lsb p) (Z.shiftl y (Z.of_nat n)) = y.
Proof.
  induction n as [|n IH]; [by rewrite Z.shiftl_0_r|]. rewrite Nat.iter_succ_r. unfold lsb at 2, serial_lsb.
  rewrite Z.shiftl_spec_low by lia. cbn [xorb]. rewrite Z.lxor_0_r, Z.shiftr_shiftl_l by lia.
  replace (Z.of_nat (S n) - 1) with (Z.of_nat n) by lia. done.
Qed.

Lemma msb_shift w p n y : 0 <= Z.of_nat n <= w -> in_u (w - Z.of_nat n) y -> Nat.iter n (msb w p) y = Z.shiftl y (Z.of_nat n).
Proof.
  revert y. induction n as [|n IH]; intros y Hn Hy; [by rewrite Z.shiftl_0_r|]. rewrite Nat.iter_succ_r. unfold msb at 2, serial_msb.
  rewrite (testbit_high (w - Z.of_nat (S n)) y) by (done || lia). cbn [xorb]. rewrite Z.lxor_0_r, wrap_id.
  - rewrite IH, Z.shiftl_shiftl by lia || (rewrite Z.shiftl_mul_pow2 by lia; unfold in_u in *;
      replace (w - Z.of_nat n) with (w - Z.of_nat (S n) + 1) by lia; rewrite Z.pow_add_r by lia; lia). f_equal. lia.
  - rewrite Z.shiftl_mul_pow2 by lia. unfold in_u in *. split; [lia|].
    assert (2 ^ w = 2 ^ (w - Z.of_nat (S n)) * 2 ^ (Z.of_nat (S n))) as -> by (rewrite <- Z.pow_add_r by lia; f_equal; lia).
    assert (2 ^ 1 <= 2 ^ Z.of_nat (S n)) by (apply Z.pow_le_mono_r; lia). nia.
Qed.
End Linear.

(** ** From bits to bytes *)

Section Lsb.
Context (p : Z).
Implicit Types (c x : Z).

Lemma serial_lsb_lsb c b : serial_lsb p c b = Z.lxor (lsb p c) (if b then p else 0).
Proof. unfold lsb, serial_lsb. rewrite xorb_false_r, if_xorb. by rewrite Z.lxor_assoc. Qed.

Lemma bits_lsb_iter n c x : in_u (Z.of_nat n) x -> foldl (serial_lsb p) c (bits_lsb n x) = Nat.iter n (lsb p) (Z.lxor c x).
Proof.
  revert c x. induction n as [|n IH]; intros c x Hx.
  - unfold in_u in Hx. simpl in Hx. assert (x = 0) as -> by lia. by rewrite Z.lxor_0_r.
  - cbn [bits_lsb foldl]. rewrite IH.
    + rewrite Nat.iter_succ_r. f_equal. rewrite lsb_linear, serial_lsb_lsb, Z.lxor_assoc. f_equal.
      unfold lsb, serial_lsb. rewrite xorb_false_r. apply Z.lxor_comm.
    + unfold in_u in *. rewrite Z.shiftr_div_pow2, Z.pow_1_r by lia. rewrite Nat2Z.inj_succ, Z.pow_succ_r in Hx by lia.
      split; [apply Z.div_pos; lia|apply Z.div_lt_upper_bound; lia].
Qed.

Lemma lsb_split n x : Nat.iter n (lsb p) x = Z.lxor (Z.shiftr x (Z.of_nat n)) (Nat.iter n (lsb p) (wrap (Z.of_nat n) x)).
Proof.
  assert (x = Z.lxor (Z.shiftl (Z.shiftr x (Z.of_nat n)) (Z.of_nat n)) (wrap (Z.of_nat n) x)) as Hx.
  { bitwise. rewrite wrap_testbit by lia. destruct (Z.ltb_spec i (Z.of_nat n)).
    - rewrite Z.shiftl_spec_low by lia. by rewrite xorb_false_l.
    - rewrite Z.shiftl_spec, Z.shiftr_spec by lia. rewrite xorb_false_r. f_equal. lia. }
  rewrite Hx at 1. rewrite linear_iter by apply lsb_linear. by rewrite lsb_shift.
Qed.

(** A table with the remainders of all bytes advances by one byte. *)
Definition table_lsb (tab : list Z) : Prop := ∀ i, 0 <= i < 256 -> entry tab i = Nat.iter 8 (lsb p) i.

Lemma byte_lsb tab c x : table_lsb tab -> in_u 8 x ->
  Z.lxor (Z.shiftr c 8) (entry tab (Z.land (Z.lxor c x) 0xff)) = foldl (serial_lsb p) c (bits_lsb 8 x).
Proof.
  intros Ht Hx. rewrite (bits_lsb_iter 8), (lsb_split 8) by done. change (Z.of_nat 8) with 8. rewrite wrap_land by lia.
  change (Z.ones 8) with 0xff. rewrite Ht.
  - f_equal. rewrite Z.shiftr_lxor. assert (Z.shiftr x 8 = 0) as ->; [|by rewrite Z.lxor_0_r].
    rewrite Z.shiftr_div_pow2 by lia. by apply Z.div_small.
  - change 0xff with (Z.ones 8). rewrite Z.land_ones by lia. apply Z.mod_pos_bound. lia.
Qed.
End Lsb.

Section Msb.
Context (w p : Z).
Implicit Types (c x : Z).

Lemma serial_msb_msb c b : serial_msb w p c b = Z.lxor (msb w p c) (if b then p else 0).
Proof. unfold msb, serial_msb. rewrite xorb_false_r, if_xorb. by rewrite Z.lxor_assoc. Qed.

(** The leading bit of the message, at the top of the register. *)
Lemma msb_top n x : Z.of_nat (S n) <= w ->
  msb w p (Z.shiftl (wrap (Z.of_nat (S n)) x) (w - Z.of_nat (S n))) =
  Z.lxor (if Z.testbit x (Z.of_nat n) then p else 0) (Z.shiftl (wrap (Z.of_nat n) x) (w - Z.of_nat n)).
Proof.
  intros Hn. unfold msb, serial_msb. rewrite xorb_false_r, Z.shiftl_spec, wrap_testbit by lia.
  replace (w - 1 - (w - Z.of_nat (S n))) with (Z.of_nat n) by lia. destruct (Z.ltb_spec (Z.of_nat n) (Z.of_nat (S n))); [|lia].
  cbn [andb]. rewrite Z.lxor_comm. f_equal. rewrite Z.shiftl_shiftl by lia. bitwise. rewrite wrap_testbit by lia.
  destruct (decide (i < w - Z.of_nat n)).
  - rewrite !Z.shiftl_spec_low by lia. by rewrite andb_false_r.
  - rewrite !Z.shiftl_spec, !wrap_testbit by lia. replace (i - (w - Z.of_nat (S n) + 1)) with (i - (w - Z.of_nat n)) by lia.
    case_cmp; try lia; done.
Qed.

Lemma bits_msb_iter n c x : Z.of_nat n <= w -> 
  foldl (serial_msb w p) c (bits_msb n x) = Nat.iter n (msb w p) (Z.lxor c (Z.shiftl (wrap (Z.of_nat n) x) (w - Z.of_nat n))).
Proof.
  revert c. induction n as [|n IH]; intros c Hn.
  - unfold wrap. rewrite Z.mod_1_r, Z.shiftl_0_l, Z.lxor_0_r. done.
  - cbn [bits_msb foldl]. rewrite IH by lia. rewrite Nat.iter_succ_r. f_equal.
    rewrite msb_linear, serial_msb_msb, Z.lxor_assoc, msb_top by lia. done.
Qed.

Lemma msb_split n x : Z.of_nat n <= w -> in_u w x -> Nat.iter n (msb w p) x =
  Z.lxor (wrap w (Z.shiftl x (Z.of_nat n))) (Nat.iter n (msb w p) (Z.shiftl (Z.shiftr x (w - Z.of_nat n)) (w - Z.of_nat n))).
Proof.
  intros Hn Hx. set (k := w - Z.of_nat n).
  assert (x = Z.lxor (wrap k x) (Z.shiftl (Z.shiftr x k) k)) as Hs.
  { bitwise. rewrite wrap_testbit by lia. destruct (Z.ltb_spec i k).
    - rewrite Z.shiftl_spec_low by lia. by rewrite xorb_false_r.
    - rewrite Z.shiftl_spec, Z.shiftr_spec by lia. cbn [andb xorb]. f_equal. lia. }
  rewrite Hs at 1. rewrite linear_iter by (apply msb_linear; lia). f_equal. rewrite msb_shift; [|lia|apply wrap_range; lia].
  bitwise. rewrite wrap_testbit by lia. destruct (decide (i < Z.of_nat n)).
  - rewrite !Z.shiftl_spec_low by lia. by rewrite andb_false_r.
  - rewrite !Z.shiftl_spec, wrap_testbit by lia. case_cmp; try lia; done.
Qed.

Definition table_msb (tab : list Z) : Prop := ∀ i, 0 <= i < 256 -> entry tab i = Nat.iter 8 (msb w p) (Z.shiftl i (w - 8)).

Lemma byte_msb tab c x : table_msb tab -> 8 <= w -> in_u w c -> in_u 8 x ->
  Z.lxor (wrap w (Z.shiftl c 8)) (entry tab (Z.lxor (Z.shiftr c (w - 8)) x)) = foldl (serial_msb w p) c (bits_msb 8 x).
Proof.
  intros Ht Hw Hc Hx. rewrite (bits_msb_iter 8) by lia. change (Z.of_nat 8) with 8. rewrite (wrap_id 8 x) by done.
  assert (in_u w (Z.lxor c (Z.shiftl x (w - 8)))) as Hin.
  { apply in_u_bits; [lia|apply Z.lxor_nonneg; rewrite Z.shiftl_nonneg; unfold in_u in *; lia|]. intros i Hi.
    rewrite Z.lxor_spec, Z.shiftl_spec, (testbit_high w c), (testbit_high 8 x) by (done || lia). done. }
  rewrite (msb_split 8) by (done || lia). change (Z.of_nat 8) with 8. rewrite Z.shiftl_lxor, wrap_lxor, Z.shiftl_shiftl by lia.
  assert (wrap w (Z.shiftl x (w - 8 + 8)) = 0) as ->.
  { bitwise. rewrite wrap_testbit by lia. case_cmp; [|done]. rewrite Z.shiftl_spec_low by lia. done. }
  rewrite Z.lxor_0_r, Z.shiftr_lxor, Z.shiftr_shiftl_l, Z.sub_diag, Z.shiftl_0_r by lia. f_equal. apply Ht.
  assert (in_u 8 (Z.lxor (Z.shiftr c (w - 8)) x)); [|done].
  apply in_u_bits; [lia|apply Z.lxor_nonneg; rewrite Z.shiftr_nonneg; unfold in_u in *; lia|]. intros i Hi.
  rewrite Z.lxor_spec, Z.shiftr_spec, (testbit_high w c), (testbit_high 8 x) by (done || lia). done.
Qed.
End Msb.

(** * The kernel's routines *)

(** Two byte-wise updates that agree on an invariant. *)
Lemma foldl_agree (I : Z -> Prop) (f g : Z -> Z -> Z) data c :
  (∀ c x, I c -> in_u 8 x -> f c x = g c x ∧ I (f c x)) -> I c -> Forall (in_u 8) data -> foldl f c data = foldl g c data ∧ I (foldl f c data).
Proof.
  intros Hfg. revert c. induction data as [|x data IH]; intros c Hc Hd; [done|]. apply Forall_cons in Hd as [Hx Hd].
  cbn [foldl]. destruct (Hfg c x Hc Hx) as [He Hi]. rewrite <- He. by apply IH.
Qed.

Lemma entry_map f (tab : list Z) : tab = f <$> seqZ 0 256 -> ∀ i, 0 <= i < 256 -> entry tab i = f i.
Proof. intros -> i Hi. unfold entry. rewrite list_lookup_fmap, lookup_seqZ_lt by lia. simpl. f_equal. lia. Qed.

Lemma crc16_table_ok : table_lsb 0xa001 crc16_table.
Proof. refine (entry_map (Nat.iter 8 (lsb 0xa001)) _ _). vm_compute. reflexivity. Qed.

Lemma crc_ccitt_table_ok : table_lsb 0x8408 crc_ccitt_table.
Proof. refine (entry_map (Nat.iter 8 (lsb 0x8408)) _ _). vm_compute. reflexivity. Qed.

Lemma crc_itu_t_table_ok : table_msb 16 0x1021 crc_itu_t_table.
Proof. refine (entry_map (λ i, Nat.iter 8 (msb 16 0x1021) (Z.shiftl i 8)) _ _). vm_compute. reflexivity. Qed.

Lemma crc32_le_table_ok : table_lsb CRCPOLY_LE crc32init_le.
Proof. refine (entry_map (Nat.iter 8 (lsb CRCPOLY_LE)) _ _). vm_compute. reflexivity. Qed.

Lemma crc32_be_table_ok : table_msb 32 CRCPOLY_BE crc32init_be.
Proof. refine (entry_map (λ i, Nat.iter 8 (msb 32 CRCPOLY_BE) (Z.shiftl i 24)) _ _). vm_compute. reflexivity. Qed.

Lemma entry_range w tab i : Forall (in_u w) tab -> 0 < w -> in_u w (entry tab i).
Proof.
  intros Ht Hw. unfold entry. destruct (tab !! Z.to_nat i) as [v|] eqn:E; [|unfold in_u; simpl; lia].
  rewrite Forall_lookup in Ht. by eapply Ht.
Qed.

Lemma land_byte x : Z.land x 0xff = x mod 256.
Proof. exact (Z.land_ones x 8 ltac:(lia)). Qed.

Lemma crc_itu_t_byte_ok c x : in_u 16 c -> in_u 8 x ->
  crc_itu_t_byte c x = foldl (serial_msb 16 0x1021) c (bits_msb 8 x) ∧ in_u 16 (crc_itu_t_byte c x).
Proof.
  intros Hc Hx. split; [|apply u16_range].
  assert (in_u 8 (Z.lxor (Z.shiftr c 8) x)) as Hi.
  { apply in_u_bits; [lia|apply Z.lxor_nonneg; rewrite Z.shiftr_nonneg; unfold in_u in *; lia|]. intros i Hi.
    rewrite Z.lxor_spec, Z.shiftr_spec, (testbit_high 16 c), (testbit_high 8 x) by (done || lia). done. }
  rewrite <- (byte_msb 16 0x1021 _ c x crc_itu_t_table_ok) by (done || lia). unfold crc_itu_t_byte, u16.
  rewrite land_byte, Z.mod_small by exact Hi. rewrite wrap_lxor by lia. f_equal. apply wrap_id, entry_range; [|lia].
  apply (bool_decide_unpack _). vm_compute. exact I.
Qed.

(** The 7-bit register at the top of a byte is an 8-bit one. *)
Lemma serial_7_8 c b : serial_msb 8 0x12 (Z.shiftl c 1) b = Z.shiftl (serial_msb 7 0x09 c b) 1.
Proof.
  unfold serial_msb. rewrite Z.shiftl_lxor, (Z.shiftl_spec c) by lia. change (8 - 1 - 1) with (7 - 1). f_equal.
  - bitwise. rewrite wrap_testbit by lia. destruct (decide (i = 0)) as [->|]; [by rewrite !Z.shiftl_spec_low, andb_false_r by lia|].
    rewrite !(Z.shiftl_spec _ 1 i), wrap_testbit by lia. case_cmp; try lia; done.
  - by destruct (xorb _ b).
Qed.

Lemma crc7_table_ok i : 0 <= i < 256 -> ∃ v, crc7_syndrome_table !! Z.to_nat i = Some v ∧ in_u 7 v ∧ Z.shiftl v 1 = Nat.iter 8 (msb 8 0x12) i.
Proof.
  intros Hi. assert ((λ v, Z.shiftl v 1) <$> crc7_syndrome_table = Nat.iter 8 (msb 8 0x12) <$> seqZ 0 256) as Ht by (vm_compute; reflexivity).
  assert (Forall (in_u 7) crc7_syndrome_table) as Hr by (apply (bool_decide_unpack _); vm_compute; exact I).
  apply (f_equal (.!! Z.to_nat i)) in Ht. rewrite !list_lookup_fmap, lookup_seqZ_lt in Ht by lia.
  destruct (crc7_syndrome_table !! Z.to_nat i) as [v|] eqn:E; [|done]. exists v.
  change (Some (Z.shiftl v 1) = Some (Nat.iter 8 (msb 8 18) (0 + Z.of_nat (Z.to_nat i)))) in Ht. apply (inj Some) in Ht. split_and!; [done| |].
  - rewrite Forall_lookup in Hr. by eapply Hr.
  - rewrite Ht. f_equal. lia.
Qed.

Lemma crc7_byte_ok c x : in_u 7 c -> in_u 8 x ->
  crc7_byte c x = Some (foldl (serial_msb 7 0x09) c (bits_msb 8 x)) ∧ in_u 7 (foldl (serial_msb 7 0x09) c (bits_msb 8 x)).
Proof.
  intros Hc Hx. assert (in_u 8 (Z.lxor (Z.shiftl c 1) x)) as Hi.
  { apply in_u_bits; [lia|apply Z.lxor_nonneg; rewrite Z.shiftl_nonneg; unfold in_u in *; lia|]. intros i Hi.
    rewrite Z.lxor_spec, Z.shiftl_spec, (testbit_high 7 c), (testbit_high 8 x) by (done || lia). done. }
  assert (∀ l c, foldl (serial_msb 8 0x12) (Z.shiftl c 1) l = Z.shiftl (foldl (serial_msb 7 0x09) c l) 1) as Hs.
  { induction l as [|b l IH]; intros c'; [done|]. cbn [foldl]. by rewrite serial_7_8. }
  destruct (crc7_table_ok _ Hi) as (v & Hv & Hr & He). unfold crc7_byte. rewrite Hv.
  assert (foldl (serial_msb 7 0x09) c (bits_msb 8 x) = v) as ->; [|done].
  assert (Z.shiftl (foldl (serial_msb 7 0x09) c (bits_msb 8 x)) 1 = Z.shiftl v 1) as Hsh.
  { rewrite <- Hs, (bits_msb_iter 8) by lia. rewrite He. change (8 - Z.of_nat 8) with 0. change (Z.of_nat 8) with 8.
    rewrite Z.shiftl_0_r, (wrap_id 8 x) by done. done. }
  rewrite !Z.shiftl_mul_pow2 in Hsh by lia. lia.
Qed.

(** The byte-wise checksums compute the remainder of the bit-serial shift
    register with their polynomial, for every message and every start value:
    CRC-16 with x^16 + x^15 + x^2 + 1 and CRC-CCITT with x^16 + x^12 + x^5 + 1,
    least significant bit first; CRC-ITU-T with the latter and CRC-7 with
    x^7 + x^3 + 1, most significant bit first, and CRC-7 never leaves its
    table when it starts from a 7-bit value. *)
Theorem crc_bytes_serial c data : Forall (in_u 8) data -> in_u 16 c ->
  crc16 c data = remainder_lsb 0xa001 c data ∧ crc_ccitt c data = remainder_lsb 0x8408 c data ∧
  crc_itu_t c data = remainder_msb 16 0x1021 c data ∧
  (in_u 7 c -> crc7 c data = Some (remainder_msb 7 0x09 c data)).
Proof.
  intros Hd Hc. split_and!.
  - apply (foldl_agree (λ _, True)); [|done|done]. intros c' x _ Hx. split; [|done]. apply byte_lsb; [apply crc16_table_ok|done].
  - apply (foldl_agree (λ _, True)); [|done|done]. intros c' x _ Hx. split; [|done]. apply byte_lsb; [apply crc_ccitt_table_ok|done].
  - apply (foldl_agree (in_u 16)); [|done|done]. intros c' x Hc' Hx. by apply crc_itu_t_byte_ok.
  - clear Hc. unfold remainder_msb. revert c. induction data as [|x data IH]; intros c Hc; [done|]. apply Forall_cons in Hd as [Hx Hd].
    cbn [crc7 foldl]. destruct (crc7_byte_ok c x Hc Hx) as [He Hr]. rewrite He. exact (IH Hd _ Hr).
Qed.

(** ** CRC-32 *)

(** A little-endian word. *)
Lemma word_split x y : in_u 8 x -> Z.land (Z.lor x (Z.shiftl y 8)) 0xff = x ∧ Z.shiftr (Z.lor x (Z.shiftl y 8)) 8 = y.
Proof.
  intros Hx. split; bitwise.
  - change 0xff with (Z.ones 8). rewrite Z.testbit_ones by lia. destruct (decide (i < 8)).
    + rewrite Z.shiftl_spec_low by lia. case_cmp; try lia; by rewrite orb_false_r, andb_true_r.
    + rewrite (testbit_high 8 x) by (done || lia). case_cmp; try lia; by rewrite andb_false_r.
  - rewrite Z.shiftr_spec, Z.lor_spec, Z.shiftl_spec, (testbit_high 8 x) by (done || lia). cbn [orb]. f_equal. lia.
Qed.

Section Words.
Context (tab : list Z).

Lemma DO_CRC_word c x y : in_u 8 x -> DO_CRC tab (Z.lxor c (Z.lor x (Z.shiftl y 8))) 0 = Z.lxor (DO_CRC tab c x) y.
Proof.
  intros Hx. destruct (word_split x y Hx) as [Hl Hr]. unfold DO_CRC. rewrite Z.lxor_0_r, Z.shiftr_lxor, Hr, <- Z.lxor_assoc. f_equal.
  do 2 f_equal. set (v := Z.lor x (Z.shiftl y 8)) in *.
  rewrite <- Hl. bitwise. destruct (Z.testbit c i), (Z.testbit v i), (Z.testbit 255 i); done.
Qed.

Lemma four_steps c x0 x1 x2 x3 : in_u 8 x0 -> in_u 8 x1 -> in_u 8 x2 -> in_u 8 x3 ->
  let w := Z.lor (Z.lor x0 (Z.shiftl x1 8)) (Z.lor (Z.shiftl x2 16) (Z.shiftl x3 24)) in
  DO_CRC tab (DO_CRC tab (DO_CRC tab (DO_CRC tab (Z.lxor c w) 0) 0) 0) 0 =
  DO_CRC tab (DO_CRC tab (DO_CRC tab (DO_CRC tab c x0) x1) x2) x3.
Proof.
  intros H0 H1 H2 H3 w.
  assert (w = Z.lor x0 (Z.shiftl (Z.lor x1 (Z.shiftl (Z.lor x2 (Z.shiftl (Z.lor x3 (Z.shiftl 0 8)) 8)) 8)) 8)) as ->.
  { unfold w. rewrite Z.shiftl_0_l, Z.lor_0_r, !Z.shiftl_lor, !Z.shiftl_shiftl, !Z.lor_assoc by lia. done. }
  rewrite !DO_CRC_word by done. by rewrite Z.lxor_0_r.
Qed.

Lemma align_bytes c b data : let r := align_it tab c b data in
  foldl (DO_CRC tab) r.1 r.2 = foldl (DO_CRC tab) c data ∧ (Forall (in_u 8) data -> Forall (in_u 8) r.2).
Proof.
  revert c b. induction data as [|x data IH]; intros c b; [done|]. cbn [align_it]. destruct (Z.land b 3 =? 0); [done|].
  destruct (IH (DO_CRC tab c x) (b + 1)) as [H1 H2]. split; [done|]. intros [_ Hd]%Forall_cons. by apply H2.
Qed.

Lemma words_bytes n c data : Forall (in_u 8) data ->
  let r := by_words tab n c data in foldl (DO_CRC tab) r.1 r.2 = foldl (DO_CRC tab) c data.
Proof.
  revert c data. induction n as [|n IH]; intros c data Hd; [by destruct data|].
  destruct data as [|x0 [|x1 [|x2 [|x3 data]]]]; try done. repeat apply Forall_cons in Hd as [? Hd].
  cbn [by_words]. rewrite four_steps by done. exact (IH _ data Hd).
Qed.

(** Alignment and word steps make no difference. *)
Lemma body_bytes c p data : Forall (in_u 8) data -> crc_body tab c p data = foldl (DO_CRC tab) c data.
Proof.
  intros Hd. unfold crc_body. destruct (align_bytes c p data) as [H1 H2]. specialize (H2 Hd).
  destruct (align_it tab c p data) as [c1 d1]. cbn [fst snd] in *. rewrite <- H1. generalize (length d1 / 4)%nat as n. intros n.
  pose proof (words_bytes n c1 d1 H2) as H3. cbv zeta in H3. rewrite <- H3. by destruct (by_words tab n c1 d1).
Qed.
End Words.

(** A property of the bits below 32, one by one. *)
Lemma all_bits (P : Z -> Prop) i : Forall P (seqZ 0 32) -> 0 <= i < 32 -> P i.
Proof. rewrite Forall_forall. intros HP Hi. apply HP, elem_of_seqZ. lia. Qed.

(** Byte swapping moves bit [i] to [i xor 24]. *)
Lemma swab_testbit x i : 0 <= i -> Z.testbit (swab32 x) i = (i <? 32) && Z.testbit x (Z.lxor i 24).
Proof.
  intros Hi. unfold swab32. change 0xff00 with (Z.shiftl (Z.ones 8) 8). change 0xff with (Z.shiftl (Z.ones 8) 0).
  rewrite !Z.lor_spec, !Z.shiftl_spec, !Z.land_spec by lia. rewrite !Z.shiftr_spec by lia.
  destruct (decide (i < 32)) as [Hlt|Hge].
  - pattern i; apply all_bits; [|lia]. clear i Hi Hlt.
    let l := eval vm_compute in (seqZ 0 32) in change (seqZ 0 32) with l.
    repeat (apply Forall_cons_2; [|]); [..|constructor].
    all: repeat match goal with |- context [Z.testbit ?y ?n] => is_var y; let n' := eval vm_compute in n in progress change n with n' end.
    all: repeat match goal with |- context [Z.testbit (Z.shiftl ?a ?b) ?n] =>
      let v := eval vm_compute in (Z.testbit (Z.shiftl a b) n) in change (Z.testbit (Z.shiftl a b) n) with v end.
    all: cbn [andb Z.ltb Z.compare Pos.compare Pos.compare_cont]; rewrite ?andb_false_r, ?andb_true_r, ?orb_false_r; try done.
  - rewrite !field_testbit by lia. case_cmp; try lia; cbn [andb]; by rewrite ?andb_false_r.
Qed.

Lemma swab_range x : in_u 32 (swab32 x).
Proof.
  apply in_u_bits; [lia| |].
  - unfold swab32. repeat (apply Z.lor_nonneg; split); try apply Z.shiftl_nonneg; apply Z.land_nonneg; right; done.
  - intros i Hi. rewrite swab_testbit by lia. case_cmp; [lia|done].
Qed.

Lemma swab_lxor x y : swab32 (Z.lxor x y) = Z.lxor (swab32 x) (swab32 y).
Proof. bitwise. rewrite !swab_testbit, Z.lxor_spec by lia. by destruct (i <? 32). Qed.

Lemma lxor_24 i : 0 <= i < 32 -> 0 <= Z.lxor i 24 < 32 ∧ Z.lxor (Z.lxor i 24) 24 = i ∧ (i < 8 -> Z.lxor i 24 = i + 24) ∧
  (i < 24 -> Z.lxor (i + 8) 24 = Z.lxor i 24 - 8) ∧ (24 <= i -> Z.lxor i 24 < 8) ∧ (i < 24 -> 8 <= Z.lxor i 24).
Proof.
  intros Hi. pattern i; apply all_bits; [|done]. clear i Hi. let l := eval vm_compute in (seqZ 0 32) in change (seqZ 0 32) with l.
  repeat (apply Forall_cons_2; [|]); [..|constructor].
  all: repeat match goal with |- context [Z.lxor ?a ?b] => let v := eval vm_compute in (Z.lxor a b) in change (Z.lxor a b) with v end; lia.
Qed.

Lemma swab_swab x : in_u 32 x -> swab32 (swab32 x) = x.
Proof.
  intros Hx. bitwise. rewrite swab_testbit by lia. destruct (Z.ltb_spec i 32); cbn [andb]; [|by rewrite (testbit_high 32 x)].
  destruct (lxor_24 i ltac:(lia)) as (Hr & He & _). rewrite swab_testbit, He by lia. case_cmp; [done|lia].
Qed.

(** A step on the swapped register is the swap of a step. *)
Lemma swab_low x : in_u 32 x -> Z.land (swab32 x) 0xff = Z.shiftr x 24.
Proof.
  intros Hx. bitwise. change 0xff with (Z.shiftl (Z.ones 8) 0). rewrite field_testbit, Z.shiftr_spec, swab_testbit by lia.
  destruct (decide (i < 8)) as [Hlt|].
  - destruct (lxor_24 i ltac:(lia)) as (_ & _ & He & _). rewrite He by lia. case_cmp; try lia. by rewrite andb_true_r.
  - rewrite (testbit_high 32 x (i + 24)) by (done || lia). case_cmp; try lia; by rewrite ?andb_false_r.
Qed.

Lemma swab_shift x : Z.shiftr (swab32 x) 8 = swab32 (wrap 32 (Z.shiftl x 8)).
Proof.
  bitwise. rewrite Z.shiftr_spec, !swab_testbit, wrap_testbit by lia. destruct (decide (i < 32)) as [Hlt|]; [|case_cmp; lia || done].
  destruct (lxor_24 i ltac:(lia)) as (Hr & _ & _ & He & Hlow & Hhigh). destruct (decide (i < 24)).
  - rewrite He, Z.shiftl_spec by lia. case_cmp; try lia; done.
  - rewrite Z.shiftl_spec_low by lia. case_cmp; try lia; done.
Qed.

Lemma crc32_le_byte c x : in_u 8 x -> DO_CRC crc32table_le c x = foldl (serial_lsb CRCPOLY_LE) c (bits_lsb 8 x).
Proof. intros Hx. rewrite <- (byte_lsb CRCPOLY_LE _ c x crc32_le_table_ok Hx). unfold DO_CRC. apply Z.lxor_comm. Qed.

Lemma crc32_be_byte c x : in_u 32 c -> in_u 8 x ->
  DO_CRC crc32table_be (swab32 c) x = swab32 (foldl (serial_msb 32 CRCPOLY_BE) c (bits_msb 8 x)) ∧
  in_u 32 (foldl (serial_msb 32 CRCPOLY_BE) c (bits_msb 8 x)).
Proof.
  intros Hc Hx. rewrite <- (byte_msb 32 CRCPOLY_BE _ c x crc32_be_table_ok) by (done || lia). change (32 - 8) with 24.
  assert (in_u 8 (Z.lxor (Z.shiftr c 24) x)) as Hi.
  { apply in_u_bits; [lia|apply Z.lxor_nonneg; rewrite Z.shiftr_nonneg; unfold in_u in *; lia|]. intros i Hi.
    rewrite Z.lxor_spec, Z.shiftr_spec, (testbit_high 32 c), (testbit_high 8 x) by (done || lia). done. }
  split.
  - unfold DO_CRC. rewrite swab_lxor, <- swab_shift, Z.lxor_comm. f_equal.
    assert (Z.land (Z.lxor (swab32 c) x) 255 = Z.lxor (Z.shiftr c 24) x) as ->.
    { rewrite <- swab_low by done. rewrite <- (wrap_id 8 x Hx) at 2. rewrite wrap_land by lia. change (Z.ones 8) with 255.
      bitwise. by destruct (Z.testbit (swab32 c) i), (Z.testbit x i), (Z.testbit 255 i). }
    unfold entry, crc32table_be. rewrite list_lookup_fmap.
    destruct (crc32init_be !! Z.to_nat (Z.lxor (Z.shiftr c 24) x)) eqn:E; [done|]. apply lookup_ge_None in E.
    change (length crc32init_be) with 256%nat in E. unfold in_u in Hi. lia.
  - assert (∀ a b, in_u 32 a -> in_u 32 b -> in_u 32 (Z.lxor a b)) as Hl.
    { intros a b Ha Hb. apply in_u_bits; [lia|apply Z.lxor_nonneg; unfold in_u in *; lia|]. intros i Hii.
      rewrite Z.lxor_spec, (testbit_high 32 a), (testbit_high 32 b) by (done || lia). done. }
    apply Hl; [apply u32_range|]. apply entry_range; [|lia]. apply (bool_decide_unpack _). vm_compute. exact I.
Qed.

(** C29: crc32_le and crc32_be compute the remainder of the bit-serial shift
    register with the Ethernet polynomial, least and most significant bit
    first, for every message, start value and buffer address: the bytes before
    a word boundary, the word steps, the byte-swapped register of the
    big-endian version and the generated tables make no difference. *)
Theorem crc32_serial c p data : in_u 32 c -> Forall (in_u 8) data ->
  crc32_le c p data = remainder_lsb CRCPOLY_LE c data ∧ crc32_be c p data = remainder_msb 32 CRCPOLY_BE c data.
Proof.
  intros Hc Hd. unfold crc32_le, crc32_be. rewrite !body_bytes by done. split.
  - apply (foldl_agree (λ _, True)); [|done|done]. intros c' x _ Hx. split; [by apply crc32_le_byte|done].
  - assert (foldl (DO_CRC crc32table_be) (swab32 c) data = swab32 (remainder_msb 32 CRCPOLY_BE c data) ∧
      in_u 32 (remainder_msb 32 CRCPOLY_BE c data)) as [-> Hr]; [|by apply swab_swab].
    unfold remainder_msb. revert c Hc. induction data as [|x data IH]; intros c Hc; [done|]. apply Forall_cons in Hd as [Hx Hd].
    cbn [foldl]. destruct (crc32_be_byte c x Hc Hx) as [-> Hr]. exact (IH Hd _ Hr).
Qed.

(** ** Bit reversal *)

Lemma bitrev8_ok x : in_u 8 x -> in_u 8 (bitrev8 x) ∧ ∀ i, 0 <= i -> Z.testbit (bitrev8 x) i = (i <? 8) && Z.testbit x (7 - i).
Proof.
  intros Hx. assert (Forall (λ x, in_u 8 (bitrev8 x) ∧ Forall (λ i, Z.testbit (bitrev8 x) i = Z.testbit x (7 - i)) (seqZ 0 8)) (seqZ 0 256)) as Hall.
  { apply (bool_decide_unpack _). vm_compute. exact I. }
  rewrite Forall_forall in Hall. destruct (Hall x ltac:(apply elem_of_seqZ; unfold in_u in *; lia)) as [Hr Hb]. split; [done|].
  intros i Hi. destruct (Z.ltb_spec i 8); cbn [andb]; [|by apply (testbit_high 8)].
  rewrite Forall_forall in Hb. apply Hb, elem_of_seqZ. lia.
Qed.

(** The two halves of a word are reversed and exchanged. *)
Lemma rev_halves (f : Z -> Z) n x : 0 <= n -> in_u (2 * n) x ->
  (∀ y, in_u n y -> in_u n (f y) ∧ ∀ i, 0 <= i -> Z.testbit (f y) i = (i <? n) && Z.testbit y (n - 1 - i)) ->
  let r := Z.lor (Z.shiftl (f (Z.land x (Z.ones n))) n) (f (Z.shiftr x n)) in
  in_u (2 * n) r ∧ ∀ i, 0 <= i -> Z.testbit r i = (i <? 2 * n) && Z.testbit x (2 * n - 1 - i).
Proof.
  intros Hn Hx Hf r. assert (in_u n (Z.land x (Z.ones n))) as Hlo by (rewrite Z.land_ones by done; by apply wrap_range).
  assert (in_u n (Z.shiftr x n)) as Hhi.
  { apply in_u_bits; [done|apply Z.shiftr_nonneg, Hx|]. intros i Hi. rewrite Z.shiftr_spec by lia. apply (testbit_high (2 * n)); [done|lia]. }
  destruct (Hf _ Hlo) as [Hr1 Hb1], (Hf _ Hhi) as [Hr2 Hb2].
  assert (∀ i, 0 <= i -> Z.testbit r i = (i <? 2 * n) && Z.testbit x (2 * n - 1 - i)) as Hb.
  { intros i Hi. unfold r. rewrite Z.lor_spec, Hb2 by done. destruct (decide (i < n)).
    - rewrite Z.shiftl_spec_low by done. case_cmp; try lia. cbn [orb andb]. rewrite Z.shiftr_spec by lia. f_equal. lia.
    - rewrite Z.shiftl_spec, Hb1 by lia. destruct (Z.ltb_spec i n); [lia|]. cbn [andb]. rewrite orb_false_r.
      destruct (Z.ltb_spec (i - n) n), (Z.ltb_spec i (2 * n)); try lia. cbn [andb].
      rewrite Z.land_spec, Z.testbit_ones_nonneg by lia. destruct (Z.ltb_spec (n - 1 - (i - n)) n); [|lia]. rewrite andb_true_r. f_equal. lia. }
  split; [|done]. apply in_u_bits; [lia|apply Z.lor_nonneg; split; [apply Z.shiftl_nonneg|]; apply Hr1 || apply Hr2|].
  intros i Hi. rewrite Hb by lia. case_cmp; [lia|done].
Qed.

(** Bitrev32 reverses the order of the 32 bits, and doing it twice gives
    the word back. *)
Theorem bitrev32_reverses x : in_u 32 x ->
  in_u 32 (bitrev32 x) ∧ (∀ i, 0 <= i < 32 -> Z.testbit (bitrev32 x) i = Z.testbit x (31 - i)) ∧ bitrev32 (bitrev32 x) = x.
Proof.
  assert (∀ y, in_u 16 y -> in_u 16 (bitrev16 y) ∧ ∀ i, 0 <= i -> Z.testbit (bitrev16 y) i = (i <? 16) && Z.testbit y (15 - i)) as H16.
  { intros y Hy. apply (rev_halves bitrev8 8 y); [lia|done|apply bitrev8_ok]. }
  assert (∀ y, in_u 32 y -> in_u 32 (bitrev32 y) ∧ ∀ i, 0 <= i -> Z.testbit (bitrev32 y) i = (i <? 32) && Z.testbit y (31 - i)) as H32.
  { intros y Hy. apply (rev_halves bitrev16 16 y); [lia|done|apply H16]. }
  intros Hx. destruct (H32 x Hx) as [Hr Hb]. split_and!; [done| |].
  - intros i Hi. rewrite Hb by lia. case_cmp; [done|lia].
  - bitwise. destruct (H32 _ Hr) as [_ Hb2]. rewrite Hb2 by lia. destruct (Z.ltb_spec i 32); cbn [andb]; [|by rewrite (testbit_high 32 x)].
    rewrite Hb by lia. case_cmp; [|lia]. cbn [andb]. f_equal. lia.
Qed.

(** * Concrete instances *)

Module CrcDemo.

(** The check string "123456789". *)
Definition digits : list Z := [0x31; 0x32; 0x33; 0x34; 0x35; 0x36; 0x37; 0x38; 0x39].

Lemma digits_bytes : Forall (in_u 8) digits.
Proof. repeat constructor; vm_compute; congruence. Qed.

Lemma crc_bytes_serial_witness : crc16 0 digits = 0xbb3d ∧ remainder_lsb 0xa001 0 digits = 0xbb3d ∧ crc7 0 digits = Some 0x75.
Proof.
  destruct (crc_bytes_serial 0 digits) as (H1 & _ & _ & H7); [exact digits_bytes|split; vm_compute; congruence|].
  split; [vm_compute; reflexivity|]. split; [rewrite <- H1; vm_compute; reflexivity|].
  rewrite H7 by (split; vm_compute; congruence). vm_compute. reflexivity.
Defined.

Lemma crc32_serial_witness : Z.lxor (remainder_lsb CRCPOLY_LE 0xffffffff digits) 0xffffffff = 0xcbf43926.
Proof.
  destruct (crc32_serial 0xffffffff 0x1003 digits) as [<- _]; [split; vm_compute; congruence|exact digits_bytes|].
  vm_compute. reflexivity.
Defined.

Lemma bitrev32_reverses_witness : bitrev32 (bitrev32 0x12345678) = 0x12345678.
Proof. destruct (bitrev32_reverses 0x12345678) as (_ & _ & Hr); [split; vm_compute; congruence|]. exact Hr. Defined.

End CrcDemo.
