(* ===== verification/Vsprintf.v ===== *)
(** lib/vsprintf.c and include/linux/ctype.h: numbers to text and back, and
    vsnprintf.

    A character is a number below 256 and a string the list of its characters
    without the terminating 0; reading past the end gives that 0.  [int] and
    [long] have 32 bits.  The output of vsnprintf is the [end - buf]
    characters of its buffer and the position [str - buf], which may be behind
    them; texts are shorter than the address space, so [str] does not wrap. *)

From Stdlib Require Import Ascii.
From S2P Require Import Prelude.

(** * Characters *)

Definition chr (a : ascii) : Z := Z.of_N (N_of_ascii a).
Definition text (s : string) : list Z := chr <$> String.list_ascii_of_string s.

(** [*p] *)
Definition head_of (s : list Z) : Z := match s with c :: _ => c | [] => 0 end.

(** ctype.h for the table _ctype of lib/ctype.c: the rows of the digits, the
    letters and the white space. *)
Definition between (a c b : Z) : bool := (a <=? c) && (c <=? b).
Definition isdigit (c : Z) : bool := between 48 c 57.
Definition isxdigit (c : Z) : bool := isdigit c || between 65 c 70 || between 97 c 102.
Definition islower (c : Z) : bool := between 97 c 122 || between 223 c 246 || between 248 c 255.
Definition isspace (c : Z) : bool := between 9 c 13 || (c =? 32) || (c =? 160).
Definition toupper (c : Z) : Z := if islower c then c - 32 else c.

(** * Text to numbers *)

Definition digit_value (c : Z) : Z := if isdigit c then c - 48 else toupper c - 65 + 10.

(** The prefix: the base and where the digits start. *)
Definition strto_prefix (base : Z) (cp : list Z) : Z * list Z :=
  if base =? 0 then
    if head_of cp =? 48 then
      let cp := tail cp in
      if (toupper (head_of cp) =? 88) && isxdigit (head_of (tail cp)) then (16, tail cp) else (8, cp)
    else (10, cp)
  else if base =? 16 then
    if (head_of cp =? 48) && (toupper (head_of (tail cp)) =? 88) then (16, tail (tail cp)) else (16, cp)
  else (base, cp).

(** The digits, in words of [w] bits. *)
Fixpoint strto_digits (w base result : Z) (cp : list Z) : Z * list Z :=
  match cp with
  | c :: cp' =>
      if isxdigit c && (digit_value c <? base) then strto_digits w base (wrap w (result * base + digit_value c)) cp'
      else (result, cp)
  | [] => (result, cp)
  end.

(** The result and [*endp]. *)
Definition simple_strtoul (cp : list Z) (base : Z) : Z * list Z :=
  let '(base, cp) := strto_prefix base cp in strto_digits 32 base 0 cp.
Definition simple_strtol (cp : list Z) (base : Z) : Z * list Z :=
  if head_of cp =? 45 then let '(r, e) := simple_strtoul (tail cp) base in (s32 (- r), e)
  else let '(r, e) := simple_strtoul cp base in (s32 r, e).
Definition simple_strtoull (cp : list Z) (base : Z) : Z * list Z :=
  let '(base, cp) := strto_prefix base cp in strto_digits 64 base 0 cp.
Definition simple_strtoll (cp : list Z) (base : Z) : Z * list Z :=
  if head_of cp =? 45 then let '(r, e) := simple_strtoull (tail cp) base in (s64 (- r), e)
  else let '(r, e) := simple_strtoull cp base in (s64 r, e).

Fixpoint skip_atoi_loop (i : Z) (s : list Z) : Z * list Z :=
  match s with
  | c :: s' => if isdigit c then skip_atoi_loop (s32 (i * 10 + c - 48)) s' else (i, s)
  | [] => (i, s)
  end.
Definition skip_atoi (s : list Z) : Z * list Z := skip_atoi_loop 0 s.

(** * Numbers to text *)

(** What is stored from [buf] on, the last digit first. *)
Definition put_dec_trunc (q : Z) : list Z :=
  let d1 := Z.land (Z.shiftr q 4) 0xf in
  let d2 := Z.land (Z.shiftr q 8) 0xf in
  let d3 := Z.shiftr q 12 in
  let d0 := u32 (6 * (d3 + d2 + d1) + Z.land q 0xf) in
  let q := Z.shiftr (u32 (d0 * 0xcd)) 11 in
  let d0 := u32 (d0 - 10 * q) in
  let d1 := u32 (q + 9 * d3 + 5 * d2 + d1) in
  u8 (d0 + 48) ::
  if d1 =? 0 then []
  else
    let q := Z.shiftr (u32 (d1 * 0xcd)) 11 in
    let d1 := u32 (d1 - 10 * q) in
    let d2 := u32 (q + 2 * d2) in
    u8 (d1 + 48) ::
    if (d2 =? 0) && (d3 =? 0) then []
    else
      let q := Z.shiftr (u32 (d2 * 0xd)) 7 in
      let d2 := u32 (d2 - 10 * q) in
      let d3 := u32 (q + 4 * d3) in
      u8 (d2 + 48) ::
      if d3 =? 0 then []
      else
        let q := Z.shiftr (u32 (d3 * 0xcd)) 11 in
        let d3 := u32 (d3 - 10 * q) in
        u8 (d3 + 48) :: if q =? 0 then [] else [u8 (q + 48)].

Definition put_dec_full (q : Z) : list Z :=
  let d1 := Z.land (Z.shiftr q 4) 0xf in
  let d2 := Z.land (Z.shiftr q 8) 0xf in
  let d3 := Z.shiftr q 12 in
  let d0 := u32 (6 * (d3 + d2 + d1) + Z.land q 0xf) in
  let q := Z.shiftr (u32 (d0 * 0xcd)) 11 in
  let d0 := u32 (d0 - 10 * q) in
  let d1 := u32 (q + 9 * d3 + 5 * d2 + d1) in
  let q1 := Z.shiftr (u32 (d1 * 0xcd)) 11 in
  let d1 := u32 (d1 - 10 * q1) in
  let d2 := u32 (q1 + 2 * d2) in
  let q2 := Z.shiftr (u32 (d2 * 0xd)) 7 in
  let d2 := u32 (d2 - 10 * q2) in
  let d3 := u32 (q2 + 4 * d3) in
  let q3 := Z.shiftr (u32 (d3 * 0xcd)) 11 in
  let d3 := u32 (d3 - 10 * q3) in
  [u8 (d0 + 48); u8 (d1 + 48); u8 (d2 + 48); u8 (d3 + 48); u8 (q3 + 48)].

(** [while (1)]: four rounds for 64 bits. *)
Fixpoint put_dec_loop (fuel : nat) (num : Z) : list Z :=
  if num <? 100000 then put_dec_trunc num
  else match fuel with O => [] | S fuel => put_dec_full (num mod 100000) ++ put_dec_loop fuel (num / 100000) end.
Definition put_dec (num : Z) : list Z := put_dec_loop 4 num.

(** The flags. *)
Definition ZEROPAD : Z := 1.
Definition SIGN : Z := 2.
Definition PLUS : Z := 4.
Definition SPACE : Z := 8.
Definition LEFT : Z := 16.
Definition SPECIAL : Z := 32.
Definition LARGE : Z := 64.

Definition small_digits : list Z := text "0123456789abcdefx".
Definition large_digits : list Z := text "0123456789ABCDEFX".

(** [do ... while (num)] for base 8 and 16: at most 22 digits. *)
Fixpoint put_pow2 (fuel : nat) (digits : list Z) (mask shift num : Z) : list Z :=
  match fuel with
  | O => []
  | S fuel =>
      nth (Z.to_nat (Z.land (u8 num) mask)) digits 0 ::
      if Z.shiftr num shift =? 0 then [] else put_pow2 fuel digits mask shift (Z.shiftr num shift)
  end.

(** The digits of [num], the last first, as number has them in [tmp]. *)
Definition tmp_digits (digits : list Z) (base num : Z) : list Z :=
  if num =? 0 then [48]
  else if negb (base =? 10) then put_pow2 22 digits (base - 1) (if base =? 16 then 4 else 3) num
  else put_dec num.

(** ** The buffer *)

(** [o_pos] is [str - buf]; [o_buf] the [end - buf] characters; [o_stores] what
    %n has stored. *)
Record out := Out { o_pos : Z; o_buf : list Z; o_stores : list (Z * Z) }.

(** [if (str < end) *str = c; ++str] *)
Definition emit (c : Z) (o : out) : out :=
  Out (o_pos o + 1) (if o_pos o <? Z.of_nat (length (o_buf o)) then <[Z.to_nat (o_pos o) := c]> (o_buf o) else o_buf o) (o_stores o).
Definition emits (l : list Z) (o : out) : out := foldl (λ o c, emit c o) o l.

(** [while (--size >= 0) emit c]: what is emitted and the size after it. *)
Definition pad (c size : Z) (o : out) : Z * out := (if 0 <=? size then - 1 else size - 1, emits (repeat c (Z.to_nat size)) o).

(** [None] is a NULL result, for a base out of range, or the overflow of the
    int [size], which is undefined: each of the [pads] loops counts it down once
    more when it starts negative. *)
Definition number (num base size precision type : Z) (o : out) : option out :=
  let need_pfx := tst type SPECIAL && negb (base =? 10) in
  let digits := if tst type LARGE then large_digits else small_digits in
  let type := if tst type LEFT then clr type ZEROPAD else type in
  if (base <? 2) || (36 <? base) then None
  else
    let '(sign, num, size) :=
      if tst type SIGN then
        if s64 num <? 0 then (45, u64 (- s64 num), size - 1)
        else if tst type PLUS then (43, num, size - 1)
        else if tst type SPACE then (32, num, size - 1)
        else (0, num, size)
      else (0, num, size) in
    let size := if need_pfx then (if base =? 16 then size - 2 else size - 1) else size in
    let tmp := tmp_digits digits base num in
    let i := Z.of_nat (length tmp) in
    let precision := if precision <? i then i else precision in
    let size := size - precision in
    let pads := (if tst type (Z.lor ZEROPAD LEFT) then 0 else 1) + (if tst type LEFT then 0 else 1) + 1 in
    if size <? - 2 ^ 31 + pads then None else
    let '(size, o) := if tst type (Z.lor ZEROPAD LEFT) then (size, o) else pad 32 size o in
    let o := if sign =? 0 then o else emit sign o in
    let o := if need_pfx then (let o := emit 48 o in if base =? 16 then emit (nth 16 digits 0) o else o) else o in
    let '(size, o) := if tst type LEFT then (size, o) else pad (if tst type ZEROPAD then 48 else 32) size o in
    let o := emits (repeat 48 (Z.to_nat (precision - i))) o in
    let o := emits (rev tmp) o in
    Some (pad 32 size o).2.

(** * vsnprintf *)

(** The arguments: a word of 32 or 64 bits, or a string; a string pointer
    into the first page has no characters.  [va_arg] of another kind is
    undefined and faults. *)
Inductive arg := A32 (v : Z) | A64 (v : Z) | AStr (s : option (list Z)).

Definition va_32 (args : list arg) : option (Z * list arg) := match args with A32 v :: args => Some (u32 v, args) | _ => None end.
Definition va_64 (args : list arg) : option (Z * list arg) := match args with A64 v :: args => Some (u64 v, args) | _ => None end.
Definition va_str (args : list arg) : option (option (list Z) * list arg) := match args with AStr s :: args => Some (s, args) | _ => None end.

(** [repeat:] *)
Fixpoint get_flags (flags : Z) (fmt : list Z) : Z * list Z :=
  match fmt with
  | 45 :: fmt => get_flags (Z.lor flags LEFT) fmt
  | 43 :: fmt => get_flags (Z.lor flags PLUS) fmt
  | 32 :: fmt => get_flags (Z.lor flags SPACE) fmt
  | 35 :: fmt => get_flags (Z.lor flags SPECIAL) fmt
  | 48 :: fmt => get_flags (Z.lor flags ZEROPAD) fmt
  | _ => (flags, fmt)
  end.

(** The field width, with the flags and the arguments. *)
Definition get_width (flags : Z) (fmt : list Z) (args : list arg) : option (Z * Z * list Z * list arg) :=
  if isdigit (head_of fmt) then let '(w, fmt) := skip_atoi fmt in Some (w, flags, fmt, args)
  else if head_of fmt =? 42 then
    '(v, args) ← va_32 args;
    let w := s32 v in
    Some (if w <? 0 then (s32 (- w), Z.lor flags LEFT, tail fmt, args) else (w, flags, tail fmt, args))
  else Some (- 1, flags, fmt, args).

Definition get_precision (fmt : list Z) (args : list arg) : option (Z * list Z * list arg) :=
  if head_of fmt =? 46 then
    let fmt := tail fmt in
    '(p, fmt, args) ←
      (if isdigit (head_of fmt) then let '(p, fmt) := skip_atoi fmt in Some (p, fmt, args)
       else if head_of fmt =? 42 then '(v, args) ← va_32 args; Some (s32 v, tail fmt, args)
       else Some (- 1, fmt, args));
    Some (if p <? 0 then 0 else p, fmt, args)
  else Some (- 1, fmt, args).

(** 'h', 'l', 'L', 'Z', 'z' or 't'; "ll" is 'L'. *)
Definition get_qualifier (fmt : list Z) : Z * list Z :=
  let c := head_of fmt in
  if (c =? 104) || (c =? 108) || (c =? 76) || (c =? 90) || (c =? 122) || (c =? 116) then
    let fmt := tail fmt in
    if (c =? 108) && (head_of fmt =? 108) then (76, tail fmt) else (c, fmt)
  else (- 1, fmt).

(** [while (--field_width > 0) emit ' '] *)
Definition pad_char (field_width : Z) (o : out) : Z * out :=
  (if 1 <? field_width then 0 else field_width - 1, emits (repeat 32 (Z.to_nat (field_width - 1))) o).
(** [while (len < field_width--) emit ' '] *)
Definition pad_str (len field_width : Z) (o : out) : Z * out :=
  (Z.min len field_width - 1, emits (repeat 32 (Z.to_nat (field_width - len))) o).

(** The number for an integer conversion, as an unsigned long long. *)
Definition get_num (qualifier flags : Z) (args : list arg) : option (Z * list arg) :=
  if qualifier =? 76 then va_64 args
  else
    '(v, args) ← va_32 args;
    Some (if qualifier =? 108 then (if tst flags SIGN then u64 (s32 v) else v)
          else if (qualifier =? 90) || (qualifier =? 122) then v
          else if qualifier =? 116 then u64 (s32 v)
          else if qualifier =? 104 then (if tst flags SIGN then u64 (sx 16 v) else u16 v)
          else if tst flags SIGN then u64 (s32 v) else v, args).

(** One conversion, from behind the '%': the rest of the format and the
    arguments. *)
Definition convert (fmt : list Z) (args : list arg) (o : out) : option (list Z * list arg * out) :=
  let '(flags, fmt) := get_flags 0 fmt in
  '(field_width, flags, fmt, args) ← get_width flags fmt args;
  '(precision, fmt, args) ← get_precision fmt args;
  let '(qualifier, fmt) := get_qualifier fmt in
  let integer flags base :=
    '(num, args) ← get_num qualifier flags args;
    o ← number num base field_width precision flags o;
    Some (tail fmt, args, o) in
  let c := head_of fmt in
  if c =? 99 then (* c *)
    let '(field_width, o) := if tst flags LEFT then (field_width, o) else pad_char field_width o in
    '(v, args) ← va_32 args;
    let o := emit (u8 v) o in
    Some (tail fmt, args, (pad_char field_width o).2)
  else if c =? 115 then (* s *)
    '(s, args) ← va_str args;
    let s := match s with Some s => s | None => text "<NULL>" end in
    let len := Z.min (Z.of_nat (length s)) (u32 precision) in
    let '(field_width, o) := if tst flags LEFT then (field_width, o) else pad_str len field_width o in
    let o := emits (take (Z.to_nat len) s) o in
    Some (tail fmt, args, (pad_str len field_width o).2)
  else if c =? 112 then (* p *)
    '(v, args) ← va_32 args;
    let '(field_width, flags) := if field_width =? - 1 then (8, Z.lor flags ZEROPAD) else (field_width, flags) in
    o ← number v 16 field_width precision flags o;
    Some (tail fmt, args, o)
  else if c =? 110 then (* n *)
    '(ip, args) ← va_32 args;
    Some (tail fmt, args, Out (o_pos o) (o_buf o) (o_stores o ++ [(ip, s32 (o_pos o))]))
  else if c =? 37 then Some (tail fmt, args, emit 37 o)
  else if c =? 111 then integer flags 8
  else if c =? 88 then integer (Z.lor flags LARGE) 16
  else if c =? 120 then integer flags 16
  else if (c =? 100) || (c =? 105) then integer (Z.lor flags SIGN) 10
  else if c =? 117 then integer flags 10
  else
    let o := emit 37 o in
    match fmt with
    | c :: fmt => Some (fmt, args, emit c o)
    | [] => Some ([], args, o)
    end.

(** [for (; *fmt ; ++fmt)]; every round shortens the format. *)
Fixpoint format (fuel : nat) (fmt : list Z) (args : list arg) (o : out) : option out :=
  match fmt with
  | [] => Some o
  | c :: fmt =>
      match fuel with
      | O => None
      | S fuel =>
          if c =? 37 then '(fmt, args, o) ← convert fmt args o; format fuel fmt args o
          else format fuel fmt args (emit c o)
      end
  end.

(** [end[-1] = 0], or the 0 behind the text. *)
Definition terminate (o : out) : out :=
  let n := Z.of_nat (length (o_buf o)) in
  if 0 <? n then Out (o_pos o) (if o_pos o <? n then <[Z.to_nat (o_pos o) := 0]> (o_buf o) else <[Z.to_nat (n - 1) := 0]> (o_buf o)) (o_stores o)
  else o.

(** [buf] is the address and [mem] what it holds, at least [size] characters;
    the result is the return value, the memory and the stores of %n. *)
Definition vsnprintf (buf size : Z) (mem : list Z) (fmt : list Z) (args : list arg) : option (Z * list Z * list (Z * Z)) :=
  if s32 size <? 0 then Some (0, mem, [])
  else
    let size := if 2 ^ 32 <=? buf + size then 2 ^ 32 - 1 - buf else size in
    o ← format (length fmt) fmt args (Out 0 (take (Z.to_nat size) mem) []);
    let o := terminate o in
    Some (s32 (o_pos o), o_buf o ++ drop (Z.to_nat size) mem, o_stores o).

(** [i >= size] compares as size_t. *)
Definition vscnprintf (buf size : Z) (mem : list Z) (fmt : list Z) (args : list arg) : option (Z * list Z * list (Z * Z)) :=
  '(i, mem, st) ← vsnprintf buf size mem fmt args;
  Some (if size <=? u32 i then s32 (size - 1) else i, mem, st).

Example hello : vsnprintf 4096 20 (repeat 7 20) (text "%s=%5d|%-4x|%#X%c") [AStr (Some (text "ab")); A32 (- 42); A32 255; A32 171; A32 33] =
  Some (19, text "ab=  -42|ff  |0XAB!" ++ [0], []).
Proof. vm_compute. reflexivity. Qed.
Example truncated : vsnprintf 4096 6 (repeat 7 8) (text "%05u%%") [A32 1234567] = Some (8, text "12345" ++ [0; 7; 7], []).
Proof. vm_compute. reflexivity. Qed.

(** * The text does not depend on the buffer *)

Lemma emits_app l l' o : emits (l ++ l') o = emits l' (emits l o).
Proof. unfold emits. apply foldl_app. Qed.
Lemma emits_one c o : emit c o = emits [c] o.
Proof. done. Qed.

Lemma emits_fields l : ∀ o, o_pos (emits l o) = o_pos o + Z.of_nat (length l) ∧ o_stores (emits l o) = o_stores o ∧ length (o_buf (emits l o)) = length (o_buf o).
Proof.
  induction l as [|c l IH]; intros o; [cbn; split_and!; lia || done|]. destruct (IH (emit c o)) as (H1 & H2 & H3). change (emits (c :: l) o) with (emits l (emit c o)).
  rewrite H1, H2, H3. cbn [emit o_pos o_stores o_buf length]. split_and!; [lia|done|]. destruct (_ <? _); [apply length_insert|done].
Qed.

Lemma emits_buffer l : ∀ p b st, (p <= length b)%nat ->
  o_buf (emits l (Out (Z.of_nat p) b st)) = take p b ++ take (length b - p) l ++ drop (p + length l) b.
Proof.
  induction l as [|c l IH]; intros p b st Hp; [rewrite take_nil, Nat.add_0_r; cbn [app]; by rewrite take_drop|].
  change (emits (c :: l) ?o) with (emits l (emit c o)). unfold emit. cbn [o_pos o_buf o_stores].
  destruct (Z.ltb_spec (Z.of_nat p) (Z.of_nat (length b))) as [Hlt|Hge].
  - replace (Z.of_nat p + 1) with (Z.of_nat (S p)) by lia. rewrite Nat2Z.id, IH by (rewrite length_insert; lia). rewrite length_insert.
    rewrite drop_insert_lt by lia. rewrite (take_S_r _ p c), take_insert_ge by (lia || apply list_lookup_insert_eq; lia). rewrite <- app_assoc. f_equal.
    replace (length b - p)%nat with (S (length b - S p))%nat by lia. cbn. by rewrite Nat.add_succ_r.
  - assert (p = length b) as -> by lia. clear Hge. rewrite Nat.sub_diag. cbn [take app]. rewrite drop_ge, app_nil_r, firstn_all by (cbn; lia).
    assert (∀ z, Z.of_nat (length b) <= z -> o_buf (emits l (Out z b st)) = b) as Hb; [|apply Hb; lia]. clear. induction l as [|c l IH]; intros z Hz; [done|].
    change (emits (c :: l) ?o) with (emits l (emit c o)). unfold emit. cbn [o_pos o_buf o_stores]. destruct (Z.ltb_spec z (Z.of_nat (length b))); [lia|apply IH; lia].
Qed.

(** * The digits *)

(** The generic loop that the fast ones stand for, as the comment in number
    has it: [do tmp[i++] = digits[do_div(num,base)]; while (num != 0)]. *)
Fixpoint generic_digits (fuel : nat) (digits : list Z) (base num : Z) : list Z :=
  match fuel with
  | O => []
  | S fuel =>
      nth (Z.to_nat (num mod base)) digits 0 ::
      if num / base =? 0 then [] else generic_digits fuel digits base (num / base)
  end.

(** Arithmetic with quotients by constants. *)
Ltac dlia := Z.to_euclidean_division_equations; lia.

Lemma div10_205 x : 0 <= x < 1029 -> Z.shiftr (u32 (x * 0xcd)) 11 = x / 10.
Proof.
  intros Hx. rewrite Z.shiftr_div_pow2 by lia. unfold u32, wrap. rewrite Z.mod_small by lia. symmetry. apply Z.div_unique with (r := x * 0xcd - 2 ^ 11 * (x / 10)); [|lia].
  left. assert (x mod 10 <= 8 ∨ x mod 10 = 9) as [?|?] by dlia; dlia.
Qed.
Lemma div10_13 x : 0 <= x < 69 -> Z.shiftr (u32 (x * 0xd)) 7 = x / 10.
Proof.
  intros Hx. rewrite Z.shiftr_div_pow2 by lia. unfold u32, wrap. rewrite Z.mod_small by lia. symmetry. apply Z.div_unique with (r := x * 0xd - 2 ^ 7 * (x / 10)); [|lia]. left. dlia.
Qed.

Lemma u32_id x : 0 <= x < 2 ^ 32 -> u32 x = x.
Proof. apply Z.mod_small. Qed.
Lemma digit_char d : 0 <= d < 10 -> u8 (d + 48) = d + 48.
Proof. intros. apply Z.mod_small. lia. Qed.

(** The nibbles of a number below 100000 give its decimal digits. *)
Lemma nibbles q : 0 <= q < 100000 ->
  ∃ d3 d2 d1 e, Z.shiftr q 12 = d3 ∧ Z.land (Z.shiftr q 8) 0xf = d2 ∧ Z.land (Z.shiftr q 4) 0xf = d1 ∧ Z.land q 0xf = e ∧
    0 <= d3 < 25 ∧ 0 <= d2 < 16 ∧ 0 <= d1 < 16 ∧ 0 <= e < 16 ∧ q = 4096 * d3 + 256 * d2 + 16 * d1 + e.
Proof.
  intros Hq. do 4 eexists. split_and!; [reflexivity..| | | | | | | | |].
  all: change 0xf with (Z.ones 4); rewrite ?Z.land_ones, ?Z.shiftr_div_pow2 by lia; change (2 ^ 4) with 16; change (2 ^ 8) with 256; change (2 ^ 12) with 4096; dlia.
Qed.

Lemma tenth x : ∃ k r, x / 10 = k ∧ x = 10 * k + r ∧ 0 <= r < 10.
Proof. exists (x / 10), (x mod 10). split_and!; dlia. Qed.

(** The quotients the two routines compute, as quotients of the number. *)
Ltac jones q Hq :=
  let d3 := fresh "d3" in let d2 := fresh "d2" in let d1 := fresh "d1" in let e := fresh "e" in
  let q0 := fresh "q0" in let q1 := fresh "q1" in let q2 := fresh "q2" in let q3 := fresh "q3" in
  let E3 := fresh "E" in let E2 := fresh "E" in let E1 := fresh "E" in let E0 := fresh "E" in let F := fresh "F" in
  destruct (nibbles q Hq) as (d3 & d2 & d1 & e & E3 & E2 & E1 & E0 & ? & ? & ? & ? & ?); rewrite E3, E2, E1, E0; cbv zeta; clear E3 E2 E1 E0;
  rewrite !(u32_id (6 * (d3 + d2 + d1) + e)), !div10_205 by lia;
  destruct (tenth (6 * (d3 + d2 + d1) + e)) as (q0 & ? & F & ? & ?); rewrite !F; clear F;
  rewrite !(u32_id (q0 + _ + _ + _)), !div10_205 by lia; destruct (tenth (q0 + 9 * d3 + 5 * d2 + d1)) as (q1 & ? & F & ? & ?); rewrite !F; clear F;
  rewrite !(u32_id (q1 + _)), !div10_13 by lia; destruct (tenth (q1 + 2 * d2)) as (q2 & ? & F & ? & ?); rewrite !F; clear F;
  rewrite !(u32_id (q2 + _)), !div10_205 by lia; destruct (tenth (q2 + 4 * d3)) as (q3 & ? & F & ? & ?); rewrite !F; clear F;
  assert (q / 10 = q0 + 9 * d3 + 5 * d2 + d1 + 20 * d2 + 400 * d3) by dlia;
  assert (q / 100 = q1 + 2 * d2 + 40 * d3) by dlia;
  assert (q / 1000 = q2 + 4 * d3) by dlia;
  assert (q / 10000 = q3) by dlia;
  rewrite !u32_id by lia; rewrite !digit_char by lia.

Lemma put_dec_trunc_digits q : 0 <= q < 100000 -> put_dec_trunc q =
  (q mod 10 + 48) :: if q / 10 =? 0 then [] else
  (q / 10 mod 10 + 48) :: if q / 100 =? 0 then [] else
  (q / 100 mod 10 + 48) :: if q / 1000 =? 0 then [] else
  (q / 1000 mod 10 + 48) :: if q / 10000 =? 0 then [] else [q / 10000 + 48].
Proof.
  intros Hq. unfold put_dec_trunc. jones q Hq.
  f_equal; [dlia|]. replace (q0 + 9 * d3 + 5 * d2 + d1 =? 0) with (q / 10 =? 0) by lia. destruct (Z.eqb_spec (q / 10) 0) as [|]; [done|].
  f_equal; [dlia|]. replace ((q1 + 2 * d2 =? 0) && (d3 =? 0)) with (q / 100 =? 0) by lia. destruct (Z.eqb_spec (q / 100) 0) as [|]; [done|].
  f_equal; [dlia|]. replace (q2 + 4 * d3 =? 0) with (q / 1000 =? 0) by lia. destruct (Z.eqb_spec (q / 1000) 0) as [|]; [done|].
  f_equal; [dlia|]. by replace (q / 10000) with q3 by lia.
Qed.

Lemma put_dec_full_digits q : 0 <= q < 100000 -> put_dec_full q =
  [q mod 10 + 48; q / 10 mod 10 + 48; q / 100 mod 10 + 48; q / 1000 mod 10 + 48; q / 10000 + 48].
Proof. intros Hq. unfold put_dec_full. jones q Hq. repeat f_equal; dlia. Qed.

Definition digit_table (digits : list Z) : Prop := digits = small_digits ∨ digits = large_digits.

Lemma table_dec digits d : digit_table digits -> 0 <= d < 10 -> nth (Z.to_nat d) digits 0 = d + 48.
Proof.
  intros Ht Hd. assert (d = 0 ∨ d = 1 ∨ d = 2 ∨ d = 3 ∨ d = 4 ∨ d = 5 ∨ d = 6 ∨ d = 7 ∨ d = 8 ∨ d = 9) as Hc by lia.
  destruct Ht as [-> | ->]; destruct_or! Hc; rewrite Hc; reflexivity.
Qed.

Lemma generic_fuel digits base : 2 <= base -> ∀ f f' num, 0 <= num < base ^ Z.of_nat (S f) -> num < base ^ Z.of_nat (S f') ->
  generic_digits (S f) digits base num = generic_digits (S f') digits base num.
Proof.
  intros Hb f. induction f as [|f IH]; intros f' num Hn Hn'.
  - change (Z.of_nat 1) with 1 in Hn. rewrite Z.pow_1_r in Hn. cbn. by rewrite !Z.div_small by lia.
  - assert (∀ k, num < base ^ Z.of_nat (S k) -> num / base < base ^ Z.of_nat k) as Hdiv.
    { intros k Hk. apply Z.div_lt_upper_bound; [lia|]. by rewrite <- Z.pow_succ_r, <- Nat2Z.inj_succ by lia. }
    cbn [generic_digits]. f_equal. destruct (Z.eqb_spec (num / base) 0) as [|Hne]; [done|]. destruct f' as [|f'].
    + exfalso. apply Hne. change (Z.of_nat 1) with 1 in Hn'. rewrite Z.pow_1_r in Hn'. apply Z.div_small. lia.
    + apply IH; [split; [apply Z.div_pos; lia|apply Hdiv; lia]|by apply Hdiv].
Qed.

Lemma generic_five digits f num : digit_table digits -> 100000 <= num ->
  generic_digits (5 + f) digits 10 num =
  (let r := num mod 100000 in [r mod 10 + 48; r / 10 mod 10 + 48; r / 100 mod 10 + 48; r / 1000 mod 10 + 48; r / 10000 + 48]) ++ generic_digits f digits 10 (num / 100000).
Proof.
  intros Ht Hn. change (5 + f)%nat with (S (S (S (S (S f))))). cbn [generic_digits]. rewrite !Z.div_div by lia. cbn [Z.mul Pos.mul].
  rewrite !(proj2 (Z.eqb_neq _ _)) by dlia. rewrite !table_dec by (done || apply Z.mod_pos_bound; lia). cbn [app]. cbv zeta. do 5 (apply (f_equal2 cons); [dlia|]). done.
Qed.

Lemma generic_short digits f num : digit_table digits -> 0 <= num < 100000 -> generic_digits (5 + f) digits 10 num = put_dec_trunc num.
Proof.
  intros Ht Hn. rewrite put_dec_trunc_digits by done. change (5 + f)%nat with (S (S (S (S (S f))))). cbn [generic_digits]. rewrite !Z.div_div by lia. cbn [Z.mul Pos.mul].
  rewrite !table_dec by (done || apply Z.mod_pos_bound; lia). do 4 (apply (f_equal2 cons); [done|]; destruct (_ =? 0); [done|]). rewrite Z.mod_small by dlia. by rewrite (Z.div_small num (10 * 10 * 10 * 10 * 10)) by lia.
Qed.

Lemma put_dec_loop_generic digits n : digit_table digits -> ∀ num, 0 <= num < 100000 ^ Z.of_nat (S n) ->
  put_dec_loop n num = generic_digits (5 * S n) digits 10 num.
Proof.
  intros Ht. induction n as [|n IH]; intros num Hn; cbn [put_dec_loop]; destruct (Z.ltb_spec num 100000) as [Hs|Hs].
  - symmetry. apply (generic_short digits 0); [done|lia].
  - change (100000 ^ Z.of_nat 1) with 100000 in Hn. lia.
  - replace (5 * S (S n))%nat with (5 + 5 * S n)%nat by lia. symmetry. apply generic_short; [done|lia].
  - replace (5 * S (S n))%nat with (5 + 5 * S n)%nat by lia. rewrite (generic_five digits (5 * S n) num Ht Hs), put_dec_full_digits by (apply Z.mod_pos_bound; lia). cbv zeta. f_equal. apply IH.
    split; [apply Z.div_pos; lia|]. apply Z.div_lt_upper_bound; [lia|]. rewrite <- Z.pow_succ_r, <- Nat2Z.inj_succ by lia. lia.
Qed.

Lemma put_dec_generic digits num : digit_table digits -> 0 <= num < 2 ^ 64 -> put_dec num = generic_digits 22 digits 10 num.
Proof. intros Ht Hn. unfold put_dec. rewrite (put_dec_loop_generic digits) by (done || lia). apply (generic_fuel digits 10); lia. Qed.

Lemma put_pow2_generic digits mask shift base : 1 <= shift <= 8 -> base = 2 ^ shift -> mask = base - 1 -> ∀ f num, 0 <= num ->
  put_pow2 f digits mask shift num = generic_digits f digits base num.
Proof.
  intros Hs -> ->. induction f as [|f IH]; intros num Hn; [done|]. cbn [put_pow2 generic_digits]. rewrite Z.shiftr_div_pow2 by lia.
  rewrite IH by (apply Z.div_pos; lia). do 3 f_equal.
  replace (2 ^ shift - 1) with (Z.ones shift) by (rewrite Z.ones_equiv; lia). rewrite Z.land_ones by lia. unfold u8, wrap. symmetry.
  rewrite <- (Z.mod_mod_divide num (2 ^ 8) (2 ^ shift)); [done|]. exists (2 ^ (8 - shift)). rewrite <- Z.pow_add_r by lia. f_equal. lia.
Qed.

Lemma tmp_generic digits base num : digit_table digits -> (base = 8 ∨ base = 10 ∨ base = 16) -> 0 <= num < 2 ^ 64 ->
  tmp_digits digits base num = generic_digits 22 digits base num.
Proof.
  intros Ht Hb Hn. unfold tmp_digits. destruct (Z.eqb_spec num 0) as [->|Hne].
  - destruct Ht as [-> | ->], Hb as [-> | [-> | ->]]; reflexivity.
  - destruct Hb as [-> | [-> | ->]]; cbn [Z.eqb Pos.eqb negb]; [apply put_pow2_generic; lia|by apply put_dec_generic|apply put_pow2_generic; lia].
Qed.

(** The text of number: the sign, the prefix and the digits in a field of
    [size] characters. *)
Definition field (num base size precision type : Z) : list Z :=
  let neg := tst type SIGN && (s64 num <? 0) in
  let sign := if tst type SIGN then if s64 num <? 0 then [45] else if tst type PLUS then [43] else if tst type SPACE then [32] else [] else [] in
  let prefix := if tst type SPECIAL then
                  if base =? 16 then [48; if tst type LARGE then 88 else 120] else if base =? 10 then [] else [48]
                else [] in
  let digits := rev (tmp_digits (if tst type LARGE then large_digits else small_digits) base (if neg then u64 (- s64 num) else num)) in
  let body := repeat 48 (Z.to_nat (precision - Z.of_nat (length digits))) ++ digits in
  let fill := (Z.to_nat size - length (sign ++ prefix ++ body))%nat in
  if tst type LEFT then sign ++ prefix ++ body ++ repeat 32 fill
  else if tst type ZEROPAD then sign ++ prefix ++ repeat 48 fill ++ body
  else repeat 32 fill ++ sign ++ prefix ++ body.

(** The flags after [if (type & LEFT) type &= ~ZEROPAD]. *)
Lemma left_flags type (ty := if tst type LEFT then clr type ZEROPAD else type) :
  tst ty SIGN = tst type SIGN ∧ tst ty PLUS = tst type PLUS ∧ tst ty SPACE = tst type SPACE ∧ tst ty LEFT = tst type LEFT ∧
  tst ty ZEROPAD = (negb (tst type LEFT) && tst type ZEROPAD) ∧ tst ty (Z.lor ZEROPAD LEFT) = (tst type ZEROPAD || tst type LEFT).
Proof.
  subst ty. assert (∀ v, tst v (Z.lor ZEROPAD LEFT) = tst v ZEROPAD || tst v LEFT) as Hor.
  { intros v. unfold tst. rewrite Z.land_lor_distr_r. destruct (Z.eqb_spec (Z.lor (Z.land v ZEROPAD) (Z.land v LEFT)) 0) as [E|E].
    - by apply Z.lor_eq_0_iff in E as [-> ->].
    - rewrite Z.lor_eq_0_iff in E. destruct (Z.eqb_spec (Z.land v ZEROPAD) 0), (Z.eqb_spec (Z.land v LEFT) 0); [by destruct E|done..]. }
  rewrite Hor. destruct (tst type LEFT) eqn:HL; [|rewrite HL; split_and!; by rewrite ?orb_false_r].
  rewrite (tst_clr_sub type ZEROPAD ZEROPAD) by reflexivity. rewrite !tst_clr_disj, HL by reflexivity. split_and!; by rewrite ?orb_true_r.
Qed.

(** The sign: the character, the absolute value and the rest of the field. *)
Lemma number_sign type num size :
  let neg := tst type SIGN && (s64 num <? 0) in
  let sign := if tst type SIGN then if s64 num <? 0 then [45] else if tst type PLUS then [43] else if tst type SPACE then [32] else [] else [] in
  ∃ c, (if tst type SIGN then
          if s64 num <? 0 then (45, u64 (- s64 num), size - 1)
          else if tst type PLUS then (43, num, size - 1)
          else if tst type SPACE then (32, num, size - 1)
          else (0, num, size)
        else (0, num, size)) = (c, if neg then u64 (- s64 num) else num, size - Z.of_nat (length sign)) ∧
    ∀ o, (if c =? 0 then o else emit c o) = emits sign o.
Proof.
  cbv zeta. destruct (tst type SIGN), (s64 num <? 0), (tst type PLUS), (tst type SPACE); cbn [andb length Z.of_nat Pos.of_succ_nat]; rewrite ?Z.sub_0_r;
    eexists; (split; [reflexivity|done]).
Qed.

Lemma number_prefix type base digits size (np := tst type SPECIAL && negb (base =? 10)) :
  let prefix := if tst type SPECIAL then
                  if base =? 16 then [48; nth 16 digits 0] else if base =? 10 then [] else [48]
                else [] in
  (if np then (if base =? 16 then size - 2 else size - 1) else size) = size - Z.of_nat (length prefix) ∧
  ∀ o, (if np then (let o := emit 48 o in if base =? 16 then emit (nth 16 digits 0) o else o) else o) = emits prefix o.
Proof.
  cbv zeta. subst np. destruct (tst type SPECIAL), (Z.eqb_spec base 10), (Z.eqb_spec base 16); try lia; cbn [andb negb length]; (split; [lia|done]).
Qed.

Lemma emits_repeat_neg c n o : n < 0 -> emits (repeat c (Z.to_nat n)) o = o.
Proof. intros. by replace (Z.to_nat n) with 0%nat by lia. Qed.

(** number writes its field, unless [size] overflows: that depends on the
    arguments only, and needs a precision of nearly 2^31. *)
Lemma number_run num base size precision type : 2 <= base <= 36 -> ∃ over : bool,
  (∀ o, number num base size precision type o = if over then None else Some (emits (field num base size precision type) o)) ∧
  (- 2 ^ 31 + 6 <= size - Z.max precision (Z.of_nat (length (tmp_digits (if tst type LARGE then large_digits else small_digits) base
     (if tst type SIGN && (s64 num <? 0) then u64 (- s64 num) else num)))) -> over = false).
Proof.
  intros Hb. unfold number, field. rewrite (proj2 (Z.ltb_ge base 2)), (proj2 (Z.ltb_ge 36 base)) by lia. cbn [orb]. cbv zeta.
  destruct (left_flags type) as (-> & -> & -> & -> & -> & ->).
  set (digits := if tst type LARGE then large_digits else _).
  replace (if tst type LARGE then 88 else 120) with (nth 16 digits 0) by (subst digits; by destruct (tst type LARGE)). clearbody digits.
  destruct (number_sign type num size) as (c & -> & Hsign). cbv beta iota zeta in Hsign |- *.
  set (sign := if tst type SIGN then if s64 num <? 0 then _ else _ else _) in *. set (tmp := tmp_digits _ _ _).
  assert (length sign <= 1)%nat as Hs1 by (subst sign; repeat case_match; cbn; lia).
  destruct (number_prefix type base digits (size - Z.of_nat (length sign))) as [-> Hp]. cbv zeta in Hp |- *.
  set (prefix := if tst type SPECIAL then if base =? 16 then _ else _ else _) in *.
  assert (length prefix <= 2)%nat as Hp2 by (subst prefix; repeat case_match; cbn; lia). clearbody sign prefix tmp.
  set (i := Z.of_nat (length tmp)). rewrite length_rev. fold i. rewrite !length_app, length_rev, repeat_length. fold i. unfold pad.
  set (prec := if precision <? i then i else precision). assert (Z.to_nat (prec - i) = Z.to_nat (precision - i)) as -> by (subst prec; destruct (Z.ltb_spec precision i); lia).
  set (fill := (_ - _)%nat). assert (fill = Z.to_nat (size - Z.of_nat (length sign) - Z.of_nat (length prefix) - prec)) as ->.
  { subst fill prec i. destruct (Z.ltb_spec precision (Z.of_nat (length tmp))); lia. }
  eexists. split.
  - intros o. match goal with |- (if ?b then _ else _) = _ => instantiate (1 := b); destruct b end; [done|].
    destruct (tst type ZEROPAD), (tst type LEFT); cbv beta iota; cbn [orb negb andb snd]; f_equal; rewrite Hsign, Hp, ?emits_app; [done| |done|].
    all: set (n := size - _ - _ - prec); repeat rewrite (emits_repeat_neg _ (if _ <=? _ then _ else _)) by (destruct (Z.leb_spec 0 n); repeat case_match; lia); done.
  - intros Hbig. apply Z.ltb_ge. subst prec. destruct (Z.ltb_spec precision i); repeat case_match; lia.
Qed.

(** ** Pieces of the output *)

(** What a conversion does to the output: characters, or the store of %n. *)
Inductive piece := Chars (l : list Z) | Count (ip : Z).
Definition run_piece (o : out) (p : piece) : out :=
  match p with
  | Chars l => emits l o
  | Count ip => Out (o_pos o) (o_buf o) (o_stores o ++ [(ip, s32 (o_pos o))])
  end.
Definition chars (p : piece) : list Z := match p with Chars l => l | Count _ => [] end.

(** A result that takes the output through a piece, or none at all. *)
Definition piecewise {A} (f : out -> option (A * out)) : Prop :=
  (∀ o, f o = None) ∨ ∃ a p, ∀ o, f o = Some (a, run_piece o p).

Lemma piecewise_none {A} : piecewise (λ _, None : option (A * out)).
Proof. by left. Qed.
Lemma piecewise_bind {A B} (m : option B) (f : B -> out -> option (A * out)) :
  (∀ b, piecewise (f b)) -> piecewise (λ o, b ← m; f b o).
Proof. intros Hf. destruct m as [b|]; [apply Hf|by left]. Qed.
Lemma piecewise_chars {A} (a : A) l : piecewise (λ o, Some (a, emits l o)).
Proof. right. by exists a, (Chars l). Qed.
Lemma piecewise_ext {A} (f g : out -> option (A * out)) : (∀ o, f o = g o) -> piecewise g -> piecewise f.
Proof. intros E [Hn|(a & p & Hp)]; [left|right; exists a, p]; intros o; by rewrite E. Qed.

(** What %s and %c emit in their fields. *)
Definition field_str (flags width : Z) (s : list Z) : list Z :=
  let fill := repeat 32 (Z.to_nat (width - Z.of_nat (length s))) in
  if tst flags LEFT then s ++ fill else fill ++ s.

Lemma char_field flags w c o :
  (let '(fw, o) := if tst flags LEFT then (w, o) else pad_char w o in (pad_char fw (emit c o)).2) = emits (field_str flags w [c]) o.
Proof.
  unfold field_str, pad_char. change (Z.of_nat (length [c])) with 1. destruct (tst flags LEFT); cbv beta iota; cbn [snd]; rewrite emits_one; [by rewrite emits_app|].
  rewrite emits_repeat_neg, emits_app; [done|]. destruct (Z.ltb_spec 1 w); lia.
Qed.

Lemma str_field flags w s n o (len := Z.min (Z.of_nat (length s)) n) : 0 <= n ->
  (let '(fw, o) := if tst flags LEFT then (w, o) else pad_str len w o in (pad_str len fw (emits (take (Z.to_nat len) s) o)).2) =
  emits (field_str flags w (take (Z.to_nat n) s)) o.
Proof.
  intros Hn. unfold field_str, pad_str. replace (take (Z.to_nat len) s) with (take (Z.to_nat n) s) by (destruct (Z.leb_spec n (Z.of_nat (length s))); [f_equal; lia|rewrite !take_ge by lia; done]).
  rewrite length_take. replace (Z.of_nat (Z.to_nat n `min` length s)) with len by lia. destruct (tst flags LEFT); cbv beta iota; cbn [snd]; [by rewrite emits_app|].
  rewrite emits_repeat_neg, emits_app; [done|]. lia.
Qed.

Lemma number_piece {A} (a : A) num base size precision type : piecewise (λ o, o ← number num base size precision type o; Some (a, o)).
Proof.
  destruct (decide (2 <= base <= 36)) as [Hb|Hb].
  - destruct (number_run num base size precision type Hb) as ([|] & Hrun & _); [left; intros o; by rewrite Hrun|].
    eapply piecewise_ext; [|apply (piecewise_chars a)]. intros o. rewrite Hrun. reflexivity.
  - left. intros o. unfold number. assert ((base <? 2) || (36 <? base) = true) as -> by lia. done.
Qed.

Lemma convert_piece fmt args : piecewise (convert fmt args).
Proof.
  unfold convert. destruct (get_flags 0 fmt) as [flags fmt1]. apply piecewise_bind. intros [[[w fl] fmt2] args2]. apply piecewise_bind. intros [[prec fmt3] args3].
  destruct (get_qualifier fmt3) as [q fmt4].
  assert (∀ f b, piecewise (λ o, '(num, args) ← get_num q f args3; o ← number num b w prec f o; Some (tail fmt4, args, o))) as Hint.
  { intros f b. apply piecewise_bind. intros [num args4]. apply number_piece. }
  repeat match goal with |- context [head_of fmt4 =? ?k] => destruct (head_of fmt4 =? k) end; cbn [orb]; try apply Hint.
  - apply (piecewise_ext _ (λ o, '(v, args0) ← va_32 args3; Some (tail fmt4, args0, emits (field_str fl w [u8 v]) o))).
    + intros o. destruct (va_32 args3) as [[v args4]|]; [|by destruct (if tst fl LEFT then _ else _)]. cbv [mbind option_bind]. rewrite <- char_field. by destruct (if tst fl LEFT then _ else _).
    + apply piecewise_bind. intros [v args4]. apply piecewise_chars.
  - apply piecewise_bind. intros [s args4]. set (str := match s with Some _ => _ | None => _ end). cbv zeta.
    eapply piecewise_ext; [|apply (piecewise_chars (tail fmt4, args4) (field_str fl w (take (Z.to_nat (u32 prec)) str)))]. intros o.
    cbv beta. rewrite <- (str_field fl w str (u32 prec) o) by (apply Z.mod_pos_bound; lia). by destruct (if tst fl LEFT then _ else _).
  - apply piecewise_bind. intros [v args4]. destruct (if w =? -1 then _ else _) as [w' fl']. apply number_piece.
  - apply piecewise_bind. intros [ip args4]. right. by exists (tail fmt4, args4), (Count ip).
  - apply (piecewise_chars (tail fmt4, args3) [37]).
  - destruct fmt4 as [|c fmt4]; [apply (piecewise_chars ([], args3) [37])|apply (piecewise_chars (fmt4, args3) [37; c])].
Qed.

Lemma format_pieces n : ∀ fmt args, (∀ o, format n fmt args o = None) ∨ ∃ ps, ∀ o, format n fmt args o = Some (foldl run_piece o ps).
Proof.
  induction n as [|n IH]; intros [|c fmt] args; cbn [format]; [by right; exists []|by left|by right; exists []|].
  destruct (c =? 37).
  - destruct (convert_piece fmt args) as [Hn|([fmt' args'] & p & Hp)]; [left; intros o; by rewrite Hn|].
    destruct (IH fmt' args') as [Hn|[ps Hps]]; [left|right; exists (p :: ps)]; intros o; rewrite Hp; cbv [mbind option_bind]; [apply Hn|apply Hps].
  - destruct (IH fmt args) as [Hn|[ps Hps]]; [left|right; exists (Chars [c] :: ps)]; intros o; [apply Hn|apply Hps].
Qed.

(** ** Every round shortens the format *)

Lemma length_tail_le {A} (l : list A) : (length (tail l) <= length l)%nat.
Proof. destruct l; cbn; lia. Qed.

Lemma get_flags_short flags fmt : (length (get_flags flags fmt).2 <= length fmt)%nat.
Proof.
  revert flags. induction fmt as [|c fmt IH]; intros flags; [done|]. cbn [get_flags].
  repeat (case_match; cbn [snd]; try (cbn [length]; lia)).
  all: etrans; [apply IH|cbn [length]; lia].
Qed.
Lemma skip_atoi_short s : (length (skip_atoi s).2 <= length s)%nat.
Proof.
  unfold skip_atoi. generalize 0. induction s as [|c s IH]; intros i; [done|]. cbn [skip_atoi_loop]. destruct (isdigit c); cbn [snd length]; [|lia]. etrans; [apply IH|lia].
Qed.
Lemma get_width_short flags fmt args r : get_width flags fmt args = Some r -> (length r.1.2 <= length fmt)%nat.
Proof.
  unfold get_width. pose proof (skip_atoi_short fmt) as Hs. pose proof (length_tail_le fmt) as Ht. destruct (isdigit _).
  - destruct (skip_atoi fmt) as [i f]. by intros [= <-].
  - destruct (_ =? 42); [|by intros [= <-]]. destruct (va_32 args) as [[v a]|]; [|done]. cbv [mbind option_bind]. by destruct (_ <? _); intros [= <-].
Qed.
Lemma get_precision_short fmt args r : get_precision fmt args = Some r -> (length r.1.2 <= length fmt)%nat.
Proof.
  unfold get_precision. pose proof (length_tail_le fmt) as Ht. destruct (_ =? 46); [|by intros [= <-]].
  pose proof (skip_atoi_short (tail fmt)) as Hs. pose proof (length_tail_le (tail fmt)) as Htt. destruct (isdigit _).
  - destruct (skip_atoi (tail fmt)) as [i f]. cbv [mbind option_bind]. intros [= <-]. cbn in *. lia.
  - destruct (_ =? 42); [|intros [= <-]; cbn; lia]. destruct (va_32 args) as [[v a]|]; [|done]. cbv [mbind option_bind]. intros [= <-]. cbn in *. lia.
Qed.
Lemma get_qualifier_short fmt : (length (get_qualifier fmt).2 <= length fmt)%nat.
Proof.
  unfold get_qualifier. pose proof (length_tail_le fmt) as Ht. pose proof (length_tail_le (tail fmt)) as Htt.
  destruct (_ || _); [destruct (_ && _)|]; cbn [snd]; lia.
Qed.

Lemma convert_short fmt args o fmt' args' o' : convert fmt args o = Some (fmt', args', o') -> (length fmt' <= length fmt)%nat.
Proof.
  unfold convert. pose proof (get_flags_short 0 fmt) as H1. destruct (get_flags 0 fmt) as [flags fmt1]. cbn [snd] in H1.
  destruct (get_width flags fmt1 args) as [[[[w fl] fmt2] args2]|] eqn:E2; [|done]. apply get_width_short in E2. cbn [fst snd] in E2. cbv [mbind option_bind].
  destruct (get_precision fmt2 args2) as [[[prec fmt3] args3]|] eqn:E3; [|done]. apply get_precision_short in E3. cbn [fst snd] in E3.
  pose proof (get_qualifier_short fmt3) as H4. destruct (get_qualifier fmt3) as [q fmt4]. cbn [snd] in H4. pose proof (length_tail_le fmt4) as Ht.
  intros E. assert (fmt' = tail fmt4) as ->; [|lia]. revert E.
  repeat (case_match; try discriminate); intros E; simplify_eq; done.
Qed.

Lemma format_fuel n : ∀ fmt args o o', format n fmt args o = Some o' -> format (length fmt) fmt args o = Some o'.
Proof.
  assert (∀ n m fmt args o o', format n fmt args o = Some o' -> (length fmt <= m)%nat -> format m fmt args o = Some o') as Hf.
  { clear n. induction n as [|n IH]; intros m [|c fmt] args o o' E Hm; destruct m as [|m]; cbn [format length] in *; try done; [lia|].
    destruct (c =? 37); [|apply IH; [done|lia]]. destruct (convert fmt args o) as [[[fmt' args'] o1]|] eqn:Ec; [|done]. cbv [mbind option_bind] in *.
    apply IH; [done|]. apply convert_short in Ec. lia. }
  intros fmt args o o' E. eapply Hf; [done|lia].
Qed.

(** ** The text and its place in the buffer *)

Definition text_of (ps : list piece) : list Z := concat (chars <$> ps).
Fixpoint counts (pos : Z) (ps : list piece) : list (Z * Z) :=
  match ps with
  | [] => []
  | Chars l :: ps => counts (pos + Z.of_nat (length l)) ps
  | Count ip :: ps => (ip, s32 pos) :: counts pos ps
  end.

Lemma emits_count l : ∀ o st, o_buf (emits l (Out (o_pos o) (o_buf o) st)) = o_buf (emits l o).
Proof. induction l as [|c l IH]; intros o st; [done|]. change (emits (c :: l) ?o) with (emits l (emit c o)). rewrite <- (IH (emit c o) st). done. Qed.

Lemma run_pieces ps : ∀ o,
  o_pos (foldl run_piece o ps) = o_pos o + Z.of_nat (length (text_of ps)) ∧
  o_buf (foldl run_piece o ps) = o_buf (emits (text_of ps) o) ∧
  o_stores (foldl run_piece o ps) = o_stores o ++ counts (o_pos o) ps.
Proof.
  induction ps as [|[l|ip] ps IH]; intros o; cbn [foldl].
  - cbn. rewrite app_nil_r. split_and!; [lia|done|done].
  - destruct (IH (run_piece o (Chars l))) as (-> & -> & ->). destruct (emits_fields l o) as (E1 & E2 & E3). cbn [run_piece]. rewrite E1, E2.
    unfold text_of. cbn [fmap list_fmap concat chars counts]. rewrite length_app, emits_app. split_and!; [lia|done|done].
  - destruct (IH (run_piece o (Count ip))) as (-> & -> & ->). cbn [run_piece o_pos o_stores counts]. unfold text_of. cbn [fmap list_fmap concat chars app].
    rewrite emits_count, <- app_assoc. done.
Qed.

(** What is in memory at [buf] after the text has been stored in [size]
    characters. *)
Definition stored (size : Z) (t mem : list Z) : list Z :=
  if size =? 0 then mem
  else take (Z.to_nat (size - 1)) t ++ 0 :: drop (S (Z.to_nat (size - 1) `min` length t)) mem.

Lemma terminate_stored size mem t st : 0 <= size <= Z.of_nat (length mem) ->
  o_buf (terminate (Out (Z.of_nat (length t)) (o_buf (emits t (Out 0 (take (Z.to_nat size) mem) st))) st)) ++ drop (Z.to_nat size) mem = stored size t mem.
Proof.
  intros Hs. set (n := Z.to_nat size). rewrite (emits_buffer t 0) by lia. rewrite take_0, Nat.sub_0_r. cbn [app Nat.add]. rewrite length_take, min_l by lia.
  unfold terminate. cbn [o_buf o_pos]. rewrite length_app, length_take, length_drop, length_take. replace (n `min` length t + (n `min` length mem - length t))%nat with n by lia.
  unfold stored. destruct (Z.eqb_spec size 0) as [->|Hne]; [subst n; change (Z.to_nat 0) with 0%nat; rewrite !take_0, drop_nil; done|]. rewrite (proj2 (Z.ltb_lt 0 (Z.of_nat n))) by lia. cbn [o_buf].
  destruct (Z.ltb_spec (Z.of_nat (length t)) (Z.of_nat n)) as [Hlt|Hge].
  - rewrite Nat2Z.id, (take_ge t n), (take_ge t (Z.to_nat _)) by lia. rewrite insert_app_r_alt by lia. rewrite Nat.sub_diag, min_r by lia. rewrite <- app_assoc. f_equal.
    rewrite (drop_S _ (default 0 (take n mem !! length t)) (length t)); cycle 1.
    { destruct (lookup_lt_is_Some_2 (take n mem) (length t)) as [x E]; [rewrite length_take; lia|]. by rewrite E. }
    cbn [insert list_insert app]. f_equal. rewrite <- (take_drop n mem) at 3. rewrite drop_app_le by (rewrite length_take; lia). done.
  - rewrite (drop_ge (take n mem)) by (rewrite length_take; lia). rewrite app_nil_r. replace (Z.to_nat (Z.of_nat n - 1)) with (Z.to_nat (size - 1)) by lia.
    rewrite min_l by lia. replace (S (Z.to_nat (size - 1))) with n by lia.
    rewrite (cons_middle 0), app_assoc. f_equal. replace n with (S (Z.to_nat (size - 1))) by lia.
    destruct (lookup_lt_is_Some_2 t (Z.to_nat (size - 1))) as [x E]; [lia|]. rewrite (take_S_r _ _ _ E), insert_app_r_alt by (rewrite length_take; lia).
    rewrite length_take, min_l, Nat.sub_diag by lia. done.
Qed.

Lemma terminate_fields o : o_pos (terminate o) = o_pos o ∧ o_stores (terminate o) = o_stores o.
Proof. unfold terminate. by destruct (0 <? _). Qed.

(** The calls whose buffer is in the address space. *)
Definition buffer_ok (buf size : Z) (mem : list Z) : Prop := 0 <= size < 2 ^ 31 ∧ buf + size < 2 ^ 32 ∧ size <= Z.of_nat (length mem).

Lemma vsnprintf_pieces fmt args ps : (∀ o, format (length fmt) fmt args o = Some (foldl run_piece o ps)) -> ∀ buf size mem, buffer_ok buf size mem ->
  vsnprintf buf size mem fmt args = Some (s32 (Z.of_nat (length (text_of ps))), stored size (text_of ps) mem, counts 0 ps).
Proof.
  intros Hps buf size mem (Hs & Hb & Hm). unfold vsnprintf. rewrite (proj2 (Z.ltb_ge (s32 size) 0)) by (rewrite s32_id; lia).
  rewrite (proj2 (Z.leb_gt _ _)) by lia. rewrite Hps. cbv [mbind option_bind]. cbv zeta.
  pose proof (run_pieces ps (Out 0 (take (Z.to_nat size) mem) [])) as (Ep & Eb & Es). cbn [o_pos o_stores app] in Ep, Es.
  rewrite <- (terminate_stored size mem (text_of ps) []) by lia. destruct (foldl run_piece _ ps) as [p b st]. cbn [o_pos o_buf o_stores] in *. subst p b st.
  rewrite Z.add_0_l. destruct (terminate_fields (Out (Z.of_nat (length (text_of ps))) (o_buf (emits (text_of ps) (Out 0 (take (Z.to_nat size) mem) []))) (counts 0 ps))) as [-> ->].
  do 3 f_equal. unfold terminate. cbn [o_pos o_buf]. by destruct (0 <? _).
Qed.

Lemma vscnprintf_pieces fmt args ps : (∀ o, format (length fmt) fmt args o = Some (foldl run_piece o ps)) -> ∀ buf size mem, buffer_ok buf size mem ->
  Z.of_nat (length (text_of ps)) < 2 ^ 31 ->
  vscnprintf buf size mem fmt args = Some (Z.min (Z.of_nat (length (text_of ps))) (size - 1), stored size (text_of ps) mem, counts 0 ps).
Proof.
  intros Hps buf size mem Hok Ht. unfold vscnprintf. rewrite (vsnprintf_pieces fmt args ps Hps buf size mem Hok). cbv [mbind option_bind].
  destruct Hok as [Hs _]. rewrite s32_id by lia. unfold u32, wrap. rewrite Z.mod_small by lia.
  do 3 f_equal. destruct (Z.leb_spec size (Z.of_nat (length (text_of ps)))); [rewrite s32_id; lia|lia].
Qed.

(** The arguments are there for every conversion of the format, and of its
    kind: the call gets to the end. *)
Definition accepts (fmt : list Z) (args : list arg) : bool :=
  match format (length fmt) fmt args (Out 0 [] []) with Some _ => true | None => false end.

(** C33: a format and the arguments it needs determine one text, whatever the
    buffer.  Every call of vsnprintf with a buffer of [size] characters, less
    than 2^31 and inside the address space, returns the length of that text (as
    an int), leaves its first [size - 1] characters with a 0 behind them in the
    buffer and every character behind that as it was, and nothing at all for
    size 0; %n stores the same counts; and for a buffer that is not empty
    vscnprintf returns the number of characters before that 0. *)
Theorem vsnprintf_truncates (fmt : list Z) (args : list arg) : accepts fmt args = true ->
  ∃ t st, ∀ buf size mem, buffer_ok buf size mem ->
    vsnprintf buf size mem fmt args = Some (s32 (Z.of_nat (length t)), stored size t mem, st) ∧
    (0 < size -> Z.of_nat (length t) < 2 ^ 31 ->
      vscnprintf buf size mem fmt args = Some (Z.min (Z.of_nat (length t)) (size - 1), stored size t mem, st)).
Proof.
  unfold accepts. intros Hacc. destruct (format_pieces (length fmt) fmt args) as [Hn|[ps Hps]]; [by rewrite Hn in Hacc|].
  exists (text_of ps), (counts 0 ps). intros buf size mem Hok. split; [by apply vsnprintf_pieces|intros _; by apply vscnprintf_pieces].
Qed.

Module PrintDemo.
Definition fmt : list Z := text "%s: %5d|%n".
Definition args : list arg := [AStr (Some (text "irq")); A32 14; A32 0x100].
Definition mem : list Z := repeat 7 20.

(** Three arguments, printed into 8 and into 20 characters. *)
Lemma vsnprintf_truncates_witness :
  ∃ t st, vsnprintf 0xC0000000 8 mem fmt args = Some (s32 (Z.of_nat (length t)), stored 8 t mem, st) ∧
    vsnprintf 0xC0000000 20 mem fmt args = Some (s32 (Z.of_nat (length t)), stored 20 t mem, st) ∧
    stored 20 t mem = text "irq:    14|" ++ 0 :: repeat 7 8 ∧ stored 8 t mem = text "irq:   " ++ 0 :: repeat 7 12.
Proof.
  destruct (vsnprintf_truncates fmt args eq_refl) as (t & st & Ht). exists t, st.
  destruct (Ht 0xC0000000 8 mem) as [H8 _]; [split_and!; vm_compute; done|].
  destruct (Ht 0xC0000000 20 mem) as [H20 _]; [split_and!; vm_compute; done|].
  split; [exact H8|]. split; [exact H20|]. split.
  - assert (vsnprintf 0xC0000000 20 mem fmt args = Some (11, text "irq:    14|" ++ 0 :: repeat 7 8, [(0x100, 11)])) as E by (vm_compute; reflexivity).
    rewrite H20 in E. injection E as _ E _. exact E.
  - assert (vsnprintf 0xC0000000 8 mem fmt args = Some (11, text "irq:   " ++ 0 :: repeat 7 12, [(0x100, 11)])) as E by (vm_compute; reflexivity).
    rewrite H8 in E. injection E as _ E _. exact E.
Defined.
End PrintDemo.

(** With a buffer of size 0 vscnprintf returns -1, where its comment says 0. *)
Lemma vscnprintf_empty_buffer fmt args : accepts fmt args = true -> ∃ (t : list Z) st, ∀ buf mem, buffer_ok buf 0 mem ->
  Z.of_nat (length t) < 2 ^ 31 -> vscnprintf buf 0 mem fmt args = Some (-1, mem, st).
Proof.
  unfold accepts. intros Hacc. destruct (format_pieces (length fmt) fmt args) as [Hn|[ps Hps]]; [by rewrite Hn in Hacc|].
  exists (text_of ps), (counts 0 ps). intros buf mem Hok Ht. rewrite (vscnprintf_pieces fmt args ps Hps buf 0 mem Hok Ht).
  replace (Z.min _ (0 - 1)) with (-1) by lia. done.
Qed.

(** * Printing and reading back *)

Lemma table_digit digits d : digit_table digits -> 0 <= d < 16 -> let c := nth (Z.to_nat d) digits 0 in isxdigit c = true ∧ digit_value c = d ∧ toupper c <> 88.
Proof.
  intros Ht Hd. assert (d = 0 ∨ d = 1 ∨ d = 2 ∨ d = 3 ∨ d = 4 ∨ d = 5 ∨ d = 6 ∨ d = 7 ∨ d = 8 ∨ d = 9 ∨ d = 10 ∨ d = 11 ∨ d = 12 ∨ d = 13 ∨ d = 14 ∨ d = 15) as Hc by lia.
  destruct Ht as [-> | ->]; destruct_or! Hc; rewrite Hc; vm_compute; (split_and!; [reflexivity|reflexivity|discriminate]).
Qed.

Lemma generic_step digits base f num : generic_digits (S f) digits base num =
  nth (Z.to_nat (num mod base)) digits 0 :: if num / base =? 0 then [] else generic_digits f digits base (num / base).
Proof. done. Qed.

Lemma strto_generic w digits base rest : 0 <= w -> digit_table digits -> 2 <= base <= 16 -> ∀ f num, 0 <= num < base ^ Z.of_nat (S f) ->
  strto_digits w base 0 (rev (generic_digits (S f) digits base num) ++ rest) = strto_digits w base (wrap w num) rest.
Proof.
  intros Hw Ht Hb f. revert rest. induction f as [|f IH]; intros rest num Hn; rewrite generic_step; cbn [rev];
    pose proof (Z.mod_pos_bound num base ltac:(lia)) as Hm; destruct (table_digit digits (num mod base) Ht ltac:(lia)) as (Hx & Hv & _); cbv zeta in Hx, Hv;
    rewrite <- app_assoc; cbn [app]; (destruct (Z.eqb_spec (num / base) 0) as [E|E]; [|]).
  all: pose proof (Z.div_mod num base ltac:(lia)) as Hdm.
  all: try (cbn [rev app strto_digits]; rewrite Hx, Hv, (proj2 (Z.ltb_lt _ _)) by lia; cbn [andb]; do 2 f_equal; rewrite E in Hdm; lia).
  - exfalso. apply E. change (Z.of_nat 1) with 1 in Hn. rewrite Z.pow_1_r in Hn. apply Z.div_small. lia.
  - rewrite IH; cycle 1.
    { split; [apply Z.div_pos; lia|]. apply Z.div_lt_upper_bound; [lia|]. rewrite <- Z.pow_succ_r, <- Nat2Z.inj_succ by lia. lia. }
    cbn [strto_digits]. rewrite Hx, Hv, (proj2 (Z.ltb_lt _ _)) by lia. cbn [andb]. f_equal. unfold wrap.
    rewrite <- Z.add_mod_idemp_l, Z.mul_mod_idemp_l, Z.add_mod_idemp_l by (pose proof (Z.pow_pos_nonneg 2 w); lia). f_equal. lia.
Qed.

Lemma generic_length digits base f num : (length (generic_digits f digits base num) <= f)%nat.
Proof. revert num. induction f as [|f IH]; intros num; cbn [generic_digits length]; [lia|]. destruct (_ =? 0); cbn [length]; [lia|]. specialize (IH (num / base)). lia. Qed.

Lemma generic_chars digits base f num : digit_table digits -> 2 <= base <= 16 -> Forall (λ c, isxdigit c = true ∧ toupper c <> 88) (generic_digits f digits base num).
Proof.
  intros Ht Hb. revert num. induction f as [|f IH]; intros num; cbn [generic_digits]; constructor.
  - pose proof (Z.mod_pos_bound num base ltac:(lia)). destruct (table_digit digits (num mod base) Ht ltac:(lia)) as (? & _ & ?). done.
  - destruct (_ =? 0); [constructor|apply IH].
Qed.

(** The digits of a number, the first first, are not empty and hexadecimal. *)
Lemma digits_shape digits base num : digit_table digits -> (base = 8 ∨ base = 10 ∨ base = 16) -> 0 <= num < 2 ^ 64 ->
  ∃ c l, rev (tmp_digits digits base num) = c :: l ∧ (length l < 22)%nat ∧ isxdigit c = true ∧ toupper c <> 88 ∧ Forall (λ c, toupper c <> 88) l.
Proof.
  intros Ht Hb Hn. rewrite (tmp_generic digits base num Ht Hb Hn). pose proof (generic_length digits base 22 num) as Hl.
  pose proof (generic_chars digits base 22 num Ht ltac:(lia)) as Hc. apply Forall_rev in Hc. rewrite <- length_rev in Hl.
  destruct (rev (generic_digits 22 digits base num)) as [|c l] eqn:E.
  - apply (f_equal length) in E. rewrite length_rev in E. done.
  - exists c, l. cbn [length] in Hl. apply Forall_cons in Hc as [[? ?] Hc]. split_and!; [done|lia|done|done|]. eapply Forall_impl; [exact Hc|]. naive_solver.
Qed.

Lemma read_digits w digits base num rest : 0 <= w -> digit_table digits -> (base = 8 ∨ base = 10 ∨ base = 16) -> 0 <= num < 2 ^ 64 ->
  isxdigit (head_of rest) = false -> strto_digits w base 0 (rev (tmp_digits digits base num) ++ rest) = (wrap w num, rest).
Proof.
  intros Hw Ht Hb Hn Hr. rewrite tmp_generic, strto_generic by (done || lia || (destruct Hb as [-> | [-> | ->]]; lia)).
  destruct rest as [|c rest]; [done|]. cbn [strto_digits head_of] in *. by rewrite Hr.
Qed.

Lemma field_plain num base type (neg := tst type SIGN && (s64 num <? 0)) : field num base (-1) (-1) type =
  (if tst type SIGN then if s64 num <? 0 then [45] else if tst type PLUS then [43] else if tst type SPACE then [32] else [] else []) ++
  (if tst type SPECIAL then if base =? 16 then [48; if tst type LARGE then 88 else 120] else if base =? 10 then [] else [48] else []) ++
  rev (tmp_digits (if tst type LARGE then large_digits else small_digits) base (if neg then u64 (- s64 num) else num)).
Proof.
  subst neg. unfold field. cbv zeta. set (sign := if tst type SIGN then if s64 num <? 0 then _ else _ else _). set (prefix := if tst type SPECIAL then if base =? 16 then _ else _ else _).
  set (tmp := tmp_digits _ _ _). rewrite length_rev. replace (Z.to_nat (-1 - Z.of_nat (length tmp))) with 0%nat by lia. cbn [repeat app].
  change (Z.to_nat (-1)) with 0%nat. cbn [Nat.sub repeat app]. rewrite app_nil_r. by destruct (tst type LEFT), (tst type ZEROPAD).
Qed.

Section read_back.
  Context (num : Z) (Hnum : 0 <= num < 2 ^ 64).

Lemma wrap64_num : wrap 64 num = num.
Proof. by apply Z.mod_small. Qed.

(** Reading the digits, the prefix of base 16 and of base 0. *)
Lemma read_plain digits base rest : digit_table digits -> base = 8 ∨ base = 10 ∨ base = 16 ->
  simple_strtoull (rev (tmp_digits digits base num) ++ 0 :: rest) base = (num, 0 :: rest).
Proof.
  intros Ht Hb. unfold simple_strtoull. assert (strto_prefix base (rev (tmp_digits digits base num) ++ 0 :: rest) = (base, rev (tmp_digits digits base num) ++ 0 :: rest)) as ->.
  { destruct Hb as [-> | [-> | ->]]; [done|done|]. unfold strto_prefix. cbn [Z.eqb Pos.eqb]. destruct (digits_shape digits 16 num Ht ltac:(lia) Hnum) as (c & l & -> & _ & _ & _ & Hl).
    cbn [app head_of tail]. rewrite (proj2 (Z.eqb_neq (toupper _) 88)); [by rewrite andb_false_r|]. destruct Hl as [|x l Hx _]; [done|exact Hx]. }
  rewrite read_digits by (done || lia). by rewrite wrap64_num.
Qed.

Lemma read_hex_prefix digits x base rest : digit_table digits -> toupper x = 88 -> base = 0 ∨ base = 16 ->
  simple_strtoull (48 :: x :: rev (tmp_digits digits 16 num) ++ 0 :: rest) base = (num, 0 :: rest).
Proof.
  intros Ht Hx Hb. unfold simple_strtoull. assert (strto_prefix base (48 :: x :: rev (tmp_digits digits 16 num) ++ 0 :: rest) = (16, rev (tmp_digits digits 16 num) ++ 0 :: rest)) as ->.
  { unfold strto_prefix. destruct (digits_shape digits 16 num Ht ltac:(lia) Hnum) as (c & l & -> & _ & Hc & _).
    destruct Hb as [-> | ->]; cbn [Z.eqb Pos.eqb app head_of tail andb]; rewrite Hx; [by rewrite Hc|done]. }
  rewrite read_digits by (done || lia). by rewrite wrap64_num.
Qed.

Lemma read_octal_prefix digits rest : digit_table digits ->
  simple_strtoull (48 :: rev (tmp_digits digits 8 num) ++ 0 :: rest) 0 = (num, 0 :: rest).
Proof.
  intros Ht. unfold simple_strtoull. assert (strto_prefix 0 (48 :: rev (tmp_digits digits 8 num) ++ 0 :: rest) = (8, rev (tmp_digits digits 8 num) ++ 0 :: rest)) as ->.
  { unfold strto_prefix. destruct (digits_shape digits 8 num Ht ltac:(lia) Hnum) as (c & l & -> & _ & _ & Hc & _). cbn [Z.eqb Pos.eqb app head_of tail]. by rewrite (proj2 (Z.eqb_neq _ _) Hc). }
  rewrite read_digits by (done || lia). by rewrite wrap64_num.
Qed.

End read_back.

(** A conversion without precision. *)
Lemma number_field num base size type o : (base = 8 ∨ base = 10 ∨ base = 16) -> 0 <= num < 2 ^ 64 -> -1 <= size ->
  number num base size (-1) type o = Some (emits (field num base size (-1) type) o).
Proof.
  intros Hb Hnum Hsize. destruct (number_run num base size (-1) type ltac:(lia)) as (over & Hrun & Hover). rewrite Hrun, Hover; [done|].
  set (n := if _ && _ then _ else _). set (digits := if tst type LARGE then large_digits else _).
  assert (0 <= n < 2 ^ 64) as Hn by (subst n; destruct (_ && _); [apply Z.mod_pos_bound; lia|done]).
  assert (digit_table digits) as Ht by (subst digits; destruct (tst type LARGE); [by right|by left]).
  destruct (digits_shape digits base n Ht Hb Hn) as (c & l & E & Hl & _). rewrite <- (length_rev (tmp_digits digits base n)), E. cbn [length]. lia.
Qed.

(** A conversion of one 64-bit number, read back by [read] from the buffer of
    [length mem] characters. *)
Definition print_read (buf : Z) (mem : list Z) (fmt : string) (num : Z) (read : list Z -> Z * list Z) : option Z :=
  '(_, mem, _) ← vsnprintf buf (Z.of_nat (length mem)) mem (text fmt) [A64 num];
  Some (read mem).1.

Section round_trip.
  Context (buf : Z) (mem : list Z) (num : Z).
  Context (Hok : buffer_ok buf (Z.of_nat (length mem)) mem) (Hlen : (26 <= length mem)%nat) (Hnum : 0 <= num < 2 ^ 64).

Lemma print_field fmt read base type v :
  (∀ o, format (length (text fmt)) (text fmt) [A64 num] o = (o ← number num base (-1) (-1) type o; Some o)) ->
  (base = 8 ∨ base = 10 ∨ base = 16) ->
  (∀ rest, (read (field num base (-1) (-1) type ++ 0 :: rest)).1 = v) ->
  print_read buf mem fmt num read = Some v.
Proof using Hok Hlen Hnum.
  intros Hf Hb Hr. unfold print_read. rewrite (vsnprintf_pieces _ _ [Chars (field num base (-1) (-1) type)]); [|intros o; rewrite Hf, number_field by (done || lia); done|done].
  cbv [mbind option_bind]. f_equal. unfold text_of. cbn [fmap list_fmap concat chars]. rewrite app_nil_r. rewrite <- (Hr (drop (S (length (field num base (-1) (-1) type))) mem)).
  do 2 f_equal. assert (length (field num base (-1) (-1) type) < length mem)%nat as Hl.
  { rewrite field_plain. set (n := if _ && _ then _ else _). set (digits := if tst type LARGE then large_digits else _).
    assert (0 <= n < 2 ^ 64) as Hn by (subst n; destruct (_ && _); [apply Z.mod_pos_bound; lia|done]).
    assert (digit_table digits) as Ht by (subst digits; destruct (tst type LARGE); [by right|by left]).
    destruct (digits_shape digits base n Ht Hb Hn) as (c & l & E & Hl & _). rewrite E, !length_app. cbn [length].
    repeat case_match; cbn [length]; lia. }
  unfold stored. rewrite (proj2 (Z.eqb_neq _ _)) by lia. rewrite take_ge, min_r by lia. done.
Qed.

End round_trip.

(** The sign is no digit. *)
Lemma digits_unsigned digits base num : digit_table digits -> (base = 8 ∨ base = 10 ∨ base = 16) -> 0 <= num < 2 ^ 64 -> ∀ rest, head_of (rev (tmp_digits digits base num) ++ rest) <> 45.
Proof. intros Ht Hb Hn rest. destruct (digits_shape digits base num Ht Hb Hn) as (c & l & -> & _ & Hc & _). cbn. intros ->. discriminate Hc. Qed.

Lemma sx_neg_wrap w x : 0 <= w -> sx w (- wrap w x) = sx w (- x).
Proof. intros Hw. rewrite <- (sx_wrap w (- wrap w x)), <- (sx_wrap w (- x)) by done. f_equal. unfold wrap. rewrite <- !Z.sub_0_l. apply Zminus_mod_idemp_r. Qed.

Lemma read_signed num rest : 0 <= num < 2 ^ 64 -> simple_strtoll (field num 10 (-1) (-1) SIGN ++ 0 :: rest) 10 = (s64 num, 0 :: rest).
Proof.
  intros Hn. rewrite field_plain. change (tst SIGN SIGN) with true. change (tst SIGN PLUS) with false. change (tst SIGN SPACE) with false. change (tst SIGN SPECIAL) with false. change (tst SIGN LARGE) with false.
  cbn [andb app]. assert (digit_table small_digits) as Ht by by left. unfold simple_strtoll.
  destruct (Z.ltb_spec (s64 num) 0) as [Hneg|Hpos]; cbn [app].
  - cbn [head_of tail Z.eqb Pos.eqb]. assert (0 <= u64 (- s64 num) < 2 ^ 64) as Hu by (apply Z.mod_pos_bound; lia). rewrite read_plain by (done || lia).
    f_equal. unfold s64, u64. rewrite sx_neg_wrap, Z.opp_involutive by lia. apply sx_id; [lia|]. by apply sx_range.
  - rewrite (proj2 (Z.eqb_neq _ 45)) by (apply digits_unsigned; (done || lia)). rewrite read_plain by (done || lia). done.
Qed.

(** The format of one number, and its field. *)
Lemma format_one spec num base type : (∀ o, convert spec [A64 num] o = (o ← number num base (-1) (-1) type o; Some ([], [], o))) ->
  ∀ o, format (length (37 :: spec)) (37 :: spec) [A64 num] o = (o ← number num base (-1) (-1) type o; Some o).
Proof.
  intros E o. cbn [format length Z.eqb Pos.eqb]. rewrite E. cbv [mbind option_bind]. destruct (number _ _ _ _ _ o) as [o'|]; [|done]. by destruct (length spec).
Qed.
Ltac one_number Hu := refine (format_one _ _ _ _ _); intros o; cbv -[number u64]; by rewrite Hu.
Ltac one_field t := match goal with |- context [field ?n ?b (-1) (-1) ?ty] => replace (field n b (-1) (-1) ty) with t by (rewrite field_plain; reflexivity) end.

(** C34: a 64-bit number printed by vsnprintf is read back by simple_strtoull:
    in decimal, octal and hexadecimal, with the prefix of "%#" also when the
    base is left to be recognised, and as a signed number by simple_strtoll. *)
Theorem print_read_back (buf : Z) (mem : list Z) (num : Z) :
  buffer_ok buf (Z.of_nat (length mem)) mem -> (26 <= length mem)%nat -> 0 <= num < 2 ^ 64 ->
  print_read buf mem "%llu" num (λ s, simple_strtoull s 10) = Some num ∧
  print_read buf mem "%llo" num (λ s, simple_strtoull s 8) = Some num ∧
  print_read buf mem "%llx" num (λ s, simple_strtoull s 16) = Some num ∧
  print_read buf mem "%#llX" num (λ s, simple_strtoull s 16) = Some num ∧
  print_read buf mem "%#llx" num (λ s, simple_strtoull s 0) = Some num ∧
  print_read buf mem "%#llo" num (λ s, simple_strtoull s 0) = Some num ∧
  print_read buf mem "%lld" num (λ s, simple_strtoll s 10) = Some (s64 num).
Proof.
  intros Hok Hlen Hnum. assert (digit_table small_digits ∧ digit_table large_digits) as [Ht Ht'] by (split; [by left|by right]).
  assert (u64 num = num) as Hu by by apply Z.mod_small. pose proof (print_field buf mem num Hok Hlen Hnum) as Hp.
  split_and!.
  - apply (Hp _ _ 10 0); [one_number Hu|lia|]. intros rest. one_field (rev (tmp_digits small_digits 10 num)). by rewrite read_plain by (done || lia).
  - apply (Hp _ _ 8 0); [one_number Hu|lia|]. intros rest. one_field (rev (tmp_digits small_digits 8 num)). by rewrite read_plain by (done || lia).
  - apply (Hp _ _ 16 0); [one_number Hu|lia|]. intros rest. one_field (rev (tmp_digits small_digits 16 num)). by rewrite read_plain by (done || lia).
  - apply (Hp _ _ 16 (Z.lor SPECIAL LARGE)); [one_number Hu|lia|]. intros rest. one_field (48 :: 88 :: rev (tmp_digits large_digits 16 num)).
    cbn [app]. by rewrite read_hex_prefix by (done || lia).
  - apply (Hp _ _ 16 SPECIAL); [one_number Hu|lia|]. intros rest. one_field (48 :: 120 :: rev (tmp_digits small_digits 16 num)).
    cbn [app]. by rewrite read_hex_prefix by (done || lia).
  - apply (Hp _ _ 8 SPECIAL); [one_number Hu|lia|]. intros rest. one_field (48 :: rev (tmp_digits small_digits 8 num)).
    cbn [app]. by rewrite read_octal_prefix.
  - apply (Hp _ _ 10 SIGN); [one_number Hu|lia|]. intros rest. by rewrite read_signed.
Qed.

Lemma print_read_back_witness : buffer_ok 0xC0000000 32 (repeat 7 32) ∧ print_read 0xC0000000 (repeat 7 32) "%lld" (2 ^ 64 - 42) (λ s, simple_strtoll s 10) = Some (-42).
Proof.
  assert (buffer_ok 0xC0000000 (Z.of_nat (length (repeat 7 32))) (repeat 7 32)) as Hok by (split_and!; vm_compute; done).
  split; [exact Hok|]. change (-42) with (s64 (2 ^ 64 - 42)). apply (print_read_back 0xC0000000 (repeat 7 32) (2 ^ 64 - 42)); [exact Hok|vm_compute; lia|lia].
Defined.

(** C35: the fast conversions of number do what the generic loop that the
    comment in number gives would do: decimal by nibbles and multiplications
    instead of divisions, five digits a round, octal and hexadecimal by masks;
    the loop would end within 22 rounds for 64 bits. *)
Theorem fast_digits_generic (num : Z) (digits : list Z) (n : nat) :
  0 <= num < 2 ^ 64 -> digits = small_digits ∨ digits = large_digits -> (22 <= n)%nat ->
  put_dec num = generic_digits n digits 10 num ∧
  put_pow2 22 digits 7 3 num = generic_digits n digits 8 num ∧
  put_pow2 22 digits 15 4 num = generic_digits n digits 16 num.
Proof.
  intros Hn Ht H22. destruct n as [|n]; [lia|].
  assert (∀ base, 8 <= base -> generic_digits (S n) digits base num = generic_digits 22 digits base num) as Hf.
  { intros base Hb. assert (2 ^ 66 <= base ^ 22) as Hp by (change (2 ^ 66) with (8 ^ 22); apply Z.pow_le_mono_l; lia).
    assert (base ^ 22 <= base ^ Z.of_nat (S n)) by (apply Z.pow_le_mono_r; lia). apply generic_fuel; [lia|lia|]. change (Z.of_nat 22) with 22. lia. }
  rewrite !Hf by lia. split_and!; [by apply put_dec_generic|apply put_pow2_generic; lia|apply put_pow2_generic; lia].
Qed.

Lemma fast_digits_generic_witness : put_dec (2 ^ 64 - 1) = rev (text "18446744073709551615") ∧ put_dec (2 ^ 64 - 1) = generic_digits 22 small_digits 10 (2 ^ 64 - 1).
Proof. split; [reflexivity|]. refine (proj1 (fast_digits_generic (2 ^ 64 - 1) small_digits 22 _ _ _)); [lia|by left|lia]. Defined.
