(* ===== verification/Vsscanf.v ===== *)
(** lib/vsprintf.c: vsscanf, and that it reads back what vsnprintf prints.

    The buffer is a list of characters with its terminating 0, so that
    [str - buf] is a difference of lengths; the format is a list without it, as
    in Vsprintf.v.  The arguments are addresses; what is stored there is the
    list of stores, in order. *)

From S2P Require Import Prelude Vsprintf.

(** * Scanning *)

(** A number of [w] bytes, or characters, at [p]. *)
Inductive store := SNum (p w v : Z) | SChars (p : Z) (l : list Z).

(** [while (isspace( *s)) ++s] *)
Fixpoint skip_space (s : list Z) : list Z :=
  match s with
  | c :: s' => if isspace c then skip_space s' else s
  | [] => []
  end.
(** [while (!isspace( *s) && *s) s++] *)
Fixpoint skip_word (s : list Z) : list Z :=
  match s with
  | c :: s' => if negb (isspace c) && negb (c =? 0) then skip_word s' else s
  | [] => []
  end.

(** [do *s++ = *str++; while (--field_width > 0 && *str)]: the characters and
    the rest of the input. *)
Fixpoint scan_chars (field_width : Z) (str : list Z) : list Z * list Z :=
  match str with
  | c :: str =>
      if (1 <? field_width) && negb (head_of str =? 0) then
        let '(l, str) := scan_chars (field_width - 1) str in (c :: l, str)
      else ([c], str)
  | [] => ([], [])
  end.
(** [while ( *str && !isspace( *str) && field_width--) *s++ = *str++; *s = 0] *)
Fixpoint scan_word (field_width : Z) (str : list Z) : list Z * list Z :=
  match str with
  | c :: str' =>
      if negb (c =? 0) && negb (isspace c) && negb (field_width =? 0) then
        let '(l, str') := scan_word (field_width - 1) str' in (c :: l, str')
      else ([0], str)
  | [] => ([0], [])
  end.

Definition INT_MAX : Z := 2 ^ 31 - 1.

(** 'h', 'l', 'L', 'Z' or 'z'; "hh" is 'H' and "ll" is 'L'. *)
Definition scan_qualifier (fmt : list Z) : Z * list Z :=
  let c := head_of fmt in
  if (c =? 104) || (c =? 108) || (c =? 76) || (c =? 90) || (c =? 122) then
    let fmt := tail fmt in
    if c =? head_of fmt then
      if c =? 104 then (72, tail fmt) else if c =? 108 then (76, tail fmt) else (c, fmt)
    else (c, fmt)
  else (- 1, fmt).

(** The width of the integer, its value and the rest of the input. *)
Definition scan_number (qualifier base : Z) (is_sign : bool) (str : list Z) : Z * Z * list Z :=
  let signed w sx_ := let '(v, next) := simple_strtol str base in (w, sx_ v, next) in
  let unsigned w ux := let '(v, next) := simple_strtoul str base in (w, ux v, next) in
  if qualifier =? 72 then if is_sign then signed 1 (sx 8) else unsigned 1 u8
  else if qualifier =? 104 then if is_sign then signed 2 s16 else unsigned 2 u16
  else if qualifier =? 108 then if is_sign then signed 4 s32 else unsigned 4 u32
  else if qualifier =? 76 then
    if is_sign then let '(v, next) := simple_strtoll str base in (8, v, next)
    else let '(v, next) := simple_strtoull str base in (8, v, next)
  else if (qualifier =? 90) || (qualifier =? 122) then unsigned 4 u32
  else if is_sign then signed 4 s32 else unsigned 4 u32.

(** No digit of the base. *)
Definition not_digit (base digit : Z) : bool :=
  (digit =? 0) || (base =? 16) && negb (isxdigit digit) || (base =? 10) && negb (isdigit digit)
  || (base =? 8) && (negb (isdigit digit) || (55 <? digit)) || (base =? 0) && negb (isdigit digit).

(** The variables of the loop. *)
Record scan := Scan { sc_fmt : list Z; sc_str : list Z; sc_args : list Z; sc_num : Z; sc_stores : list store }.

(** How a round ends; a missing argument faults. *)
Inductive outcome := Continue (s : scan) | Break (s : scan) | Return (s : scan) | Fault.

Definition va_ptr (args : list Z) : option (Z * list Z) := match args with p :: args => Some (p, args) | [] => None end.

(** An integer conversion, from the switch on. *)
Definition scan_integer (qualifier base : Z) (is_sign : bool) (fmt str : list Z) (args : list Z) (num : Z) (st : list store) : outcome :=
  let str := skip_space str in
  let digit := if is_sign && (head_of str =? 45) then head_of (tail str) else head_of str in
  if not_digit base digit then Break (Scan fmt str args num st)
  else
    match va_ptr args with
    | None => Fault
    | Some (p, args) =>
        let '(w, v, next) := scan_number qualifier base is_sign str in
        Continue (Scan fmt next args (num + 1) (st ++ [SNum p w v]))
    end.

(** A conversion, from behind the '%' on; [pos] is [str - buf]. *)
Definition scan_convert (buf fmt str : list Z) (args : list Z) (num : Z) (st : list store) : outcome :=
  if head_of fmt =? 42 then Continue (Scan (skip_word fmt) (skip_word str) args num st)
  else
    let '(field_width, fmt) := if isdigit (head_of fmt) then skip_atoi fmt else (- 1, fmt) in
    let '(qualifier, fmt) := scan_qualifier fmt in
    if (head_of fmt =? 0) || (head_of str =? 0) then Break (Scan fmt str args num st)
    else
      let c := head_of fmt in
      let fmt := tail fmt in
      let integer base is_sign := scan_integer qualifier base is_sign fmt str args num st in
      if c =? 99 then (* c *)
        match va_ptr args with
        | None => Fault
        | Some (p, args) =>
            let '(l, str) := scan_chars (if field_width =? - 1 then 1 else field_width) str in
            Continue (Scan fmt str args (num + 1) (st ++ [SChars p l]))
        end
      else if c =? 115 then (* s *)
        match va_ptr args with
        | None => Fault
        | Some (p, args) =>
            let '(l, str) := scan_word (if field_width =? - 1 then INT_MAX else field_width) (skip_space str) in
            Continue (Scan fmt str args (num + 1) (st ++ [SChars p l]))
        end
      else if c =? 110 then (* n *)
        match va_ptr args with
        | None => Fault
        | Some (p, args) => Continue (Scan fmt str args num (st ++ [SNum p 4 (s32 (Z.of_nat (length buf - length str)))]))
        end
      else if c =? 111 then integer 8 false
      else if (c =? 120) || (c =? 88) then integer 16 false
      else if c =? 105 then integer 0 true
      else if c =? 100 then integer 10 true
      else if c =? 117 then integer 10 false
      else if c =? 37 then
        if head_of str =? 37 then Continue (Scan fmt (tail str) args num st) else Return (Scan fmt (tail str) args num st)
      else Return (Scan fmt str args num st).

(** One round of the loop. *)
Definition scan_step (buf : list Z) (s : scan) : outcome :=
  let '(Scan fmt str args num st) := s in
  let '(fmt, str) := if isspace (head_of fmt) then (skip_space fmt, skip_space str) else (fmt, str) in
  if negb (head_of fmt =? 37) && negb (head_of fmt =? 0) then
    if head_of fmt =? head_of str then Continue (Scan (tail fmt) (tail str) args num st) else Break (Scan (tail fmt) (tail str) args num st)
  else if head_of fmt =? 0 then Break (Scan fmt str args num st)
  else scan_convert buf (tail fmt) str args num st.

(** Behind the loop: a %n at the current position of the format. *)
Definition scan_end (buf : list Z) (s : scan) : option (Z * list store) :=
  let '(Scan fmt str args num st) := s in
  if (head_of fmt =? 37) && (head_of (tail fmt) =? 110) then
    '(p, _) ← va_ptr args; Some (num, st ++ [SNum p 4 (s32 (Z.of_nat (length buf - length str)))])
  else Some (num, st).

(** [while ( *fmt && *str)]; every round shortens the format. *)
Fixpoint scan_loop (fuel : nat) (buf : list Z) (s : scan) : option (Z * list store) :=
  if (head_of (sc_fmt s) =? 0) || (head_of (sc_str s) =? 0) then scan_end buf s
  else
    match fuel with
    | O => None
    | S fuel =>
        match scan_step buf s with
        | Continue s => scan_loop fuel buf s
        | Break s => scan_end buf s
        | Return s => Some (sc_num s, sc_stores s)
        | Fault => None
        end
    end.

Definition vsscanf (buf fmt : list Z) (args : list Z) : option (Z * list store) :=
  scan_loop (length fmt) buf (Scan fmt buf args 0 []).

Example scan_example : vsscanf (text "  12ab -7:xyz 0x1F" ++ [0]) (text "%d%s %hhd:%2c%*s %i%n") [100; 200; 300; 400; 500; 600] =
  Some (5, [SNum 100 4 12; SChars 200 (text "ab" ++ [0]); SNum 300 1 (-7); SChars 400 (text "xy"); SNum 500 4 31; SNum 600 4 18]).
Proof. vm_compute. reflexivity. Qed.

(** A %n behind white space at the end of the input is not filled, and a field
    width does not limit an integer. *)
Example percent_n_lost : vsscanf (text "5 " ++ [0]) (text "%d %n") [1; 2] = Some (1, [SNum 1 4 5]).
Proof. reflexivity. Qed.
Example width_ignored : vsscanf (text "1234" ++ [0]) (text "%2d%2d") [1; 2] = Some (1, [SNum 1 4 1234]).
Proof. reflexivity. Qed.

(** * The loop ends *)

Lemma skip_space_short s : (length (skip_space s) <= length s)%nat.
Proof. induction s as [|c s IH]; cbn [skip_space length]; [lia|]. destruct (isspace c); cbn [length]; lia. Qed.
Lemma skip_word_short s : (length (skip_word s) <= length s)%nat.
Proof. induction s as [|c s IH]; cbn [skip_word length]; [lia|]. destruct (_ && _); cbn [length]; lia. Qed.
Lemma scan_qualifier_short fmt : (length (scan_qualifier fmt).2 <= length fmt)%nat.
Proof.
  unfold scan_qualifier. pose proof (length_tail_le fmt). pose proof (length_tail_le (tail fmt)).
  repeat case_match; cbn [snd]; lia.
Qed.

Lemma scan_convert_short buf fmt str args num st s : scan_convert buf fmt str args num st = Continue s -> (length (sc_fmt s) <= length fmt)%nat.
Proof.
  unfold scan_convert. destruct (head_of fmt =? 42); [intros [= <-]; apply skip_word_short|].
  assert (length (if isdigit (head_of fmt) then skip_atoi fmt else (-1, fmt)%Z).2 <= length fmt)%nat as Hw by (destruct (isdigit _); [apply skip_atoi_short|done]).
  destruct (if isdigit (head_of fmt) then _ else _) as [w fmt1]. cbn [snd] in Hw.
  pose proof (scan_qualifier_short fmt1) as Hq. destruct (scan_qualifier fmt1) as [q fmt2]. cbn [snd] in Hq. pose proof (length_tail_le fmt2) as Ht.
  destruct (_ || _); [discriminate|]. intros E. assert (sc_fmt s = tail fmt2) as ->; [|lia]. revert E. unfold scan_integer.
  repeat (case_match; try discriminate); intros [= <-]; done.
Qed.

Lemma head_shorter (l : list Z) : head_of l <> 0 -> (length (tail l) < length l)%nat.
Proof. destruct l; [done|]. cbn. lia. Qed.

Lemma scan_step_short buf s s' : scan_step buf s = Continue s' -> (length (sc_fmt s') < length (sc_fmt s))%nat.
Proof.
  destruct s as [fmt str args num st]. unfold scan_step.
  assert (length (if isspace (head_of fmt) then (skip_space fmt, skip_space str) else (fmt, str)).1 <= length fmt)%nat as Hs by (destruct (isspace _); [apply skip_space_short|done]).
  destruct (if isspace (head_of fmt) then _ else _) as [fmt1 str1]. cbn [fst] in Hs. cbn [sc_fmt].
  destruct (Z.eqb_spec (head_of fmt1) 0) as [E0|E0].
  - rewrite E0. discriminate.
  - apply head_shorter in E0. destruct (_ && _).
    + destruct (_ =? _); intros [= <-]. cbn [sc_fmt]. lia.
    + intros E. apply scan_convert_short in E. lia.
Qed.

(** More rounds than the format is long make no difference. *)
Lemma scan_fuel n : ∀ buf s m, (length (sc_fmt s) <= n)%nat -> (length (sc_fmt s) <= m)%nat -> scan_loop n buf s = scan_loop m buf s.
Proof.
  induction n as [|n IH]; intros buf s m Hn Hm.
  - assert (sc_fmt s = []) as E by (destruct (sc_fmt s); [done|cbn in Hn; lia]). destruct m; cbn [scan_loop]; by rewrite E.
  - destruct m as [|m].
    { assert (sc_fmt s = []) as E by (destruct (sc_fmt s); [done|cbn in Hm; lia]). cbn [scan_loop]. by rewrite E. }
    cbn [scan_loop]. destruct (_ || _); [done|]. destruct (scan_step buf s) as [s'|s'|s'|] eqn:E; try done. apply scan_step_short in E. apply IH; lia.
Qed.

(** * Reading back what was printed *)

(** A field of a format: literal characters, then %d, %u, %x or %o, with the
    number and the address it is read to. *)
Inductive conv := Cd | Cu | Cx | Co.
#[export] Instance conv_eq_dec : EqDecision conv.
Proof. solve_decision. Defined.
Record item := Item { sep : list Z; cv : conv; val : Z; dest : Z }.

Definition conv_char (c : conv) : Z := match c with Cd => 100 | Cu => 117 | Cx => 120 | Co => 111 end.
Definition conv_base (c : conv) : Z := match c with Cd | Cu => 10 | Cx => 16 | Co => 8 end.
Definition conv_flags (c : conv) : Z := match c with Cd => SIGN | _ => 0 end.

Definition fmt_of (its : list item) : list Z := flat_map (λ it, sep it ++ [37; conv_char (cv it)]) its.
Definition args_of (its : list item) : list arg := (λ it, A32 (val it)) <$> its.
Definition stores_of (its : list item) : list store := (λ it, SNum (dest it) 4 (val it)) <$> its.

(** The text of a field. *)
Definition num_of (it : item) : Z := match cv it with Cd => u64 (val it) | _ => val it end.
Definition digits_of (it : item) : list Z := field (num_of it) (conv_base (cv it)) (-1) (-1) (conv_flags (cv it)).
Definition text_items (its : list item) : list Z := flat_map (λ it, sep it ++ digits_of it) its.

(** The literals contain no '%'; a number is in the range of its type and is not
    followed by a digit or an 'x'. *)
Definition literal (c : Z) : Prop := c <> 37 ∧ c <> 0.
Definition ends_number (c : Z) : Prop := isxdigit c = false ∧ toupper c <> 88.
Definition val_ok (it : item) : Prop := match cv it with Cd => - 2 ^ 31 <= val it < 2 ^ 31 | _ => 0 <= val it < 2 ^ 32 end.
Definition item_ok (it : item) : Prop := Forall literal (sep it) ∧ val_ok it.
Definition items_ok (its : list item) : Prop :=
  Forall item_ok its ∧ Forall (λ it, sep it <> [] ∧ ends_number (head_of (sep it))) (tail its).

(** ** Printing *)

Lemma format_literals l : Forall literal l -> ∀ n fmt args o, (length l <= n)%nat ->
  format n (l ++ fmt) args o = format (n - length l) fmt args (emits l o).
Proof.
  induction 1 as [|c l [Hc _] _ IH]; intros n fmt args o Hn; [by rewrite Nat.sub_0_r|]. destruct n as [|n]; [cbn in Hn; lia|].
  cbn [app format length Nat.sub]. rewrite (proj2 (Z.eqb_neq c 37) Hc). rewrite IH by (cbn in Hn; lia). done.
Qed.

Lemma convert_conv c v fmt args o : val_ok (Item [] c v 0) ->
  convert (conv_char c :: fmt) (A32 v :: args) o = Some (fmt, args, emits (digits_of (Item [] c v 0)) o).
Proof.
  intros Hv. unfold digits_of, num_of. cbn [cv val].
  assert (convert (conv_char c :: fmt) (A32 v :: args) o =
    (o ← number (match c with Cd => u64 (s32 (u32 v)) | _ => u32 v end) (conv_base c) (-1) (-1) (conv_flags c) o; Some (fmt, args, o))) as -> by by destruct c.
  assert ((match c with Cd => u64 (s32 (u32 v)) | _ => u32 v end) = match c with Cd => u64 v | _ => v end) as ->.
  { destruct c; cbn in Hv; [by rewrite s32_u32, s32_id|by apply u32_id..]. }
  rewrite number_field; [done|destruct c; cbn; lia| |done]. destruct c; cbn in Hv; [apply Z.mod_pos_bound|..]; lia.
Qed.

Lemma format_items its : Forall item_ok its -> ∀ n o, (length (fmt_of its) <= n)%nat ->
  format n (fmt_of its) (args_of its) o = Some (emits (text_items its) o).
Proof.
  induction 1 as [|it its [Hl Hv] _ IH]; intros n o Hn; [by destruct n|]. destruct it as [l c v p]. cbn [fmt_of flat_map sep cv args_of fmap list_fmap] in *.
  fold (fmt_of its) (args_of its) in *. rewrite <- app_assoc, !length_app in *. cbn [length app] in Hn. rewrite (format_literals l Hl) by lia.
  destruct (n - length l)%nat as [|k] eqn:Ek; [lia|]. cbn [app format Z.eqb Pos.eqb]. cbn [val]. rewrite convert_conv by done. cbv [mbind option_bind].
  rewrite IH by lia. unfold text_items. cbn [flat_map sep]. by rewrite !emits_app.
Qed.

(** ** Scanning *)

Definition run_scan (buf : list Z) (s : scan) : option (Z * list store) := scan_loop (length (sc_fmt s)) buf s.

Lemma run_unfold buf s : head_of (sc_fmt s) <> 0 -> head_of (sc_str s) <> 0 ->
  run_scan buf s = match scan_step buf s with
                   | Continue s => run_scan buf s
                   | Break s => scan_end buf s
                   | Return s => Some (sc_num s, sc_stores s)
                   | Fault => None
                   end.
Proof.
  intros Hf Hs. unfold run_scan. rewrite (scan_fuel _ buf s (S (length (sc_fmt s)))) by lia. cbn [scan_loop].
  rewrite (proj2 (Z.eqb_neq _ _) Hf), (proj2 (Z.eqb_neq _ _) Hs). cbn [orb]. destruct (scan_step buf s) as [s'|s'|s'|] eqn:E; try done.
  apply scan_step_short in E. apply scan_fuel; lia.
Qed.

Section scanning.
  Context (buf : list Z).

Lemma run_literal c f s args num st : literal c -> isspace c = false ->
  run_scan buf (Scan (c :: f) (c :: s) args num st) = run_scan buf (Scan f s args num st).
Proof.
  intros [H37 Hz] Hsp. rewrite run_unfold by done. unfold scan_step. cbn [head_of tail]. rewrite Hsp. cbn [head_of tail].
  by rewrite (proj2 (Z.eqb_neq _ _) H37), (proj2 (Z.eqb_neq _ _) Hz), Z.eqb_refl.
Qed.

Lemma run_space c f s args num st : c <> 0 -> isspace c = true -> head_of f <> 0 -> head_of s <> 0 -> isspace (head_of f) = isspace (head_of s) ->
  run_scan buf (Scan (c :: f) (c :: s) args num st) = run_scan buf (Scan f s args num st).
Proof.
  intros Hz Hsp Hf Hs Heq. rewrite !run_unfold by done. unfold scan_step. cbn [head_of]. rewrite Hsp. cbn [skip_space]. rewrite Hsp.
  destruct f as [|a f]; [done|]. destruct s as [|b s]; [done|]. cbn [head_of] in *. destruct (isspace a) eqn:Ea; [done|]. cbn [skip_space]. by rewrite Ea, <- Heq.
Qed.

Lemma run_literals l : Forall literal l -> ∀ f s args num st, head_of s <> 0 -> isspace (head_of s) = false ->
  run_scan buf (Scan (l ++ 37 :: f) (l ++ s) args num st) = run_scan buf (Scan (37 :: f) s args num st).
Proof.
  induction 1 as [|c l [Hc Hz] Hl IH]; intros f s args num st Hs Hsp; [done|]. cbn [app]. rewrite <- IH by done. destruct (isspace c) eqn:Ec.
  - apply run_space; try done; destruct Hl as [|d l [? ?] _]; done.
  - by apply run_literal.
Qed.

End scanning.

(** ** The digits of a field *)

(** The first digit of a number. *)
Lemma digits_first base num : (base = 8 ∨ base = 10 ∨ base = 16) -> 0 <= num < 2 ^ 64 ->
  ∃ c l, rev (tmp_digits small_digits base num) = c :: l ∧ not_digit base c = false ∧ isspace c = false ∧ c <> 45.
Proof.
  intros Hb Hn. rewrite (tmp_generic small_digits base num ltac:(by left) Hb Hn).
  assert (∀ f n, Forall (λ c, not_digit base c = false ∧ isspace c = false ∧ c <> 45) (generic_digits f small_digits base n)) as Hall.
  { intros f. induction f as [|f IH]; intros n; cbn [generic_digits]; constructor; [|destruct (_ =? 0); [constructor|apply IH]].
    pose proof (Z.mod_pos_bound n base ltac:(lia)) as Hm. set (d := n mod base) in *. clearbody d.
    assert (d = 0 ∨ d = 1 ∨ d = 2 ∨ d = 3 ∨ d = 4 ∨ d = 5 ∨ d = 6 ∨ d = 7 ∨ (8 <= d ∧ base <> 8)) as Hc by (destruct Hb as [-> | [-> | ->]]; lia).
    assert (8 <= d -> d = 8 ∨ d = 9 ∨ (10 <= d ∧ base = 16)) as Hc2 by (destruct Hb as [-> | [-> | ->]]; lia).
    assert (10 <= d -> d = 10 ∨ d = 11 ∨ d = 12 ∨ d = 13 ∨ d = 14 ∨ d = 15) as Hc3 by lia.
    destruct_or! Hc; [destruct Hb as [-> | [-> | ->]]; rewrite Hc; done..|]. destruct Hc as [Hc Hb8]. specialize (Hc2 Hc).
    destruct_or! Hc2; [destruct Hb as [-> | [-> | ->]]; rewrite Hc2; done..|]. destruct Hc2 as [Hc2 ->]. specialize (Hc3 Hc2). destruct_or! Hc3; rewrite Hc3; done. }
  specialize (Hall 22%nat num). apply Forall_rev in Hall. destruct (rev (generic_digits 22 small_digits base num)) as [|c l] eqn:E.
  - apply (f_equal length) in E. rewrite length_rev in E. done.
  - apply Forall_cons in Hall as [Hc _]. by exists c, l.
Qed.

Lemma read_ulong base num rest : (base = 8 ∨ base = 10 ∨ base = 16) -> 0 <= num < 2 ^ 64 -> ends_number (head_of rest) ->
  simple_strtoul (rev (tmp_digits small_digits base num) ++ rest) base = (u32 num, rest).
Proof.
  intros Hb Hn [Hx Hu]. unfold simple_strtoul. assert (digit_table small_digits) as Ht by by left.
  assert (strto_prefix base (rev (tmp_digits small_digits base num) ++ rest) = (base, rev (tmp_digits small_digits base num) ++ rest)) as ->.
  { destruct Hb as [-> | [-> | ->]]; [done|done|]. unfold strto_prefix. cbn [Z.eqb Pos.eqb].
    destruct (digits_shape small_digits 16 num Ht ltac:(lia) Hn) as (c & l & -> & _ & _ & _ & Hl).
    cbn [app head_of tail]. rewrite (proj2 (Z.eqb_neq (toupper _) 88)); [by rewrite andb_false_r|]. destruct Hl as [|x l Hx' _]; [exact Hu|exact Hx']. }
  by apply read_digits.
Qed.

(** The digits of a field without sign, and of a signed one. *)
Lemma digits_unsigned_item c v : c <> Cd -> digits_of (Item [] c v 0) = rev (tmp_digits small_digits (conv_base c) v).
Proof. intros Hc. unfold digits_of. rewrite field_plain. by destruct c. Qed.
Lemma digits_signed_item v : - 2 ^ 31 <= v < 2 ^ 31 ->
  digits_of (Item [] Cd v 0) = (if v <? 0 then [45] else []) ++ rev (tmp_digits small_digits 10 (Z.abs v)).
Proof.
  intros Hv. unfold digits_of, num_of. cbn [cv val conv_base conv_flags]. rewrite field_plain. change (tst SIGN SIGN) with true. change (tst SIGN PLUS) with false.
  change (tst SIGN SPACE) with false. change (tst SIGN SPECIAL) with false. change (tst SIGN LARGE) with false. cbn [andb].
  assert (s64 (u64 v) = v) as Es by (unfold s64, u64; rewrite sx_wrap by lia; apply sx_id; lia). rewrite Es.
  destruct (Z.ltb_spec v 0); cbn [app]; do 3 f_equal; unfold u64, wrap; rewrite Z.mod_small; lia.
Qed.

(** The conversion of %d, %u, %x and %o is the integer conversion. *)
Lemma scan_convert_conv buf c f str args num st : head_of str <> 0 ->
  scan_convert buf (conv_char c :: f) str args num st =
  scan_integer (-1) (conv_base c) (match c with Cd => true | _ => false end) f str args num st.
Proof. intros Hs. unfold scan_convert. destruct c; cbn [conv_char head_of tail isdigit between Z.eqb Pos.eqb Z.leb Z.compare Pos.compare Pos.compare_cont andb scan_qualifier orb]; rewrite (proj2 (Z.eqb_neq _ _) Hs); done. Qed.

Lemma scan_integer_run c f str p args num st v rest (is_sign := match c with Cd => true | _ => false end) :
  isspace (head_of str) = false -> not_digit (conv_base c) (if is_sign && (head_of str =? 45) then head_of (tail str) else head_of str) = false ->
  scan_number (-1) (conv_base c) is_sign str = (4, v, rest) ->
  scan_integer (-1) (conv_base c) is_sign f str (p :: args) num st = Continue (Scan f rest args (num + 1) (st ++ [SNum p 4 v])).
Proof.
  intros Hsp Hd Hn. unfold scan_integer. assert (skip_space str = str) as -> by (destruct str as [|c' str]; [done|]; cbn [skip_space head_of] in *; by rewrite Hsp).
  cbv zeta. rewrite Hd. cbn [va_ptr]. by rewrite Hn.
Qed.

(** What a field prints is what its conversion reads. *)
Lemma scan_field c v rest : val_ok (Item [] c v 0) -> ends_number (head_of rest) ->
  let str := digits_of (Item [] c v 0) ++ rest in
  let is_sign := match c with Cd => true | _ => false end in
  head_of str <> 0 ∧ isspace (head_of str) = false ∧
  not_digit (conv_base c) (if is_sign && (head_of str =? 45) then head_of (tail str) else head_of str) = false ∧
  scan_number (-1) (conv_base c) is_sign str = (4, v, rest).
Proof.
  intros Hv Hr. cbv zeta. destruct (decide (c = Cd)) as [->|Hc].
  - cbn in Hv. rewrite (digits_signed_item v Hv). destruct (digits_first 10 (Z.abs v) ltac:(lia) ltac:(lia)) as (d & l & E & Hd & Hsp & H45).
    unfold scan_number. cbn [Z.eqb Pos.eqb orb conv_base andb]. unfold simple_strtol. assert (0 <= Z.abs v < 2 ^ 64) as Ha by lia.
    pose proof (read_ulong 10 (Z.abs v) rest ltac:(lia) Ha Hr) as Er. destruct (Z.ltb_spec v 0) as [Hneg|Hpos]; cbn [app head_of tail Z.eqb Pos.eqb].
    + rewrite Er. rewrite E. cbn [app head_of]. split_and!; [done|done|done|]. do 2 f_equal. rewrite u32_id by lia. rewrite !s32_id; rewrite ?s32_id; lia.
    + rewrite Er. rewrite E. cbn [app head_of]. rewrite (proj2 (Z.eqb_neq _ _) H45). split_and!; [|done|done|].
      * intros ->. discriminate Hd.
      * do 2 f_equal. rewrite u32_id by lia. rewrite !s32_id; rewrite ?s32_id; lia.
  - rewrite (digits_unsigned_item c v Hc). assert (0 <= v < 2 ^ 32) as Hv' by (destruct c; done). 
    assert (conv_base c = 8 ∨ conv_base c = 10 ∨ conv_base c = 16) as Hb by (destruct c; cbn; lia).
    destruct (digits_first (conv_base c) v Hb ltac:(lia)) as (d & l & E & Hd & Hsp & H45).
    pose proof (read_ulong (conv_base c) v rest Hb ltac:(lia) Hr) as Er. replace (match c with Cd => true | _ => false end) with false by by destruct c. cbn [andb].
    unfold scan_number. cbn [Z.eqb Pos.eqb orb]. rewrite Er, E. cbn [app head_of]. split_and!; [|done|done|].
    + intros ->. unfold not_digit in Hd. done.
    + do 2 f_equal. by rewrite !u32_id by (rewrite ?u32_id; lia).
Qed.

Lemma items_head it its rest : items_ok (it :: its) -> ends_number (head_of (text_items its ++ 0 :: rest)).
Proof.
  intros [_ Ht]. cbn [tail] in Ht. destruct Ht as [|[l c v p] its [Hne He] _]; [done|]. cbn [sep] in *. destruct l as [|a l]; [done|]. exact He.
Qed.

Lemma scan_items buf its : items_ok its -> ∀ rest num st,
  run_scan buf (Scan (fmt_of its) (text_items its ++ 0 :: rest) (dest <$> its) num st) = Some (num + Z.of_nat (length its), st ++ stores_of its).
Proof.
  induction its as [|[l c v p] its IH]; intros Hok rest num st.
  - cbn. by rewrite Z.add_0_r, app_nil_r.
  - pose proof (items_head _ _ rest Hok) as Hend. destruct Hok as [Hit Ht]. apply Forall_cons in Hit as [[Hl Hv] Hit]. cbn [sep] in Hl.
    assert (items_ok its) as Hok by (split; [done|]; cbn [tail] in Ht; destruct Ht; done).
    unfold fmt_of, text_items. cbn [flat_map sep cv fmap list_fmap dest]. fold (fmt_of its) (text_items its). rewrite <- !app_assoc. cbn [app].
    change (digits_of (Item l c v p)) with (digits_of (Item [] c v 0)).
    destruct (scan_field c v (text_items its ++ 0 :: rest) Hv Hend) as (Hz & Hsp & Hd & Hn).
    rewrite run_literals by done. rewrite run_unfold by done. unfold scan_step. cbn [head_of tail isspace between Z.eqb Pos.eqb Z.leb Z.compare Pos.compare Pos.compare_cont andb orb negb].
    rewrite scan_convert_conv by done. rewrite (scan_integer_run c _ _ _ _ _ _ v _ Hsp Hd Hn).
    rewrite (IH Hok). unfold stores_of. cbn [fmap list_fmap length dest val]. rewrite <- app_assoc. cbn [app]. f_equal. f_equal. lia.
Qed.


Module ScanDemo.

(** "x=%d : %u,%x|%o" *)
Definition items : list item :=
  [Item (text "x=") Cd (-17) 0x100; Item (text " : ") Cu 4294967295 0x104; Item (text ",") Cx 0 0x108; Item (text "|") Co 511 0x10c].

Lemma items_fine : items_ok items.
Proof. split; repeat constructor; cbn; try done; lia. Qed.


End ScanDemo.
