(* ===== verification/BitmapText.v ===== *)
(** lib/bitmap.c: bitmaps as text: bitmap_scnprintf and __bitmap_parse
    (hexadecimal, in groups of eight digits), on Bitmap.v and Vsprintf.v.

    A buffer is an address and the list of the characters from there on, as in
    Vsprintf.v; what __bitmap_parse reads is the list of its [buflen]
    characters, [None] where an access to user memory faults. *)

From S2P Require Import Prelude Bitops Bitmap Vsprintf.

(** * Printing *)

Definition CHUNKSZ : Z := 32.

(** [len += scnprintf(buf + len, buflen - len, ...)]; before the buffer it
    faults. *)
Definition scn_at (buf buflen : Z) (mem : list Z) (len : Z) (fmt : list Z) (args : list arg) : option (Z * list Z) :=
  if len <? 0 then None
  else
    '(i, tail, _) ← vscnprintf (buf + len) (u32 (buflen - len)) (drop (Z.to_nat len) mem) fmt args;
    Some (s32 (len + i), take (Z.to_nat len) mem ++ tail).

(** [for (; i >= 0; i -= CHUNKSZ)] with [i = 32 * (n - 1)]. *)
Fixpoint scn_chunks (n : nat) (buf buflen : Z) (maskp : bitmap) (chunksz : Z) (sep : list Z) (len : Z) (mem : list Z) : option (Z * list Z) :=
  match n with
  | O => Some (len, mem)
  | S n =>
      let i := CHUNKSZ * Z.of_nat n in
      let chunkmask := u32 (Z.shiftl 1 chunksz - 1) in
      w ← maskp !! Z.to_nat (i / BITS_PER_LONG);
      let val := Z.land (Z.shiftr w (i mod BITS_PER_LONG)) chunkmask in
      '(len, mem) ← scn_at buf buflen mem len (text "%s%0*lx") [AStr (Some sep); A32 ((chunksz + 3) / 4); A32 val];
      scn_chunks n buf buflen maskp CHUNKSZ (text ",") len mem
  end.

Definition bitmap_scnprintf (buf buflen : Z) (mem : list Z) (maskp : bitmap) (nmaskbits : Z) : option (Z * list Z) :=
  let chunksz := Z.land nmaskbits (CHUNKSZ - 1) in
  let chunksz := if chunksz =? 0 then CHUNKSZ else chunksz in
  let n := (nmaskbits + (CHUNKSZ - 1)) / CHUNKSZ in
  scn_chunks (Z.to_nat n) buf buflen maskp chunksz [] 0 mem.

(** * Parsing *)

Definition unhex (c : Z) : Z := if isdigit c then c - 48 else toupper c - 65 + 10.
Definition nbits_to_hold_value (val : Z) : Z := fls val.

(** [bitmap_zero] *)
Definition bitmap_zero (dst : bitmap) (nbits : Z) : option bitmap :=
  if nbits <=? BITS_PER_LONG then setw dst 0 0 else clear_words dst 0 (BITS_TO_LONGS nbits).

(** The inner loop: an error, or the chunk with its number of digits, the
    number of all digits, the last character and the rest of the input. *)
Inductive chunk_end := ChunkErr (e : Z) | Chunk (chunk ndigits totaldigits c : Z) (rest : list (option Z)).
Fixpoint parse_chunk (input : list (option Z)) (chunk ndigits totaldigits c : Z) : chunk_end :=
  match input with
  | [] => Chunk chunk ndigits totaldigits c []
  | None :: _ => ChunkErr (- EFAULT)
  | Some c' :: input =>
      let old_c := c in
      if isspace c' then parse_chunk input chunk ndigits totaldigits c'
      else if negb (totaldigits =? 0) && negb (c' =? 0) && isspace old_c then ChunkErr (- EINVAL)
      else if (c' =? 0) || (c' =? 44) then Chunk chunk ndigits totaldigits c' input
      else if negb (isxdigit c') then ChunkErr (- EINVAL)
      else if tst chunk (not32 (Z.shiftl 1 (CHUNKSZ - 4) - 1)) then ChunkErr (- EOVERFLOW)
      else parse_chunk input (Z.lor (u32 (Z.shiftl chunk 4)) (unhex c')) (ndigits + 1) (totaldigits + 1) c'
  end.

(** [do ... while (buflen && c == ',')]: every round but the last takes a ','. *)
Fixpoint parse_chunks (fuel : nat) (input : list (option Z)) (nmaskbits totaldigits c nchunks nbits : Z) (maskp : bitmap) : option (Z * bitmap) :=
  match parse_chunk input 0 0 totaldigits c with
  | ChunkErr e => Some (e, maskp)
  | Chunk chunk ndigits totaldigits c input =>
      let again nchunks nbits maskp :=
        if negb (length input =? 0)%nat && (c =? 44) then
          match fuel with
          | O => None
          | S fuel => parse_chunks fuel input nmaskbits totaldigits c nchunks nbits maskp
          end
        else Some (0, maskp) in
      if ndigits =? 0 then Some (- EINVAL, maskp)
      else if (nchunks =? 0) && (chunk =? 0) then again nchunks nbits maskp
      else
        maskp ← bitmap_shift_left maskp Dst CHUNKSZ nmaskbits;
        w ← maskp !! 0%nat;
        maskp ← setw maskp 0 (Z.lor w chunk);
        let nchunks := nchunks + 1 in
        let nbits := nbits + (if nchunks =? 1 then nbits_to_hold_value chunk else CHUNKSZ) in
        if nmaskbits <? nbits then Some (- EOVERFLOW, maskp) else again nchunks nbits maskp
  end.

Definition bitmap_parse_ (input : list (option Z)) (maskp : bitmap) (nmaskbits : Z) : option (Z * bitmap) :=
  maskp ← bitmap_zero maskp nmaskbits;
  parse_chunks (length input) input nmaskbits 0 0 0 0 maskp.

(** [access]: the result of access_ok. *)
Definition bitmap_parse_user (access : bool) (input : list (option Z)) (maskp : bitmap) (nmaskbits : Z) : option (Z * bitmap) :=
  if negb access then Some (- EFAULT, maskp) else bitmap_parse_ input maskp nmaskbits.

Example print_40 : bitmap_scnprintf 4096 16 (repeat 7 16) [0x80000001; 0xfffffff5] 40 = Some (11, text "f5,80000001" ++ [0; 7; 7; 7; 7]).
Proof. vm_compute. reflexivity. Qed.
Example parse_40 : bitmap_parse_ (Some <$> text " f5,80000001 ") [1; 2] 40 = Some (0, [0x80000001; 0xf5]).
Proof. vm_compute. reflexivity. Qed.
Example parse_embedded_space : bitmap_parse_ (Some <$> text "f5, 80000001") [1; 2] 40 = Some (- EINVAL, [0xf5; 0]).
Proof. vm_compute. reflexivity. Qed.
(** With an empty buffer scnprintf returns -1 and the next group is printed
    before the buffer. *)
Example print_empty_buffer : bitmap_scnprintf 4096 0 (repeat 7 16) [1; 2] 40 = None.
Proof. vm_compute. reflexivity. Qed.

(** * The text of a bitmap *)

(** A number in [w] hexadecimal digits. *)
Definition hexw (w val : Z) : list Z := field val 16 w (-1) ZEROPAD.

Lemma hexw_eq w val (ds := rev (tmp_digits small_digits 16 val)) : hexw w val = repeat 48 (Z.to_nat w - length ds) ++ ds.
Proof.
  unfold hexw, field. change (tst ZEROPAD SIGN) with false. change (tst ZEROPAD SPECIAL) with false. change (tst ZEROPAD LARGE) with false.
  change (tst ZEROPAD LEFT) with false. change (tst ZEROPAD ZEROPAD) with true. cbn [andb app]. cbv zeta. fold ds.
  replace (Z.to_nat (-1 - Z.of_nat (length ds))) with 0%nat by lia. done.
Qed.

Lemma convert_str s fmt args o : Z.of_nat (length s) < 2 ^ 32 - 1 -> convert (115 :: fmt) (AStr (Some s) :: args) o = Some (fmt, args, emits s o).
Proof.
  intros Hs. pose proof (str_field 0 (-1) s (u32 (-1)) o ltac:(done)) as E. change (u32 (-1)) with (2 ^ 32 - 1) in E.
  rewrite (take_ge s (Z.to_nat (2 ^ 32 - 1))) in E by lia. unfold field_str in E. change (tst 0 LEFT) with false in E. cbv iota in E.
  replace (Z.to_nat (-1 - Z.of_nat (length s))) with 0%nat in E by lia. cbn [repeat app] in E. rewrite <- E. reflexivity.
Qed.

Lemma convert_hexw w v fmt args o : 0 <= w < 2 ^ 31 -> 0 <= v < 2 ^ 32 ->
  convert (text "0*lx" ++ fmt) (A32 w :: A32 v :: args) o = Some (fmt, args, emits (hexw w v) o).
Proof.
  intros Hw Hv. change (text "0*lx" ++ fmt) with (48 :: 42 :: 108 :: 120 :: fmt). unfold convert. cbn [get_flags]. change (Z.lor 0 ZEROPAD) with ZEROPAD.
  assert (get_width ZEROPAD (42 :: 108 :: 120 :: fmt) (A32 w :: A32 v :: args) = Some (w, ZEROPAD, 108 :: 120 :: fmt, A32 v :: args)) as ->.
  { unfold get_width. cbn [head_of tail va_32]. change (isdigit 42) with false. cbn [Z.eqb Pos.eqb]. cbv [mbind option_bind]. cbv iota. rewrite s32_u32, s32_id by lia.
    by rewrite (proj2 (Z.ltb_ge w 0)) by lia. }
  cbv [mbind option_bind]. change (get_precision (108 :: 120 :: fmt) (A32 v :: args)) with (Some (-1, 108 :: 120 :: fmt, A32 v :: args)). cbv iota.
  change (get_qualifier (108 :: 120 :: fmt)) with (108, 120 :: fmt). cbn [head_of tail Z.eqb Pos.eqb orb].
  unfold get_num. cbn [Z.eqb Pos.eqb va_32]. cbv [mbind option_bind]. change (tst ZEROPAD SIGN) with false. cbv iota. rewrite u32_id by lia.
  by rewrite number_field by lia.
Qed.

Lemma chunk_format sep w v o (fmt := text "%s%0*lx") : Z.of_nat (length sep) < 2 ^ 31 -> 0 <= w < 2 ^ 31 -> 0 <= v < 2 ^ 32 ->
  format (length fmt) fmt [AStr (Some sep); A32 w; A32 v] o = Some (emits (sep ++ hexw w v) o).
Proof.
  intros Hs Hw Hv. subst fmt. change (text "%s%0*lx") with (37 :: 115 :: 37 :: text "0*lx" ++ []). cbn [length text chr]. cbn [format Z.eqb Pos.eqb].
  rewrite convert_str by lia. cbv [mbind option_bind]. cbn [format Z.eqb Pos.eqb]. rewrite convert_hexw by done. cbn [format]. by rewrite emits_app.
Qed.

(** ** Printing in pieces *)

Definition shown (buflen : Z) (t : list Z) : Z := Z.min (Z.of_nat (length t)) (buflen - 1).

Lemma stored_pos size t mem : 0 < size -> stored size t mem = take (Z.to_nat (size - 1)) t ++ 0 :: drop (S (Z.to_nat (size - 1) `min` length t)) mem.
Proof. intros. unfold stored. by rewrite (proj2 (Z.eqb_neq _ _)) by lia. Qed.

Lemma stored_length size t mem : 0 < size <= Z.of_nat (length mem) -> length (stored size t mem) = length mem.
Proof. intros Hs. rewrite stored_pos by lia. rewrite length_app, length_take. cbn [length]. rewrite length_drop. lia. Qed.

(** Printing [t2] behind what is shown of [t1] is printing [t1 ++ t2]. *)
Lemma stored_app size t1 t2 mem : 0 < size <= Z.of_nat (length mem) -> let len := shown size t1 in
  take (Z.to_nat len) (stored size t1 mem) ++ stored (size - len) t2 (drop (Z.to_nat len) (stored size t1 mem)) = stored size (t1 ++ t2) mem.
Proof.
  intros Hs len. subst len. unfold shown. rewrite !stored_pos by lia. destruct (Z.leb_spec (Z.of_nat (length t1)) (size - 1)) as [Hle|Hgt].
  - rewrite Z.min_l by lia. rewrite Nat2Z.id, (take_ge t1) by lia. rewrite take_app_length, drop_app_length. rewrite take_app, (take_ge t1) by lia. rewrite <- app_assoc. f_equal.
    replace (Z.to_nat (size - 1) - length t1)%nat with (Z.to_nat (size - Z.of_nat (length t1) - 1)) by lia. f_equal.
    cbn [drop]. f_equal. rewrite drop_drop. f_equal. rewrite length_app. lia.
  - rewrite Z.min_r by lia. replace (Z.to_nat (size - (size - 1) - 1)) with 0%nat by lia. rewrite Nat.min_0_l, take_0. cbn [app].
    assert (length (take (Z.to_nat (size - 1)) t1) = Z.to_nat (size - 1)) as El by (rewrite length_take; lia).
    rewrite take_app_le, drop_app_ge by lia. rewrite El, Nat.sub_diag, drop_0. cbn [drop]. rewrite take_take, Nat.min_id. rewrite take_app_le by lia.
    by replace (Z.to_nat (size - 1) `min` length t1)%nat with (Z.to_nat (size - 1) `min` length (t1 ++ t2))%nat by (rewrite length_app; lia).
Qed.

Lemma scn_at_shown buf buflen mem t1 t2 fmt args : buffer_ok buf buflen mem -> 0 < buflen ->
  (∀ o, format (length fmt) fmt args o = Some (emits t2 o)) -> Z.of_nat (length t2) < 2 ^ 31 ->
  scn_at buf buflen (stored buflen t1 mem) (shown buflen t1) fmt args = Some (shown buflen (t1 ++ t2), stored buflen (t1 ++ t2) mem).
Proof.
  intros (Hs & Hb & Hm) H0 Hf Ht. unfold scn_at. rewrite (proj2 (Z.ltb_ge _ _)) by (unfold shown; lia).
  assert (0 <= shown buflen t1 < buflen) as Hl by (unfold shown; lia).
  rewrite u32_id by lia. rewrite (vscnprintf_pieces fmt args [Chars t2] Hf); cycle 1.
  { split_and!; [lia|lia|lia|]. rewrite length_drop, stored_length by lia. lia. }
  { unfold text_of. cbn [fmap list_fmap concat chars]. by rewrite app_nil_r. }
  unfold text_of. cbn [fmap list_fmap concat chars]. rewrite app_nil_r. cbv [mbind option_bind]. rewrite (stored_app buflen t1 t2 mem) by lia.
  do 2 f_equal. unfold shown in *. rewrite s32_id by lia. rewrite length_app. lia.
Qed.

(** The text: the groups from word [n - 1] down, each with its separator. *)
Definition chunk_val (m : bitmap) (n : nat) (chunksz : Z) : Z := Z.land (m !!! n) (u32 (Z.shiftl 1 chunksz - 1)).
Fixpoint chunk_text (n : nat) (m : bitmap) (chunksz : Z) (sep : list Z) : list Z :=
  match n with
  | O => []
  | S n => sep ++ hexw ((chunksz + 3) / 4) (chunk_val m n chunksz) ++ chunk_text n m 32 (text ",")
  end.

Lemma chunk_val_range m n chunksz : Forall (in_u 32) m -> 0 <= chunk_val m n chunksz < 2 ^ 32.
Proof. intros Hm. apply (land_in_u 32); [lia|by apply word_u32|]. pose proof (u32_range (Z.shiftl 1 chunksz - 1)) as [? ?]. lia. Qed.

Lemma hexw_length w val : 0 <= w <= 8 -> 0 <= val < 2 ^ 64 -> Z.of_nat (length (hexw w val)) < 1000.
Proof.
  intros Hw Hv. rewrite hexw_eq, length_app, repeat_length. destruct (digits_shape small_digits 16 val ltac:(by left) ltac:(lia) Hv) as (c & l & -> & Hl & _). cbn [length]. lia.
Qed.

Lemma scn_chunks_shown buf buflen mem m : buffer_ok buf buflen mem -> 0 < buflen -> Forall (in_u 32) m -> ∀ n chunksz sep t,
  (n <= length m)%nat -> 0 < chunksz <= 32 -> (length sep < 10)%nat ->
  scn_chunks n buf buflen m chunksz sep (shown buflen t) (stored buflen t mem) =
  Some (shown buflen (t ++ chunk_text n m chunksz sep), stored buflen (t ++ chunk_text n m chunksz sep) mem).
Proof.
  intros Hok H0 Hm n. induction n as [|n IH]; intros chunksz sep t Hn Hc Hsep; cbn [scn_chunks chunk_text]; [by rewrite app_nil_r|].
  unfold CHUNKSZ, BITS_PER_LONG. rewrite (Z.mul_comm 32), Z.div_mul, Nat2Z.id by lia.
  destruct (lookup_lt_is_Some_2 m n) as [w Ew]; [lia|]. rewrite Ew. cbv [mbind option_bind]. rewrite Z.mod_mul, Z.shiftr_0_r by lia. rewrite <- (list_lookup_total_correct _ _ _ Ew).
  change (Z.land (m !!! n) (u32 (Z.shiftl 1 chunksz - 1))) with (chunk_val m n chunksz).
  pose proof (chunk_val_range m n chunksz Hm) as Hv.
  assert (0 <= (chunksz + 3) / 4 <= 8) as Hw by dlia.
  pose proof (hexw_length ((chunksz + 3) / 4) (chunk_val m n chunksz) ltac:(lia) ltac:(lia)) as Hl.
  rewrite (scn_at_shown buf buflen mem t (sep ++ hexw ((chunksz + 3) / 4) (chunk_val m n chunksz))); [|done|done|intros o; apply chunk_format; lia|rewrite length_app; lia].
  rewrite IH by (cbn; lia). rewrite <- !app_assoc. done.
Qed.

(** * Reading hexadecimal digits *)

Definition hexval (l : list Z) (r : Z) : Z := foldl (λ r c, 16 * r + digit_value c) r l.

Lemma hexval_app l l' r : hexval (l ++ l') r = hexval l' (hexval l r).
Proof. apply foldl_app. Qed.

Lemma hexval_generic f : ∀ num, 0 <= num < 16 ^ Z.of_nat (S f) -> hexval (rev (generic_digits (S f) small_digits 16 num)) 0 = num.
Proof.
  induction f as [|f IH]; intros num Hn; rewrite generic_step; cbn [rev]; rewrite hexval_app;
    pose proof (Z.mod_pos_bound num 16 ltac:(lia)) as Hm; destruct (table_digit small_digits (num mod 16) ltac:(by left) ltac:(lia)) as (_ & Hv & _); cbv zeta in Hv;
    unfold hexval at 1; cbn [foldl]; rewrite Hv; destruct (Z.eqb_spec (num / 16) 0) as [E|E].
  1, 3: change (hexval (rev []) 0) with 0; dlia.
  - exfalso. apply E. apply Z.div_small. exact Hn.
  - rewrite IH; [dlia|]. split; [dlia|]. apply Z.div_lt_upper_bound; [lia|]. rewrite <- Z.pow_succ_r, <- Nat2Z.inj_succ by lia. lia.
Qed.

(** A hexadecimal digit, as the parser sees it. *)
Definition hexchar (c : Z) : Prop := isxdigit c = true ∧ isspace c = false ∧ c <> 0 ∧ c <> 44 ∧ 0 <= digit_value c < 16.

Lemma hexchar_table d : 0 <= d < 16 -> hexchar (nth (Z.to_nat d) small_digits 0).
Proof.
  intros Hd. assert (d = 0 ∨ d = 1 ∨ d = 2 ∨ d = 3 ∨ d = 4 ∨ d = 5 ∨ d = 6 ∨ d = 7 ∨ d = 8 ∨ d = 9 ∨ d = 10 ∨ d = 11 ∨ d = 12 ∨ d = 13 ∨ d = 14 ∨ d = 15) as Hc by lia.
  unfold hexchar. destruct_or! Hc; rewrite Hc; vm_compute; (split_and!; discriminate || reflexivity).
Qed.

Lemma hexw_spec w val : 0 <= val < 2 ^ 64 -> Forall hexchar (hexw w val) ∧ hexval (hexw w val) 0 = val ∧ (0 < length (hexw w val))%nat.
Proof.
  intros Hv. rewrite hexw_eq. set (ds := rev _). assert (ds = rev (generic_digits 22 small_digits 16 val)) as Hds by (subst ds; rewrite tmp_generic; [done|by left|lia|done]).
  split_and!.
  - apply Forall_app. split.
    + apply Forall_forall. intros c Hc. apply list_elem_of_In, repeat_spec in Hc as ->. apply (hexchar_table 0). lia.
    + rewrite Hds. apply Forall_rev. generalize 22%nat, val. induction n as [|n IH]; intros v; cbn [generic_digits]; constructor.
      * apply hexchar_table, Z.mod_pos_bound. lia.
      * destruct (_ =? 0); [constructor|apply IH].
  - rewrite hexval_app. assert (∀ n, hexval (repeat 48 n) 0 = 0) as -> by (induction n; done). rewrite Hds. apply hexval_generic. change (Z.of_nat 22) with 22. lia.
  - rewrite length_app, Hds, length_rev, generic_step. cbn [length]. lia.
Qed.

Lemma hexval_mono l : Forall hexchar l -> ∀ r, 0 <= r -> r <= hexval l r.
Proof.
  induction 1 as [|c l Hc _ IH]; intros r Hr; [done|]. change (hexval (c :: l) r) with (hexval l (16 * r + digit_value c)). destruct Hc as (_ & _ & _ & _ & Hd).
  etrans; [|apply IH; lia]. lia.
Qed.

(** ** One group *)

Lemma room_test chunk : 0 <= chunk < 2 ^ 28 -> tst chunk (not32 (Z.shiftl 1 (CHUNKSZ - 4) - 1)) = false.
Proof.
  intros Hc. apply tst_false. change (not32 (Z.shiftl 1 (CHUNKSZ - 4) - 1)) with (Z.shiftl 15 28). apply Z.bits_inj'. intros i Hi.
  rewrite Z.land_spec, Z.bits_0, Z.shiftl_spec by lia. destruct (Z.ltb_spec i 28); [by rewrite (Z.testbit_neg_r 15) by lia; rewrite andb_false_r|].
  rewrite (Z.bits_above_log2 chunk); [done|lia|]. destruct (Z.eqb_spec chunk 0) as [->|]; [cbn; lia|]. apply Z.log2_lt_pow2; [lia|].
  apply Z.lt_le_trans with (2 ^ 28); [lia|]. apply Z.pow_le_mono_r; lia.
Qed.

Lemma push_digit chunk d : 0 <= chunk < 2 ^ 28 -> 0 <= d < 16 -> Z.lor (u32 (Z.shiftl chunk 4)) d = 16 * chunk + d.
Proof.
  intros Hc Hd. rewrite Z.shiftl_mul_pow2 by lia. rewrite u32_id by lia. rewrite <- (Z.lxor_lor (chunk * 2 ^ 4) d), <- Z.add_nocarry_lxor; [lia|..].
  all: apply Z.bits_inj'; intros i Hi; rewrite Z.land_spec, Z.bits_0.
  all: destruct (Z.ltb_spec i 4); [rewrite Z.mul_pow2_bits_low by lia; done|].
  all: rewrite (Z.bits_above_log2 d); [by rewrite andb_false_r|lia|].
  all: destruct (Z.eqb_spec d 0) as [->|]; [cbn; lia|]; apply Z.log2_lt_pow2; [lia|].
  all: apply Z.lt_le_trans with (2 ^ 4); [lia|]; apply Z.pow_le_mono_r; lia.
Qed.

Lemma parse_digits l : Forall hexchar l -> ∀ rest chunk nd td c, 0 <= chunk -> hexval l chunk < 2 ^ 32 -> isspace c = false ->
  ∃ c', isspace c' = false ∧ (c' = c ∨ c' <> 44) ∧ parse_chunk ((Some <$> l) ++ rest) chunk nd td c =
    parse_chunk rest (hexval l chunk) (nd + Z.of_nat (length l)) (td + Z.of_nat (length l)) c'.
Proof.
  induction 1 as [|x l Hx Hl IH]; intros rest chunk nd td c H0 Hv Hc.
  - exists c. cbn. rewrite !Z.add_0_r. auto.
  - change (hexval (x :: l) chunk) with (hexval l (16 * chunk + digit_value x)) in *. destruct Hx as (Hxd & Hxs & Hxz & Hxc & Hxv).
    pose proof (hexval_mono l Hl (16 * chunk + digit_value x) ltac:(lia)) as Hmono.
    destruct (IH rest (16 * chunk + digit_value x) (nd + 1) (td + 1) x ltac:(lia) Hv Hxs) as (c' & Hc' & Hc44 & E). exists c'. split_and!; [done|destruct Hc44 as [->|]; auto|].
    cbn [fmap list_fmap app parse_chunk length]. rewrite Hxs, Hc, andb_false_r, (proj2 (Z.eqb_neq _ _) Hxz), (proj2 (Z.eqb_neq _ _) Hxc), Hxd. cbn [orb negb].
    rewrite room_test by lia. change (unhex x) with (digit_value x). rewrite push_digit by lia. rewrite E. f_equal; lia.
Qed.

(** * Reading back a printed bitmap *)

(** Group [n] of a bitmap of [bits] bits: its bits, as far as they are valid. *)
Definition group (bits : Z) (m : bitmap) (n : nat) (v : Z) : Prop :=
  0 <= v < 2 ^ 32 ∧ ∀ b, 0 <= b < 32 -> Z.testbit v b = (32 * Z.of_nat n + b <? bits) && bit m (32 * Z.of_nat n + b).

(** [mask] holds the bits of [m] from group [n] on. *)
Definition from_group (bits : Z) (m mask : bitmap) (n : nat) : Prop :=
  holds bits mask ∧ ∀ i, 0 <= i < bits -> bit mask i = (i + 32 * Z.of_nat n <? bits) && bit m (i + 32 * Z.of_nat n).

(** [nbits] is 0 as long as no group was different from 0, and leaves room for
    the groups below [n]. *)
Definition counted (bits : Z) (m : bitmap) (n : nat) (nchunks nbits : Z) : Prop :=
  (nchunks = 0 ∧ nbits = 0 ∧ ∀ i, 32 * Z.of_nat n <= i < bits -> bit m i = false) ∨ (0 < nchunks ∧ 0 <= nbits ∧ nbits + 32 * Z.of_nat n <= bits).

Section parsing.
  Context (bits : Z) (m : bitmap) (Hm : holds bits m) (Hbits : 0 < bits).

(** Shifting the groups up and putting the next one in. *)
Lemma push_group mask n v : from_group bits m mask (S n) -> group bits m n v ->
  ∃ mask1 mask', bitmap_shift_left mask Dst CHUNKSZ bits = Some mask1 ∧
    (w ← mask1 !! 0%nat; setw mask1 0 (Z.lor w v)) = Some mask' ∧ from_group bits m mask' n.
Proof using Hbits.
  intros [Hh Hb] [Hv Hg]. destruct (longs_bounds bits ltac:(lia)) as (Hl1 & Hl2 & _).
  destruct (bitmap_shift_left_spec bits 32 mask Dst Hh Hh ltac:(lia)) as (d & Ed & Hd & Hdb); [change (32 / 32) with 1; lia|]. cbn [opnd] in Hdb.
  pose proof Hd as (Hrng & Hlen & Hu). destruct (lookup_lt_is_Some_2 d 0) as [w Ew]; [lia|]. exists d, (<[0%nat := Z.lor w v]> d). split_and!; [done| |].
  { rewrite Ew. cbv [mbind option_bind]. apply setw_Some. lia. }
  assert (in_u 32 w) as Hw by (eapply Forall_lookup_1; done). split.
  - split_and!; [lia|lia|by rewrite length_insert|]. apply Forall_insert; [done|]. by apply lor_in_u.
  - intros i Hi. destruct (Z.ltb_spec i 32) as [Hlt|Hge].
    + unfold bit at 1. rewrite Z.div_small, Z.mod_small by lia. rewrite list_lookup_total_insert_eq by lia. rewrite Z.lor_spec, Hg by lia.
      assert (Z.testbit w i = false) as ->; [|cbn; f_equal; [f_equal; lia|f_equal; lia]].
      pose proof (Hdb i ltac:(lia)) as E. unfold bit at 1 in E. rewrite Z.div_small, Z.mod_small in E by lia. change (Z.to_nat 0) with 0%nat in E.
      rewrite (list_lookup_total_correct _ _ _ Ew) in E. rewrite E. rewrite (proj2 (Z.leb_gt 32 i)) by lia. by rewrite andb_false_r.
    + transitivity (bit d i).
      { unfold bit. rewrite list_lookup_total_insert_ne; [done|]. assert (1 <= i / 32) by (apply Z.div_le_lower_bound; lia). lia. }
      rewrite Hdb, (proj2 (Z.ltb_lt i bits)), (proj2 (Z.leb_le 32 i)) by lia. cbn [andb]. rewrite Hb by lia. f_equal; [f_equal; lia|f_equal; lia].
Qed.

(** The count of bits stays within the bitmap. *)
Lemma count_group n v nchunks nbits : counted bits m (S n) nchunks nbits -> group bits m n v -> (nchunks =? 0) && (v =? 0) = false ->
  let nchunks' := nchunks + 1 in let nbits' := nbits + (if nchunks' =? 1 then nbits_to_hold_value v else CHUNKSZ) in
  counted bits m n nchunks' nbits' ∧ nbits' <= bits.
Proof using Hbits.
  intros Hc [Hv Hg] Hz. cbv zeta. unfold counted, CHUNKSZ, nbits_to_hold_value. destruct Hc as [(-> & -> & _)|(Hp & Hn & Hle)].
  - change (0 + 1 =? 1) with true. cbn [Z.eqb andb] in Hz. cbv iota. assert (0 < v) by lia. rewrite fls_log2 by lia.
    pose proof (Z.bit_log2 v ltac:(lia)) as Ht. assert (0 <= Z.log2 v < 32) as Hlog by (split; [apply Z.log2_nonneg|apply Z.log2_lt_pow2; lia]).
    rewrite Hg in Ht by lia. apply andb_true_iff in Ht as [Ht%Z.ltb_lt _]. split; [right; split_and!|]; lia.
  - rewrite (proj2 (Z.eqb_neq (nchunks + 1) 1)) by lia. split; [right; split_and!|]; lia.
Qed.

(** A group of zeros above everything changes nothing. *)
Lemma skip_group mask n nchunks nbits : counted bits m (S n) nchunks nbits -> group bits m n 0 -> nchunks = 0 -> from_group bits m mask (S n) ->
  counted bits m n nchunks nbits ∧ from_group bits m mask n.
Proof using Hbits.
  intros Hc [_ Hg] -> [Hh Hb]. destruct Hc as [(_ & -> & Hz)|]; [|lia].
  assert (∀ i, 32 * Z.of_nat n <= i < bits -> bit m i = false) as Hz'.
  { intros i Hi. destruct (Z.ltb_spec i (32 * Z.of_nat (S n))) as [Hlt|Hge]; [|apply Hz; lia].
    pose proof (Hg (i - 32 * Z.of_nat n) ltac:(lia)) as E. rewrite Z.bits_0, (proj2 (Z.ltb_lt _ _)) in E by lia. cbn [andb] in E. rewrite E. f_equal. lia. }
  split; [by left|]. split; [done|]. intros i Hi. rewrite Hb by lia.
  destruct (Z.ltb_spec (i + 32 * Z.of_nat (S n)) bits); [rewrite Hz by lia|]; cbn [andb]; (destruct (Z.ltb_spec (i + 32 * Z.of_nat n) bits); [by rewrite Hz' by lia|done]).
Qed.
Lemma chunk_group n cs : 0 < cs <= 32 -> 32 * Z.of_nat n + cs <= bits -> (cs < 32 -> 32 * Z.of_nat n + cs = bits) -> group bits m n (chunk_val m n cs).
Proof using Hm.
  intros Hcs Hle Heq. split; [apply chunk_val_range, Hm|]. intros b Hb. unfold chunk_val. rewrite Z.land_spec, bit_word by done.
  assert (u32 (Z.shiftl 1 cs - 1) = Z.ones cs) as ->.
  { rewrite Z.ones_equiv, Z.shiftl_1_l, <- Z.sub_1_r. apply u32_id. pose proof (Z.pow_le_mono_r 2 cs 32 ltac:(lia) ltac:(lia)). pose proof (Z.pow_pos_nonneg 2 cs ltac:(lia) ltac:(lia)). lia. }
  rewrite andb_comm. f_equal. destruct (Z.ltb_spec b cs).
  - rewrite Z.ones_spec_low by lia. symmetry. apply Z.ltb_lt. lia.
  - rewrite Z.ones_spec_high by lia. symmetry. apply Z.ltb_ge. specialize (Heq ltac:(lia)). lia.
Qed.

(** One round: a group read from the input goes into the bitmap. *)
Lemma parse_round input td c v nd td' c' rest nchunks nbits mask n fuel :
  parse_chunk input 0 0 td c = Chunk v nd td' c' rest -> 0 < nd -> group bits m n v -> from_group bits m mask (S n) -> counted bits m (S n) nchunks nbits ->
  ∃ mask' nchunks' nbits', from_group bits m mask' n ∧ counted bits m n nchunks' nbits' ∧
    parse_chunks fuel input bits td c nchunks nbits mask =
      if negb (length rest =? 0)%nat && (c' =? 44) then
        match fuel with O => None | S fuel => parse_chunks fuel rest bits td' c' nchunks' nbits' mask' end
      else Some (0, mask').
Proof using Hm Hbits.
  intros Ep Hnd Hg Hmask Hcount.
  destruct ((nchunks =? 0) && (v =? 0)) eqn:Ez.
  - apply andb_true_iff in Ez as [->%Z.eqb_eq ->%Z.eqb_eq]. destruct (skip_group mask n 0 nbits Hcount Hg eq_refl Hmask) as [Hc1 Hm1].
    exists mask, 0, nbits. split_and!; [done|done|]. destruct fuel; cbn [parse_chunks]; rewrite Ep, (proj2 (Z.eqb_neq nd 0)) by lia; done.
  - destruct (push_group mask n v Hmask Hg) as (mask1 & mask' & E1 & E2 & Hm'). destruct (count_group n v nchunks nbits Hcount Hg Ez) as [Hc1 Hle]. cbv zeta in Hc1, Hle.
    eexists mask', _, _. split_and!; [done|exact Hc1|]. destruct fuel; cbn [parse_chunks]; rewrite Ep, (proj2 (Z.eqb_neq nd 0)), Ez, E1 by lia; cbv [mbind option_bind] in *;
      (destruct (mask1 !! 0%nat) as [w|]; [|done]); rewrite E2, (proj2 (Z.ltb_ge _ _) Hle); done.
Qed.

(** What may follow the text: the end of the input, or a 0. *)
Definition ended (tl : list (option Z)) : Prop := tl = [] ∨ ∃ r, tl = Some 0 :: r.

(** The groups from [n] down, with the first one in [w] digits. *)
Lemma parse_text n : ∀ w v fuel td c nchunks nbits mask tl,
  (S n <= fuel)%nat -> group bits m n v -> 32 * Z.of_nat n < bits -> from_group bits m mask (S n) -> counted bits m (S n) nchunks nbits ->
  0 <= td -> isspace c = false -> ended tl ->
  ∃ mask', parse_chunks fuel ((Some <$> (hexw w v ++ chunk_text n m 32 (text ","))) ++ tl) bits td c nchunks nbits mask = Some (0, mask') ∧ from_group bits m mask' 0.
Proof using Hm Hbits.
  induction n as [|n IH]; intros w v fuel td c nchunks nbits mask tl Hfuel Hg Hn Hmask Hcount Htd Hc Htl;
    pose proof (proj1 Hg) as Hv; destruct (hexw_spec w v ltac:(lia)) as (Hhex & Hval & Hlen);
    rewrite fmap_app, <- app_assoc;
    match goal with |- context [(Some <$> hexw w v) ++ ?rest] => destruct (parse_digits _ Hhex rest 0 0 td c ltac:(lia) ltac:(lia) Hc) as (c' & Hc' & Hc44 & Ep) end;
    rewrite Hval in Ep.
  - cbn [chunk_text fmap list_fmap app] in *. destruct Htl as [-> | [r ->]].
    + destruct (parse_round _ _ _ _ _ _ _ _ nchunks nbits mask 0 fuel Ep ltac:(lia) Hg Hmask Hcount) as (mask' & nc' & nb' & Hm' & _ & ->). cbn. by exists mask'.
    + cbn [parse_chunk] in Ep. change (isspace 0) with false in Ep. cbn [Z.eqb negb orb] in Ep. rewrite andb_false_r in Ep. cbn [andb] in Ep.
      destruct (parse_round _ _ _ _ _ _ _ _ nchunks nbits mask 0 fuel Ep ltac:(lia) Hg Hmask Hcount) as (mask' & nc' & nb' & Hm' & _ & ->). rewrite andb_false_r. by exists mask'.
  - cbn [chunk_text] in *. change (text ",") with [44] in *. cbn [app fmap list_fmap parse_chunk] in Ep |- *. change (isspace 44) with false in Ep. cbn [Z.eqb Pos.eqb negb orb] in Ep. rewrite Hc', andb_false_r in Ep.
    destruct (parse_round _ _ _ _ _ _ _ _ nchunks nbits mask (S n) fuel Ep ltac:(lia) Hg Hmask Hcount) as (mask' & nc' & nb' & Hm' & Hc2 & ->).
    destruct fuel as [|fuel]; [lia|]. rewrite Z.eqb_refl, andb_true_r.
    set (v' := chunk_val m n 32). assert (group bits m n v') as Hg' by (apply chunk_group; lia).
    destruct (hexw_spec ((32 + 3) / 4) v' ltac:(pose proof (proj1 Hg'); lia)) as (_ & _ & Hlen').
    rewrite (proj2 (Nat.eqb_neq _ _)) by (rewrite !length_app, length_fmap, length_app; lia). cbn [negb].
    apply (IH ((32 + 3) / 4) v' fuel); try done; lia.
Qed.
End parsing.

Lemma bitmap_zero_spec bits m0 : holds bits m0 -> 0 < bits ->
  ∃ z, bitmap_zero m0 bits = Some z ∧ holds bits z ∧ ∀ i, 0 <= i < bits -> bit z i = false.
Proof.
  intros Hh Hb. pose proof Hh as (Hr & Hl & Hu). destruct (longs_bounds bits ltac:(lia)) as (Hl1 & Hl2 & _). unfold bitmap_zero, BITS_PER_LONG in *.
  destruct (Z.leb_spec bits 32) as [Hs|Hs].
  - exists (<[0%nat := 0]> m0). rewrite setw_Some by lia. split_and!; [done|split_and!; [lia|lia|by rewrite length_insert|by apply Forall_insert]|].
    intros i Hi. unfold bit. rewrite Z.div_small by lia. rewrite list_lookup_total_insert_eq by lia. apply Z.bits_0.
  - destruct (clear_words_spec m0 0 (BITS_TO_LONGS bits)) as (z & Ez & Hlz & Hz); [lia..|]. exists z. split; [done|]. split; [split_and!; [lia|lia|lia|]|].
    + apply Forall_forall. intros x [k Hk]%list_elem_of_lookup. rewrite <- (list_lookup_total_correct _ _ _ Hk), Hz. case_decide; [done|]. by apply word_u32.
    + intros i Hi. unfold bit. rewrite Hz. rewrite decide_True; [apply Z.bits_0|]. pose proof (Z.div_pos i 32 ltac:(lia) ltac:(lia)).
      assert (i / 32 < BITS_TO_LONGS bits) by (apply Z.div_lt_upper_bound; lia). lia.
Qed.

(** The text of a bitmap of [nmaskbits] bits. *)
Definition first_size (nmaskbits : Z) : Z := if Z.land nmaskbits 31 =? 0 then 32 else Z.land nmaskbits 31.
Definition bitmap_text (m : bitmap) (nmaskbits : Z) : list Z := chunk_text (Z.to_nat ((nmaskbits + 31) / 32)) m (first_size nmaskbits) [].

Lemma first_size_spec bits n : 0 < bits -> (bits + 31) / 32 = Z.of_nat (S n) -> 0 < first_size bits <= 32 ∧ 32 * Z.of_nat n + first_size bits = bits.
Proof.
  intros Hb Hn. unfold first_size. assert (Z.land bits 31 = bits mod 32) as -> by (change 31 with (Z.ones 5); by rewrite Z.land_ones by lia).
  destruct (Z.eqb_spec (bits mod 32) 0); dlia.
Qed.

Lemma chunk_text_bound n m chunksz sep : Forall (in_u 32) m -> 0 < chunksz <= 32 -> (length sep <= 1)%nat ->
  (n <= length (chunk_text n m chunksz sep))%nat.
Proof.
  intros Hm. revert chunksz sep. induction n as [|n IH]; intros chunksz sep Hc Hs; cbn [chunk_text]; [lia|]. rewrite !length_app.
  pose proof (chunk_val_range m n chunksz Hm) as Hv. destruct (hexw_spec ((chunksz + 3) / 4) (chunk_val m n chunksz) ltac:(lia)) as (_ & _ & Hl).
  specialize (IH 32 (text ",") ltac:(lia) ltac:(cbn; lia)). lia.
Qed.

(** The first piece goes to an untouched buffer. *)
Lemma scn_at_first buf buflen mem t fmt args : buffer_ok buf buflen mem -> 0 < buflen ->
  (∀ o, format (length fmt) fmt args o = Some (emits t o)) -> Z.of_nat (length t) < 2 ^ 31 ->
  scn_at buf buflen mem 0 fmt args = scn_at buf buflen (stored buflen [] mem) (shown buflen []) fmt args.
Proof.
  intros Hok H0 Hf Ht. rewrite (scn_at_shown buf buflen mem [] t fmt args Hok H0 Hf Ht). cbn [app]. unfold scn_at. cbn [Z.ltb Z.compare]. change (Z.to_nat 0) with 0%nat.
  rewrite Z.add_0_r, Z.sub_0_r, drop_0, take_0. destruct Hok as (Hs & Hb & Hm). rewrite u32_id by lia.
  rewrite (vscnprintf_pieces fmt args [Chars t] Hf); [|done|unfold text_of; cbn [fmap list_fmap concat chars]; by rewrite app_nil_r].
  unfold text_of. cbn [fmap list_fmap concat chars]. rewrite app_nil_r. cbv [mbind option_bind]. cbn [app]. unfold shown. do 2 f_equal. rewrite s32_id; lia.
Qed.

(** bitmap_scnprintf stores what fits of the text and returns its length. *)
Lemma scnprintf_shows buf buflen mem m nmaskbits : buffer_ok buf buflen mem -> 0 < buflen -> holds nmaskbits m -> 0 < nmaskbits ->
  bitmap_scnprintf buf buflen mem m nmaskbits = Some (shown buflen (bitmap_text m nmaskbits), stored buflen (bitmap_text m nmaskbits) mem).
Proof.
  intros Hok H0 Hh Hb. pose proof Hh as (_ & Hl & Hm). unfold bitmap_scnprintf, bitmap_text, CHUNKSZ. change (32 - 1) with 31. fold (first_size nmaskbits).
  unfold BITS_TO_LONGS, BITS_PER_LONG in Hl. replace (nmaskbits + 32 - 1) with (nmaskbits + 31) in Hl by lia.
  destruct (Z.to_nat ((nmaskbits + 31) / 32)) as [|n] eqn:En; [dlia|]. destruct (first_size_spec nmaskbits n Hb ltac:(lia)) as [Hf _].
  pose proof (scn_chunks_shown buf buflen mem m Hok H0 Hm (S n) (first_size nmaskbits) [] [] ltac:(lia) Hf ltac:(cbn; lia)) as E. cbn [app] in E.
  rewrite <- E. cbn [scn_chunks]. unfold CHUNKSZ, BITS_PER_LONG. destruct (m !! _) as [w|] eqn:Ew; [|done]. cbv [mbind option_bind].
  rewrite (Z.mul_comm 32), Z.div_mul, Nat2Z.id in Ew by lia.
  assert (Z.land (Z.shiftr w (32 * Z.of_nat n mod 32)) (u32 (Z.shiftl 1 (first_size nmaskbits) - 1)) = chunk_val m n (first_size nmaskbits)) as ->.
  { rewrite (Z.mul_comm 32), Z.mod_mul, Z.shiftr_0_r by lia. unfold chunk_val. by rewrite (list_lookup_total_correct _ _ _ Ew). }
  pose proof (chunk_val_range m n (first_size nmaskbits) Hm) as Hv.
  assert (0 <= (first_size nmaskbits + 3) / 4 <= 8) as Hw by dlia.
  rewrite (scn_at_first buf buflen mem (hexw ((first_size nmaskbits + 3) / 4) (chunk_val m n (first_size nmaskbits)))); [done|done|done|intros o; apply chunk_format; cbn; lia|].
  pose proof (hexw_length ((first_size nmaskbits + 3) / 4) (chunk_val m n (first_size nmaskbits)) ltac:(lia) ltac:(lia)). lia.
Qed.

(** ** Its length *)

Lemma hexw_short w val : 0 <= w <= 8 -> 0 <= val < 2 ^ 32 -> (length (hexw w val) <= 8)%nat.
Proof.
  intros Hw Hv. rewrite hexw_eq, length_app, repeat_length, length_rev. rewrite tmp_generic by (first [by left | lia]).
  rewrite (generic_fuel small_digits 16 ltac:(lia) 21 7 val) by lia. pose proof (generic_length small_digits 16 8 val). lia.
Qed.

Lemma chunk_text_short m n : Forall (in_u 32) m -> ∀ chunksz sep, 0 < chunksz <= 32 -> (length sep <= 1)%nat ->
  (length (chunk_text n m chunksz sep) + 1 <= 9 * n + (1 - n) + length sep)%nat.
Proof.
  intros Hm. induction n as [|n IH]; intros chunksz sep Hc Hs; cbn [chunk_text]; [cbn; lia|]. rewrite !length_app.
  pose proof (hexw_short ((chunksz + 3) / 4) (chunk_val m n chunksz) ltac:(dlia) (chunk_val_range m n chunksz Hm)).
  specialize (IH 32 (text ",") ltac:(lia) ltac:(cbn; lia)). change (length (text ",")) with 1%nat in IH. destruct n; cbn [chunk_text length] in *; lia.
Qed.

Lemma parse_bitmap_text bits m m0 tl : holds bits m -> 0 < bits -> holds bits m0 -> ended tl ->
  ∃ m', bitmap_parse_ ((Some <$> bitmap_text m bits) ++ tl) m0 bits = Some (0, m') ∧ holds bits m' ∧ ∀ i, 0 <= i < bits -> bit m' i = bit m i.
Proof.
  intros Hm Hb H0 Htl. unfold bitmap_parse_, bitmap_text. destruct (bitmap_zero_spec bits m0 H0 Hb) as (z & -> & Hz & Hzb). cbv [mbind option_bind].
  destruct (Z.to_nat ((bits + 31) / 32)) as [|n] eqn:En; [dlia|]. destruct (first_size_spec bits n Hb ltac:(lia)) as [Hf Heq]. cbn [chunk_text app].
  pose proof (chunk_text_bound (S n) m (first_size bits) [] (proj2 (proj2 Hm)) Hf ltac:(cbn; lia)) as Hl. cbn [chunk_text app] in Hl.
  destruct (parse_text bits m Hm Hb n ((first_size bits + 3) / 4) (chunk_val m n (first_size bits))
    (length ((Some <$> (hexw ((first_size bits + 3) / 4) (chunk_val m n (first_size bits)) ++ chunk_text n m 32 (text ","))) ++ tl)) 0 0 0 0 z tl)
    as (m' & E & Hh & Hbits); [|apply (chunk_group bits m Hm); lia|lia| | |lia|done|done|].
  - rewrite length_app, length_fmap. lia.
  - split; [done|]. intros i Hi. rewrite Hzb by done. rewrite (proj2 (Z.ltb_ge _ _)) by lia. done.
  - left. split_and!; [done|done|]. intros i Hi. lia.
  - exists m'. split_and!; [done|done|]. intros i Hi. rewrite Hbits by done. rewrite Z.mul_0_r, Z.add_0_r, (proj2 (Z.ltb_lt _ _)) by lia. done.
Qed.

(** C37: a bitmap printed by bitmap_scnprintf is read back by __bitmap_parse.
    For every bitmap of at least one bit, and a buffer with 9 characters for
    every 32 bits, the text is stored whole; parsing any number of characters
    of the buffer that includes it, into any bitmap of the same size, succeeds
    and gives the same bits. *)
Theorem bitmap_print_parse (buf buflen : Z) (mem : list Z) (m m0 : bitmap) (nmaskbits : Z) (n : nat) :
  holds nmaskbits m -> holds nmaskbits m0 -> 0 < nmaskbits -> buffer_ok buf buflen mem -> 9 * BITS_TO_LONGS nmaskbits <= buflen ->
  ∃ len mem', bitmap_scnprintf buf buflen mem m nmaskbits = Some (len, mem') ∧
    (len <= Z.of_nat n -> ∃ m', bitmap_parse_ (Some <$> take n mem') m0 nmaskbits = Some (0, m') ∧ holds nmaskbits m' ∧
      ∀ i, 0 <= i < nmaskbits -> bit m' i = bit m i).
Proof.
  intros Hm H0 Hb Hok Hlen. destruct (longs_bounds nmaskbits ltac:(lia)) as (Hl & _).
  rewrite (scnprintf_shows buf buflen mem m nmaskbits Hok ltac:(lia) Hm Hb). do 2 eexists. split; [done|]. intros Hn.
  set (t := bitmap_text m nmaskbits) in *. assert (Z.of_nat (length t) < buflen) as Ht.
  { subst t. unfold bitmap_text, BITS_TO_LONGS, BITS_PER_LONG in *. replace (nmaskbits + 32 - 1) with (nmaskbits + 31) in * by lia.
    destruct (Z.to_nat ((nmaskbits + 31) / 32)) as [|k] eqn:Ek; [dlia|]. destruct (first_size_spec nmaskbits k Hb ltac:(lia)) as [Hf _].
    pose proof (chunk_text_short m (S k) (proj2 (proj2 Hm)) (first_size nmaskbits) [] Hf ltac:(cbn; lia)) as Hc. cbn [length] in Hc. lia. }
  unfold shown in Hn. rewrite stored_pos, (take_ge t) by lia. rewrite take_app, (take_ge t) by lia. rewrite fmap_app. apply parse_bitmap_text; try done.
  destruct (n - length t)%nat as [|k]; [by left|right]. cbn [take fmap list_fmap]. eauto.
Qed.

Module BitmapTextDemo.

Definition m70 : bitmap := [0x80000001; 0; 0xffffffc0 + 0x2a].

Lemma bitmap_print_parse_witness : holds 70 m70 ∧ holds 70 [1; 2; 3] ∧
  ∃ len mem', bitmap_scnprintf 0xC0000000 30 (repeat 7 40) m70 70 = Some (len, mem') ∧
    (len <= 40 -> ∃ m', bitmap_parse_ (Some <$> take 40 mem') [1; 2; 3] 70 = Some (0, m') ∧ holds 70 m' ∧ ∀ i, 0 <= i < 70 -> bit m' i = bit m70 i).
Proof.
  assert (holds 70 m70 ∧ holds 70 [1; 2; 3]) as [H1 H2].
  { split; (split; [lia|split; [vm_compute; discriminate|]]); repeat constructor; vm_compute; done. }
  split; [done|]. split; [done|].
  apply (bitmap_print_parse 0xC0000000 30 (repeat 7 40) m70 [1; 2; 3] 70 40); [done|done|lia|split_and!; vm_compute; done|vm_compute; discriminate].
Defined.

Example m70_text : bitmap_text m70 70 = text "2a,00000000,80000001".
Proof. vm_compute. reflexivity. Qed.

End BitmapTextDemo.
