(* ===== verification/BitmapList.v ===== *)
(** lib/bitmap.c: bitmaps as lists of ranges: bitmap_scnlistprintf and
    bitmap_parselist, with the bit searches of arch/arm/lib/findbit.S and set_bit
    of include/asm-arm/bitops.h they use.

    Buffers are as in BitmapText.v; the string bitmap_parselist reads is a list
    of characters that ends with a 0 or with the list. *)

From S2P Require Import Prelude Bitops Bitmap Vsprintf Vsscanf BitmapText.

(** * Searching bits *)

(** [ldrb r3, [r0, r2, lsr #3]] *)
Definition byte_at (m : bitmap) (pos : Z) : option Z :=
  w ← m !! Z.to_nat (pos / 32); Some (Z.land (Z.shiftr w (8 * (pos / 8 mod 4))) 0xff).

(** .L_found, without [clz]: the lowest bit of the byte [r3]. *)
Definition L_found (r3 r2 : Z) : Z :=
  let '(r2, r3) := if Z.land r3 0x0f =? 0 then (r2 + 4, r3) else (r2, Z.shiftl r3 4) in
  let '(r2, r3) := if Z.land r3 0x30 =? 0 then (r2 + 2, r3) else (r2, Z.shiftl r3 2) in
  if Z.land r3 0x40 =? 0 then r2 + 1 else r2.

(** The loop from label 1, one byte a round. *)
Fixpoint find_bytes (fuel : nat) (m : bitmap) (size r2 : Z) : option Z :=
  match fuel with
  | O => None
  | S fuel =>
      r3 ← byte_at m r2;
      if negb (r3 =? 0) then Some (L_found r3 r2)
      else if r2 + 8 <? size then find_bytes fuel m size (r2 + 8)
      else Some size
  end.
Definition find_fuel (m : bitmap) : nat := S (4 * length m).

Definition find_first_bit (m : bitmap) (size : Z) : option Z :=
  if size =? 0 then Some size else find_bytes (find_fuel m) m size 0.
Definition find_next_bit (m : bitmap) (size offset : Z) : option Z :=
  if size =? 0 then Some size
  else if Z.land offset 7 =? 0 then find_bytes (find_fuel m) m size offset
  else
    r3 ← byte_at m offset;
    let r3 := Z.shiftr r3 (Z.land offset 7) in
    if negb (r3 =? 0) then Some (L_found r3 offset)
    else
      let r2 := Z.lor offset 7 + 1 in
      if r2 <? size then find_bytes (find_fuel m) m size r2 else Some size.

(** [____atomic_set_bit] *)
Definition set_bit (bit : Z) (p : bitmap) : option bitmap :=
  w ← p !! Z.to_nat (Z.shiftr bit 5);
  setw p (Z.to_nat (Z.shiftr bit 5)) (Z.lor w (u32 (Z.shiftl 1 (Z.land bit 31)))).

(** * Printing *)

Definition bscnl_emit (buf buflen : Z) (mem : list Z) (rbot rtop len : Z) : option (Z * list Z) :=
  '(len, mem) ← (if 0 <? len then scn_at buf buflen mem len (text ",") [] else Some (len, mem));
  if rbot =? rtop then scn_at buf buflen mem len (text "%d") [A32 rbot]
  else scn_at buf buflen mem len (text "%d-%d") [A32 rbot; A32 rtop].

(** [while (cur < nmaskbits)]: [cur] grows. *)
Fixpoint scnlist_loop (fuel : nat) (buf buflen : Z) (maskp : bitmap) (nmaskbits cur rbot len : Z) (mem : list Z) : option (Z * list Z) :=
  if cur <? nmaskbits then
    match fuel with
    | O => None
    | S fuel =>
        let rtop := cur in
        cur ← find_next_bit maskp nmaskbits (cur + 1);
        if (nmaskbits <=? cur) || (rtop + 1 <? cur) then
          '(len, mem) ← bscnl_emit buf buflen mem rbot rtop len;
          scnlist_loop fuel buf buflen maskp nmaskbits cur cur len mem
        else scnlist_loop fuel buf buflen maskp nmaskbits cur rbot len mem
    end
  else Some (len, mem).

Definition bitmap_scnlistprintf (buf buflen : Z) (mem : list Z) (maskp : bitmap) (nmaskbits : Z) : option (Z * list Z) :=
  if buflen =? 0 then Some (0, mem)
  else
    mem ← (match mem with _ :: mem => Some (0 :: mem) | [] => None end);
    cur ← find_first_bit maskp nmaskbits;
    scnlist_loop (Z.to_nat nmaskbits) buf buflen maskp nmaskbits cur cur 0 mem.

(** * Parsing *)

Definition BASEDEC : Z := 10.

(** [while (a <= b) set_bit(a++, maskp)] *)
Fixpoint set_range (n : nat) (a : Z) (maskp : bitmap) : option bitmap :=
  match n with
  | O => Some maskp
  | S n => maskp ← set_bit a maskp; set_range n (a + 1) maskp
  end.

(** One round reads a number or a range; the rest of the string. *)
Definition parselist_item (bp : list Z) (maskp : bitmap) (nmaskbits : Z) : option (Z + list Z * bitmap) :=
  if negb (isdigit (head_of bp)) then Some (inl (- EINVAL))
  else
    let '(a, bp) := simple_strtoul bp BASEDEC in
    let range :=
      if head_of bp =? 45 then
        let bp := tail bp in
        if negb (isdigit (head_of bp)) then inl (- EINVAL) else inr (simple_strtoul bp BASEDEC)
      else inr (a, bp) in
    match range with
    | inl e => Some (inl e)
    | inr (b, bp) =>
        if b <? a then Some (inl (- EINVAL))
        else if nmaskbits <=? b then Some (inl (- ERANGE))
        else maskp ← set_range (Z.to_nat (b - a + 1)) a maskp; Some (inr (if head_of bp =? 44 then tail bp else bp, maskp))
    end.

(** [do ... while ( *bp != 0 && *bp != '\n')]: every round takes a digit; an
    error leaves what has been set. *)
Fixpoint parselist_loop (fuel : nat) (bp : list Z) (maskp : bitmap) (nmaskbits : Z) : option (Z * bitmap) :=
  match fuel with
  | O => None
  | S fuel =>
      r ← parselist_item bp maskp nmaskbits;
      match r with
      | inl e => Some (e, maskp)
      | inr (bp, maskp) =>
          if negb (head_of bp =? 0) && negb (head_of bp =? 10) then parselist_loop fuel bp maskp nmaskbits else Some (0, maskp)
      end
  end.

Definition bitmap_parselist (bp : list Z) (maskp : bitmap) (nmaskbits : Z) : option (Z * bitmap) :=
  maskp ← bitmap_zero maskp nmaskbits;
  parselist_loop (S (length bp)) bp maskp nmaskbits.

Example list_40 : bitmap_scnlistprintf 4096 20 (repeat 7 20) [0x800000ff; 0xfffffff5] 40 = Some (18, text "0-7,31-32,34,36-39" ++ [0; 7]).
Proof. vm_compute. reflexivity. Qed.
Example parselist_40 : bitmap_parselist (text "0-7,31-32,34,36-39") [5; 6] 40 = Some (0, [0x800000ff; 0xf5]).
Proof. vm_compute. reflexivity. Qed.
(** Nothing is printed for an empty bitmap, and nothing is no list. *)
Example empty_list : bitmap_scnlistprintf 4096 20 (repeat 7 20) [0; 0] 40 = Some (0, 0 :: repeat 7 19) ∧ bitmap_parselist [0] [5; 6] 40 = Some (- EINVAL, [0; 0]).
Proof. vm_compute. done. Qed.
(** With the last bit set, the search from behind the bitmap reads the byte
    behind it. *)
Example reads_behind : find_next_bit [0; 0x80000000] 64 64 = None.
Proof. reflexivity. Qed.

(** * The searches find the next bit *)

(** [r] is the next set bit from [off] on, or behind the bitmap. *)
Definition next_set (m : bitmap) (size off r : Z) : Prop :=
  off <= r ∧ (∀ i, off <= i < r -> i < size -> bit m i = false) ∧ (r < size -> bit m r = true).

Lemma L_found_shift r3 r2 : L_found r3 r2 = r2 + L_found r3 0.
Proof. unfold L_found. repeat case_match; simplify_eq; lia. Qed.

Definition found_ok (b : Z) : bool :=
  (b =? 0) || let k := L_found b 0 in (0 <=? k) && (k <? 8) && Z.testbit b k && forallb (λ i, negb (Z.testbit b i)) (seqZ 0 k).
Lemma found_lowest b : 0 < b < 256 -> ∃ k, 0 <= k < 8 ∧ L_found b 0 = k ∧ Z.testbit b k = true ∧ ∀ i, 0 <= i < k -> Z.testbit b i = false.
Proof.
  intros Hb. assert (found_ok b = true) as H by (apply (all_bytes (λ b, found_ok b = true)); [vm_compute; reflexivity|unfold in_u; lia]).
  unfold found_ok in H. rewrite (proj2 (Z.eqb_neq b 0)) in H by lia. cbn [orb] in H. cbv zeta in H. rewrite !andb_true_iff in H. destruct H as [[[H1 H2] H3] H4].
  exists (L_found b 0). split_and!; [lia|lia|done|done|]. intros i Hi. rewrite forallb_forall in H4. apply negb_true_iff, H4, list_elem_of_In, elem_of_seqZ. lia.
Qed.

Lemma byte_at_spec m pos : Forall (in_u 32) m -> 0 <= pos < 32 * Z.of_nat (length m) ->
  ∃ v, byte_at m pos = Some v ∧ 0 <= v < 256 ∧ ∀ k, 0 <= k < 8 -> Z.testbit v k = bit m (8 * (pos / 8) + k).
Proof.
  intros Hm Hp. unfold byte_at. destruct (lookup_lt_is_Some_2 m (Z.to_nat (pos / 32))) as [w Ew]; [dlia|]. rewrite Ew. cbv [mbind option_bind].
  eexists. split; [done|]. split.
  - change 0xff with (Z.ones 8). rewrite Z.land_ones by lia. by apply Z.mod_pos_bound.
  - intros k Hk. rewrite Z.land_spec, Z.shiftr_spec by lia. change 0xff with (Z.ones 8). rewrite Z.ones_spec_low, andb_true_r by lia.
    unfold bit. replace ((8 * (pos / 8) + k) / 32) with (pos / 32) by dlia. rewrite (list_lookup_total_correct _ _ _ Ew). f_equal. dlia.
Qed.

(** Nothing in the byte, or the lowest bit of it. *)
Lemma byte_search m pos v sh : (∀ k, 0 <= k < 8 -> Z.testbit v k = bit m (8 * (pos / 8) + k)) -> 0 <= v < 256 -> 0 <= sh < 8 -> sh = pos mod 8 ->
  (Z.shiftr v sh = 0 -> ∀ i, pos <= i < 8 * (pos / 8) + 8 -> bit m i = false) ∧
  (Z.shiftr v sh <> 0 -> ∃ r, L_found (Z.shiftr v sh) pos = r ∧ pos <= r ∧ bit m r = true ∧ ∀ i, pos <= i < r -> bit m i = false).
Proof.
  intros Hb Hv Hsh Hmod. assert (∀ k, 0 <= k -> Z.testbit (Z.shiftr v sh) k = Z.testbit v (k + sh)) as Hs by (intros k Hk; by rewrite Z.shiftr_spec by lia).
  split.
  - intros E i Hi. specialize (Hb (i - 8 * (pos / 8)) ltac:(dlia)). replace (8 * (pos / 8) + (i - 8 * (pos / 8))) with i in Hb by lia. rewrite <- Hb.
    specialize (Hs (i - pos) ltac:(lia)). rewrite E, Z.bits_0 in Hs. rewrite Hs. f_equal. dlia.
  - intros Hne. assert (0 < Z.shiftr v sh < 256) as Hr.
    { rewrite Z.shiftr_div_pow2 in * by lia. pose proof (Z.pow_pos_nonneg 2 sh ltac:(lia) ltac:(lia)). pose proof (Z.div_pos v (2 ^ sh) ltac:(lia) ltac:(lia)).
      pose proof (Z.div_le_upper_bound v (2 ^ sh) v ltac:(lia) ltac:(nia)). lia. }
    destruct (found_lowest _ Hr) as (k & Hk & Ek & Ht & Hf). exists (pos + k). rewrite L_found_shift, Ek.
    assert (k + sh < 8) as Hk8.
    { destruct (Z.ltb_spec (k + sh) 8); [lia|]. rewrite Hs in Ht by lia. rewrite (Z.bits_above_log2 v) in Ht; [done|lia|].
      apply Z.log2_lt_pow2; [|apply Z.lt_le_trans with (2 ^ 8); [lia|apply Z.pow_le_mono_r; lia]]. destruct (Z.eqb_spec v 0); [|lia]. subst v. rewrite Z.shiftr_0_l in Hr. lia. }
    split_and!; [lia|lia| |].
    + rewrite Hs, Hb in Ht by lia. rewrite <- Ht. f_equal. dlia.
    + intros i Hi. specialize (Hf (i - pos) ltac:(lia)). rewrite Hs, Hb in Hf by lia. rewrite <- Hf. f_equal. dlia.
Qed.

Lemma shl_low_disjoint a b : 0 <= b < 8 -> Z.land (Z.shiftl a 3) b = 0.
Proof.
  intros Hb. apply Z.bits_inj'. intros i Hi. rewrite Z.land_spec, Z.bits_0, Z.shiftl_spec by lia. destruct (Z.ltb_spec i 3); [by rewrite Z.testbit_neg_r by lia|].
  rewrite (Z.bits_above_log2 b); [by rewrite andb_false_r|lia|]. destruct (Z.eqb_spec b 0) as [->|]; [cbn; lia|]. apply Z.log2_lt_pow2; [lia|].
  apply Z.lt_le_trans with (2 ^ 3); [lia|]. apply Z.pow_le_mono_r; lia.
Qed.

Section searching.
  Context (m : bitmap) (Hu : Forall (in_u 32) m).

Lemma find_bytes_spec size fuel : ∀ r2, r2 mod 8 = 0 -> 0 <= r2 <= size -> r2 < 32 * Z.of_nat (length m) -> size <= 32 * Z.of_nat (length m) ->
  32 * Z.of_nat (length m) - r2 < 8 * Z.of_nat fuel -> ∃ r, find_bytes fuel m size r2 = Some r ∧ next_set m size r2 r.
Proof using Hu.
  induction fuel as [|fuel IH]; intros r2 Hmod Hr Hlen Hsz Hfuel; [lia|]. cbn [find_bytes].
  destruct (byte_at_spec m r2 Hu ltac:(lia)) as (v & -> & Hv & Hb). cbv [mbind option_bind].
  destruct (byte_search m r2 v 0 Hb Hv ltac:(lia) ltac:(lia)) as [Hz Hnz]. rewrite Z.shiftr_0_r in Hz, Hnz.
  destruct (Z.eqb_spec v 0) as [->|Hne]; cbn [negb].
  - specialize (Hz eq_refl). destruct (Z.ltb_spec (r2 + 8) size) as [Hlt|Hge].
    + destruct (IH (r2 + 8)) as (r & -> & Hr1 & Hr2 & Hr3); [dlia|lia|lia|lia|lia|]. exists r. split; [done|]. split_and!; [lia| |done].
      intros i Hi His. destruct (Z.ltb_spec i (r2 + 8)); [apply Hz; dlia|apply Hr2; lia].
    + exists size. split; [done|]. split_and!; [lia| |lia]. intros i Hi _. apply Hz. dlia.
  - destruct (Hnz Hne) as (r & -> & Hr1 & Hr2 & Hr3). exists r. split; [done|]. split_and!; [lia|intros i Hi _; by apply Hr3|done].
Qed.

Lemma find_first_spec size : 0 <= size <= 32 * Z.of_nat (length m) -> ∃ r, find_first_bit m size = Some r ∧ next_set m size 0 r.
Proof using Hu.
  intros Hs. unfold find_first_bit. destruct (Z.eqb_spec size 0) as [->|].
  - exists 0. split; [done|]. split_and!; lia.
  - apply find_bytes_spec; [done|lia|lia|lia|]. unfold find_fuel. lia.
Qed.

Lemma find_next_spec size off : 0 <= off <= size -> 0 < size < 32 * Z.of_nat (length m) -> ∃ r, find_next_bit m size off = Some r ∧ next_set m size off r.
Proof using Hu.
  intros Ho Hs. unfold find_next_bit. rewrite (proj2 (Z.eqb_neq size 0)) by lia.
  assert (Z.land off 7 = off mod 8) as -> by (change 7 with (Z.ones 3); by rewrite Z.land_ones by lia).
  destruct (Z.eqb_spec (off mod 8) 0) as [Hm|Hm].
  - apply find_bytes_spec; [done|lia|lia|lia|]. unfold find_fuel. lia.
  - destruct (byte_at_spec m off Hu ltac:(lia)) as (v & -> & Hv & Hb). cbv [mbind option_bind].
    destruct (byte_search m off v (off mod 8) Hb Hv ltac:(dlia) eq_refl) as [Hz Hnz].
    destruct (Z.eqb_spec (Z.shiftr v (off mod 8)) 0) as [E|E]; cbn [negb].
    + specialize (Hz E). assert (Z.lor off 7 + 1 = 8 * (off / 8) + 8) as ->.
      { assert (off = Z.lor (Z.shiftl (off / 8) 3) (off mod 8)) as E1.
        { rewrite <- Z.lxor_lor, <- Z.add_nocarry_lxor, Z.shiftl_mul_pow2 by (lia || apply shl_low_disjoint; dlia). dlia. }
        rewrite E1 at 1. rewrite <- Z.lor_assoc. assert (Z.lor (off mod 8) 7 = 7) as ->.
        { pose proof (Z.mod_pos_bound off 8 ltac:(lia)). assert (off mod 8 = 0 ∨ off mod 8 = 1 ∨ off mod 8 = 2 ∨ off mod 8 = 3 ∨ off mod 8 = 4 ∨ off mod 8 = 5 ∨ off mod 8 = 6 ∨ off mod 8 = 7) as Hc by lia.
          destruct_or! Hc; by rewrite Hc. }
        rewrite <- Z.lxor_lor, <- Z.add_nocarry_lxor, Z.shiftl_mul_pow2 by (lia || apply shl_low_disjoint; lia). lia. }
      destruct (Z.ltb_spec (8 * (off / 8) + 8) size) as [Hlt|Hge].
      * destruct (find_bytes_spec size (find_fuel m) (8 * (off / 8) + 8)) as (r & -> & Hr1 & Hr2 & Hr3); [dlia|dlia|dlia|lia|unfold find_fuel; dlia|].
        exists r. split; [done|]. split_and!; [dlia| |done]. intros i Hi His. destruct (Z.ltb_spec i (8 * (off / 8) + 8)); [apply Hz; lia|apply Hr2; lia].
      * exists size. split; [done|]. split_and!; [lia| |lia]. intros i Hi _. apply Hz. lia.
    + destruct (Hnz E) as (r & -> & Hr1 & Hr2 & Hr3). exists r. split; [done|]. split_and!; [lia|intros i Hi _; by apply Hr3|done].
Qed.
End searching.

(** * Setting bits *)

Lemma set_bit_spec a p : Forall (in_u 32) p -> 0 <= a < 32 * Z.of_nat (length p) ->
  ∃ p', set_bit a p = Some p' ∧ length p' = length p ∧ Forall (in_u 32) p' ∧ ∀ i, 0 <= i -> bit p' i = (i =? a) || bit p i.
Proof.
  intros Hu Ha. unfold set_bit. rewrite Z.shiftr_div_pow2 by lia. change (2 ^ 5) with 32.
  assert (Z.land a 31 = a mod 32) as -> by (change 31 with (Z.ones 5); by rewrite Z.land_ones by lia).
  destruct (lookup_lt_is_Some_2 p (Z.to_nat (a / 32))) as [w Ew]; [dlia|]. rewrite Ew. cbv [mbind option_bind].
  rewrite setw_Some by dlia. eexists. split; [done|]. rewrite Z.shiftl_1_l. pose proof (Z.mod_pos_bound a 32 ltac:(lia)) as Hm.
  assert (0 <= 2 ^ (a mod 32) < 2 ^ 32) as Hp by (split; [apply Z.pow_nonneg; lia|apply Z.pow_lt_mono_r; lia]). rewrite u32_id by done.
  split_and!; [apply length_insert| |].
  - apply Forall_insert; [done|]. apply lor_in_u; [lia| |done]. by eapply Forall_lookup_1 in Ew.
  - intros i Hi. unfold bit. destruct (decide (i / 32 = a / 32)) as [E|E].
    + rewrite E, list_lookup_total_insert_eq by dlia. rewrite (list_lookup_total_correct _ _ _ Ew), Z.lor_spec, Z.pow2_bits_eqb by lia. rewrite orb_comm. f_equal.
      destruct (Z.eqb_spec (a mod 32) (i mod 32)), (Z.eqb_spec i a); dlia.
    + rewrite list_lookup_total_insert_ne by dlia. destruct (Z.eqb_spec i a) as [->|]; [done|done].
Qed.

Lemma set_range_spec n : ∀ a p, Forall (in_u 32) p -> 0 <= a -> a + Z.of_nat n <= 32 * Z.of_nat (length p) ->
  ∃ p', set_range n a p = Some p' ∧ length p' = length p ∧ Forall (in_u 32) p' ∧ ∀ i, 0 <= i -> bit p' i = ((a <=? i) && (i <? a + Z.of_nat n)) || bit p i.
Proof.
  induction n as [|n IH]; intros a p Hu Ha Hl; cbn [set_range].
  - exists p. split_and!; [done|done|done|]. intros i Hi. destruct (Z.leb_spec a i), (Z.ltb_spec i (a + Z.of_nat 0)); done || lia.
  - destruct (set_bit_spec a p Hu ltac:(lia)) as (p1 & -> & Hl1 & Hu1 & Hb1). cbv [mbind option_bind].
    destruct (IH (a + 1) p1 Hu1 ltac:(lia) ltac:(lia)) as (p' & -> & Hl' & Hu' & Hb'). exists p'. split_and!; [done|lia|done|].
    intros i Hi. rewrite Hb', Hb1 by done. rewrite orb_assoc. f_equal.
    destruct (Z.leb_spec (a + 1) i), (Z.ltb_spec i (a + 1 + Z.of_nat n)), (Z.eqb_spec i a), (Z.leb_spec a i), (Z.ltb_spec i (a + Z.of_nat (S n))); done || lia.
Qed.

(** * Ranges and their text *)

Definition dec (v : Z) : list Z := digits_of (Item [] Cd v 0).
Definition range_text (r : Z * Z) : list Z := if r.1 =? r.2 then dec r.1 else dec r.1 ++ [45] ++ dec r.2.
Fixpoint list_text (rs : list (Z * Z)) : list Z :=
  match rs with
  | [] => []
  | [r] => range_text r
  | r :: rs => range_text r ++ [44] ++ list_text rs
  end.

Definition in_ranges (rs : list (Z * Z)) (i : Z) : Prop := ∃ r, r ∈ rs ∧ r.1 <= i <= r.2.
Definition ranges_ok (bits : Z) (rs : list (Z * Z)) : Prop := Forall (λ r, 0 <= r.1 ∧ r.1 <= r.2 ∧ r.2 < bits) rs.

Lemma list_text_snoc rs r : list_text (rs ++ [r]) = match rs with [] => range_text r | _ => list_text rs ++ [44] ++ range_text r end.
Proof.
  induction rs as [|a rs IH]; [done|]. destruct rs as [|b rs]; [done|]. change (list_text ((a :: b :: rs) ++ [r])) with (range_text a ++ [44] ++ list_text ((b :: rs) ++ [r])).
  rewrite IH. change (list_text (a :: b :: rs)) with (range_text a ++ [44] ++ list_text (b :: rs)). by rewrite <- !app_assoc.
Qed.

(** A number starts with a digit and is short. *)
Lemma dec_spec v : 0 <= v < 2 ^ 31 -> ∃ c l, dec v = c :: l ∧ isdigit c = true ∧ (length l < 22)%nat.
Proof.
  intros Hv. unfold dec. rewrite digits_signed_item by lia. rewrite (proj2 (Z.ltb_ge v 0)), Z.abs_eq by lia. cbn [app].
  destruct (digits_first 10 v ltac:(lia) ltac:(lia)) as (c & l & E & Hd & _). destruct (digits_shape small_digits 10 v ltac:(by left) ltac:(lia) ltac:(lia)) as (c' & l' & E' & Hl & _).
  rewrite E in E'. simplify_eq. exists c', l'. split_and!; [done| |done]. unfold not_digit in Hd. destruct (isdigit c'); [done|]. rewrite !orb_false_iff in Hd. cbn in Hd. naive_solver.
Qed.

Lemma dec_read v rest : 0 <= v < 2 ^ 31 -> ends_number (head_of rest) -> simple_strtoul (dec v ++ rest) BASEDEC = (v, rest).
Proof.
  intros Hv Hr. unfold dec, BASEDEC. rewrite digits_signed_item by lia. rewrite (proj2 (Z.ltb_ge v 0)), Z.abs_eq by lia. cbn [app].
  rewrite (read_ulong 10 v rest ltac:(lia) ltac:(lia) Hr). by rewrite u32_id by lia.
Qed.

Lemma range_text_spec bits r : 0 <= r.1 ∧ r.1 <= r.2 ∧ r.2 < bits -> bits < 2 ^ 31 -> ∃ c l, range_text r = c :: l ∧ isdigit c = true ∧ (length (range_text r) < 50)%nat.
Proof.
  intros (H1 & H2 & H3) Hb. destruct (dec_spec r.1 ltac:(lia)) as (c & l & E & Hc & Hl). destruct (dec_spec r.2 ltac:(lia)) as (c' & l' & E' & _ & Hl').
  unfold range_text. rewrite E, E'. destruct (_ =? _); eexists _, _; (split_and!; [reflexivity|done|]); cbn [length app]; rewrite ?length_app; cbn [length]; lia.
Qed.

(** ** Printing *)

(** Between rounds: [rs] are the ranges below [rbot], and from [rbot] to [cur]
    all bits are set. *)
Definition listed (m : bitmap) (bits : Z) (rs : list (Z * Z)) (rbot cur : Z) : Prop :=
  ranges_ok bits rs ∧ Forall (λ r, r.2 < rbot) rs ∧ 0 <= rbot <= cur ∧
  (cur < bits -> ∀ i, rbot <= i <= cur -> bit m i = true) ∧ (bits <= cur -> rbot = cur) ∧
  (∀ i, 0 <= i < rbot -> i < bits -> bit m i = true <-> in_ranges rs i).

Lemma in_ranges_app rs rs' i : in_ranges (rs ++ rs') i <-> in_ranges rs i ∨ in_ranges rs' i.
Proof. unfold in_ranges. setoid_rewrite elem_of_app. naive_solver. Qed.
Lemma in_ranges_one r i : in_ranges [r] i <-> r.1 <= i <= r.2.
Proof. unfold in_ranges. setoid_rewrite list_elem_of_singleton. naive_solver. Qed.
Lemma in_ranges_below rs b i : Forall (λ r, r.2 < b) rs -> b <= i -> ¬ in_ranges rs i.
Proof. intros Hf Hi (r & Hr & ?). rewrite Forall_forall in Hf. specialize (Hf r Hr). cbn in Hf. lia. Qed.

Lemma listed_emit m bits rs rbot cur cur' : listed m bits rs rbot cur -> cur < bits -> next_set m bits (cur + 1) cur' ->
  bits <= cur' ∨ cur + 1 < cur' -> listed m bits (rs ++ [(rbot, cur)]) cur' cur'.
Proof.
  intros (Hok1 & Hbelow & Hle & Hset & _ & Hin) Hcur (Hn1 & Hn2 & Hn3) _. specialize (Hset Hcur). split_and!.
  - apply Forall_app. split; [done|]. constructor; [cbn; lia|constructor].
  - apply Forall_app. split; [|repeat constructor; cbn; lia]. eapply Forall_impl; [exact Hbelow|]. cbn. lia.
  - lia.
  - lia.
  - intros Hc i Hi. replace i with cur' by lia. by apply Hn3.
  - done.
  - intros i Hi Hib. rewrite in_ranges_app, in_ranges_one. cbn [fst snd]. destruct (Z.ltb_spec i rbot) as [Hlt|Hge].
    + rewrite Hin by lia. split; [by left|]. intros [?|?]; [done|lia].
    + destruct (Z.leb_spec i cur) as [Hic|Hic].
      * rewrite Hset by lia. split; [|done]. intros _. right. lia.
      * rewrite Hn2 by lia. split; [done|]. intros [Hr|Hr]; [|lia]. by apply (in_ranges_below rs rbot) in Hr; [|done|lia].
Qed.

Lemma listed_grow m bits rs rbot cur cur' : listed m bits rs rbot cur -> cur < bits -> next_set m bits (cur + 1) cur' ->
  cur' < bits -> cur' <= cur + 1 -> listed m bits rs rbot cur'.
Proof.
  intros (Hok1 & Hbelow & Hle & Hset & _ & Hin) Hcur (Hn1 & Hn2 & Hn3) Hb Hc. split_and!; try done; try lia. intros _ i Hi.
  destruct (Z.leb_spec i cur); [apply Hset; lia|]. replace i with cur' by lia. by apply Hn3.
Qed.

Section printing.
  Context (buf buflen : Z) (mem : list Z) (Hok : buffer_ok buf buflen mem) (H2 : 2 <= buflen).

Lemma format_comma o : format (length (text ",")) (text ",") [] o = Some (emits [44] o).
Proof. done. Qed.
Lemma format_dec v o : - 2 ^ 31 <= v < 2 ^ 31 -> format (length (text "%d")) (text "%d") [A32 v] o = Some (emits (dec v) o).
Proof.
  intros Hv. pose proof (format_items [Item [] Cd v 0] ltac:(repeat constructor; cbn; lia) _ o ltac:(reflexivity)) as E.
  unfold text_items in E. cbn [flat_map sep app] in E. rewrite app_nil_r in E. exact E.
Qed.
Lemma format_dec2 a b o : - 2 ^ 31 <= a < 2 ^ 31 -> - 2 ^ 31 <= b < 2 ^ 31 -> format (length (text "%d-%d")) (text "%d-%d") [A32 a; A32 b] o = Some (emits (dec a ++ [45] ++ dec b) o).
Proof.
  intros Ha Hb. pose proof (format_items [Item [] Cd a 0; Item [45] Cd b 0] ltac:(repeat constructor; cbn; lia) _ o ltac:(reflexivity)) as E.
  unfold text_items in E. cbn [flat_map sep app] in E. rewrite app_nil_r in E. exact E.
Qed.

(** A range is added to what has been printed of the list. *)
Lemma emit_shown bits rs r : ranges_ok bits rs -> bits < 2 ^ 31 -> 0 <= r.1 ∧ r.1 <= r.2 ∧ r.2 < bits ->
  bscnl_emit buf buflen (stored buflen (list_text rs) mem) r.1 r.2 (shown buflen (list_text rs)) =
  Some (shown buflen (list_text (rs ++ [r])), stored buflen (list_text (rs ++ [r])) mem).
Proof using Hok H2.
  intros Hrs Hb Hr. unfold bscnl_emit. destruct (range_text_spec bits r Hr Hb) as (_ & _ & _ & _ & Hlen).
  assert (∀ t, (if r.1 =? r.2 then scn_at buf buflen (stored buflen t mem) (shown buflen t) (text "%d") [A32 r.1]
    else scn_at buf buflen (stored buflen t mem) (shown buflen t) (text "%d-%d") [A32 r.1; A32 r.2]) = Some (shown buflen (t ++ range_text r), stored buflen (t ++ range_text r) mem)) as Hemit.
  { intros t. revert Hlen. unfold range_text. destruct (r.1 =? r.2); intros Hlen; (apply scn_at_shown; [done|lia| |lia]); intros o; [apply format_dec; lia|apply format_dec2; lia]. }
  rewrite list_text_snoc. destruct rs as [|a rs].
  - cbn [list_text]. rewrite (proj2 (Z.ltb_ge 0 _)) by (unfold shown; cbn [length]; lia). cbv [mbind option_bind]. apply (Hemit []).
  - apply Forall_cons in Hrs as [Ha _]. assert (0 < length (list_text (a :: rs)))%nat as Hne.
    { destruct (range_text_spec bits a Ha Hb) as (c & l & E & _). destruct rs; cbn [list_text]; rewrite E; cbn; lia. }
    rewrite (proj2 (Z.ltb_lt 0 _)) by (unfold shown; lia). rewrite (scn_at_shown buf buflen mem _ [44]) by (done || lia || exact format_comma). cbv [mbind option_bind].
    rewrite Hemit, <- !app_assoc. done.
Qed.

Lemma scnlist_spec m bits : Forall (in_u 32) m -> 0 < bits < 2 ^ 31 -> bits < 32 * Z.of_nat (length m) -> ∀ fuel rs rbot cur,
  listed m bits rs rbot cur -> bits - cur <= Z.of_nat fuel ->
  ∃ rs', ranges_ok bits rs' ∧ (∀ i, 0 <= i < bits -> bit m i = true <-> in_ranges rs' i) ∧
    scnlist_loop fuel buf buflen m bits cur rbot (shown buflen (list_text rs)) (stored buflen (list_text rs) mem) =
    Some (shown buflen (list_text rs'), stored buflen (list_text rs') mem).
Proof using Hok H2.
  intros Hu Hb Hlen. induction fuel as [|fuel IH]; intros rs rbot cur Hl Hfuel; cbn [scnlist_loop]; destruct (Z.ltb_spec cur bits) as [Hcur|Hcur]; try lia.
  1, 3: destruct Hl as (Hok1 & _ & Hle & _ & Heq & Hin); exists rs; split_and!; [done| |done]; intros i Hi; apply Hin; [rewrite (Heq Hcur)|]; lia.
  pose proof Hl as (Hok1 & _ & Hle & _). destruct (find_next_spec m Hu bits (cur + 1) ltac:(lia) ltac:(lia)) as (cur' & -> & Hn). cbv [mbind option_bind].
  pose proof Hn as (Hn1 & _). destruct ((bits <=? cur') || (cur + 1 <? cur')) eqn:E.
  - pose proof (emit_shown bits rs (rbot, cur) Hok1 ltac:(lia) ltac:(cbn; lia)) as E'. cbn [fst snd] in E'. rewrite E'. apply IH; [|lia]. apply listed_emit; [done|done|done|]. lia.
  - apply IH; [|lia]. apply (listed_grow m bits rs rbot cur cur'); [done|done|done|lia|lia].
Qed.
End printing.

(** ** Parsing *)

Lemma parse_item bits r rest p : 0 <= r.1 ∧ r.1 <= r.2 ∧ r.2 < bits -> bits < 2 ^ 31 -> Forall (in_u 32) p -> bits <= 32 * Z.of_nat (length p) ->
  head_of rest = 44 ∨ head_of rest = 0 ->
  ∃ p', parselist_item (range_text r ++ rest) p bits = Some (inr (if head_of rest =? 44 then tail rest else rest, p')) ∧
    length p' = length p ∧ Forall (in_u 32) p' ∧ ∀ i, 0 <= i -> bit p' i = ((r.1 <=? i) && (i <=? r.2)) || bit p i.
Proof.
  intros (Hr1 & Hr2 & Hr3) Hb Hu Hl Hrest. assert (ends_number (head_of rest) ∧ head_of rest <> 45) as [He H45] by (destruct Hrest as [-> | ->]; done).
  destruct (set_range_spec (Z.to_nat (r.2 - r.1 + 1)) r.1 p Hu ltac:(lia) ltac:(lia)) as (p' & Es & Hl' & Hu' & Hb'). exists p'. split_and!; [|done|done|]; cycle 1.
  { intros i Hi. rewrite Hb' by done. f_equal. f_equal. destruct (Z.ltb_spec i (r.1 + Z.of_nat (Z.to_nat (r.2 - r.1 + 1)))), (Z.leb_spec i r.2); lia. }
  destruct (dec_spec r.1 ltac:(lia)) as (c & l & E & Hc & _). destruct (dec_spec r.2 ltac:(lia)) as (c' & l' & E' & Hc' & _).
  unfold parselist_item, range_text. destruct (Z.eqb_spec r.1 r.2) as [Eq|Ne].
  - assert (isdigit (head_of (dec r.1 ++ rest)) = true) as -> by by rewrite E. cbn [negb]. rewrite (dec_read r.1 rest ltac:(lia) He).
    rewrite (proj2 (Z.eqb_neq _ _) H45). rewrite (proj2 (Z.ltb_ge _ _)), (proj2 (Z.leb_gt bits r.1)) by lia.
    replace (r.1 - r.1 + 1) with (r.2 - r.1 + 1) by lia. rewrite Es. done.
  - rewrite <- !app_assoc. assert (isdigit (head_of (dec r.1 ++ [45] ++ dec r.2 ++ rest)) = true) as -> by by rewrite E. cbn [negb].
    rewrite (dec_read r.1 ([45] ++ dec r.2 ++ rest) ltac:(lia)) by done. cbn [app head_of tail Z.eqb Pos.eqb].
    assert (isdigit (head_of (dec r.2 ++ rest)) = true) as -> by by rewrite E'. cbn [negb]. rewrite (dec_read r.2 rest ltac:(lia) He).
    rewrite (proj2 (Z.ltb_ge _ _)), (proj2 (Z.leb_gt bits r.2)) by lia. rewrite Es. done.
Qed.

Lemma digit_goes_on bits r rest : 0 <= r.1 ∧ r.1 <= r.2 ∧ r.2 < bits -> bits < 2 ^ 31 -> negb (head_of (range_text r ++ rest) =? 0) && negb (head_of (range_text r ++ rest) =? 10) = true.
Proof.
  intros Hr Hb. destruct (range_text_spec bits r Hr Hb) as (c & l & -> & Hc & _). cbn [app head_of]. unfold isdigit, between in Hc. lia.
Qed.

Lemma parse_ranges bits rest rs : ranges_ok bits rs -> rs <> [] -> bits < 2 ^ 31 -> ∀ fuel p, (length rs <= fuel)%nat -> Forall (in_u 32) p -> bits <= 32 * Z.of_nat (length p) ->
  ∃ p', parselist_loop fuel (list_text rs ++ 0 :: rest) p bits = Some (0, p') ∧ length p' = length p ∧ Forall (in_u 32) p' ∧
    ∀ i, 0 <= i -> bit p' i = true <-> in_ranges rs i ∨ bit p i = true.
Proof.
  induction 1 as [|r rs Hr Hrs IH]; [done|]. intros _ Hb fuel p Hfuel Hu Hl. destruct fuel as [|fuel]; [cbn in Hfuel; lia|]. cbn [parselist_loop].
  assert (∀ p', (∀ i, 0 <= i -> bit p' i = ((r.1 <=? i) && (i <=? r.2)) || bit p i) -> ∀ i, 0 <= i -> bit p' i = true <-> in_ranges [r] i ∨ bit p i = true) as Hone.
  { intros p' Hp' i Hi. rewrite Hp' by done. rewrite in_ranges_one, orb_true_iff, andb_true_iff, !Z.leb_le. done. }
  destruct rs as [|r' rs].
  - cbn [list_text]. destruct (parse_item bits r (0 :: rest) p Hr Hb Hu Hl ltac:(by right)) as (p' & -> & Hl' & Hu' & Hb'). cbv [mbind option_bind]. cbn [head_of tail Z.eqb negb andb].
    exists p'. split_and!; [done|done|done|by apply Hone].
  - change (list_text (r :: r' :: rs)) with (range_text r ++ [44] ++ list_text (r' :: rs)). rewrite <- !app_assoc.
    destruct (parse_item bits r ([44] ++ list_text (r' :: rs) ++ 0 :: rest) p Hr Hb Hu Hl ltac:(by left)) as (p1 & -> & Hl1 & Hu1 & Hb1). cbv [mbind option_bind]. cbn [app head_of tail Z.eqb Pos.eqb].
    assert (negb (head_of (list_text (r' :: rs) ++ 0 :: rest) =? 0) && negb (head_of (list_text (r' :: rs) ++ 0 :: rest) =? 10) = true) as ->.
    { apply Forall_cons in Hrs as [Hr' _]. destruct rs; cbn [list_text]; rewrite <- ?app_assoc; by apply (digit_goes_on bits). }
    destruct (IH ltac:(done) Hb fuel p1 ltac:(cbn in *; lia) Hu1 ltac:(lia)) as (p' & -> & Hl' & Hu' & Hb'). exists p'. split_and!; [done|lia|done|].
    intros i Hi. rewrite Hb', (Hone p1 Hb1) by done. rewrite (in_ranges_app [r] (r' :: rs)). tauto.
Qed.

Lemma list_text_long bits rs : ranges_ok bits rs -> bits < 2 ^ 31 -> (length rs <= length (list_text rs))%nat.
Proof.
  intros Hrs Hb. induction Hrs as [|r rs Hr _ IH]; [done|]. destruct (range_text_spec bits r Hr Hb) as (c & l & E & _).
  destruct rs as [|r' rs]; [cbn [list_text length]; rewrite E; cbn; lia|]. change (list_text (r :: r' :: rs)) with (range_text r ++ [44] ++ list_text (r' :: rs)).
  rewrite !length_app, E. cbn [length] in *. lia.
Qed.

(** Printing a bitmap with a bit set, and parsing the text when all of it was
    stored.  The value returned is the number of characters stored, also when
    more did not fit (the comment says the number that would be generated). *)
Lemma list_printed (buf buflen : Z) (mem : list Z) (m m0 : bitmap) (nmaskbits : Z) :
  holds nmaskbits m -> holds nmaskbits m0 -> nmaskbits < 32 * Z.of_nat (length m) -> (∃ i, 0 <= i < nmaskbits ∧ bit m i = true) ->
  buffer_ok buf buflen mem -> 2 <= buflen ->
  ∃ rs, ranges_ok nmaskbits rs ∧ (∀ i, 0 <= i < nmaskbits -> bit m i = true <-> in_ranges rs i) ∧
    bitmap_scnlistprintf buf buflen mem m nmaskbits = Some (shown buflen (list_text rs), stored buflen (list_text rs) mem) ∧
    (Z.of_nat (length (list_text rs)) < buflen ->
      ∃ m', bitmap_parselist (stored buflen (list_text rs) mem) m0 nmaskbits = Some (0, m') ∧ ∀ i, 0 <= i < nmaskbits -> bit m' i = bit m i).
Proof.
  intros (Hr & Hlm & Hu) H0 Hread (i0 & Hi0 & Hset) Hok H2. pose proof Hok as (Hs & _ & Hmem).
  destruct (find_first_spec m Hu nmaskbits ltac:(lia)) as (cur & Ef & Hc1 & Hc2 & Hc3).
  destruct (scnlist_spec buf buflen mem Hok H2 m nmaskbits Hu ltac:(lia) ltac:(lia) (Z.to_nat nmaskbits) [] cur cur) as (rs & Hrs & Hbits & El); [|lia|].
  { split_and!; try lia; try constructor; try done. - intros Hc i Hi. replace i with cur by lia. by apply Hc3.
    - intros Hb. by rewrite Hc2 in Hb by lia. - intros (r & Hin & _). by apply not_elem_of_nil in Hin. }
  exists rs. split_and!; [done|done| |].
  - unfold bitmap_scnlistprintf. rewrite (proj2 (Z.eqb_neq buflen 0)) by lia. destruct mem as [|x mem]; [cbn in Hmem; lia|]. cbv [mbind option_bind]. rewrite Ef. rewrite <- El.
    cbn [list_text]. f_equal; [unfold shown; cbn [length]; lia|]. rewrite stored_pos by lia. rewrite take_nil. cbn [app length]. by rewrite Nat.min_0_r.
  - intros Hlen. unfold bitmap_parselist. destruct (bitmap_zero_spec nmaskbits m0 H0 ltac:(lia)) as (z & -> & (_ & Hlz & Huz) & Hzb). cbv [mbind option_bind].
    pose proof (longs_bounds nmaskbits ltac:(lia)) as (Hlb & _). pose proof (list_text_long nmaskbits rs Hrs ltac:(lia)) as Hlong.
    rewrite stored_pos, take_ge by lia. set (rest := drop _ mem).
    destruct (parse_ranges nmaskbits rest rs Hrs) with (fuel := S (length (list_text rs ++ 0 :: rest))) (p := z) as (m' & -> & _ & _ & Hb'); [|lia|rewrite length_app; lia|done|lia|].
    { intros ->. apply Hbits in Hset as (r & Hin & _); [|done]. by apply not_elem_of_nil in Hin. }
    exists m'. split; [done|]. intros i Hi. apply eq_true_iff_eq. rewrite Hb', Hbits by lia. rewrite Hzb by done. naive_solver.
Qed.

(** C38: the list format, for a bitmap with at least one bit set (and, as the
    search reads the byte behind the last bit, a word behind it when its size
    is a multiple of 32) and a buffer of at least two characters.
    bitmap_scnlistprintf stores what fits of the text of a list of ranges that
    hold exactly the set bits; when all of it fits, it returns its length and
    bitmap_parselist reads the buffer back to the same bits, whatever the
    bitmap it reads into held. *)
Theorem bitmap_list_round_trip (buf buflen : Z) (mem : list Z) (m m0 : bitmap) (nmaskbits : Z) :
  holds nmaskbits m -> holds nmaskbits m0 -> nmaskbits < 32 * Z.of_nat (length m) -> (∃ i, 0 <= i < nmaskbits ∧ bit m i = true) ->
  buffer_ok buf buflen mem -> 2 <= buflen ->
  ∃ rs r, ranges_ok nmaskbits rs ∧ (∀ i, 0 <= i < nmaskbits -> bit m i = true <-> in_ranges rs i) ∧
    bitmap_scnlistprintf buf buflen mem m nmaskbits = Some (r, stored buflen (list_text rs) mem) ∧
    (Z.of_nat (length (list_text rs)) < buflen ->
      r = Z.of_nat (length (list_text rs)) ∧
      ∃ m', bitmap_parselist (stored buflen (list_text rs) mem) m0 nmaskbits = Some (0, m') ∧ ∀ i, 0 <= i < nmaskbits -> bit m' i = bit m i).
Proof.
  intros Hm H0 Hread Hset Hok H2. destruct (list_printed buf buflen mem m m0 nmaskbits Hm H0 Hread Hset Hok H2) as (rs & Hrs & Hbits & Hrun & Hparse).
  exists rs, (shown buflen (list_text rs)). split_and!; [done..|]. intros Hlen. split; [unfold shown; lia|by apply Hparse].
Qed.

Module BitmapListDemo.

Definition m40 : bitmap := [0x800000ff; 0xfffffff5].

Lemma bitmap_list_round_trip_witness : holds 40 m40 ∧ ∃ rs r, ranges_ok 40 rs ∧ (∀ i, 0 <= i < 40 -> bit m40 i = true <-> in_ranges rs i) ∧
  bitmap_scnlistprintf 0xC0000000 20 (repeat 7 20) m40 40 = Some (r, stored 20 (list_text rs) (repeat 7 20)) ∧
  (Z.of_nat (length (list_text rs)) < 20 ->
    r = Z.of_nat (length (list_text rs)) ∧
    ∃ m', bitmap_parselist (stored 20 (list_text rs) (repeat 7 20)) [5; 6] 40 = Some (0, m') ∧ ∀ i, 0 <= i < 40 -> bit m' i = bit m40 i).
Proof.
  assert (holds 40 m40 ∧ holds 40 [5; 6]) as [H1 H2].
  { split; (split; [lia|split; [vm_compute; discriminate|]]); repeat constructor; vm_compute; done. }
  split; [done|]. apply (bitmap_list_round_trip 0xC0000000 20 (repeat 7 20) m40 [5; 6] 40); [done|done|cbn; lia|exists 34; split; [lia|reflexivity]|split_and!; vm_compute; done|lia].
Defined.

End BitmapListDemo.
