(* ===== verification/BitmapRemap.v ===== *)
(** lib/bitmap.c: bitmap_pos_to_ord, bitmap_ord_to_pos, bitmap_remap and
    bitmap_bitremap, on the searches of BitmapList.v. *)

From S2P Require Import Prelude Bitops Bitmap Vsprintf BitmapText BitmapList.

(** * Positions and ordinals *)

(** test_bit of include/asm-generic/bitops/non-atomic.h *)
Definition test_bit (nr : Z) (p : bitmap) : option bool :=
  w ← p !! Z.to_nat (Z.shiftr nr 5); Some (negb (Z.land 1 (Z.shiftr w (Z.land nr 31)) =? 0)).

(** [while (i < pos)], and the BUG_ON behind it. *)
Fixpoint pos_to_ord_loop (fuel : nat) (buf : bitmap) (bits i pos ord : Z) : option Z :=
  if i <? pos then
    match fuel with
    | O => None
    | S fuel => i ← find_next_bit buf bits (i + 1); pos_to_ord_loop fuel buf bits i pos (ord + 1)
    end
  else if i =? pos then Some ord else None.

Definition bitmap_pos_to_ord (buf : bitmap) (pos bits : Z) : option Z :=
  if (pos <? 0) || (bits <=? pos) then Some (- 1)
  else
    t ← test_bit pos buf;
    if negb t then Some (- 1)
    else i ← find_first_bit buf bits; pos_to_ord_loop (Z.to_nat bits) buf bits i pos 0.

(** [for (i = ...; i < bits && ord > 0; i = ...) ord--] and what follows. *)
Fixpoint ord_to_pos_loop (fuel : nat) (buf : bitmap) (bits i ord : Z) : option Z :=
  if (i <? bits) && (0 <? ord) then
    match fuel with
    | O => None
    | S fuel => i ← find_next_bit buf bits (i + 1); ord_to_pos_loop fuel buf bits i (ord - 1)
    end
  else Some (if (i <? bits) && (ord =? 0) then i else 0).

Definition bitmap_ord_to_pos (buf : bitmap) (ord bits : Z) : option Z :=
  if (0 <=? ord) && (ord <? bits) then i ← find_first_bit buf bits; ord_to_pos_loop (Z.to_nat bits) buf bits i ord
  else Some 0.

(** * Remapping *)

(** The position [oldbit] is mapped to; [w] is the weight of [new]. *)
Definition remap_pos (old new : bitmap) (w bits oldbit : Z) : option Z :=
  n ← bitmap_pos_to_ord old oldbit bits;
  if (n <? 0) || (w =? 0) then Some oldbit else bitmap_ord_to_pos new (Z.rem n w) bits.

(** [old] and [new] may be [dst] itself, which the loop changes. *)
Fixpoint remap_loop (fuel : nat) (src : bitmap) (old new : operand) (w bits oldbit : Z) (dst : bitmap) : option bitmap :=
  if oldbit <? bits then
    match fuel with
    | O => None
    | S fuel =>
        p ← remap_pos (opnd dst old) (opnd dst new) w bits oldbit;
        dst ← set_bit p dst;
        oldbit ← find_next_bit src bits (oldbit + 1);
        remap_loop fuel src old new w bits oldbit dst
    end
  else Some dst.

(** [Dst] for [src] is the test [dst == src]. *)
Definition bitmap_remap (dst : bitmap) (src old new : operand) (bits : Z) : option bitmap :=
  match src with
  | Dst => Some dst
  | Own src =>
      dst ← bitmap_zero dst bits;
      w ← bitmap_weight (opnd dst new) bits;
      oldbit ← find_first_bit src bits;
      remap_loop (Z.to_nat bits) src old new w bits oldbit dst
  end.

Definition bitmap_bitremap (oldbit : Z) (old new : bitmap) (bits : Z) : option Z :=
  w ← bitmap_weight new bits; remap_pos old new w bits oldbit.

(** The example of the comment: 4..7 to 12..15. *)
Example remap_comment : bitmap_remap [0; 0] (Own [0xa2; 0]) (Own [0xf0; 0]) (Own [0xf000; 0]) 32 = Some [0xa002; 0].
Proof. vm_compute. reflexivity. Qed.

(** * Ranks *)

(** The number of bits set below position [i]. *)
Definition rank (m : bitmap) (i : Z) : Z := bits_set (Z.to_nat i) m.

Lemma rank_step m i : 0 <= i -> rank m (i + 1) = rank m i + Z.b2z (bit m i).
Proof. intros Hi. unfold rank. replace (Z.to_nat (i + 1)) with (S (Z.to_nat i)) by lia. cbn [bits_set]. by rewrite Z2Nat.id by lia. Qed.
Lemma rank_gap m i j : 0 <= i <= j -> (∀ k, i <= k < j -> bit m k = false) -> rank m j = rank m i.
Proof.
  intros Hij. replace j with (i + Z.of_nat (Z.to_nat (j - i))) by lia. generalize (Z.to_nat (j - i)) as n. induction n as [|n IH]; intros Hk; [by rewrite Z.add_0_r|].
  replace (i + Z.of_nat (S n)) with (i + Z.of_nat n + 1) by lia. rewrite rank_step, Hk by lia. cbn [Z.b2z]. rewrite IH; [lia|]. intros k Hk'. apply Hk. lia.
Qed.
Lemma rank_mono m i j : 0 <= i <= j -> rank m i <= rank m j.
Proof.
  intros Hij. replace j with (i + Z.of_nat (Z.to_nat (j - i))) by lia. generalize (Z.to_nat (j - i)) as n. induction n as [|n IH]; [rewrite Z.add_0_r; lia|].
  replace (i + Z.of_nat (S n)) with (i + Z.of_nat n + 1) by lia. rewrite rank_step by lia. destruct (bit m _); cbn [Z.b2z]; lia.
Qed.
(** Set bits have different ranks. *)
Lemma rank_inj m i j : 0 <= i -> 0 <= j -> bit m i = true -> bit m j = true -> rank m i = rank m j -> i = j.
Proof.
  intros Hi Hj Hbi Hbj E. destruct (Z.lt_trichotomy i j) as [H|[H|H]]; [|done|]; exfalso.
  - pose proof (rank_mono m (i + 1) j ltac:(lia)) as Hm. rewrite rank_step, Hbi in Hm by lia. cbn [Z.b2z] in Hm. lia.
  - pose proof (rank_mono m (j + 1) i ltac:(lia)) as Hm. rewrite rank_step, Hbj in Hm by lia. cbn [Z.b2z] in Hm. lia.
Qed.
(** There is a bit for every rank below the weight. *)
Lemma rank_exists m bits r : 0 <= bits -> 0 <= r < rank m bits -> ∃ i, 0 <= i < bits ∧ bit m i = true ∧ rank m i = r.
Proof.
  intros Hb. rewrite <- (Z2Nat.id bits) by done. generalize (Z.to_nat bits) as n. induction n as [|n IH]; intros Hr; [change (rank m (Z.of_nat 0)) with 0 in Hr; lia|].
  replace (Z.of_nat (S n)) with (Z.of_nat n + 1) in * by lia. rewrite rank_step in Hr by lia. destruct (Z.ltb_spec r (rank m (Z.of_nat n))) as [Hlt|Hge].
  - destruct (IH ltac:(lia)) as (i & Hi & ?). exists i. split; [lia|done].
  - destruct (bit m (Z.of_nat n)) eqn:E; cbn [Z.b2z] in Hr; [|lia]. exists (Z.of_nat n). split_and!; [lia|lia|done|lia].
Qed.

Lemma test_bit_spec m i : 0 <= i < 32 * Z.of_nat (length m) -> test_bit i m = Some (bit m i).
Proof.
  intros Hi. unfold test_bit, bit. rewrite Z.shiftr_div_pow2 by lia. change (2 ^ 5) with 32. destruct (lookup_lt_is_Some_2 m (Z.to_nat (i / 32))) as [w Ew]; [dlia|].
  rewrite Ew. cbv [mbind option_bind]. rewrite (list_lookup_total_correct _ _ _ Ew). f_equal.
  assert (Z.land i 31 = i mod 32) as -> by (change 31 with (Z.ones 5); by rewrite Z.land_ones by lia). rewrite Z.land_comm. change 1 with (Z.ones 1) at 1.
  rewrite Z.land_ones by lia. change (2 ^ 1) with 2. rewrite <- Z.bit0_mod, Z.shiftr_spec, Z.add_0_l by lia. by destruct (Z.testbit w (i mod 32)).
Qed.

Section ordinals.
  Context (m : bitmap) (bits : Z) (Hh : holds bits m) (Hread : bits < 32 * Z.of_nat (length m)).

Lemma pos_loop fuel : ∀ i pos ord, 0 <= i <= pos -> pos < bits -> bit m i = true -> bit m pos = true -> ord = rank m i -> pos - i <= Z.of_nat fuel ->
  pos_to_ord_loop fuel m bits i pos ord = Some (rank m pos).
Proof using Hh Hread.
  destruct Hh as (Hb & _ & Hu). induction fuel as [|fuel IH]; intros i pos ord Hi Hp Hbi Hbp -> Hfuel; cbn [pos_to_ord_loop]; destruct (Z.ltb_spec i pos) as [Hlt|Hge]; try lia.
  1, 3: replace i with pos by lia; by rewrite Z.eqb_refl.
  destruct (find_next_spec m Hu bits (i + 1) ltac:(lia) ltac:(lia)) as (r & -> & Hr1 & Hr2 & Hr3). cbv [mbind option_bind].
  assert (r <= pos) as Hrp. { destruct (Z.leb_spec r pos); [done|]. rewrite Hr2 in Hbp by lia. done. }
  apply IH; [lia|lia|apply Hr3; lia|done| |lia]. rewrite (rank_gap m (i + 1) r), rank_step, Hbi; [done|lia|lia|]. intros k Hk. apply Hr2; lia.
Qed.

Lemma pos_to_ord_spec pos : 0 <= pos -> bitmap_pos_to_ord m pos bits = Some (if (pos <? bits) && bit m pos then rank m pos else - 1).
Proof using Hh Hread.
  intros Hp. pose proof Hh as (Hb & _ & Hu). unfold bitmap_pos_to_ord. rewrite (proj2 (Z.ltb_ge pos 0)) by lia. cbn [orb].
  destruct (Z.leb_spec bits pos) as [Hge|Hlt]; [by rewrite (proj2 (Z.ltb_ge pos bits)) by lia|]. rewrite (proj2 (Z.ltb_lt pos bits)) by lia. rewrite test_bit_spec by lia.
  cbv [mbind option_bind]. cbn [andb]. destruct (bit m pos) eqn:Eb; cbn [negb]; [|done].
  destruct (find_first_spec m Hu bits ltac:(lia)) as (r & -> & Hr1 & Hr2 & Hr3).
  assert (r <= pos) as Hrp. { destruct (Z.leb_spec r pos); [done|]. rewrite Hr2 in Eb by lia. done. }
  apply pos_loop; [lia|lia|apply Hr3; lia|done| |lia]. rewrite (rank_gap m 0 r); [done|lia|]. intros k Hk. apply Hr2; lia.
Qed.

Lemma ord_loop fuel ord0 : 0 <= ord0 -> ∀ i ord, 0 <= i -> 0 <= ord -> rank m (Z.min i bits) + ord = ord0 -> (i < bits -> bit m i = true) -> bits - i <= Z.of_nat fuel ->
  ∃ p, ord_to_pos_loop fuel m bits i ord = Some p ∧ (ord0 < rank m bits -> 0 <= p < bits ∧ bit m p = true ∧ rank m p = ord0).
Proof using Hh Hread.
  destruct Hh as (Hb & _ & Hu). intros H0. induction fuel as [|fuel IH]; intros i ord Hi Ho Hr Hbi Hfuel; cbn [ord_to_pos_loop];
    destruct (Z.ltb_spec i bits) as [Hlt|Hge], (Z.ltb_spec 0 ord) as [Hp|Hz]; try lia; cbn [andb].
  1, 2, 4, 5, 6: eexists; split; [done|]; intros Hw; rewrite ?Z.min_l, ?Z.min_r in Hr by lia.
  1, 2, 4, 5: exfalso; lia.
  - assert (ord = 0) as -> by lia. cbn [Z.eqb]. split_and!; [lia|lia|auto|lia].
  - destruct (find_next_spec m Hu bits (i + 1) ltac:(lia) ltac:(lia)) as (r & -> & Hr1 & Hr2 & Hr3). cbv [mbind option_bind].
    apply IH; [lia|lia| |done|lia]. rewrite Z.min_l in Hr by lia. rewrite (rank_gap m (i + 1) (Z.min r bits)), rank_step, Hbi by (lia || (intros k Hk; apply Hr2; lia)).
    cbn [Z.b2z]. lia.
Qed.

Lemma ord_to_pos_spec ord : 0 <= ord < rank m bits -> ∃ p, bitmap_ord_to_pos m ord bits = Some p ∧ 0 <= p < bits ∧ bit m p = true ∧ rank m p = ord.
Proof using Hh Hread.
  intros Ho. pose proof Hh as (Hb & _ & Hu). unfold bitmap_ord_to_pos. pose proof (bits_set_range (Z.to_nat bits) m) as Hw. fold (rank m bits) in Hw.
  rewrite (proj2 (Z.leb_le 0 ord)), (proj2 (Z.ltb_lt ord bits)) by lia. cbn [andb]. destruct (find_first_spec m Hu bits ltac:(lia)) as (r & -> & Hr1 & Hr2 & Hr3).
  cbv [mbind option_bind]. destruct (ord_loop (Z.to_nat bits) ord ltac:(lia) r ord) as (p & -> & Hp); [lia|lia| |done|lia|].
  - rewrite (rank_gap m 0 (Z.min r bits)); [change (rank m 0) with 0; lia|lia|]. intros k Hk. apply Hr2; lia.
  - exists p. split; [done|]. apply Hp. lia.
Qed.
End ordinals.

(** * The map *)

(** The [n]-th bit of [old] goes to the bit [n] modulo the weight of [new] of
    [new]; other positions stay. *)
Definition maps (old new : bitmap) (bits i j : Z) : Prop :=
  if bit old i && (0 <? rank new bits) then 0 <= j < bits ∧ bit new j = true ∧ rank new j = rank old i mod rank new bits else j = i.

(** A bitmap of [bits] bits that can be searched from its end on. *)
Definition searchable (bits : Z) (m : bitmap) : Prop := holds bits m ∧ bits < 32 * Z.of_nat (length m).

Lemma maps_functional old new bits i j j' : maps old new bits i j -> maps old new bits i j' -> j = j'.
Proof.
  unfold maps. destruct (_ && _); [|by intros -> ->]. intros (Hj & Hbj & Hr) (Hj' & Hbj' & Hr'). apply (rank_inj new); (done || lia).
Qed.

Section remapping.
  Context (bits : Z) (src old new : bitmap).
  Context (Hsrc : searchable bits src) (Hold : searchable bits old) (Hnew : searchable bits new).

Lemma remap_pos_spec i : 0 <= i < bits -> ∃ j, remap_pos old new (rank new bits) bits i = Some j ∧ 0 <= j < bits ∧ maps old new bits i j.
Proof using Hold Hnew.
  intros Hi. destruct Hold as [Ho1 Ho2], Hnew as [Hn1 Hn2]. unfold remap_pos, maps. rewrite (pos_to_ord_spec old bits Ho1 Ho2) by lia. cbv [mbind option_bind].
  rewrite (proj2 (Z.ltb_lt i bits)) by lia. cbn [andb]. pose proof (bits_set_range (Z.to_nat bits) new) as Hw. fold (rank new bits) in Hw.
  destruct (bit old i) eqn:Eb; cbn [andb]; [|by exists i].
  pose proof (bits_set_range (Z.to_nat i) old) as Hr. fold (rank old i) in Hr. rewrite (proj2 (Z.ltb_ge (rank old i) 0)) by lia. cbn [orb].
  destruct (Z.eqb_spec (rank new bits) 0) as [E|E]; [rewrite (proj2 (Z.ltb_ge _ _)) by lia; by exists i|]. rewrite (proj2 (Z.ltb_lt 0 _)) by lia.
  rewrite Z.rem_mod_nonneg by lia. destruct (ord_to_pos_spec new bits Hn1 Hn2 (rank old i mod rank new bits)) as (p & -> & Hp & Hbp & Hrp); [apply Z.mod_pos_bound; lia|].
  exists p. split_and!; done || lia.
Qed.

Lemma remap_loop_spec fuel : ∀ oldbit dst, 0 <= oldbit -> (oldbit < bits -> bit src oldbit = true) -> Forall (in_u 32) dst -> bits <= 32 * Z.of_nat (length dst) -> bits - oldbit <= Z.of_nat fuel ->
  ∃ dst', remap_loop fuel src (Own old) (Own new) (rank new bits) bits oldbit dst = Some dst' ∧
    ∀ j, 0 <= j < bits -> bit dst' j = true <-> bit dst j = true ∨ ∃ i, oldbit <= i < bits ∧ bit src i = true ∧ maps old new bits i j.
Proof using Hsrc Hold Hnew.
  induction fuel as [|fuel IH]; intros oldbit dst H0 Hset Hu Hl Hfuel; cbn [remap_loop opnd]; destruct (Z.ltb_spec oldbit bits) as [Hlt|Hge]; try lia.
  1, 3: exists dst; split; [done|]; intros j Hj; split; [by left|]; intros [?|(i & Hi & _)]; [done|lia].
  destruct (remap_pos_spec oldbit ltac:(lia)) as (p & -> & Hp & Hmap). cbv [mbind option_bind]. destruct (set_bit_spec p dst Hu ltac:(lia)) as (d1 & -> & Hl1 & Hu1 & Hb1).
  destruct Hsrc as [(Hrng & _ & Hus) Hr]. destruct (find_next_spec src Hus bits (oldbit + 1) ltac:(lia) ltac:(lia)) as (r & -> & Hr1 & Hr2 & Hr3).
  destruct (IH r d1 ltac:(lia) Hr3 Hu1 ltac:(lia) ltac:(lia)) as (dst' & -> & Hd). exists dst'. split; [done|]. intros j Hj. rewrite Hd, Hb1 by lia. rewrite orb_true_iff, Z.eqb_eq. split.
  - intros [[-> |?]|(i & Hi & Hbi & Hm)]; [right; exists oldbit; split_and!; (lia || auto)|by left|right; exists i; split_and!; (lia || done)].
  - intros [?|(i & Hi & Hbi & Hm)]; [by left; right|]. destruct (Z.eqb_spec i oldbit) as [->|Hne].
    + left. left. by apply (maps_functional old new bits oldbit).
    + right. exists i. split_and!; [|lia|done|done]. destruct (Z.leb_spec r i); [done|]. rewrite Hr2 in Hbi by lia. done.
Qed.
End remapping.

(** C39: bitmap_remap moves the bits of [src] as its comment says: the result has
    exactly the bits that the bits of [src] are mapped to, where the position of
    the n-th bit of [old] goes to that of the (n mod w)-th bit of [new], w the
    weight of [new], and every other position to itself, also when [old] or
    [new] is empty; with [dst] as its source it does nothing; bitmap_bitremap computes this map.  (As for the list format,
    the searches need the byte behind the bitmaps; [dst] is not [old] or
    [new].) *)
Theorem bitmap_remap_correct (dst src old new : bitmap) (bits : Z) :
  0 < bits -> holds bits dst -> searchable bits src -> searchable bits old -> searchable bits new ->
  bitmap_remap dst Dst (Own old) (Own new) bits = Some dst ∧
  (∃ dst', bitmap_remap dst (Own src) (Own old) (Own new) bits = Some dst' ∧
    ∀ j, 0 <= j < bits -> bit dst' j = true <-> ∃ i, 0 <= i < bits ∧ bit src i = true ∧ maps old new bits i j) ∧
  (∀ i, 0 <= i < bits -> ∃ j, bitmap_bitremap i old new bits = Some j ∧ maps old new bits i j ∧ 0 <= j < bits ∧
    ∀ j', maps old new bits i j' -> j' = j).
Proof.
  intros Hb Hd Hsrc Hold Hnew. pose proof (bitmap_weight_spec bits new (proj1 Hnew)) as Ew. fold (rank new bits) in Ew. split; [done|]. split.
  - unfold bitmap_remap. destruct (bitmap_zero_spec bits dst Hd Hb) as (z & -> & (_ & Hlz & Huz) & Hz). cbv [mbind option_bind]. cbn [opnd]. rewrite Ew.
    pose proof (longs_bounds bits ltac:(lia)) as (Hlb & _). destruct Hsrc as [Hs1 Hs2]. pose proof Hs1 as (Hr & _ & Hus). 
    destruct (find_first_spec src Hus bits ltac:(lia)) as (r & -> & Hr1 & Hr2 & Hr3).
    destruct (remap_loop_spec bits src old new (conj Hs1 Hs2) Hold Hnew (Z.to_nat bits) r z Hr1 Hr3 Huz ltac:(lia) ltac:(lia)) as (dst' & -> & Hd'). exists dst'. split; [done|].
    intros j Hj. rewrite Hd' by done. rewrite Hz by done. split; [intros [?|(i & Hi & Hbi & Hm)]; [done|]; exists i; split_and!; (lia || done)|].
    intros (i & Hi & Hbi & Hm). right. exists i. split_and!; [|lia|done|done]. destruct (Z.leb_spec r i); [done|]. rewrite Hr2 in Hbi by lia. done.
  - intros i Hi. unfold bitmap_bitremap. rewrite Ew. cbv [mbind option_bind]. destruct (remap_pos_spec bits old new Hold Hnew i Hi) as (j & -> & Hj & Hm). exists j.
    split_and!; [done|done|lia|lia|]. intros j' Hm'. by apply (maps_functional old new bits i).
Qed.

Module RemapDemo.

(** With [new] in [dst] the range of the map is cleared first, and the map is
    the identity; so it is with [old] in [dst], whose domain is cleared. *)
Example remap_into_new : bitmap_remap [0xf000; 0] (Own [0xa2; 0]) (Own [0xf0; 0]) Dst 32 = Some [0xa2; 0].
Proof. vm_compute. reflexivity. Qed.
Example remap_into_old : bitmap_remap [0xf0; 0] (Own [0xa2; 0]) Dst (Own [0xf000; 0]) 32 = Some [0xa2; 0].
Proof. vm_compute. reflexivity. Qed.

Definition src : bitmap := [0xa2; 0].
Definition old : bitmap := [0xf0; 0].
Definition new : bitmap := [0xf000; 0].

Lemma bitmap_remap_correct_witness : searchable 32 src ∧ searchable 32 old ∧ searchable 32 new ∧ ∃ j, bitmap_bitremap 5 old new 32 = Some j ∧ maps old new 32 5 j ∧ 0 <= j < 32 ∧
  ∀ j', maps old new 32 5 j' -> j' = j.
Proof.
  assert (∀ x, in_u 32 x -> searchable 32 [x; 0]) as Hs by (intros x Hx; split; [split_and!; [lia|lia|vm_compute; discriminate|apply Forall_cons_2; [done|by apply Forall_cons_2]]|cbn; lia]).
  pose proof (Hs 0xa2 ltac:(done)) as H1. pose proof (Hs 0xf0 ltac:(done)) as H2. pose proof (Hs 0xf000 ltac:(done)) as H3. split_and!; [done|done|done|].
  apply (bitmap_remap_correct [0; 0] src old new 32); [lia|exact (proj1 (Hs 0 ltac:(done)))|done|done|done|lia].
Defined.

End RemapDemo.
