(* ===== verification/Rbtree.v ===== *)
(** lib/rbtree.c and include/linux/rbtree.h: red-black trees.

    The nodes live in a memory from addresses to structures; a node keeps the
    address of its parent and its colour in one word, the colour in the lowest
    bit.  NULL is address 0.  The source writes most code twice, for left and
    for right, as exact mirror images: here it is written once, for a side. *)

From S2P Require Import Prelude.

(** * Data *)

Inductive side := L | R.
#[export] Instance side_eq_dec : EqDecision side.
Proof. solve_decision. Defined.
Definition opp (d : side) : side := match d with L => R | R => L end.

Record rb_node := RbNode { rb_parent_color : Z; rb_right : Z; rb_left : Z }.

(** The root pointer and the memory. *)
Record rbs := Rbs { root_node : Z; mem : gmap Z rb_node }.

Definition RB_RED : Z := 0.
Definition RB_BLACK : Z := 1.

(** The field [rb_left] or [rb_right]. *)
Definition child (d : side) (n : rb_node) : Z := match d with L => rb_left n | R => rb_right n end.
Definition with_child (d : side) (v : Z) (n : rb_node) : rb_node :=
  match d with L => RbNode (rb_parent_color n) (rb_right n) v | R => RbNode (rb_parent_color n) v (rb_left n) end.
Definition with_pc (f : Z -> Z) (n : rb_node) : rb_node := RbNode (f (rb_parent_color n)) (rb_right n) (rb_left n).

(** Loads and stores; an address that is not a node faults. *)
Definition ld (x : Z) : Sf rbs rb_node := ftry (λ s, mem s !! x).
Definition st (x : Z) (f : rb_node -> rb_node) : Sf rbs unit :=
  n ← ld x; fmodify (λ s, Rbs (root_node s) (<[x := f n]> (mem s))).
Definition get_child (d : side) (x : Z) : Sf rbs Z := n ← ld x; mret (child d n).
Definition set_child (d : side) (x v : Z) : Sf rbs unit := st x (with_child d v).
Definition set_root (v : Z) : Sf rbs unit := fmodify (λ s, Rbs v (mem s)).

(** * Parent and colour *)

Definition rb_parent (x : Z) : Sf rbs Z := n ← ld x; mret (clr (rb_parent_color n) 3).
Definition rb_color (x : Z) : Sf rbs Z := n ← ld x; mret (Z.land (rb_parent_color n) 1).
Definition rb_is_red (x : Z) : Sf rbs bool := c ← rb_color x; mret (c =? 0).
Definition rb_is_black (x : Z) : Sf rbs bool := c ← rb_color x; mret (negb (c =? 0)).
Definition rb_set_red (x : Z) : Sf rbs unit := st x (with_pc (λ w, clr w 1)).
Definition rb_set_black (x : Z) : Sf rbs unit := st x (with_pc (λ w, Z.lor w 1)).
Definition rb_set_parent (x p : Z) : Sf rbs unit := st x (with_pc (λ w, Z.lor (Z.land w 3) p)).
Definition rb_set_color (x c : Z) : Sf rbs unit := st x (with_pc (λ w, Z.lor (clr w 1) c)).

(** [!x || rb_is_black(x)] and [x && rb_is_red(x)] *)
Definition null_or_black (x : Z) : Sf rbs bool := if x =? 0 then mret true else rb_is_black x.
Definition is_red_node (x : Z) : Sf rbs bool := if x =? 0 then mret false else rb_is_red x.

(** [rb_link]: the root pointer or a child field. *)
Inductive link := Root | Field (d : side) (x : Z).
Definition rb_link_node (node parent : Z) (l : link) : Sf rbs unit :=
  fmodify (λ s, Rbs (root_node s) (<[node := RbNode parent 0 0]> (mem s))) ;;
  match l with Root => set_root node | Field d x => set_child d x node end.

(** * Rotations *)

(** __rb_rotate_left for [L], __rb_rotate_right for [R]. *)
Definition rb_rotate (d : side) (node : Z) : Sf rbs unit :=
  right ← get_child (opp d) node;
  parent ← rb_parent node;
  inner ← get_child d right;
  set_child (opp d) node inner ;;
  fwhen (negb (inner =? 0)) (inner ← get_child d right; rb_set_parent inner node) ;;
  set_child d right node ;;
  rb_set_parent right parent ;;
  (if negb (parent =? 0) then
     pd ← get_child d parent;
     if node =? pd then set_child d parent right else set_child (opp d) parent right
   else set_root right) ;;
  rb_set_parent node right.

Definition rb_rotate_left_ : Z -> Sf rbs unit := rb_rotate L.
Definition rb_rotate_right_ : Z -> Sf rbs unit := rb_rotate R.

(** * Insertion *)

(** The loop, with its two mirrored bodies. *)
Fixpoint insert_loop (fuel : nat) (node : Z) : Sf rbs unit :=
  parent ← rb_parent node;
  red ← is_red_node parent;
  if negb red then mret tt
  else
    match fuel with
    | O => oops
    | S fuel =>
        gparent ← rb_parent parent;
        gl ← get_child L gparent;
        let d := if parent =? gl then L else R in
        uncle ← get_child (opp d) gparent;
        ured ← is_red_node uncle;
        if (ured : bool) then
          rb_set_black uncle ;;
          rb_set_black parent ;;
          rb_set_red gparent ;;
          insert_loop fuel gparent
        else
          inner ← get_child (opp d) parent;
          pn ← (if inner =? node then rb_rotate d parent ;; mret (node, parent) else mret (parent, node) : Sf rbs (Z * Z));
          rb_set_black pn.1 ;;
          rb_set_red gparent ;;
          rb_rotate (opp d) gparent ;;
          insert_loop fuel pn.2
    end.

Definition rb_insert_color (fuel : nat) (node : Z) : Sf rbs unit :=
  insert_loop fuel node ;;
  root ← fget root_node;
  rb_set_black root.

(** * Removal *)

(** The case that ends the loop: [other] has a red child. *)
Definition erase_last (d : side) (other parent : Z) : Sf rbs unit :=
  far ← get_child (opp d) other;
  fb ← null_or_black far;
  other ← (if (fb : bool) then
      near ← get_child d other;
      fwhen (negb (near =? 0)) (rb_set_black near) ;;
      rb_set_red other ;;
      rb_rotate (opp d) other ;;
      get_child (opp d) parent
    else mret other : Sf rbs Z);
  c ← rb_color parent;
  rb_set_color other c ;;
  rb_set_black parent ;;
  far ← get_child (opp d) other;
  fwhen (negb (far =? 0)) (rb_set_black far) ;;
  rb_rotate d parent.

(** The rest of an iteration, when [other] is black. *)
Definition erase_turn (again : Z -> Z -> Sf rbs Z) (d : side) (other parent : Z) : Sf rbs Z :=
  ol ← get_child L other;
  lb ← null_or_black ol;
  or ← get_child R other;
  rb ← (if (lb : bool) then null_or_black or else mret false : Sf rbs bool);
  if (rb : bool) then
    rb_set_red other ;;
    p ← rb_parent parent;
    again parent p
  else
    erase_last d other parent ;;
    fget root_node.

(** The loop of __rb_erase_color; returns [node]. *)
Fixpoint erase_loop (fuel : nat) (node parent : Z) : Sf rbs Z :=
  blk ← null_or_black node;
  root ← fget root_node;
  if negb (blk && negb (node =? root)) then mret node
  else
    match fuel with
    | O => oops
    | S fuel =>
        pl ← get_child L parent;
        let d := if pl =? node then L else R in
        other ← get_child (opp d) parent;
        ored ← rb_is_red other;
        other ← (if (ored : bool) then
            rb_set_black other ;;
            rb_set_red parent ;;
            rb_rotate d parent ;;
            get_child (opp d) parent
          else mret other : Sf rbs Z);
        erase_turn (erase_loop fuel) d other parent
    end.

Definition rb_erase_color_ (fuel : nat) (node parent : Z) : Sf rbs unit :=
  node ← erase_loop fuel node parent;
  fwhen (negb (node =? 0)) (rb_set_black node).

(** [while ((left = node->rb_left) != NULL) node = left;] *)
Fixpoint descend (d : side) (fuel : nat) (node : Z) : Sf rbs Z :=
  left ← get_child d node;
  if left =? 0 then mret node
  else match fuel with O => oops | S fuel => descend d fuel left end.

(** The parent of [old], or the root, points to [node] instead. *)
Definition relink (old parent node : Z) : Sf rbs unit :=
  if negb (parent =? 0) then
    pl ← get_child L parent;
    if pl =? old then set_child L parent node else set_child R parent node
  else set_root node.

Definition rb_erase (fuel : nat) (node : Z) : Sf rbs unit :=
  n ← ld node;
  if (rb_left n =? 0) || (rb_right n =? 0) then
    let chld := if rb_left n =? 0 then rb_right n else rb_left n in
    parent ← rb_parent node;
    color ← rb_color node;
    fwhen (negb (chld =? 0)) (rb_set_parent chld parent) ;;
    relink node parent chld ;;
    fwhen (color =? RB_BLACK) (rb_erase_color_ fuel chld parent)
  else
    let old := node in
    node ← descend L fuel (rb_right n);
    chld ← get_child R node;
    parent ← rb_parent node;
    color ← rb_color node;
    fwhen (negb (chld =? 0)) (rb_set_parent chld parent) ;;
    parent ← (if parent =? old then set_child R parent chld ;; mret node
              else set_child L parent chld ;; mret parent : Sf rbs Z);
    o ← ld old;
    st node (λ _, RbNode (rb_parent_color o) (rb_right o) (rb_left o)) ;;
    op ← rb_parent old;
    relink old op node ;;
    rb_set_parent (rb_left o) node ;;
    fwhen (negb (rb_right o =? 0)) (rb_set_parent (rb_right o) node) ;;
    fwhen (color =? RB_BLACK) (rb_erase_color_ fuel chld parent).

(** * Walking *)

(** rb_first for [L], rb_last for [R]. *)
Definition rb_extreme (d : side) (fuel : nat) : Sf rbs Z :=
  n ← fget root_node;
  if n =? 0 then mret 0 else descend d fuel n.

(** [while ((parent = rb_parent(node)) && node == parent->rb_right) node = parent;] *)
Fixpoint ascend (d : side) (fuel : nat) (node : Z) : Sf rbs Z :=
  parent ← rb_parent node;
  if parent =? 0 then mret 0
  else
    pd ← get_child d parent;
    if node =? pd then match fuel with O => oops | S fuel => ascend d fuel parent end
    else mret parent.

(** rb_next for [R], rb_prev for [L]. *)
Definition rb_neighbour (d : side) (fuel : nat) (node : Z) : Sf rbs Z :=
  parent ← rb_parent node;
  if parent =? node then mret 0
  else
    c ← get_child d node;
    if negb (c =? 0) then descend (opp d) fuel c
    else ascend d fuel node.

Definition rb_first : nat -> Sf rbs Z := rb_extreme L.
Definition rb_last : nat -> Sf rbs Z := rb_extreme R.
Definition rb_next : nat -> Z -> Sf rbs Z := rb_neighbour R.
Definition rb_prev : nat -> Z -> Sf rbs Z := rb_neighbour L.

Definition rb_replace_node (victim new : Z) : Sf rbs unit :=
  parent ← rb_parent victim;
  (if negb (parent =? 0) then
     pl ← get_child L parent;
     if victim =? pl then set_child L parent new else set_child R parent new
   else set_root new) ;;
  v ← ld victim;
  fwhen (negb (rb_left v =? 0)) (rb_set_parent (rb_left v) new) ;;
  fwhen (negb (rb_right v =? 0)) (rb_set_parent (rb_right v) new) ;;
  v ← ld victim;
  fmodify (λ s, Rbs (root_node s) (<[new := v]> (mem s))).
