(* ===== verification/RbtreeRep.v ===== *)
(** What a red-black tree in memory is, and what the operations of Rbtree.v do
    to it: trees and paths, their representation, and a pure counterpart of
    each operation that the memory operation is proved to carry out. *)

From S2P Require Import Prelude.
From S2P Require Import Rbtree.

(** * The word with parent and colour *)

Definition okp (x : Z) : Prop := 0 < x ∧ x mod 4 = 0.
Definition okp0 (x : Z) : Prop := x = 0 ∨ okp x.

(** [black] is the lowest bit. *)
Definition enc (p : Z) (black : bool) : Z := Z.lor p (Z.b2z black).

Lemma okp0_bits p i : okp0 p -> i < 2 -> Z.testbit p i = false.
Proof.
  intros Hp Hi. assert (p mod 2 ^ 2 = 0) as Hm by (destruct Hp as [->|[_ Hp]]; [done|exact Hp]).
  destruct (decide (i < 0)); [by apply Z.testbit_neg_r|]. apply (f_equal (λ z, Z.testbit z i)) in Hm.
  by rewrite Z.mod_pow2_bits_low, Z.bits_0 in Hm by lia.
Qed.

Lemma b2z_bits c i : 0 <= i -> Z.testbit (Z.b2z c) i = (i =? 0) && c.
Proof. intros Hi. destruct c; case_cmp; subst; try done; try (by rewrite Z.bits_0). change (Z.b2z true) with (BIT 0). rewrite BIT_testbit by lia. case_cmp; lia. Qed.

Lemma enc_bits p c i : okp0 p -> 0 <= i -> Z.testbit (enc p c) i = if i =? 0 then c else Z.testbit p i.
Proof.
  intros Hp Hi. unfold enc. rewrite Z.lor_spec, b2z_bits by done. case_cmp; subst; cbn [andb]; [|by rewrite orb_false_r].
  by rewrite (okp0_bits p 0) by (done || lia).
Qed.

Lemma bits_3 i : 0 <= i -> Z.testbit 3 i = (i <? 2).
Proof. intros Hi. change 3 with (Z.ones 2). rewrite Z.testbit_ones by lia. case_cmp; try lia; done. Qed.
Lemma bits_1 i : 0 <= i -> Z.testbit 1 i = (i =? 0).
Proof. intros Hi. rewrite (b2z_bits true) by done. by rewrite andb_true_r. Qed.

Section Word.
Context (p : Z) (c : bool) (Hp : okp0 p).
Ltac by_bits := apply Z.bits_inj'; intros i Hi; unfold clr;
  rewrite ?Z.ldiff_spec, ?Z.lor_spec, ?Z.land_spec, ?enc_bits, ?b2z_bits, ?bits_3, ?bits_1 by (assumption || lia);
  case_cmp; subst; rewrite ?andb_false_r, ?andb_true_r, ?orb_false_r, ?orb_true_r; cbn [negb andb orb]; try lia; try done.

Lemma enc_parent : clr (enc p c) 3 = p.
Proof. by_bits; by rewrite ?(okp0_bits p) by (done || lia). Qed.
Lemma enc_color : Z.land (enc p c) 1 = Z.b2z c.
Proof. by_bits. Qed.
Lemma enc_red : clr (enc p c) 1 = enc p false.
Proof. by_bits. Qed.
Lemma enc_black : Z.lor (enc p c) 1 = enc p true.
Proof. by_bits. Qed.
Lemma enc_set_color c' : Z.lor (clr (enc p c) 1) (Z.b2z c') = enc p c'.
Proof. rewrite enc_red. by_bits. Qed.
Lemma enc_set_parent q : okp0 q -> Z.lor (Z.land (enc p c) 3) q = enc q c.
Proof.
  intros Hq. apply Z.bits_inj'. intros i Hi. rewrite Z.lor_spec, Z.land_spec, !enc_bits, bits_3 by done.
  destruct (Z.ltb_spec i 2).
  - rewrite (okp0_bits p i), (okp0_bits q i) by done. case_cmp; destruct c; done.
  - rewrite andb_false_r. case_cmp; [lia|done].
Qed.
End Word.

(** * Trees and paths *)

Inductive tree := Leaf | Node (black : bool) (x : Z) (l r : tree).

Definition ptr (t : tree) : Z := match t with Leaf => 0 | Node _ x _ _ => x end.

Fixpoint inorder (t : tree) : list Z :=
  match t with Leaf => [] | Node _ x l r => inorder l ++ x :: inorder r end.

(** A node with the child on side [d] first. *)
Definition mk (d : side) (c : bool) (x : Z) (a b : tree) : tree :=
  match d with L => Node c x a b | R => Node c x b a end.

(** A step of the path to a subtree: the subtree is on side [f_side]. *)
Record frame := Frame { f_side : side; f_black : bool; f_addr : Z; f_sib : tree }.
Definition up (f : frame) (t : tree) : tree := mk (f_side f) (f_black f) (f_addr f) t (f_sib f).
Fixpoint fill (k : list frame) (t : tree) : tree := match k with [] => t | f :: k => fill k (up f t) end.
Definition par (k : list frame) : Z := match k with [] => 0 | f :: _ => f_addr f end.

(** The nodes of a path, and what comes before and after the subtree. *)
Fixpoint kaddrs (k : list frame) : list Z := match k with [] => [] | f :: k => f_addr f :: inorder (f_sib f) ++ kaddrs k end.
Fixpoint before (k : list frame) : list Z :=
  match k with [] => [] | f :: k => before k ++ match f_side f with L => [] | R => inorder (f_sib f) ++ [f_addr f] end end.
Fixpoint after (k : list frame) : list Z :=
  match k with [] => [] | f :: k => match f_side f with L => f_addr f :: inorder (f_sib f) | R => [] end ++ after k end.

Lemma inorder_fill k t : inorder (fill k t) = before k ++ inorder t ++ after k.
Proof.
  revert t. induction k as [|[d c x sib] k IH]; intros t; cbn [fill before after]; [by rewrite app_nil_r|].
  rewrite IH. destruct d; cbn; rewrite <- ?app_assoc; cbn; by rewrite ?app_nil_r, <- ?app_assoc.
Qed.

Lemma sides_perm k : before k ++ after k ≡ₚ kaddrs k.
Proof.
  induction k as [|[d c x sib] k IH]; [done|]. cbn [before after kaddrs f_side f_addr f_sib]. rewrite <- IH. destruct d; solve_Permutation.
Qed.

Lemma inorder_perm k t : inorder (fill k t) ≡ₚ inorder t ++ kaddrs k.
Proof. rewrite inorder_fill, <- sides_perm. solve_Permutation. Qed.

Lemma inorder_mk d c x a b : inorder (mk d c x a b) ≡ₚ x :: inorder a ++ inorder b.
Proof. destruct d; cbn; solve_Permutation. Qed.

Lemma ptr_mk d c x a b : ptr (mk d c x a b) = x.
Proof. by destruct d. Qed.

Lemma ptr_fill k t t' : (k = [] -> ptr t = ptr t') -> ptr (fill k t) = ptr (fill k t').
Proof.
  destruct k as [|f k]; [auto|]. intros _. cbn [fill]. revert f t t'. induction k as [|g k IH]; intros f t t'; cbn [fill].
  - unfold up. by rewrite !ptr_mk.
  - apply IH.
Qed.

Lemma ptr_fill_in k t : k <> [] -> ptr (fill k t) ∈ kaddrs k.
Proof.
  destruct k as [|f k]; [done|]. intros _. cbn [fill]. revert f t. induction k as [|g k IH]; intros f t; cbn [fill kaddrs].
  - unfold up. rewrite ptr_mk. by left.
  - right. apply elem_of_app. right. apply IH.
Qed.

(** * Representation *)

(** The structure of a node with the child on side [d] first. *)
Definition nd (d : side) (w a b : Z) : rb_node := match d with L => RbNode w b a | R => RbNode w a b end.

Fixpoint rep (m : gmap Z rb_node) (p : Z) (t : tree) : Prop :=
  match t with
  | Leaf => True
  | Node c x l r => m !! x = Some (RbNode (enc p c) (ptr r) (ptr l)) ∧ rep m x l ∧ rep m x r
  end.

(** The path to a subtree at [p]. *)
Fixpoint repk (m : gmap Z rb_node) (p : Z) (k : list frame) : Prop :=
  match k with
  | [] => True
  | Frame d c x sib :: k => m !! x = Some (nd d (enc (par k) c) p (ptr sib)) ∧ rep m x sib ∧ repk m x k
  end.

Definition fits (l : list Z) : Prop := NoDup l ∧ Forall okp l.

(** The tree [T] is what the root points to. *)
Definition Rep (s : rbs) (T : tree) : Prop := root_node s = ptr T ∧ rep (mem s) 0 T ∧ fits (inorder T).

Section Rep.
Implicit Types (s : rbs) (m : gmap Z rb_node) (t a b : tree) (k : list frame).

Lemma rep_mk m p d c x a b : rep m p (mk d c x a b) <-> m !! x = Some (nd d (enc p c) (ptr a) (ptr b)) ∧ rep m x a ∧ rep m x b.
Proof. destruct d; cbn; tauto. Qed.

Lemma rep_fill m k t : rep m 0 (fill k t) <-> rep m (par k) t ∧ repk m (ptr t) k.
Proof.
  revert t. induction k as [|[d c x sib] k IH]; intros t; cbn [fill repk par f_addr]; [tauto|].
  rewrite IH. unfold up. rewrite rep_mk, ptr_mk. cbn. tauto.
Qed.

Lemma rep_frame m m' p t : (∀ y, y ∈ inorder t -> m' !! y = m !! y) -> rep m p t -> rep m' p t.
Proof.
  revert p. induction t as [|c x l IHl r IHr]; intros p Hm; cbn; [done|]. intros (Hx & Hl & Hr). split_and!.
  - rewrite Hm; [done|]. cbn. set_solver.
  - apply IHl; [|done]. intros y Hy. apply Hm. cbn. set_solver.
  - apply IHr; [|done]. intros y Hy. apply Hm. cbn. set_solver.
Qed.

Lemma repk_frame m m' p k : (∀ y, y ∈ kaddrs k -> m' !! y = m !! y) -> repk m p k -> repk m' p k.
Proof.
  revert p. induction k as [|[d c x sib] k IH]; intros p Hm; cbn; [done|]. intros (Hx & Hs & Hk). split_and!.
  - rewrite Hm; [done|]. cbn. by left.
  - eapply rep_frame; [|done]. intros y Hy. apply Hm. cbn. set_solver.
  - apply IH; [|done]. intros y Hy. apply Hm. cbn. set_solver.
Qed.

Lemma fits_perm l l' : l ≡ₚ l' -> fits l -> fits l'.
Proof. intros Hp [Hn Hf]. split; by rewrite <- Hp. Qed.

Lemma par_ok k t : fits (inorder (fill k t)) -> okp0 (par k).
Proof.
  intros [_ Hf]. destruct k as [|f k]; [by left|right]. rewrite inorder_perm in Hf. rewrite Forall_forall in Hf. apply Hf. cbn. set_solver.
Qed.

(** The root of a subtree gets a new parent. *)
Definition reparent m t (p : Z) : gmap Z rb_node :=
  match t with Leaf => m | Node c x l r => <[x := RbNode (enc p c) (ptr r) (ptr l)]> m end.

Lemma reparent_ne m t p y : y ∉ inorder t -> reparent m t p !! y = m !! y.
Proof. destruct t as [|c x l r]; [done|]. intros Hy. cbn in *. apply lookup_insert_ne. set_solver. Qed.

Lemma rep_reparent m q t p : rep m q t -> NoDup (inorder t) -> rep (reparent m t p) p t.
Proof.
  destruct t as [|c x l r]; [done|]. cbn. intros (Hx & Hl & Hr) (Hnl & Hd & [Hxr Hnr]%NoDup_cons)%NoDup_app. split_and!.
  - by rewrite lookup_insert_eq.
  - eapply rep_frame; [|done]. intros y Hy. apply lookup_insert_ne. intros <-. apply (Hd x Hy). by left.
  - eapply rep_frame; [|done]. intros y Hy. apply lookup_insert_ne. by intros <-.
Qed.

(** The pointer to the subtree is changed. *)
Definition point k (v : Z) s : rbs :=
  match k with
  | [] => Rbs v (mem s)
  | Frame d c x sib :: k => Rbs (root_node s) (<[x := nd d (enc (par k) c) v (ptr sib)]> (mem s))
  end.

(** Putting another subtree in place. *)
Lemma splice s s' k t t' : Rep s (fill k t) -> fits (inorder (fill k t')) -> rep (mem s') (par k) t' ->
  root_node s' = root_node (point k (ptr t') s) ->
  (∀ y, y ∈ kaddrs k -> mem s' !! y = mem (point k (ptr t') s) !! y) -> Rep s' (fill k t').
Proof.
  intros (Hr & Hm & _) Hf Ht Hroot Hframe. split_and!; [|apply rep_fill; split; [done|]|done].
  - rewrite Hroot. destruct k as [|[d c x sib] k]; [done|]. cbn [point root_node]. rewrite Hr. by apply ptr_fill.
  - apply (repk_frame (mem (point k (ptr t') s))); [done|]. apply rep_fill in Hm as [_ Hk].
    destruct Hf as [Hnd _]. rewrite inorder_perm in Hnd. apply NoDup_app in Hnd as (_ & _ & Hnk).
    destruct k as [|[d c x sib] k]; [done|]. cbn in *. apply NoDup_cons in Hnk as [Hx _]. destruct Hk as (_ & Hs & Hk). split_and!.
    + apply lookup_insert_eq.
    + eapply rep_frame; [|done]. intros y Hy. apply lookup_insert_ne. set_solver.
    + eapply repk_frame; [|done]. intros y Hy. apply lookup_insert_ne. set_solver.
Qed.

(** What the memory holds at a node of the tree. *)
Lemma Rep_node s k d c x a b : Rep s (fill k (mk d c x a b)) -> mem s !! x = Some (nd d (enc (par k) c) (ptr a) (ptr b)).
Proof. intros (_ & Hm & _). apply rep_fill in Hm as [Hm _]. by apply rep_mk in Hm as [? _]. Qed.

Lemma Rep_par s k t : Rep s (fill k t) -> okp0 (par k).
Proof. intros (_ & _ & Hf). by eapply par_ok. Qed.

Lemma Rep_okp s k d c x a b : Rep s (fill k (mk d c x a b)) -> okp x.
Proof.
  intros (_ & _ & _ & Hf). rewrite inorder_perm, inorder_mk in Hf. by apply Forall_cons in Hf as [? _].
Qed.
End Rep.

(** * Runs of the loads and stores *)

Section Runs.
Implicit Types (s : rbs) (t : tree) (k : list frame).

Lemma child_nd d w a b : child d (nd d w a b) = a ∧ child (opp d) (nd d w a b) = b.
Proof. by destruct d. Qed.
Lemma with_child_nd d w a b v : with_child d v (nd d w a b) = nd d w v b ∧ with_child (opp d) v (nd d w a b) = nd d w a v.
Proof. by destruct d. Qed.
Lemma with_pc_nd d f w a b : with_pc f (nd d w a b) = nd d (f w) a b.
Proof. by destruct d. Qed.

Lemma ld_run s x n : mem s !! x = Some n -> ld x s = Some (n, s).
Proof. intros Hx. unfold ld, ftry. by rewrite Hx. Qed.
Lemma st_run s x f n : mem s !! x = Some n -> st x f s = Some (tt, Rbs (root_node s) (<[x := f n]> (mem s))).
Proof. intros Hx. unfold st. by rewrite (bind_run _ _ _ _ _ (ld_run _ _ _ Hx)). Qed.

Section At.
Context (s : rbs) (x : Z) (d : side) (p : Z) (c : bool) (a b : Z).
Context (Hx : mem s !! x = Some (nd d (enc p c) a b)).

Lemma get_near : get_child d x s = Some (a, s).
Proof. unfold get_child. rewrite (bind_run _ _ _ _ _ (ld_run _ _ _ Hx)). by destruct d. Qed.
Lemma get_far : get_child (opp d) x s = Some (b, s).
Proof. unfold get_child. rewrite (bind_run _ _ _ _ _ (ld_run _ _ _ Hx)). by destruct d. Qed.
Lemma set_near v : set_child d x v s = Some (tt, Rbs (root_node s) (<[x := nd d (enc p c) v b]> (mem s))).
Proof. unfold set_child. rewrite (st_run _ _ _ _ Hx). by destruct d. Qed.
Lemma set_far v : set_child (opp d) x v s = Some (tt, Rbs (root_node s) (<[x := nd d (enc p c) a v]> (mem s))).
Proof. unfold set_child. rewrite (st_run _ _ _ _ Hx). by destruct d. Qed.

Lemma color_run : okp0 p -> rb_color x s = Some (Z.b2z c, s).
Proof. intros Hp. unfold rb_color. rewrite (bind_run _ _ _ _ _ (ld_run _ _ _ Hx)). destruct d; cbn; by rewrite enc_color. Qed.
Lemma is_red_run : okp0 p -> rb_is_red x s = Some (negb c, s).
Proof. intros Hp. unfold rb_is_red. rewrite (bind_run _ _ _ _ _ (color_run Hp)). by destruct c. Qed.
Lemma is_black_run : okp0 p -> rb_is_black x s = Some (c, s).
Proof. intros Hp. unfold rb_is_black. rewrite (bind_run _ _ _ _ _ (color_run Hp)). by destruct c. Qed.
Lemma parent_run : okp0 p -> rb_parent x s = Some (p, s).
Proof. intros Hp. unfold rb_parent. rewrite (bind_run _ _ _ _ _ (ld_run _ _ _ Hx)). destruct d; cbn; by rewrite enc_parent. Qed.
Lemma set_parent_run q : okp0 p -> okp0 q -> rb_set_parent x q s = Some (tt, Rbs (root_node s) (<[x := nd d (enc q c) a b]> (mem s))).
Proof. intros Hp Hq. unfold rb_set_parent. rewrite (st_run _ _ _ _ Hx), with_pc_nd. by rewrite enc_set_parent. Qed.
End At.

Lemma okp_0 x : okp x -> okp0 x.
Proof. by right. Qed.

Lemma reparent_run s q t p : rep (mem s) q t -> Forall okp (inorder t) -> okp0 q -> okp0 p ->
  fwhen (negb (ptr t =? 0)) (rb_set_parent (ptr t) p) s = Some (tt, Rbs (root_node s) (reparent (mem s) t p)).
Proof.
  destruct t as [|c x l r]; cbn [ptr reparent]; [by destruct s|]. intros (Hx & _ & _) Hf Hq Hp.
  assert (okp x) as [Hpos _] by (rewrite Forall_forall in Hf; apply Hf; cbn; set_solver).
  destruct (Z.eqb_spec x 0); [lia|]. cbn [negb fwhen]. by rewrite (set_parent_run s x L q c (ptr l) (ptr r) Hx).
Qed.

(** Finding the pointer to a subtree, by either side of the parent. *)
Definition repoint (d : side) (old parent new : Z) : Sf rbs unit :=
  if negb (parent =? 0) then
    pd ← get_child d parent;
    if old =? pd then set_child d parent new else set_child (opp d) parent new
  else set_root new.

(** The node on the path keeps everything but the pointer. *)
Lemma repoint_run s d k x v : okp x -> NoDup (x :: kaddrs k) -> Forall okp (kaddrs k) ->
  (∀ f k', k = f :: k' -> mem s !! f_addr f = Some (nd (f_side f) (enc (par k') (f_black f)) x (ptr (f_sib f)))) ->
  repoint d x (par k) v s = Some (tt, point k v s).
Proof.
  intros Hx Hnd Hok Hk. unfold repoint. destruct k as [|[d' c' p sib] k]; [done|]. cbn [par f_addr] in *.
  apply Forall_cons in Hok as [[Hp _] _]. cbn in Hp. destruct (Z.eqb_spec p 0); [lia|]. cbn [negb].
  specialize (Hk _ _ eq_refl). cbn in Hk. cbn [kaddrs f_addr f_sib] in Hnd.
  assert (x <> ptr sib) as Hsib.
  { destruct sib as [|c y l r]; [destruct Hx as [Hx _]; cbn [ptr]; lia|]. cbn. intros <-. apply NoDup_cons in Hnd as [Hn _]. apply Hn. cbn. set_solver. }
  destruct (decide (d = d')) as [<-|Hd].
  - rewrite (bind_run _ _ _ _ _ (get_near _ _ _ _ _ _ _ Hk)), Z.eqb_refl. apply (set_near _ _ _ _ _ _ _ Hk).
  - assert (d = opp d') as -> by (by destruct d, d'). rewrite (bind_run _ _ _ _ _ (get_far _ _ _ _ _ _ _ Hk)).
    destruct (Z.eqb_spec x (ptr sib)); [done|]. replace (opp (opp d')) with d' by (by destruct d'). apply (set_near _ _ _ _ _ _ _ Hk).
Qed.
End Runs.

(** * Rotations *)

Section Rotate.
Implicit Types (s : rbs) (t a b : tree) (k : list frame).

(** Memory outside the nodes [l] is left alone. *)
Definition off (l : list Z) s s' : Prop := ∀ z, z ∉ l -> mem s' !! z = mem s !! z.

Lemma off_trans l l' s1 s2 s3 : l ≡ₚ l' -> off l s1 s2 -> off l' s2 s3 -> off l s1 s3.
Proof. intros Hl H1 H2 z Hz. rewrite H2, H1; [done|done|]. by rewrite <- Hl. Qed.

Lemma point_ne k v s z : z <> par k -> mem (point k v s) !! z = mem s !! z.
Proof. destruct k as [|[d c x sib] k]; [done|]. cbn. intros Hz. by apply lookup_insert_ne. Qed.

Lemma point_ext_at k v s s' z : mem s !! z = mem s' !! z -> mem (point k v s) !! z = mem (point k v s') !! z.
Proof.
  intros Hz. destruct k as [|[d c x sib] k]; [done|]. cbn.
  destruct (decide (x = z)) as [->|]; [by rewrite !lookup_insert_eq|by rewrite !lookup_insert_ne].
Qed.

Lemma par_in k : par k = 0 ∨ par k ∈ kaddrs k.
Proof. destruct k as [|[d c x sib] k]; [by left|right; by left]. Qed.

(** The pointers to a subtree in a represented tree. *)
Lemma repk_frame_at m x k : repk m x k -> ∀ f k', k = f :: k' -> m !! f_addr f = Some (nd (f_side f) (enc (par k') (f_black f)) x (ptr (f_sib f))).
Proof. intros Hk f k' ->. destruct f. by destruct Hk. Qed.

(** The nodes around a rotation are all different. *)
Record turning s (d : side) k c x a e y b f : Prop := {
  tu_x : mem s !! x = Some (nd d (enc (par k) c) (ptr a) y);
  tu_y : mem s !! y = Some (nd d (enc x e) (ptr b) (ptr f));
  tu_a : rep (mem s) x a;
  tu_b : rep (mem s) y b;
  tu_f : rep (mem s) y f;
  tu_k : repk (mem s) x k;
  tu_okx : okp x;
  tu_oky : okp y;
  tu_okb : Forall okp (inorder b);
  tu_okk : Forall okp (kaddrs k);
  tu_xn : x ∉ y :: inorder a ++ inorder b ++ inorder f ++ kaddrs k;
  tu_yn : y ∉ inorder a ++ inorder b ++ inorder f ++ kaddrs k;
  tu_an : ∀ z, z ∈ inorder a -> z ∉ inorder b ++ inorder f ++ kaddrs k;
  tu_bn : ∀ z, z ∈ inorder b -> z ∉ inorder f ++ kaddrs k;
  tu_fn : ∀ z, z ∈ inorder f -> z ∉ kaddrs k;
  tu_ndb : NoDup (inorder b);
  tu_ndk : NoDup (kaddrs k);
  tu_par : ∀ z, z ∈ x :: y :: inorder a ++ inorder b ++ inorder f -> z <> par k;
}.

Lemma turn_perm d k c x a e y b f : inorder (fill k (mk d c x a (mk d e y b f))) ≡ₚ x :: y :: inorder a ++ inorder b ++ inorder f ++ kaddrs k.
Proof. rewrite inorder_perm, !inorder_mk. solve_Permutation. Qed.

Lemma Rep_turning s d k c x a e y b f : Rep s (fill k (mk d c x a (mk d e y b f))) -> turning s d k c x a e y b f.
Proof.
  intros HR. pose proof (Rep_node _ _ _ _ _ _ _ HR) as Hx. rewrite ptr_mk in Hx. destruct HR as (_ & Hm & Hfits).
  apply rep_fill in Hm as [Ht Hk]. rewrite ptr_mk in Hk. apply rep_mk in Ht as (_ & Ha & Ht). apply rep_mk in Ht as (Hy & Hb & Hf).
  pose proof (fits_perm _ _ (turn_perm _ _ _ _ _ _ _ _ _) Hfits) as [Hnd Hok]. pose proof Hok as Hall. rewrite Forall_forall in Hall.
  apply NoDup_cons in Hnd as [Hx' Hnd]. apply NoDup_cons in Hnd as [Hy' Hnd].
  apply NoDup_app in Hnd as (Hna & Hda & Hnd). apply NoDup_app in Hnd as (Hnb & Hdb & Hnd). apply NoDup_app in Hnd as (Hnf & Hdf & Hnk).
  apply Forall_cons in Hok as [Hox Hok]. apply Forall_cons in Hok as [Hoy Hok]. apply Forall_app in Hok as [Hoa Hok].
  apply Forall_app in Hok as [Hob Hok]. apply Forall_app in Hok as [Hof Hokk]. split; try done.
  intros z Hz Heq. destruct (par_in k) as [H0|Hin]; [|rewrite <- Heq in Hin; set_solver].
  assert (okp z) as [? _]; [|lia]. apply Hall. set_solver.
Qed.

(** The memory before the pointer to the subtree is changed, and at the end. *)
Definition turned s (d : side) k c x a e y b f : rbs :=
  Rbs (root_node s) (<[y := nd d (enc (par k) e) x (ptr f)]> (<[y := nd d (enc x e) x (ptr f)]>
    (reparent (<[x := nd d (enc (par k) c) (ptr a) (ptr b)]> (mem s)) b x))).
Definition rotated s (d : side) k c x a e y b f : rbs :=
  let s5 := point k y (turned s d k c x a e y b f) in Rbs (root_node s5) (<[x := nd d (enc y c) (ptr a) (ptr b)]> (mem s5)).

Lemma turned_ne s d k c x a e y b f z : z ∉ x :: y :: inorder b -> mem (turned s d k c x a e y b f) !! z = mem s !! z.
Proof. intros Hz. cbn. rewrite !lookup_insert_ne by set_solver. rewrite reparent_ne by set_solver. apply lookup_insert_ne. set_solver. Qed.

Lemma rotate_run s d k c x a e y b f : okp0 (par k) -> turning s d k c x a e y b f ->
  rb_rotate d x s = Some (tt, rotated s d k c x a e y b f).
Proof.
  intros Hp [Hx Hy Ha Hb Hf Hk Hox Hoy Hob Hokk Hxn Hyn Han Hbn Hfn Hnb Hnk Hpar]. unfold rb_rotate.
  rewrite (bind_run _ _ _ _ _ (get_far _ _ _ _ _ _ _ Hx)), (bind_run _ _ _ _ _ (parent_run _ _ _ _ _ _ _ Hx Hp)).
  rewrite (bind_run _ _ _ _ _ (get_near _ _ _ _ _ _ _ Hy)), (bind_run _ _ _ _ _ (set_far _ _ _ _ _ _ _ Hx _)).
  set (s1 := Rbs (root_node s) _). assert (mem s1 !! y = Some (nd d (enc x e) (ptr b) (ptr f))) as Hy1 by (cbn; rewrite lookup_insert_ne by set_solver; done).
  assert (rep (mem s1) y b) as Hb1 by (eapply rep_frame; [|done]; intros z Hz; cbn; apply lookup_insert_ne; set_solver).
  set (s2 := Rbs (root_node s1) (reparent (mem s1) b x)).
  rewrite (bind_run _ _ s1 tt s2).
  2:{ pose proof (reparent_run s1 y b x Hb1 Hob (okp_0 _ Hoy) (okp_0 _ Hox)) as Hrun. destruct (negb (ptr b =? 0)); [|exact Hrun].
      cbn [fwhen] in *. by rewrite (bind_run _ _ _ _ _ (get_near _ _ _ _ _ _ _ Hy1)). }
  assert (mem s2 !! y = Some (nd d (enc x e) (ptr b) (ptr f))) as Hy2 by (cbn [s2 mem]; rewrite reparent_ne; [done|set_solver]).
  rewrite (bind_run _ _ _ _ _ (set_near _ _ _ _ _ _ _ Hy2 _)). set (s3 := Rbs (root_node s2) _).
  assert (mem s3 !! y = Some (nd d (enc x e) x (ptr f))) as Hy3 by (cbn; by rewrite lookup_insert_eq).
  rewrite (bind_run _ _ _ _ _ (set_parent_run _ _ _ _ _ _ _ Hy3 _ (okp_0 _ Hox) Hp)). fold (turned s d k c x a e y b f).
  set (s4 := Rbs (root_node s3) _). change s4 with (turned s d k c x a e y b f). clear s4.
  change (if negb (par k =? 0) then _ else _) with (repoint d x (par k) y). erewrite bind_run.
  2:{ apply repoint_run; [done|apply NoDup_cons; split; [set_solver|done]|done|]. intros fr k' ->. rewrite turned_ne.
      - by apply (repk_frame_at _ _ _ Hk).
      - intros Hz. apply (Hpar (f_addr fr)); [set_solver|done]. }
  rewrite (set_parent_run _ x d (par k) c (ptr a) (ptr b)); [done| |done|by apply okp_0].
  rewrite point_ne by (apply Hpar; set_solver). cbn. rewrite !lookup_insert_ne by set_solver. rewrite reparent_ne by set_solver. by rewrite lookup_insert_eq.
Qed.

Lemma rotated_ne s d k c x a e y b f z : z <> x -> z <> par k -> mem (rotated s d k c x a e y b f) !! z = mem (turned s d k c x a e y b f) !! z.
Proof. intros Hx Hp. cbn [rotated mem]. rewrite lookup_insert_ne by done. by apply point_ne. Qed.

Lemma rotated_rep s d k c x a e y b f : turning s d k c x a e y b f ->
  rep (mem (rotated s d k c x a e y b f)) (par k) (mk d e y (mk d c x a b) f).
Proof.
  intros [Hx Hy Ha Hb Hf Hk Hox Hoy Hob Hokk Hxn Hyn Han Hbn Hfn Hnb Hnk Hpar]. set (s6 := rotated s d k c x a e y b f).
  assert (∀ t, (∀ z, z ∈ inorder t -> z ∈ inorder a ++ inorder f) -> ∀ q, rep (mem s) q t -> rep (mem s6) q t) as Hkeep.
  { intros t Hsub q Hrep. eapply rep_frame; [|done]. intros z Hz%Hsub. unfold s6. rewrite rotated_ne; [apply turned_ne|..|apply Hpar]; set_solver. }
  rewrite !rep_mk, ptr_mk. split_and!.
  - unfold s6. rewrite rotated_ne by (apply Hpar || idtac; set_solver). cbn. by rewrite lookup_insert_eq.
  - cbn. by rewrite lookup_insert_eq.
  - apply Hkeep; [set_solver|done].
  - eapply rep_frame; [|apply (rep_reparent (<[x := nd d (enc (par k) c) (ptr a) (ptr b)]> (mem s)) y b x); [|done]].
    + intros z Hz. unfold s6. rewrite rotated_ne; [|set_solver|apply Hpar; set_solver]. cbn. by rewrite !lookup_insert_ne by set_solver.
    + eapply rep_frame; [|done]. intros z Hz. apply lookup_insert_ne. set_solver.
  - apply Hkeep; [set_solver|done].
Qed.

Lemma rotate_ok s d k c x a e y b f : Rep s (fill k (mk d c x a (mk d e y b f))) ->
  ∃ s', rb_rotate d x s = Some (tt, s') ∧ Rep s' (fill k (mk d e y (mk d c x a b) f)) ∧ off (inorder (fill k (mk d c x a (mk d e y b f)))) s s'.
Proof.
  intros HR. pose proof (Rep_turning _ _ _ _ _ _ _ _ _ _ HR) as Ht. pose proof (Rep_par _ _ _ HR) as Hp.
  exists (rotated s d k c x a e y b f). split; [by apply rotate_run|]. split.
  - apply (splice s _ k (mk d c x a (mk d e y b f))); [exact HR| |by apply rotated_rep|rewrite ptr_mk; by destruct k as [|[]]|].
    + destruct HR as (_ & _ & Hfits). eapply fits_perm; [|exact Hfits]. rewrite turn_perm, inorder_perm, !inorder_mk. solve_Permutation.
    + destruct Ht as [_ _ _ _ _ _ _ _ _ _ Hxn Hyn _ Hbn _ _ _ _]. rewrite ptr_mk. intros z Hz. cbn [rotated mem]. rewrite lookup_insert_ne by set_solver.
      apply point_ext_at. apply turned_ne. set_solver.
  - intros z Hz. rewrite turn_perm in Hz. cbn [rotated mem]. rewrite lookup_insert_ne by set_solver.
    destruct k as [|fr k]; [|rewrite point_ne by (cbn in *; set_solver)]; apply turned_ne; set_solver.
Qed.
End Rotate.

(** * Programs on represented trees *)

(** From a tree [T] in memory, [prog] returns [v] with the tree [T'] in memory;
    the nodes keep their order and other memory is not written. *)
Definition does {A} (prog : Sf rbs A) (T : tree) (v : A) (T' : tree) : Prop := ∀ s, Rep s T ->
  ∃ s', prog s = Some (v, s') ∧ Rep s' T' ∧ off (inorder T) s s' ∧ inorder T' = inorder T.

Section Does.
Implicit Types (T t a b : tree) (k : list frame).

Lemma does_ret {A} (v : A) T : does (mret v) T v T.
Proof. intros s Hs. exists s. split_and!; [done|done|by intros|done]. Qed.

Lemma does_bind {A B} (m : Sf rbs A) (h : A -> Sf rbs B) T v T1 w T2 : does m T v T1 -> does (h v) T1 w T2 -> does (m ≫= h) T w T2.
Proof.
  intros Hm Hh s Hs. destruct (Hm s Hs) as (s1 & Hr1 & Hs1 & Ho1 & Hi1). destruct (Hh s1 Hs1) as (s2 & Hr2 & Hs2 & Ho2 & Hi2).
  exists s2. split_and!; [by rewrite (bind_run _ _ _ _ _ Hr1)|done| |congruence].
  eapply off_trans; [|done|done]. by rewrite Hi1.
Qed.

Lemma does_read {A} (m : Sf rbs A) T v : (∀ s, Rep s T -> m s = Some (v, s)) -> does m T v T.
Proof. intros Hm s Hs. exists s. split_and!; [by apply Hm|done|by intros|done]. Qed.

Lemma does_skip (prog : Sf rbs unit) T : does (fwhen false prog) T tt T.
Proof. apply does_ret. Qed.

Lemma does_rotate d k c x a e y b f :
  does (rb_rotate d x) (fill k (mk d c x a (mk d e y b f))) tt (fill k (mk d e y (mk d c x a b) f)).
Proof.
  intros s Hs. destruct (rotate_ok _ _ _ _ _ _ _ _ _ _ Hs) as (s' & Hr & Hs' & Ho). exists s'. split_and!; try done.
  rewrite !inorder_fill. f_equal. f_equal. destruct d; cbn; by rewrite <- ?app_assoc.
Qed.

Lemma does_recolor w k d c x a b c' : (∀ p, okp0 p -> w (enc p c) = enc p c') ->
  does (st x (with_pc w)) (fill k (mk d c x a b)) tt (fill k (mk d c' x a b)).
Proof.
  intros Hw s Hs. pose proof (Rep_node _ _ _ _ _ _ _ Hs) as Hx. pose proof (Rep_par _ _ _ Hs) as Hp. pose proof Hs as (_ & Hm & Hf).
  assert (inorder (fill k (mk d c' x a b)) = inorder (fill k (mk d c x a b))) as Hi by (rewrite !inorder_fill; by destruct d).
  eexists. rewrite (st_run _ _ _ _ Hx), with_pc_nd, Hw by done. split; [reflexivity|].
  pose proof Hf as [Hnd _]. rewrite inorder_perm, inorder_mk in Hnd. apply NoDup_cons in Hnd as [Hx' _].
  split_and!; [|intros z Hz; rewrite inorder_perm, inorder_mk in Hz; cbn; apply lookup_insert_ne; set_solver|done].
  apply rep_fill in Hm as [Ht Hk]. apply rep_mk in Ht as (_ & Ha & Hb). rewrite ptr_mk in Hk.
  eapply (splice s _ k (mk d c x a b)); [done|by rewrite Hi| | |].
  - apply rep_mk. split_and!; [cbn; apply lookup_insert_eq|..]; (eapply rep_frame; [|done]); intros z Hz; cbn; apply lookup_insert_ne; set_solver.
  - rewrite ptr_mk. destruct k as [|[]]; [|done]. cbn. destruct Hs as [-> _]. cbn. by rewrite ptr_mk.
  - rewrite ptr_mk. intros z Hz. cbn. rewrite lookup_insert_ne by set_solver. destruct k as [|[d' c1 p sib] k]; [done|].
    cbn in *. destruct (decide (z = p)) as [->|]; [|by rewrite lookup_insert_ne]. rewrite lookup_insert_eq. by destruct Hk.
Qed.

Lemma does_black k d c x a b : does (rb_set_black x) (fill k (mk d c x a b)) tt (fill k (mk d true x a b)).
Proof. apply does_recolor. intros p Hp. by apply enc_black. Qed.
Lemma does_red k d c x a b : does (rb_set_red x) (fill k (mk d c x a b)) tt (fill k (mk d false x a b)).
Proof. apply does_recolor. intros p Hp. by apply enc_red. Qed.
Lemma does_color k d c x a b c' : does (rb_set_color x (Z.b2z c')) (fill k (mk d c x a b)) tt (fill k (mk d c' x a b)).
Proof. apply does_recolor. intros p Hp. by apply enc_set_color. Qed.

(** ** Reads *)

Definition is_red t : bool := match t with Node false _ _ _ => true | _ => false end.

Lemma does_near k d c x a b : does (get_child d x) (fill k (mk d c x a b)) (ptr a) (fill k (mk d c x a b)).
Proof. apply does_read. intros s Hs. apply (get_near _ _ _ _ _ _ _ (Rep_node _ _ _ _ _ _ _ Hs)). Qed.
Lemma does_far k d c x a b : does (get_child (opp d) x) (fill k (mk d c x a b)) (ptr b) (fill k (mk d c x a b)).
Proof. apply does_read. intros s Hs. apply (get_far _ _ _ _ _ _ _ (Rep_node _ _ _ _ _ _ _ Hs)). Qed.
Lemma does_parent k d c x a b : does (rb_parent x) (fill k (mk d c x a b)) (par k) (fill k (mk d c x a b)).
Proof. apply does_read. intros s Hs. by apply (parent_run _ _ _ _ _ _ _ (Rep_node _ _ _ _ _ _ _ Hs)), (Rep_par _ _ _ Hs). Qed.
Lemma does_get_color k d c x a b : does (rb_color x) (fill k (mk d c x a b)) (Z.b2z c) (fill k (mk d c x a b)).
Proof. apply does_read. intros s Hs. by apply (color_run _ _ _ _ _ _ _ (Rep_node _ _ _ _ _ _ _ Hs)), (Rep_par _ _ _ Hs). Qed.
Lemma does_is_red k d c x a b : does (rb_is_red x) (fill k (mk d c x a b)) (negb c) (fill k (mk d c x a b)).
Proof. apply does_read. intros s Hs. by apply (is_red_run _ _ _ _ _ _ _ (Rep_node _ _ _ _ _ _ _ Hs)), (Rep_par _ _ _ Hs). Qed.

Lemma does_is_red_node k t : does (is_red_node (ptr t)) (fill k t) (is_red t) (fill k t).
Proof.
  apply does_read. intros s Hs. unfold is_red_node. destruct t as [|c x a b]; [done|]. cbn [ptr].
  pose proof (Rep_okp s k L c x a b Hs) as [Hx _]. destruct (Z.eqb_spec x 0); [lia|].
  rewrite (is_red_run _ _ _ _ _ _ _ (Rep_node s k L c x a b Hs)) by (by eapply Rep_par). by destruct c.
Qed.

Lemma does_null_or_black k t : does (null_or_black (ptr t)) (fill k t) (negb (is_red t)) (fill k t).
Proof.
  apply does_read. intros s Hs. unfold null_or_black. destruct t as [|c x a b]; [done|]. cbn [ptr].
  pose proof (Rep_okp s k L c x a b Hs) as [Hx _]. destruct (Z.eqb_spec x 0); [lia|].
  rewrite (is_black_run _ _ _ _ _ _ _ (Rep_node s k L c x a b Hs)) by (by eapply Rep_par). by destruct c.
Qed.

(** A reading of the tree lets one assume that it is represented. *)
Lemma does_given {A} (m : Sf rbs A) T v T' : ((∃ s, Rep s T) -> does m T v T') -> does m T v T'.
Proof. intros Hm s Hs. apply Hm; [by exists s|done]. Qed.

(** Different subtrees have different addresses. *)
Lemma siblings_differ k d c x a b : (∃ s, Rep s (fill k (mk d c x a b))) -> a <> Leaf ∨ b <> Leaf -> ptr a <> ptr b.
Proof.
  intros (s & _ & _ & Hnd & Hok) Hab. rewrite inorder_perm, inorder_mk in Hnd, Hok. apply NoDup_cons in Hnd as [_ Hnd].
  apply NoDup_app in Hnd as (Hnd & _ & _). apply NoDup_app in Hnd as (_ & Hd & _). rewrite Forall_forall in Hok.
  destruct a as [|ca xa la ra], b as [|cb xb lb rb]; cbn; [naive_solver|..].
  - assert (okp xb) as [? _]; [|lia]. apply Hok. cbn. set_solver.
  - assert (okp xa) as [? _]; [|lia]. apply Hok. cbn. set_solver.
  - intros ->. apply (Hd xb); cbn; set_solver.
Qed.

(** [x == p->rb_left], when [x] is one of the two children. *)
Lemma does_which k d c p a b : a <> Leaf ∨ b <> Leaf -> ∃ v, does (get_child L p) (fill k (mk d c p a b)) v (fill k (mk d c p a b)) ∧
  ((∃ s, Rep s (fill k (mk d c p a b))) -> (if ptr a =? v then L else R) = d ∧ (if v =? ptr a then L else R) = d).
Proof.
  intros Hab. destruct d.
  - exists (ptr a). split; [apply (does_near k L)|]. by rewrite !Z.eqb_refl.
  - exists (ptr b). split; [apply (does_far k R)|]. intros Hex. pose proof (siblings_differ _ _ _ _ _ _ Hex Hab).
    destruct (Z.eqb_spec (ptr a) (ptr b)), (Z.eqb_spec (ptr b) (ptr a)); first [congruence|by split].
Qed.
End Does.

(** * Insertion *)

(** What the loop does to the subtree [t] at the path [k]; [None] is a fault. *)
Fixpoint ins_fix (k : list frame) (t : tree) : option tree :=
  match k with
  | Frame d false p sib :: k1 =>
      match k1 with
      | [] => None
      | Frame d2 c2 g u :: k2 =>
          match u with
          | Node false ux ul ur => ins_fix k2 (mk d2 false g (mk d true p t sib) (Node true ux ul ur))
          | _ =>
              if decide (d = d2) then Some (fill k2 (mk d2 true p t (mk d2 false g sib u)))
              else match t with
                   | Leaf => None
                   | Node tc x tl tr =>
                       let '(b, e) := match d2 with L => (tl, tr) | R => (tr, tl) end in
                       Some (fill k2 (mk d2 true x (mk d2 false p sib b) (mk d2 false g e u)))
                   end
          end
      end
  | _ => Some (fill k t)
  end.

Section Insert.
Implicit Types (T t a b : tree) (k : list frame).

Lemma node_mk d c x l r : Node c x l r = mk d c x (match d with L => l | R => r end) (match d with L => r | R => l end).
Proof. by destruct d. Qed.
Lemma opp_opp d : opp (opp d) = d.
Proof. by destruct d. Qed.
Lemma mk_opp d c x a b : mk (opp d) c x a b = mk d c x b a.
Proof. by destruct d. Qed.

(** The other child of a node. *)
Lemma fill_far k d c x a b : fill k (mk d c x a b) = fill (Frame (opp d) c x a :: k) b.
Proof. by destruct d. Qed.
Lemma does_far_red k d c x a b : does (is_red_node (ptr b)) (fill k (mk d c x a b)) (is_red b) (fill k (mk d c x a b)).
Proof. rewrite fill_far. apply does_is_red_node. Qed.
Lemma does_far_black k d c x a cb xb lb rb :
  does (rb_set_black xb) (fill k (mk d c x a (Node cb xb lb rb))) tt (fill k (mk d c x a (Node true xb lb rb))).
Proof. rewrite !fill_far. apply (does_black _ L). Qed.

(** The loop ends at a black parent and at the root. *)
Lemma insert_stops fuel k t : t <> Leaf -> match k with Frame _ false _ _ :: _ => False | _ => True end ->
  does (insert_loop fuel (ptr t)) (fill k t) tt (fill k t).
Proof.
  intros Ht Hk. destruct t as [|c x l r]; [done|].
  assert (does (insert_loop fuel x) (fill k (mk L c x l r)) tt (fill k (mk L c x l r))) as Hd; [|exact Hd].
  assert (∀ rd, does (is_red_node (par k)) (fill k (mk L c x l r)) rd (fill k (mk L c x l r)) -> rd = false ->
    does (insert_loop fuel x) (fill k (mk L c x l r)) tt (fill k (mk L c x l r))) as Hgo.
  { intros rd Hb ->. destruct fuel; cbn [insert_loop]; (eapply does_bind; [apply does_parent|]; eapply does_bind; [exact Hb|apply does_ret]). }
  destruct k as [|[d c' p sib] k].
  - apply (Hgo false); [|done]. by apply does_read.
  - destruct c'; [|done]. apply (Hgo false); [|done].
    pose proof (does_is_red_node k (mk d true p (mk L c x l r) sib)) as Hr. rewrite ptr_mk in Hr.
    assert (is_red (mk d true p (mk L c x l r) sib) = false) as Hf by (by destruct d). by rewrite Hf in Hr.
Qed.

(** Both rotations of an iteration. *)
Lemma outer_rotation k d p t sib g u :
  does (rb_rotate (opp d) g) (fill k (mk d false g (mk d true p t sib) u)) tt (fill k (mk d true p t (mk d false g sib u))).
Proof.
  pose proof (does_rotate (opp d) k false g u true p sib t) as Hr. by rewrite !mk_opp in Hr.
Qed.

Lemma insert_loop_ok fuel k t T' : t <> Leaf -> ins_fix k t = Some T' -> (length k <= 2 * fuel)%nat ->
  does (insert_loop fuel (ptr t)) (fill k t) tt T'.
Proof.
  revert k t. induction fuel as [|fuel IH]; intros k t Ht Hfix Hf.
  { destruct k; [|cbn in Hf; lia]. injection Hfix as <-. by apply (insert_stops _ []). }
  destruct k as [|[d c p sib] k1]; [injection Hfix as <-; by apply (insert_stops _ [])|].
  destruct c; [injection Hfix as <-; by apply (insert_stops _ (Frame d true p sib :: k1))|].
  destruct k1 as [|[d2 c2 g u] k2]; [done|]. cbn in Hf.
  set (kp := Frame d2 c2 g u :: k2). set (K := Frame d false p sib :: kp).
  destruct t as [|tc x tl tr]; [done|]. set (t := Node tc x tl tr) in *.
  cbn [insert_loop ptr]. eapply does_bind; [apply (does_parent K L)|]. cbn [K par f_addr].
  eapply does_bind.
  { pose proof (does_is_red_node kp (mk d false p t sib)) as Hr. rewrite ptr_mk in Hr. exact Hr. }
  assert (is_red (mk d false p t sib) = true) as -> by (by destruct d). cbn [negb].
  eapply does_bind; [apply (does_parent kp d)|]. cbn [kp par f_addr].
  destruct (does_which k2 d2 c2 g (mk d false p t sib) u) as (gl & Hgl & Hside); [left; by destruct d|].
  eapply does_bind; [exact Hgl|]. apply does_given. intros Hex. destruct (Hside Hex) as [Hd2 _]. rewrite ptr_mk in Hd2. rewrite Hd2. clear Hgl Hside Hd2 gl.
  eapply does_bind; [apply does_far|].
  eapply does_bind; [apply does_far_red|].
  destruct (is_red u) eqn:Hu.
  - destruct u as [|[] ux ul ur]; try done.
    eapply does_bind; [apply does_far_black|].
    eapply does_bind; [apply (does_black (Frame d2 c2 g (Node true ux ul ur) :: k2) d)|].
    eapply does_bind; [apply (does_red k2 d2)|].
    pose proof (IH k2 (mk d2 false g (mk d true p t sib) (Node true ux ul ur)) ltac:(by destruct d2) Hfix ltac:(lia)) as Hgo.
    by rewrite ptr_mk in Hgo.
  - assert ((if decide (d = d2) then Some (fill k2 (mk d2 true p t (mk d2 false g sib u)))
      else let '(b, e) := match d2 with L => (tl, tr) | R => (tr, tl) end in
           Some (fill k2 (mk d2 true x (mk d2 false p sib b) (mk d2 false g e u)))) = Some T') as Hfix'.
    { rewrite <- Hfix. by destruct u as [|[] ux ul ur]. }
    clear Hfix. case_decide as Hdd; [subst d2|].
    + injection Hfix' as <-. eapply does_bind; [apply (does_far kp d)|].
      rewrite (proj2 (Z.eqb_neq (ptr sib) (ptr t))).
      2:{ apply not_eq_sym, (siblings_differ kp d false p t sib); [exact Hex|by left]. }
      eapply does_bind; [apply does_ret|]. cbn [fst snd].
      eapply does_bind; [apply (does_black kp d)|]. eapply does_bind; [apply (does_red k2 d)|].
      eapply does_bind; [apply outer_rotation|]. apply (insert_stops fuel (Frame d true p (mk d false g sib u) :: k2) t); done.
    + assert (d = opp d2) as -> by (by destruct d, d2). rewrite mk_opp in *.
      set (b := match d2 with L => tl | R => tr end). set (e := match d2 with L => tr | R => tl end).
      assert (T' = fill k2 (mk d2 true x (mk d2 false p sib b) (mk d2 false g e u))) as -> by (by destruct d2; injection Hfix' as <-).
      eapply does_bind; [apply (does_far kp d2)|]. rewrite Z.eqb_refl.
      eapply does_bind; [eapply does_bind; [|apply does_ret]|].
      { assert (t = mk d2 tc x b e) as -> by (by destruct d2). apply (does_rotate d2 kp). }
      cbn [fst snd]. eapply does_bind; [apply (does_black kp d2)|]. eapply does_bind; [apply (does_red k2 d2)|].
      eapply does_bind; [apply outer_rotation|].
      pose proof (insert_stops fuel (Frame d2 true x (mk d2 false g e u) :: k2) (mk d2 false p sib b) ltac:(by destruct d2) I) as Hend.
      by rewrite ptr_mk in Hend.
Qed.
End Insert.

(** ** The root *)

Definition blacken (t : tree) : tree := match t with Leaf => Leaf | Node _ x l r => Node true x l r end.

Section Top.
Implicit Types (T t a b : tree) (k : list frame).

Lemma does_root T : does (fget root_node) T (ptr T) T.
Proof. apply does_read. intros s (Hr & _). unfold fget. by rewrite Hr. Qed.

Lemma ptr_okp k t s : Rep s (fill k t) -> t <> Leaf -> okp (ptr t).
Proof. destruct t as [|c x l r]; [done|]. intros Hs _. by apply (Rep_okp s k L c x l r). Qed.

Lemma does_blacken k t : does (fwhen (negb (ptr t =? 0)) (rb_set_black (ptr t))) (fill k t) tt (fill k (blacken t)).
Proof.
  destruct t as [|c x l r]; [apply does_skip|]. apply does_given. intros [s Hs]. pose proof (ptr_okp _ _ _ Hs ltac:(done)) as [Hx _].
  destruct (Z.eqb_spec (ptr (Node c x l r)) 0); [lia|]. apply (does_black k L).
Qed.

Lemma inorder_blacken t : inorder (blacken t) = inorder t.
Proof. by destruct t. Qed.

(** rb_insert_color, on the new node [t] at the path [k]. *)
Lemma insert_color_ok fuel k t T' : t <> Leaf -> ins_fix k t = Some T' -> T' <> Leaf -> (length k <= 2 * fuel)%nat ->
  does (rb_insert_color fuel (ptr t)) (fill k t) tt (blacken T').
Proof.
  intros Ht Hfix HT Hf. eapply does_bind; [by apply insert_loop_ok|]. eapply does_bind; [apply does_root|].
  destruct T' as [|c x l r]; [done|]. apply (does_black [] L).
Qed.
End Top.

(** * Removal *)

(** The children of a node, the one on side [d] first. *)
Definition near (d : side) (l r : tree) : tree := match d with L => l | R => r end.
Definition far (d : side) (l r : tree) : tree := match d with L => r | R => l end.

(** The step that ends the loop, at the node [p] with the short subtree [t] and
    the sibling [o]. *)
Definition last_fix (k : list frame) (d : side) (c : bool) (p : Z) (t o : tree) : option tree :=
  match o with
  | Leaf => None
  | Node _ ox ol or =>
      if is_red (far d ol or) then Some (fill k (mk d c ox (mk d true p t (near d ol or)) (blacken (far d ol or))))
      else match near d ol or with
           | Leaf => None
           | Node _ nx nl nr => Some (fill k (mk d c nx (mk d true p t (near d nl nr)) (mk d true ox (far d nl nr) (far d ol or))))
           end
  end.

(** What __rb_erase_color does when the subtree [t] at the path [k] has lost a
    black node. *)
Fixpoint del_fix (k : list frame) (t : tree) : option tree :=
  if is_red t then Some (fill k (blacken t))
  else
    match k with
    | [] => Some (blacken t)
    | Frame d c p o :: k' =>
        match o with
        | Leaf => None
        | Node false ox ol or =>
            let k2 := Frame d true ox (far d ol or) :: k' in
            match near d ol or with
            | Leaf => None
            | Node nc nx nl nr =>
                if is_red nl || is_red nr then blacken <$> last_fix k2 d false p t (Node nc nx nl nr)
                else Some (fill k2 (mk d true p t (Node false nx nl nr)))
            end
        | Node true ox ol or =>
            if is_red ol || is_red or then blacken <$> last_fix k' d c p t (Node true ox ol or)
            else del_fix k' (mk d c p t (Node false ox ol or))
        end
    end.

Section Erase.
Implicit Types (T t a b o : tree) (k : list frame).

Lemma node_sides d c x l r : Node c x l r = mk d c x (near d l r) (far d l r).
Proof. by destruct d. Qed.
Lemma ptr_blacken t : ptr (blacken t) = ptr t.
Proof. by destruct t. Qed.

Lemma last_ok k d c p t o T' : last_fix k d c p t o = Some T' -> does (erase_last d (ptr o) p) (fill k (mk d c p t o)) tt T'.
Proof.
  destruct o as [|oc ox ol or]; [done|]. cbn [last_fix ptr]. intros Hfix. rewrite (node_sides d). set (n := near d ol or) in *. set (f := far d ol or) in *.
  set (ko := Frame (opp d) c p t :: k). unfold erase_last.
  assert (∀ oc a b, fill k (mk d c p t (mk d oc ox a b)) = fill ko (mk d oc ox a b)) as Hko by (intros; apply fill_far).
  eapply does_bind; [rewrite Hko; apply does_far|]. eapply does_bind; [rewrite fill_far; apply does_null_or_black|].
  rewrite <- fill_far. destruct (is_red f) eqn:Hf; cbn [negb].
  - injection Hfix as <-. eapply does_bind; [apply does_ret|]. rewrite <- Hko.
    eapply does_bind; [apply does_get_color|]. rewrite Hko. eapply does_bind; [apply does_color|]. rewrite <- Hko.
    eapply does_bind; [apply does_black|]. rewrite fill_far. eapply does_bind; [apply does_far|].
    rewrite fill_far. eapply does_bind; [apply does_blacken|]. rewrite <- !fill_far. apply does_rotate.
  - destruct n as [|nc nx nl nr] eqn:Hn; [done|]. injection Hfix as <-. rewrite (node_sides d nc nx). set (nn := near d nl nr). set (nf := far d nl nr).
    assert (∀ oc a b, fill k (mk d c p t (mk d oc nx a b)) = fill ko (mk d oc nx a b)) as Hkn by (intros; apply fill_far).
    eapply does_bind.
    { eapply does_bind; [apply does_near|]. rewrite ptr_mk. eapply does_bind.
      { pose proof (does_blacken (Frame d oc ox f :: ko) (mk d nc nx nn nf)) as Hb. rewrite ptr_mk in Hb. exact Hb. }
      assert (blacken (mk d nc nx nn nf) = mk d true nx nn nf) as -> by (by destruct d).
      eapply does_bind; [apply (does_red ko d)|]. eapply does_bind.
      { pose proof (does_rotate (opp d) ko false ox f true nx nf nn) as Hr. rewrite !mk_opp in Hr. exact Hr. }
      rewrite <- Hkn. apply does_far. }
    rewrite ptr_mk. eapply does_bind; [apply does_get_color|].
    eapply does_bind; [rewrite Hkn; apply does_color|]. rewrite <- Hkn. eapply does_bind; [apply does_black|].
    rewrite fill_far. eapply does_bind; [apply does_far|]. rewrite fill_far. eapply does_bind; [apply does_blacken|].
    assert (blacken (mk d false ox nf f) = mk d true ox nf f) as -> by (by destruct d). rewrite <- !fill_far. apply does_rotate.
Qed.

(** The colours of the children of the sibling decide. *)
Lemma turn_reads again k d c p t oc ox ol or v T' :
  does (if negb (is_red ol || is_red or) then rb_set_red ox ;; q ← rb_parent p; again p q else erase_last d ox p ;; fget root_node)
    (fill k (mk d c p t (Node oc ox ol or))) v T' ->
  does (erase_turn again d ox p) (fill k (mk d c p t (Node oc ox ol or))) v T'.
Proof.
  intros Hgo. set (ko := Frame (opp d) c p t :: k). rewrite fill_far in *. fold ko in Hgo |- *. unfold erase_turn.
  eapply does_bind; [apply (does_near ko L)|]. eapply does_bind; [apply (does_null_or_black (Frame L oc ox or :: ko))|].
  eapply does_bind; [apply (does_far ko L)|]. eapply (does_bind _ _ _ (negb (is_red ol || is_red or))).
  { destruct (is_red ol); cbn [negb orb]; [apply does_ret|]. apply (does_null_or_black (Frame R oc ox ol :: ko)). }
  exact Hgo.
Qed.

Lemma turn_last again k d c p t oc ox ol or T' : is_red ol || is_red or = true -> last_fix k d c p t (Node oc ox ol or) = Some T' ->
  does (erase_turn again d ox p) (fill k (mk d c p t (Node oc ox ol or))) (ptr T') T'.
Proof.
  intros Hr Hfix. apply turn_reads. rewrite Hr. cbn [negb]. eapply does_bind; [by apply (last_ok k d c p t (Node oc ox ol or))|]. apply does_root.
Qed.

Lemma turn_again again k d c p t oc ox ol or v T' : is_red ol || is_red or = false ->
  does (again p (par k)) (fill k (mk d c p t (Node false ox ol or))) v T' ->
  does (erase_turn again d ox p) (fill k (mk d c p t (Node oc ox ol or))) v T'.
Proof.
  intros Hr Hgo. apply turn_reads. rewrite Hr. cbn [negb]. eapply does_bind.
  { rewrite fill_far. apply (does_red _ L). }
  cbn [mk]. rewrite <- fill_far. eapply does_bind; [apply does_parent|]. exact Hgo.
Qed.

(** The loop ends at a red node and at the root. *)
Lemma erase_stops fuel q k t : is_red t = true ∨ k = [] -> does (erase_loop fuel (ptr t) q) (fill k t) (ptr t) (fill k t).
Proof.
  intros Hstop. assert (does (blk ← null_or_black (ptr t); root ← fget root_node; mret (blk && negb (ptr t =? root))) (fill k t) false (fill k t)) as Htest.
  { eapply does_bind; [apply does_null_or_black|]. eapply does_bind; [apply does_root|]. apply does_read. intros s _.
    destruct Hstop as [-> | ->]; [done|]. cbn [fill]. rewrite Z.eqb_refl. by destruct (is_red t). }
  assert (∀ h, does (blk ← null_or_black (ptr t); root ← fget root_node; if negb (blk && negb (ptr t =? root)) then mret (ptr t) else h blk root)
    (fill k t) (ptr t) (fill k t)) as Hgo; [|destruct fuel; cbn [erase_loop]; apply Hgo].
  intros h. eapply does_bind; [apply does_null_or_black|]. eapply does_bind; [apply does_root|].
  destruct Hstop as [-> | ->]; [apply does_ret|]. cbn [fill]. rewrite Z.eqb_refl, andb_false_r. apply does_ret.
Qed.

(** Elsewhere an iteration starts by looking at the sibling. *)
Lemma erase_enters fuel k d c p t oc ox ol or v T' : is_red t = false ->
  does (other ← (if negb oc then rb_set_black ox ;; rb_set_red p ;; rb_rotate d p ;; get_child (opp d) p else mret ox);
        erase_turn (erase_loop fuel) d other p) (fill k (mk d c p t (Node oc ox ol or))) v T' ->
  does (erase_loop (S fuel) (ptr t) p) (fill k (mk d c p t (Node oc ox ol or))) v T'.
Proof.
  intros Ht Hgo. apply does_given. intros Hex. cbn [erase_loop]. eapply does_bind; [apply (does_null_or_black (Frame d c p (Node oc ox ol or) :: k) t)|].
  eapply does_bind; [apply does_root|]. rewrite Ht. cbn [negb andb].
  destruct (Z.eqb_spec (ptr t) (ptr (fill (Frame d c p (Node oc ox ol or) :: k) t))) as [Heq|_].
  { exfalso. destruct Hex as [s Hs]. pose proof Hs as (_ & _ & Hnd & Hok).
    change (fill k (mk d c p t (Node oc ox ol or))) with (fill (Frame d c p (Node oc ox ol or) :: k) t) in Hnd, Hok.
    pose proof (ptr_fill_in (Frame d c p (Node oc ox ol or) :: k) t ltac:(done)) as Hin. rewrite <- Heq in Hin.
    rewrite inorder_perm in Hnd, Hok. destruct t as [|tc x l r].
    - rewrite Forall_forall in Hok. assert (okp 0) as [? _]; [|lia]. apply Hok. apply elem_of_app. by right.
    - apply NoDup_app in Hnd as (_ & Hd & _). apply (Hd x); [cbn; set_solver|exact Hin]. }
  cbn [negb]. destruct (does_which k d c p t (Node oc ox ol or)) as (pl & Hpl & Hside); [by right|].
  eapply does_bind; [exact Hpl|]. destruct (Hside Hex) as [_ ->]. eapply does_bind; [apply does_far|]. cbn [ptr].
  eapply does_bind; [|exact Hgo]. rewrite fill_far. apply (does_is_red _ L).
Qed.

Lemma erase_loop_ok fuel k t T' : del_fix k t = Some T' -> (length k <= fuel)%nat ->
  ∃ k' t', does (erase_loop fuel (ptr t) (par k)) (fill k t) (ptr t') (fill k' t') ∧ T' = fill k' (blacken t').
Proof.
  revert k t. induction fuel as [|fuel IH]; intros k t Hfix Hf.
  { destruct k; [|cbn in Hf; lia]. exists [], t. split; [apply erase_stops; by right|]. cbn in Hfix. by destruct (is_red t); injection Hfix as <-. }
  destruct (is_red t) eqn:Ht.
  { exists k, t. split; [apply erase_stops; by left|]. destruct k; cbn [del_fix] in Hfix; rewrite Ht in Hfix; by injection Hfix as <-. }
  destruct k as [|[d c p o] k].
  { exists [], t. split; [apply erase_stops; by right|]. cbn in Hfix. rewrite Ht in Hfix. by injection Hfix as <-. }
  cbn [del_fix] in Hfix. rewrite Ht in Hfix. cbn [par f_addr] in *. cbn in Hf.
  change (fill (Frame d c p o :: k) t) with (fill k (mk d c p t o)). destruct o as [|[] ox ol or]; [done|..].
  - destruct (is_red ol || is_red or) eqn:Hr.
    + destruct (last_fix k d c p t (Node true ox ol or)) as [T0|] eqn:HT; [|done]. injection Hfix as <-. exists [], T0. split; [|done].
      apply erase_enters; [done|]. cbn [negb]. eapply does_bind; [apply does_ret|]. by apply turn_last.
    + destruct (IH k _ Hfix ltac:(lia)) as (k' & t' & Hd & ->). exists k', t'. split; [|done]. rewrite ptr_mk in Hd.
      apply erase_enters; [done|]. cbn [negb]. eapply does_bind; [apply does_ret|]. by apply turn_again.
  - set (f := far d ol or) in *. destruct (near d ol or) as [|nc nx nl nr] eqn:Hn; [done|]. set (k2 := Frame d true ox f :: k) in *.
    assert (∀ v T1, does (erase_turn (erase_loop fuel) d nx p) (fill k2 (mk d false p t (Node nc nx nl nr))) v T1 ->
      does (erase_loop (S fuel) (ptr t) p) (fill k (mk d c p t (Node false ox ol or))) v T1) as Hgo.
    { intros v T1 Hgo. apply erase_enters; [done|]. cbn [negb]. eapply does_bind; [|exact Hgo].
      eapply does_bind; [apply does_far_black|]. eapply does_bind; [apply does_red|].
      rewrite (node_sides d), Hn. fold f. eapply does_bind; [apply does_rotate|]. apply (does_far k2). }
    destruct (is_red nl || is_red nr) eqn:Hr.
    + destruct (last_fix k2 d false p t (Node nc nx nl nr)) as [T0|] eqn:HT; [|done]. injection Hfix as <-. exists [], T0. split; [|done].
      apply Hgo. by apply turn_last.
    + injection Hfix as <-. exists k2, (mk d false p t (Node false nx nl nr)). split; [|by destruct d].
      rewrite ptr_mk. apply Hgo. apply turn_again; [done|].
      pose proof (erase_stops fuel (par k2) k2 (mk d false p t (Node false nx nl nr)) ltac:(left; by destruct d)) as Hs. by rewrite ptr_mk in Hs.
Qed.

Lemma erase_color_ok fuel k t T' : del_fix k t = Some T' -> (length k <= fuel)%nat ->
  does (rb_erase_color_ fuel (ptr t) (par k)) (fill k t) tt T'.
Proof.
  intros Hfix Hf. destruct (erase_loop_ok fuel k t T' Hfix Hf) as (k' & t' & Hd & ->). eapply does_bind; [exact Hd|]. apply does_blacken.
Qed.
End Erase.

(** * Putting nodes in and taking them out *)

Section Splices.
Implicit Types (s : rbs) (T t a b l r : tree) (k : list frame).

Lemma fill_app k1 k2 t : fill (k1 ++ k2) t = fill k2 (fill k1 t).
Proof. revert t. induction k1 as [|f k1 IH]; intros t; [done|]. apply IH. Qed.

(** The link field that points to the hole of a path. *)
Definition link_of k : link := match k with [] => Root | f :: _ => Field (f_side f) (f_addr f) end.

Lemma enc_false p : enc p false = p.
Proof. apply Z.lor_0_r. Qed.

Lemma link_ok s k x : Rep s (fill k Leaf) -> okp x -> x ∉ inorder (fill k Leaf) ->
  ∃ s', rb_link_node x (par k) (link_of k) s = Some (tt, s') ∧ Rep s' (fill k (Node false x Leaf Leaf)) ∧
    off (x :: inorder (fill k Leaf)) s s'.
Proof.
  intros HR Hx Hn. pose proof HR as (Hroot & Hm & Hf). apply rep_fill in Hm as [_ Hk]. cbn [ptr] in Hk.
  rewrite inorder_perm in Hn. cbn in Hn. set (s1 := Rbs (root_node s) (<[x := RbNode (par k) 0 0]> (mem s))).
  assert (rb_link_node x (par k) (link_of k) s = Some (tt, point k x s1)) as Hrun.
  { unfold rb_link_node. erewrite bind_run by reflexivity. fold s1. destruct k as [|[d c p sib] k]; [done|]. cbn in Hn.
    apply (set_near s1 p d (par k) c 0 (ptr sib)). cbn. rewrite lookup_insert_ne by set_solver. apply Hk. }
  assert (mem (point k x s1) !! x = Some (RbNode (par k) 0 0)) as Hxx.
  { rewrite point_ne; [cbn; apply lookup_insert_eq|]. destruct (par_in k) as [->|Hin]; [destruct Hx; lia|set_solver]. }
  exists (point k x s1). split_and!; [done| |].
  - apply (splice s _ k Leaf); [done| | | |].
    + destruct Hf as [Hnd Hok]. rewrite inorder_perm in Hnd, Hok. split; rewrite inorder_perm; cbn.
      * by apply NoDup_cons.
      * by apply Forall_cons.
    + cbn. by rewrite enc_false.
    + by destruct k as [|[]].
    + intros z Hz. cbn [ptr]. destruct k as [|[d c p sib] k]; [by apply elem_of_nil in Hz|]. cbn in *.
      destruct (decide (z = p)) as [->|]; [by rewrite !lookup_insert_eq|]. rewrite !(lookup_insert_ne _ p) by done. apply lookup_insert_ne. set_solver.
  - intros z Hz. rewrite inorder_perm in Hz. cbn in Hz. assert (z <> par k ∨ k = []) as [Hzk| ->].
    { destruct k; [by right|left]. cbn in *. set_solver. }
    + rewrite point_ne by done. cbn. apply lookup_insert_ne. set_solver.
    + cbn. apply lookup_insert_ne. set_solver.
Qed.

(** relink is the search for the pointer, from the left. *)
Lemma relink_repoint old p v : ∀ s, relink old p v s = repoint L old p v s.
Proof.
  intros s. unfold relink, repoint. destruct (negb (p =? 0)); [|done]. unfold mbind, Sf_bind.
  destruct (get_child L p s) as [[pl s1]|]; [|done]. by rewrite Z.eqb_sym.
Qed.

(** A node with at most one child is replaced by that child. *)
Lemma splice_out s k d c x b s' : Rep s (fill k (mk d c x Leaf b)) ->
  s' = point k (ptr b) (Rbs (root_node s) (reparent (mem s) b (par k))) ->
  Rep s' (fill k b) ∧ off (inorder (fill k (mk d c x Leaf b))) s s'.
Proof.
  intros HR ->. pose proof HR as (Hroot & Hm & Hf). apply rep_fill in Hm as [Ht Hk]. rewrite ptr_mk in Hk. apply rep_mk in Ht as (Hx & _ & Hb).
  pose proof Hf as [Hnd Hok]. rewrite inorder_perm, inorder_mk in Hnd, Hok. cbn in Hnd, Hok.
  apply NoDup_cons in Hnd as [Hx' Hnd]. pose proof Hnd as (Hnb & Hdk & Hnk)%NoDup_app.
  apply Forall_cons in Hok as [Hox Hok]. assert (par k ∉ inorder b) as Hpb.
  { destruct (par_in k) as [->|Hin]; [|set_solver]. intros H0. rewrite Forall_forall in Hok. destruct (Hok 0); [set_solver|lia]. }
  split.
  - apply (splice s _ k (mk d c x Leaf b)); [done| | | |].
    + split; by rewrite inorder_perm.
    + eapply rep_frame; [|by apply (rep_reparent (mem s) x b (par k))]. intros z Hz. apply point_ne. congruence.
    + by destruct k as [|[]].
    + intros z Hz. destruct k as [|[d' c' p sib] k]; [by apply elem_of_nil in Hz|]. cbn in *.
      destruct (decide (z = p)) as [->|]; [by rewrite !lookup_insert_eq|]. rewrite !(lookup_insert_ne _ p) by done. apply reparent_ne. set_solver.
  - intros z Hz. rewrite inorder_perm, inorder_mk in Hz. cbn in Hz. assert (z <> par k ∨ k = []) as [Hzk| ->].
    { destruct k; [by right|left]. cbn in *. set_solver. }
    + rewrite point_ne by done. cbn. apply reparent_ne. set_solver.
    + cbn. apply reparent_ne. set_solver.
Qed.

(** Another node takes the place, the colour and the children of [x]. *)
Lemma replaced s s' k c x y l r : Rep s (fill k (Node c x l r)) -> okp y -> y ∉ inorder (fill k (Node c x l r)) ->
  mem s' !! y = Some (RbNode (enc (par k) c) (ptr r) (ptr l)) -> root_node s' = root_node (point k y s) ->
  (∀ z, z <> y -> mem s' !! z = reparent (reparent (mem (point k y s)) l y) r y !! z) ->
  Rep s' (fill k (Node c y l r)) ∧ off (y :: inorder (fill k (Node c x l r))) s s'.
Proof.
  intros HR Hy Hyn Hyy Hroot Hz. pose proof HR as (_ & Hm & Hnd & Hok). apply rep_fill in Hm as [Ht Hk]. cbn in Ht. destruct Ht as (Hx & Hl & Hr).
  rewrite inorder_perm in Hnd, Hok, Hyn. cbn [inorder] in *.
  assert ((inorder l ++ x :: inorder r) ++ kaddrs k ≡ₚ x :: inorder l ++ inorder r ++ kaddrs k) as HP by solve_Permutation.
  rewrite HP in Hnd, Hok, Hyn. apply NoDup_cons in Hnd as [Hx' Hnd].
  pose proof Hnd as (Hnl & Hdl & Hnd')%NoDup_app. apply NoDup_app in Hnd' as (Hnr & Hdr & Hnk).
  apply Forall_cons in Hok as [_ Hok]. assert (∀ z, z ∈ inorder l ++ inorder r -> z <> par k) as Hpz.
  { intros z Hin Heq. destruct (par_in k) as [H0|Hin']; [|rewrite <- Heq in Hin'; set_solver].
    rewrite Forall_forall in Hok. destruct (Hok z); [set_solver|lia]. }
  split.
  - apply (splice s s' k (Node c x l r)); [done| | |done|].
    + split; rewrite inorder_perm; cbn [inorder].
      * assert ((inorder l ++ y :: inorder r) ++ kaddrs k ≡ₚ y :: inorder l ++ inorder r ++ kaddrs k) as -> by solve_Permutation. apply NoDup_cons. set_solver.
      * assert ((inorder l ++ y :: inorder r) ++ kaddrs k ≡ₚ y :: inorder l ++ inorder r ++ kaddrs k) as -> by solve_Permutation. by apply Forall_cons.
    + cbn [rep]. split_and!; [done|..].
      * apply (rep_frame (reparent (mem (point k y s)) l y)).
        { intros z Hin. rewrite Hz by set_solver. apply reparent_ne. set_solver. }
        apply (rep_reparent _ x); [|done]. eapply rep_frame; [|done]. intros z Hin. apply point_ne, Hpz. set_solver.
      * apply (rep_frame (reparent (reparent (mem (point k y s)) l y) r y)); [intros z Hin; apply Hz; set_solver|].
        apply (rep_reparent _ x); [|done]. eapply rep_frame; [|done]. intros z Hin. rewrite reparent_ne by set_solver. apply point_ne, Hpz. set_solver.
    + intros z Hin. cbn [ptr]. rewrite Hz by set_solver. rewrite !reparent_ne by set_solver. done.
  - intros z Hin. rewrite inorder_perm in Hin. cbn [inorder] in Hin. rewrite HP in Hin. rewrite Hz by set_solver. rewrite !reparent_ne by set_solver.
    destruct k as [|f k]; [done|]. apply point_ne. cbn in *. set_solver.
Qed.
End Splices.
