(* ===== verification/RbtreeOk.v ===== *)
(** Red-black trees are kept: the operations of lib/rbtree.c in terms of the
    sequence of nodes, and the balance they preserve. *)

From S2P Require Import Prelude.
From S2P Require Import Rbtree.
From S2P Require Import RbtreeRep.

(** * Replacing and removing a node *)

(** A node of a represented tree and its surroundings are all different. *)
Record apart (s : rbs) (k : list frame) (c : bool) (x : Z) (l r : tree) : Prop := {
  ap_node : mem s !! x = Some (RbNode (enc (par k) c) (ptr r) (ptr l));
  ap_l : rep (mem s) x l;
  ap_r : rep (mem s) x r;
  ap_path : repk (mem s) x k;
  ap_okx : okp x;
  ap_okp : okp0 (par k);
  ap_okl : Forall okp (inorder l);
  ap_okr : Forall okp (inorder r);
  ap_okk : Forall okp (kaddrs k);
  ap_x : x ∉ inorder l ++ inorder r ++ kaddrs k;
  ap_lr : ∀ z, z ∈ inorder l -> z ∉ inorder r ++ kaddrs k;
  ap_rk : ∀ z, z ∈ inorder r -> z ∉ kaddrs k;
  ap_ndk : NoDup (kaddrs k);
  ap_par : ∀ z, z ∈ x :: inorder l ++ inorder r -> z <> par k;
}.

Section Replace.
Implicit Types (s : rbs) (T t a b l r : tree) (k : list frame).

Lemma Rep_apart s k c x l r : Rep s (fill k (Node c x l r)) -> apart s k c x l r.
Proof.
  intros HR. pose proof (Rep_par _ _ _ HR) as Hp. pose proof HR as (_ & Hm & Hnd & Hok). apply rep_fill in Hm as [Ht Hk]. destruct Ht as (Hx & Hl & Hr).
  rewrite inorder_perm in Hnd, Hok. cbn [inorder] in *.
  assert ((inorder l ++ x :: inorder r) ++ kaddrs k ≡ₚ x :: inorder l ++ inorder r ++ kaddrs k) as HP by solve_Permutation.
  rewrite HP in Hnd, Hok. apply NoDup_cons in Hnd as [Hx' Hnd]. apply NoDup_app in Hnd as (_ & Hdl & Hnd). apply NoDup_app in Hnd as (_ & Hdr & Hnk).
  apply Forall_cons in Hok as [Hox Hok]. pose proof Hok as Hall. rewrite Forall_forall in Hall.
  apply Forall_app in Hok as [Hol Hok]. apply Forall_app in Hok as [Hor Hok]. split; try done.
  intros z Hz Heq. assert (okp z) as [Hpos _] by (apply elem_of_cons in Hz as [->|Hz]; [done|apply Hall; set_solver]).
  destruct (par_in k) as [H0|Hin]; [lia|]. rewrite <- Heq in Hin. set_solver.
Qed.

(** What the memory holds after the pointer to [x] was turned to [y]. *)
Lemma point_apart s k c x l r y : apart s k c x l r ->
  mem (point k y s) !! x = mem s !! x ∧ rep (mem (point k y s)) x l ∧ rep (mem (point k y s)) x r.
Proof.
  intros [Hx Hl Hr _ _ _ _ _ _ _ _ _ _ Hp]. split_and!.
  - apply point_ne, Hp. by left.
  - eapply rep_frame; [|done]. intros z Hz. apply point_ne, Hp. set_solver.
  - eapply rep_frame; [|done]. intros z Hz. apply point_ne, Hp. set_solver.
Qed.

(** Both children get the parent [y]. *)
Lemma adopt_run s l r y q1 q2 : rep (mem s) q1 l -> rep (mem s) q2 r -> okp0 q1 -> okp0 q2 -> okp y -> Forall okp (inorder l) -> Forall okp (inorder r) ->
  (∀ z, z ∈ inorder l -> z ∉ inorder r) -> ∀ B (h : Sf rbs B),
  (fwhen (negb (ptr l =? 0)) (rb_set_parent (ptr l) y) ;; fwhen (negb (ptr r =? 0)) (rb_set_parent (ptr r) y) ;; h) s =
  h (Rbs (root_node s) (reparent (reparent (mem s) l y) r y)).
Proof.
  intros Hl Hr Hq1 Hq2 Hy Hol Hor Hd B h. rewrite (bind_run _ _ _ _ _ (reparent_run s q1 l y Hl Hol Hq1 (okp_0 _ Hy))).
  rewrite (bind_run _ _ _ tt (Rbs (root_node s) (reparent (reparent (mem s) l y) r y))); [done|].
  apply (reparent_run (Rbs (root_node s) (reparent (mem s) l y)) q2); try done; [|by apply okp_0].
  eapply rep_frame; [|done]. intros z Hz. apply reparent_ne. intros Hz'. by apply (Hd z).
Qed.

(** rb_replace_node puts the new node in the place of the victim. *)
Lemma replace_ok s k c x l r y : Rep s (fill k (Node c x l r)) -> okp y -> y ∉ inorder (fill k (Node c x l r)) ->
  ∃ s', rb_replace_node x y s = Some (tt, s') ∧ Rep s' (fill k (Node c y l r)) ∧ off (y :: inorder (fill k (Node c x l r))) s s'.
Proof.
  intros HR Hy Hyn. pose proof (Rep_apart _ _ _ _ _ _ HR) as Hap. pose proof Hap as [Hx Hl Hr Hk Hox Hop Hol Hor Hok Hxn Hlr Hrk Hnk Hpar].
  destruct (point_apart _ _ _ _ _ _ y Hap) as (Hx1 & Hl1 & Hr1). set (s1 := point k y s) in *. rewrite Hx in Hx1.
  unfold rb_replace_node. rewrite (bind_run _ _ _ _ _ (parent_run s x L (par k) c (ptr l) (ptr r) Hx Hop)).
  change (if negb (par k =? 0) then _ else _) with (repoint L x (par k) y).
  rewrite (bind_run _ _ _ tt s1).
  2:{ apply repoint_run; [done|apply NoDup_cons; split; [set_solver|done]|done|]. by apply repk_frame_at. }
  rewrite (bind_run _ _ _ _ _ (ld_run _ _ _ Hx1)). cbn [rb_left rb_right].
  rewrite (adopt_run s1 l r y x x) by (done || by apply okp_0 || set_solver).
  set (s2 := Rbs (root_node s1) _). assert (mem s2 !! x = Some (RbNode (enc (par k) c) (ptr r) (ptr l))) as Hx2.
  { cbn. by rewrite !reparent_ne by set_solver. }
  rewrite (bind_run _ _ _ _ _ (ld_run _ _ _ Hx2)). eexists. split; [reflexivity|]. apply (replaced s); try done.
  - cbn. apply lookup_insert_eq.
  - intros z Hz. cbn. by rewrite lookup_insert_ne.
Qed.

(** ** The leftmost node *)

(** The path to the last node in direction [d]. *)
Fixpoint extreme (d : side) (k : list frame) (t : tree) : option (list frame * bool * Z * tree) :=
  match t with
  | Leaf => None
  | Node c x l r =>
      match d, l, r with
      | L, Leaf, _ => Some (k, c, x, r)
      | R, _, Leaf => Some (k, c, x, l)
      | L, _, _ => extreme d (Frame L c x r :: k) l
      | R, _, _ => extreme d (Frame R c x l :: k) r
      end
  end.

Lemma extreme_spec d k t k' c x b : extreme d k t = Some (k', c, x, b) ->
  ∃ kr, k' = kr ++ k ∧ fill kr (mk d c x Leaf b) = t ∧ Forall (λ f, f_side f = d) kr.
Proof.
  revert k. induction t as [|tc y l IHl r IHr]; intros k Hex; [done|]. destruct d.
  - destruct l as [|lc ly ll lr]; cbn [extreme] in Hex.
    + injection Hex as <- <- <- <-. exists []. done.
    + destruct (IHl _ Hex) as (kr & -> & Hfill & Hall). exists (kr ++ [Frame L tc y r]). rewrite <- app_assoc. split; [done|].
      rewrite fill_app, Hfill. split; [done|]. apply Forall_app. split; [done|by apply Forall_singleton].
  - destruct r as [|rc ry rl rr]; [assert (extreme R k (Node tc y l Leaf) = Some (k, tc, y, l)) as Hex' by (by destruct l)|
      assert (extreme R k (Node tc y l (Node rc ry rl rr)) = extreme R (Frame R tc y l :: k) (Node rc ry rl rr)) as Hex' by (by destruct l)];
      rewrite Hex' in Hex; clear Hex'.
    + injection Hex as <- <- <- <-. by exists [].
    + destruct (IHr _ Hex) as (kr & -> & Hfill & Hall). exists (kr ++ [Frame R tc y l]). rewrite <- app_assoc. split; [done|].
      rewrite fill_app, Hfill. split; [done|]. apply Forall_app. split; [done|by apply Forall_singleton].
Qed.

Lemma extreme_some d k t : t <> Leaf -> ∃ k' c x b, extreme d k t = Some (k', c, x, b).
Proof.
  revert k. induction t as [|tc y l IHl r IHr]; intros k Ht; [done|]. destruct d.
  - destruct l as [|lc ly ll lr]; cbn [extreme]; [by eexists _, _, _, _|by apply IHl].
  - destruct r as [|rc ry rl rr]; [exists k, tc, y, l; by destruct l|].
    destruct (IHr (Frame R tc y l :: k) ltac:(done)) as (k' & c & x & b & Hex). exists k', c, x, b. rewrite <- Hex. by destruct l.
Qed.

Lemma descend_ok d fuel k kr c x b : Forall (λ f, f_side f = d) kr -> (length kr <= fuel)%nat ->
  does (descend d fuel (ptr (fill kr (mk d c x Leaf b)))) (fill k (fill kr (mk d c x Leaf b))) x (fill k (fill kr (mk d c x Leaf b))).
Proof.
  revert k fuel. induction kr as [|f kr IH] using rev_ind; intros k fuel Hall Hf.
  { cbn [fill]. rewrite ptr_mk. destruct fuel; cbn [descend]; (eapply does_bind; [apply does_near|apply does_ret]). }
  rewrite length_app in Hf. cbn in Hf. destruct fuel as [|fuel]; [lia|]. apply Forall_app in Hall as [Hall Hd]. apply Forall_cons in Hd as [Hd _].
  rewrite fill_app. cbn [fill]. destruct f as [d' fc fx sib]. cbn in Hd. subst d'. unfold up. cbn [f_side f_black f_addr f_sib]. rewrite ptr_mk.
  set (t := fill kr (mk d c x Leaf b)) in *. cbn [descend]. apply does_given. intros [s Hs]. eapply does_bind; [apply does_near|].
  assert (okp (ptr t)) as [Hpos _].
  { apply (ptr_okp (Frame d fc fx sib :: k) t s Hs). unfold t. destruct kr as [|f kr]; [by destruct d|]. intros Hl.
    pose proof (ptr_fill_in (f :: kr) (mk d c x Leaf b) ltac:(done)) as Hin. pose proof (inorder_perm (f :: kr) (mk d c x Leaf b)) as Hi.
    rewrite Hl in Hi. cbn [inorder] in Hi. apply Permutation_nil_l in Hi. symmetry in Hi. apply app_eq_nil in Hi as [_ ?]. done. }
  destruct (Z.eqb_spec (ptr t) 0); [lia|]. apply (IH (Frame d fc fx sib :: k) fuel); [done|lia].
Qed.
End Replace.

(** ** Removing *)

(** The repair after a node of the colour [c] above [t] is gone. *)
Definition settle (k : list frame) (t : tree) (c : bool) : option tree := if c then del_fix k t else Some (fill k t).

(** What rb_erase does to the node with colour [c] and children [l], [r] at [k]. *)
Definition del_tree (k : list frame) (c : bool) (l r : tree) : option tree :=
  match l, r with
  | Leaf, _ => settle k r c
  | _, Leaf => settle k l c
  | _, _ => '(kr, cy, y, ry) ← extreme L [] r; settle (kr ++ Frame R c y l :: k) ry cy
  end.

Fixpoint height (t : tree) : nat := match t with Leaf => 0 | Node _ _ l r => S (height l `max` height r) end.

#[export] Instance tree_eq_dec : EqDecision tree.
Proof. solve_decision. Defined.

Section EraseOk.
Implicit Types (s : rbs) (T t a b l r : tree) (k : list frame).

Lemma path_height k t : (length k + height t <= height (fill k t))%nat.
Proof.
  revert t. induction k as [|[d c x sib] k IH]; intros t; [done|]. cbn [fill length]. etrans; [|apply IH].
  unfold up. destruct d; cbn; lia.
Qed.

Lemma off_mono (A B : list Z) s s' : (∀ z, z ∈ A -> z ∈ B) -> off A s s' -> off B s s'.
Proof. intros Hl Ho z Hz. apply Ho. auto. Qed.

Lemma off_step (A : list Z) s1 s2 s3 : off A s1 s2 -> off A s2 s3 -> off A s1 s3.
Proof. by apply off_trans. Qed.

Lemma settle_ok fuel k t c T' s : settle k t c = Some T' -> (length k <= fuel)%nat -> Rep s (fill k t) ->
  ∃ s', fwhen (Z.b2z c =? RB_BLACK) (rb_erase_color_ fuel (ptr t) (par k)) s = Some (tt, s') ∧ Rep s' T' ∧
    off (inorder (fill k t)) s s' ∧ inorder T' = inorder (fill k t).
Proof.
  intros Hset Hf Hs. destruct c; cbn in Hset |- *; [by apply erase_color_ok|]. injection Hset as <-. by apply (does_ret tt).
Qed.

(** The child of a node with one child goes up. *)
Lemma cut_run s k d c x b : Rep s (fill k (mk d c x Leaf b)) -> ∀ B (h : Sf rbs B),
  (fwhen (negb (ptr b =? 0)) (rb_set_parent (ptr b) (par k)) ;; relink x (par k) (ptr b) ;; h) s =
  h (point k (ptr b) (Rbs (root_node s) (reparent (mem s) b (par k)))).
Proof.
  intros HR B h. assert (∃ l r, mk d c x Leaf b = Node c x l r ∧ (l = Leaf ∧ r = b ∨ l = b ∧ r = Leaf)) as (l & r & Hmk & Hlr).
  { destruct d; cbn; eexists _, _; (split; [reflexivity|]); tauto. }
  rewrite Hmk in HR. pose proof (Rep_apart _ _ _ _ _ _ HR) as [Hx Hl Hr Hk Hox Hop Hol Hor Hok Hxn Hlr' Hrk Hnk Hpar].
  assert (rep (mem s) x b ∧ Forall okp (inorder b) ∧ ∀ z, z ∈ inorder b -> z ∉ kaddrs k) as (Hb & Hob & Hbk).
  { destruct Hlr as [[-> ->]|[-> ->]]; split_and!; try done; set_solver. }
  rewrite (bind_run _ _ _ _ _ (reparent_run s x b (par k) Hb Hob (okp_0 _ Hox) Hop)).
  rewrite (bind_run _ _ _ tt (point k (ptr b) (Rbs (root_node s) (reparent (mem s) b (par k))))); [done|].
  rewrite relink_repoint. apply repoint_run; [done|apply NoDup_cons; split; [set_solver|done]|done|].
  intros f k' ->. cbn [mem]. rewrite reparent_ne; [by apply (repk_frame_at _ _ _ Hk)|]. intros Hin. apply (Hbk _ Hin). by left.
Qed.

Lemma erase_one fuel s k d c x b T' : Rep s (fill k (mk d c x Leaf b)) -> settle k b c = Some T' -> (length k <= fuel)%nat ->
  ∃ s', rb_erase fuel x s = Some (tt, s') ∧ Rep s' T' ∧ off (inorder (fill k (mk d c x Leaf b))) s s' ∧ inorder T' = before k ++ inorder b ++ after k.
Proof.
  intros HR Hset Hf. pose proof (Rep_node _ _ _ _ _ _ _ HR) as Hx. pose proof (Rep_par _ _ _ HR) as Hp.
  destruct (splice_out _ _ _ _ _ _ _ HR eq_refl) as [HR1 Ho1]. set (s1 := point k (ptr b) _) in *.
  destruct (settle_ok fuel k b c T' s1 Hset Hf HR1) as (s' & Hrun & HR' & Ho' & Hi').
  exists s'. split_and!; [|done| |by rewrite Hi', inorder_fill].
  - unfold rb_erase. rewrite (bind_run _ _ _ _ _ (ld_run _ _ _ Hx)).
    assert ((rb_left (nd d (enc (par k) c) (ptr Leaf) (ptr b)) =? 0) || (rb_right (nd d (enc (par k) c) (ptr Leaf) (ptr b)) =? 0) = true) as ->.
    { destruct d; cbn; [done|apply orb_true_r]. }
    assert ((if rb_left (nd d (enc (par k) c) (ptr Leaf) (ptr b)) =? 0 then rb_right (nd d (enc (par k) c) (ptr Leaf) (ptr b))
             else rb_left (nd d (enc (par k) c) (ptr Leaf) (ptr b))) = ptr b) as ->.
    { destruct d; cbn; [done|]. by destruct (Z.eqb_spec (ptr b) 0). }
    rewrite (bind_run _ _ _ _ _ (parent_run _ _ _ _ _ _ _ Hx Hp)), (bind_run _ _ _ _ _ (color_run _ _ _ _ _ _ _ Hx Hp)).
    by rewrite (cut_run s k d c x b HR).
  - apply (off_step _ _ s1); [done|]. eapply off_mono; [|done]. intros z. rewrite !inorder_perm, inorder_mk. set_solver.
Qed.

(** ** Two children *)

Lemma reparent_ext m m' t p z : m !! z = m' !! z -> reparent m t p !! z = reparent m' t p !! z.
Proof. intros Hz. destruct t as [|c x l r]; [done|]. cbn. destruct (decide (x = z)) as [->|]; [by rewrite !lookup_insert_eq|by rewrite !lookup_insert_ne]. Qed.
(** The successor [y], taken out of the tree, takes the place of [x]. *)
Lemma move_run s k c x l r y n : Rep s (fill k (Node c x l r)) -> l <> Leaf -> okp y -> y ∉ inorder (fill k (Node c x l r)) -> mem s !! y = Some n ->
  ∃ s', Rep s' (fill k (Node c y l r)) ∧ off (y :: inorder (fill k (Node c x l r))) s s' ∧ ∀ B (h : Sf rbs B),
  (o ← ld x; st y (λ _, RbNode (rb_parent_color o) (rb_right o) (rb_left o)) ;; op ← rb_parent x; relink x op y ;;
   rb_set_parent (rb_left o) y ;; fwhen (negb (rb_right o =? 0)) (rb_set_parent (rb_right o) y) ;; h) s = h s'.
Proof.
  intros HR Hll Hy Hyn Hn. pose proof (Rep_apart _ _ _ _ _ _ HR) as Hap. pose proof Hap as [Hx Hl Hr Hk Hox Hop Hol Hor Hok Hxn Hlr Hrk Hnk Hpar].
  pose proof Hyn as Hyn'. rewrite inorder_perm in Hyn'. cbn in Hyn'.
  set (o := RbNode (enc (par k) c) (ptr r) (ptr l)) in *. set (s2 := Rbs (root_node s) (<[y := o]> (mem s))).
  assert (y <> par k) as Hypar.
  { intros Heq. destruct (par_in k) as [H0|Hin]; [destruct Hy; lia|]. rewrite <- Heq in Hin. set_solver. }
  assert (∀ z, z <> y -> mem s2 !! z = mem s !! z) as H2 by (intros z Hz; cbn; by apply lookup_insert_ne).
  assert (∀ t q, (∀ z, z ∈ inorder t -> z ∈ inorder l ++ inorder r) -> rep (mem s) q t -> rep (mem (point k y s2)) q t) as Hkeep.
  { intros t q Hsub Ht. eapply rep_frame; [|done]. intros z Hz%Hsub. rewrite point_ne by (apply Hpar; set_solver). apply H2. set_solver. }
  set (s3 := Rbs (root_node (point k y s2)) (reparent (reparent (mem (point k y s2)) l y) r y)). exists s3.
  assert (Rep s3 (fill k (Node c y l r)) ∧ off (y :: inorder (fill k (Node c x l r))) s s3) as [HR3 Ho3].
  { apply replaced; try done.
    - cbn [s3 mem]. rewrite !reparent_ne by set_solver. rewrite point_ne by done. cbn. apply lookup_insert_eq.
    - by destruct k as [|[]].
    - intros z Hz. cbn [s3 mem]. do 2 apply reparent_ext. by apply point_ext_at, H2. }
  split_and!; [done|done|]. intros B h.
  rewrite (bind_run _ _ _ _ _ (ld_run _ _ _ Hx)), (bind_run _ _ _ _ _ (st_run _ _ _ _ Hn)). cbn [rb_parent_color rb_right rb_left o]. fold o s2.
  assert (mem s2 !! x = Some (nd L (enc (par k) c) (ptr l) (ptr r))) as Hx2 by (rewrite H2; [done|set_solver]).
  rewrite (bind_run _ _ _ _ _ (parent_run _ _ _ _ _ _ _ Hx2 Hop)).
  rewrite (bind_run _ _ _ tt (point k y s2)).
  2:{ rewrite relink_repoint. apply repoint_run; [done|apply NoDup_cons; split; [set_solver|done]|done|].
      intros f k' ->. rewrite H2; [by apply (repk_frame_at _ _ _ Hk)|]. cbn in Hypar. congruence. }
  rewrite <- (adopt_run (point k y s2) l r y x x); try done; [..|by apply okp_0|by apply okp_0|set_solver].
  - assert ((ptr l =? 0) = false) as ->; [|done]. apply Z.eqb_neq. destruct l as [|lc lx ll lr]; [done|]. cbn.
    rewrite Forall_forall in Hol. destruct (Hol lx); [cbn; set_solver|lia].
  - apply Hkeep; [set_solver|done].
  - apply Hkeep; [set_solver|done].
Qed.

(** The successor leaves its place below [x]. *)
Lemma take_run s kr k c x l cy y ry : let K := kr ++ Frame R c x l :: k in
  Rep s (fill K (Node cy y Leaf ry)) -> Forall (λ f, f_side f = L) kr -> ∀ B (h : Z -> Sf rbs B),
  (fwhen (negb (ptr ry =? 0)) (rb_set_parent (ptr ry) (par K)) ;;
   parent ← (if par K =? x then set_child R (par K) (ptr ry) ;; mret y else set_child L (par K) (ptr ry) ;; mret (par K)); h parent) s =
  h (par (kr ++ Frame R c y l :: k)) (point K (ptr ry) (Rbs (root_node s) (reparent (mem s) ry (par K)))).
Proof.
  intros K HR Hall B h. pose proof (Rep_apart _ _ _ _ _ _ HR) as [Hy _ Hr Hk Hoy Hop _ Hor Hok Hyn _ Hrk Hnk Hpar].
  rewrite (bind_run _ _ _ _ _ (reparent_run s y ry (par K) Hr Hor (okp_0 _ Hoy) Hop)). set (s1 := Rbs _ _).
  assert (∀ f k', K = f :: k' -> mem s1 !! f_addr f = Some (nd (f_side f) (enc (par k') (f_black f)) y (ptr (f_sib f)))) as Hf.
  { intros f k' HK. cbn. rewrite reparent_ne; [by apply (repk_frame_at _ _ _ Hk)|]. intros Hin. apply (Hrk _ Hin). rewrite HK. by left. }
  destruct kr as [|f kr]; cbn [app] in *.
  - cbn [par f_addr K]. rewrite Z.eqb_refl. specialize (Hf _ _ eq_refl). cbn in Hf.
    rewrite (bind_run _ _ s1 y (point K (ptr ry) s1)); [done|]. by rewrite (bind_run _ _ _ _ _ (set_near s1 x R (par k) c y (ptr l) Hf (ptr ry))).
  - cbn [par K]. apply Forall_cons in Hall as [Hside _]. specialize (Hf _ _ eq_refl). destruct f as [d fc p sib]. cbn in Hside. subst d. cbn [f_addr f_side f_black f_sib] in *.
    destruct (Z.eqb_spec p x) as [->|_].
    { exfalso. cbn in Hnk. apply NoDup_cons in Hnk as [Hx _]. apply Hx. apply elem_of_app. right.
      clear. induction kr as [|f kr IH]; cbn; [by left|]. right. apply elem_of_app. by right. }
    rewrite (bind_run _ _ s1 p (point K (ptr ry) s1)); [done|]. by rewrite (bind_run _ _ _ _ _ (set_near s1 p L _ fc y (ptr sib) Hf (ptr ry))).
Qed.

Lemma kaddrs_app k1 k2 : kaddrs (k1 ++ k2) = kaddrs k1 ++ kaddrs k2.
Proof. induction k1 as [|f k1 IH]; [done|]. cbn. by rewrite IH, app_assoc. Qed.

Lemma erase_two fuel s k c x l r kr cy y ry T' : Rep s (fill k (Node c x l r)) -> l <> Leaf ->
  r = fill kr (Node cy y Leaf ry) -> Forall (λ f, f_side f = L) kr -> settle (kr ++ Frame R c y l :: k) ry cy = Some T' ->
  (length kr + S (length k) <= fuel)%nat ->
  ∃ s', rb_erase fuel x s = Some (tt, s') ∧ Rep s' T' ∧ off (inorder (fill k (Node c x l r))) s s' ∧
    inorder T' = before k ++ inorder l ++ inorder r ++ after k.
Proof.
  intros HR Hl Hr Hall Hset Hf. set (K := kr ++ Frame R c x l :: k). set (K' := kr ++ Frame R c y l :: k) in *.
  assert (fill k (Node c x l r) = fill K (Node cy y Leaf ry)) as HK by (unfold K; by rewrite fill_app, Hr).
  assert (r <> Leaf) as Hrl.
  { intros ->. pose proof (inorder_perm kr (Node cy y Leaf ry)) as Hi. rewrite <- Hr in Hi. by apply Permutation_nil_l in Hi. }
  assert (inorder (fill K' ry) = before k ++ inorder l ++ y :: inorder (fill kr ry) ++ after k) as Hi'.
  { unfold K'. rewrite fill_app. cbn [fill]. rewrite inorder_fill. cbn. by rewrite <- app_assoc. }
  assert (inorder r = y :: inorder (fill kr ry)) as Hir.
  { rewrite Hr, !inorder_fill. assert (before kr = []) as ->; [|done]. clear -Hall. induction kr as [|f kr IH]; [done|].
    apply Forall_cons in Hall as [Hd Hall]. cbn. rewrite Hd, IH by done. done. }
  pose proof (Rep_node s k L c x l r HR) as Hx.
  (* the successor is found *)
  destruct (descend_ok L fuel (Frame R c x l :: k) kr cy y ry Hall ltac:(lia) s) as (s0 & Hdesc & HR0 & Ho0 & _).
  { cbn [mk]. rewrite <- Hr. exact HR. }
  cbn [mk] in HR0, Hdesc, Ho0. rewrite <- Hr in HR0, Hdesc, Ho0. change (fill (Frame R c x l :: k) r) with (fill k (Node c x l r)) in HR0, Ho0.
  pose proof HR0 as HRK. rewrite HK in HRK. pose proof (Rep_node s0 K L cy y Leaf ry HRK) as Hy. pose proof (Rep_par _ _ _ HRK) as Hp.
  destruct (splice_out s0 K L cy y ry _ HRK eq_refl) as [HR1 Ho1]. set (s1 := point K (ptr ry) _) in *.
  (* and takes the place of [x] *)
  pose proof (Rep_apart _ _ _ _ _ _ HRK) as [_ _ _ _ Hoy _ _ _ _ Hyn _ _ _ Hpar].
  assert (fill K ry = fill k (Node c x l (fill kr ry))) as HK1 by (unfold K; by rewrite fill_app). rewrite HK1 in HR1.
  assert (y ∉ inorder (fill k (Node c x l (fill kr ry)))) as Hyn1 by (rewrite <- HK1, inorder_perm; set_solver).
  assert (mem s1 !! y = Some (nd L (enc (par K) cy) (ptr Leaf) (ptr ry))) as Hy1.
  { unfold s1. rewrite point_ne by (apply Hpar; by left). cbn. rewrite reparent_ne by set_solver. exact Hy. }
  destruct (move_run s1 k c x l (fill kr ry) y _ HR1 Hl Hoy Hyn1 Hy1) as (s2 & HR2 & Ho2 & Hmove).
  assert (fill k (Node c y l (fill kr ry)) = fill K' ry) as HK2 by (unfold K'; by rewrite fill_app). rewrite HK2 in HR2.
  destruct (settle_ok fuel K' ry cy T' s2 Hset ltac:(unfold K'; rewrite length_app; cbn; lia) HR2) as (s' & Hend & HR' & Ho' & Hi2).
  exists s'. split_and!; [|done| |by rewrite Hi2, Hi', Hir].
  - unfold rb_erase. rewrite (bind_run _ _ _ _ _ (ld_run _ _ _ Hx)). cbn [rb_left rb_right nd].
    assert (okp (ptr l) ∧ okp (ptr r)) as [[Hpl _] [Hpr _]].
    { split; [apply (ptr_okp (Frame L c x r :: k) l s HR Hl)|apply (ptr_okp (Frame R c x l :: k) r s HR Hrl)]. }
    destruct (Z.eqb_spec (ptr l) 0); [lia|]. destruct (Z.eqb_spec (ptr r) 0); [lia|]. cbn [orb].
    rewrite (bind_run _ _ _ _ _ Hdesc), (bind_run _ _ _ _ _ (get_far _ _ _ _ _ _ _ Hy)).
    rewrite (bind_run _ _ _ _ _ (parent_run _ _ _ _ _ _ _ Hy Hp)), (bind_run _ _ _ _ _ (color_run _ _ _ _ _ _ _ Hy Hp)).
    rewrite (take_run s0 kr k c x l cy y ry HRK Hall). fold K s1. rewrite Hmove. exact Hend.
  - assert (∀ z, z ∈ y :: inorder (fill k (Node c x l (fill kr ry))) -> z ∈ inorder (fill k (Node c x l r))) as Hsub.
    { intros z. rewrite <- HK1, HK, !inorder_perm. cbn. set_solver. }
    apply (off_step _ _ s0); [done|]. apply (off_step _ _ s1); [by rewrite HK|]. apply (off_step _ _ s2); [by eapply off_mono|].
    eapply off_mono; [|done]. intros z. rewrite <- HK2, HK. rewrite !inorder_perm. unfold K. rewrite kaddrs_app. cbn. rewrite inorder_perm. set_solver.
Qed.

Lemma erase_ok fuel s k c x l r T' : Rep s (fill k (Node c x l r)) -> del_tree k c l r = Some T' -> (height (fill k (Node c x l r)) <= fuel)%nat ->
  ∃ s', rb_erase fuel x s = Some (tt, s') ∧ Rep s' T' ∧ off (inorder (fill k (Node c x l r))) s s' ∧
    inorder T' = before k ++ inorder l ++ inorder r ++ after k.
Proof.
  intros HR Hdel Hf. pose proof (path_height k (Node c x l r)) as Hlen. cbn [height] in Hlen.
  destruct (decide (l = Leaf)) as [->|Hl]; [by apply (erase_one fuel s k L); [..|lia]|].
  destruct (decide (r = Leaf)) as [->|Hr].
  { destruct (erase_one fuel s k R c x l T') as (s' & Hrun & HR' & Ho & Hi); [done|by destruct l|lia|]. exists s'. split_and!; try done. }
  assert (('(kr, cy, y, ry) ← extreme L [] r; settle (kr ++ Frame R c y l :: k) ry cy) = Some T') as Hdel' by (by destruct l, r).
  apply bind_Some in Hdel' as ([[[kr cy] y] ry] & Hex & Hset). destruct (extreme_spec _ _ _ _ _ _ _ Hex) as (kr' & -> & Hfill & Hall).
  rewrite app_nil_r in Hset. apply (erase_two fuel s k c x l r kr' cy y ry); try done.
  pose proof (path_height kr' (mk L cy y Leaf ry)) as Hlen'. rewrite Hfill in Hlen'. cbn in Hlen'. lia.
Qed.
End EraseOk.

(** * Balance *)

(** [rb c n t]: a red-black tree with a root of colour [c] (leaves are black)
    and [n] black nodes on every path. *)
Inductive rb : bool -> nat -> tree -> Prop :=
| rb_leaf : rb true 0 Leaf
| rb_black n x cl cr l r : rb cl n l -> rb cr n r -> rb true (S n) (Node true x l r)
| rb_red n x l r : rb true n l -> rb true n r -> rb false n (Node false x l r).

(** A path whose hole takes trees with [n] black nodes on every path, and red
    ones too if [any]. *)
Inductive rbk : bool -> nat -> list frame -> Prop :=
| rbk_top n : rbk false n []
| rbk_black n any c d x sib k : rbk any (S n) k -> rb c n sib -> rbk true n (Frame d true x sib :: k)
| rbk_red n d x sib k : rbk true n k -> rb true n sib -> rbk false n (Frame d false x sib :: k).

Section Balance.
Implicit Types (T t a b l r : tree) (k : list frame).

Lemma rb_mk d c x a b n : rb c n (mk d c x a b) <-> match c with
  | true => ∃ n', n = S n' ∧ (∃ ca, rb ca n' a) ∧ (∃ cb, rb cb n' b)
  | false => rb true n a ∧ rb true n b end.
Proof.
  split.
  - intros Hrb. destruct d, c; inversion Hrb; subst; eauto 10.
  - destruct c; [intros (n' & -> & [ca Ha] & [cb Hb])|intros [Ha Hb]]; destruct d; econstructor; done.
Qed.

Lemma rb_mk_black d x a b n ca cb : rb ca n a -> rb cb n b -> rb true (S n) (mk d true x a b).
Proof. intros Ha Hb. apply rb_mk. eauto 10. Qed.
Lemma rb_mk_red d x a b n : rb true n a -> rb true n b -> rb false n (mk d false x a b).
Proof. intros Ha Hb. by apply rb_mk. Qed.

Lemma rb_fill any c n k t : rbk any n k -> rb c n t -> c || any = true -> ∃ N, rb true N (fill k t).
Proof.
  intros Hk. revert c t. induction Hk as [n|n any c' d x sib k Hk IH Hsib|n d x sib k Hk IH Hsib]; intros c t Ht Hc.
  - destruct c; [by exists n|done].
  - apply (IH true); [|done]. by eapply rb_mk_black.
  - destruct c; [|done]. apply (IH false); [|done]. by apply rb_mk_red.
Qed.

Lemma rb_unfill k t N : rb true N (fill k t) -> ∃ any c n, rbk any n k ∧ rb c n t ∧ c || any = true.
Proof.
  revert t. induction k as [|[d c x sib] k IH]; intros t HT; [exists false, true, N; split_and!; [constructor|done|done]|].
  destruct (IH _ HT) as (any & c' & n & Hk & Ht & Hc). unfold up in Ht. cbn [f_side f_black f_addr f_sib] in Ht.
  assert (c' = c) as -> by (destruct d; inversion Ht; done). apply rb_mk in Ht. destruct c.
  - destruct Ht as (n' & -> & [ca Ha] & [cb Hb]). exists true, ca, n'. split_and!; [by econstructor|done|apply orb_true_r].
  - destruct Ht as [Ha Hb]. cbn in Hc. subst any. exists false, true, n. split_and!; [by constructor|done|done].
Qed.

Lemma rb_not_red c n t : rb c n t -> is_red t = negb c.
Proof. by destruct 1. Qed.

Lemma rb_blacken c n t : rb c n t -> t <> Leaf -> ∃ n', rb true n' (blacken t).
Proof. destruct 1 as [|n x cl cr l r|n x l r]; intros Ht; [done|..]; eexists; by econstructor. Qed.

Lemma rb_black_id n t : rb true n t -> blacken t = t.
Proof. inversion 1; done. Qed.

Lemma fill_node k t : t <> Leaf -> fill k t <> Leaf.
Proof. revert t. induction k as [|[d c x sib] k IH]; intros t Ht; [done|]. cbn [fill]. apply IH. by destruct d. Qed.

(** ** Insertion *)

(** What a repaired path ends in. *)
Definition sound (o : option tree) : Prop := ∃ T N, o = Some T ∧ T <> Leaf ∧ rb true N (blacken T).

Lemma sound_fill any c n k t : rbk any n k -> rb c n t -> c || any = true -> t <> Leaf -> sound (Some (fill k t)).
Proof.
  intros Hk Ht Hc Hl. destruct (rb_fill any c n k t Hk Ht Hc) as [N HN]. exists (fill k t), N.
  split_and!; [done|by apply fill_node|]. by rewrite (rb_black_id N).
Qed.

Lemma mk_node d c x a b : mk d c x a b <> Leaf.
Proof. by destruct d. Qed.

Lemma ins_fix_rb any n k t : rbk any n k -> rb false n t -> sound (ins_fix k t).
Proof.
  remember (length k) as m eqn:Hm. revert any n k t Hm. induction (lt_wf m) as [m _ IH]. intros any n k t -> Hk Ht.
  assert (t <> Leaf) as Htl by (by intros ->; inversion Ht).
  destruct Hk as [n|n any c d x sib k Hk Hsib|n d x sib k Hk Hsib].
  - destruct (rb_blacken _ _ _ Ht Htl) as [N HN]. by exists t, N.
  - apply (sound_fill true false n (Frame d true x sib :: k)); [by econstructor|done..].
  - inversion Hk as [|n' any' c' d2 g u k2 Hk2 Hu|]; subst. cbn [ins_fix].
    assert (∀ u', rb true n u' -> u' = u -> sound (if decide (d = d2) then Some (fill k2 (mk d2 true x t (mk d2 false g sib u')))
      else match t with Leaf => None | Node tc y tl tr =>
        let '(b, e) := match d2 with L => (tl, tr) | R => (tr, tl) end in
        Some (fill k2 (mk d2 true y (mk d2 false x sib b) (mk d2 false g e u'))) end)) as Hrot.
    { intros u' Hu' _. case_decide.
      - apply (sound_fill any' true (S n)); [done| |done|apply mk_node]. eapply rb_mk_black; [exact Ht|by apply rb_mk_red].
      - inversion Ht as [| |n' y tl tr Hl Hr]; subst.
        destruct d2; (apply (sound_fill any' true (S n)); [done| |done|apply mk_node]); (eapply rb_mk_black; by apply rb_mk_red). }
    destruct Hu as [|n' y cl cr ul ur Hl Hr|n' y ul ur Hl Hr]; [apply Hrot; [constructor|done]|apply Hrot; [by econstructor|done]|].
    eapply (IH (length k2)); [cbn; lia|done|done|]. apply rb_mk_red; [eapply rb_mk_black; [exact Ht|exact Hsib]|by econstructor].
Qed.

(** ** Removal *)

Lemma near_far_rb d c n x l r : rb c n (Node c x l r) -> ∃ n' cn cf, rb cn n' (near d l r) ∧ rb cf n' (far d l r) ∧
  (if c then n = S n' else n = n' ∧ cn = true ∧ cf = true).
Proof. destruct d; inversion 1; subst; eexists _, _, _; split_and!; done. Qed.

(** The last step gives the short side a black node from the sibling. *)
Lemma last_fix_rb (any c : bool) n k d p t o : rbk any (if c then S (S n) else S n) k -> c || any = true -> rb true n t -> rb true (S n) o ->
  (match o with Node _ _ ol or => is_red ol || is_red or = true | Leaf => False end) ->
  sound (last_fix k d c p t o).
Proof.
  intros Hk Hc Ht Ho Hred. destruct o as [|oc ox ol or]; [done|]. inversion Ho as [|? ? cl cr ? ? Hl Hr|]; subst.
  destruct (near_far_rb d true (S n) ox ol or Ho) as (n' & cn & cf & Hn & Hf & [= <-]). cbn [last_fix].
  assert (∀ e a b ca cb, rb ca (S n) a -> rb cb (S n) b -> (c = false -> ca = true ∧ cb = true) -> sound (Some (fill k (mk d c e a b)))) as Hend.
  { intros e a b ca cb Ha Hb Hcol. apply (sound_fill any c (if c then S (S n) else S n)); [done| |done|apply mk_node].
    destruct c; [by eapply rb_mk_black|]. destruct (Hcol eq_refl) as [-> ->]. by apply rb_mk_red. }
  destruct (is_red (far d ol or)) eqn:Hfr.
  - apply (Hend _ _ _ true true); [by eapply rb_mk_black| |done]. rewrite (rb_not_red _ _ _ Hf) in Hfr. destruct cf; [done|].
    inversion Hf as [| |m y fl fr Hfl Hfr']; subst. by econstructor.
  - assert (cn = false) as ->.
    { rewrite (rb_not_red _ _ _ Hf) in Hfr. destruct cf; [|done]. destruct cn; [|done]. exfalso.
      pose proof (rb_not_red _ _ _ Hn) as H1. pose proof (rb_not_red _ _ _ Hf) as H2. destruct d; cbn in *; by rewrite H1, H2 in Hred. }
    inversion Hn as [| |m y nl nr Hnl Hnr]; subst. apply (Hend _ _ _ true true); [| |done].
    + destruct d; by eapply rb_mk_black.
    + destruct d; by eapply rb_mk_black.
Qed.

Lemma del_fix_rb any n k t : rbk any (S n) k -> (∃ c, rb c n t) -> (∃ T N, del_fix k t = Some T ∧ rb true N T).
Proof.
  revert any n t. induction k as [|[d c p o] k IH]; intros any n t Hk [ct Ht].
  { inversion Ht; subst; cbn; eexists _, _; (split; [reflexivity|]); first [by apply rb_leaf|by eapply rb_black]. }
  assert (is_red t = true -> ∃ T N, Some (fill (Frame d c p o :: k) (blacken t)) = Some T ∧ rb true N T) as Hexit.
  { intros Hr. rewrite (rb_not_red _ _ _ Ht) in Hr. destruct ct; [done|]. inversion Ht as [| |m x l r Hl Hr']; subst.
    destruct (rb_fill any true (S n) (Frame d c p o :: k) (Node true x l r) Hk ltac:(by econstructor) eq_refl) as [N HN]. by eexists _, _. }
  cbn [del_fix]. destruct (is_red t) eqn:Hr; [by apply Hexit|]. clear Hexit.
  rewrite (rb_not_red _ _ _ Ht) in Hr. destruct ct; [|done]. clear Hr.
  assert (∀ x, sound x -> ∃ T N, blacken <$> x = Some T ∧ rb true N T) as Hsound.
  { intros x (T & N & -> & _ & HN). by eexists _, _. }
  inversion Hk as [|m any' c' d' x' o' k' Hk' Ho|m d' x' o' k' Hk' Ho]; subst.
  - (* black parent *)
    inversion Ho as [|m x cl cr l r Hl Hr|m x l r Hl Hr]; subst.
    + destruct (is_red l || is_red r) eqn:Hred.
      * apply Hsound. by apply (last_fix_rb any' true n).
      * apply orb_false_iff in Hred as [Hlr Hrr]. rewrite (rb_not_red _ _ _ Hl) in Hlr. rewrite (rb_not_red _ _ _ Hr) in Hrr.
        destruct cl, cr; try done. apply (IH any' (S n)); [done|]. exists true. eapply rb_mk_black; [exact Ht|by apply rb_red].
    + (* red sibling *)
      destruct (near_far_rb d false (S n) x l r Ho) as (n' & cn & cf & Hn & Hf & <- & -> & ->).
      assert (rbk true (S n) (Frame d true x (far d l r) :: k)) as Hk2 by (by econstructor).
      destruct (near d l r) as [|nc y nl nr] eqn:Hnear; inversion Hn as [|? ? cl cr ? ? Hnl Hnr|]; subst.
      destruct (is_red nl || is_red nr) eqn:Hred.
      * apply Hsound. by apply (last_fix_rb true false n).
      * apply orb_false_iff in Hred as [Hlr Hrr]. rewrite (rb_not_red _ _ _ Hnl) in Hlr. rewrite (rb_not_red _ _ _ Hnr) in Hrr.
        destruct cl, cr; try done.
        destruct (rb_fill true true (S n) (Frame d true x (far d l r) :: k) (mk d true p t (Node false y nl nr)) Hk2) as [N HN]; [|done|by eexists _, _].
        eapply rb_mk_black; [exact Ht|by apply rb_red].
  - (* red parent *)
    inversion Ho as [|m x cl cr l r Hl Hr|]; subst. destruct (is_red l || is_red r) eqn:Hred.
    + apply Hsound. by apply (last_fix_rb true false n).
    + apply orb_false_iff in Hred as [Hlr Hrr]. rewrite (rb_not_red _ _ _ Hl) in Hlr. rewrite (rb_not_red _ _ _ Hr) in Hrr.
      destruct cl, cr; try done. destruct k as [|f k]; [inversion Hk'|].
      assert (del_fix (f :: k) (mk d false p t (Node false x l r)) = Some (fill (f :: k) (mk d true p t (Node false x l r)))) as -> by (by destruct d).
      destruct (rb_fill true true (S n) (f :: k) (mk d true p t (Node false x l r)) Hk') as [N HN]; [|done|by eexists _, _].
      eapply rb_mk_black; [exact Ht|by apply rb_red].
Qed.
End Balance.

(** ** The whole of a removal, and heights *)

Section Keep.
Implicit Types (T t a b l r : tree) (k : list frame).

Lemma rbk_addr any n kr d c x y sib k : rbk any n (kr ++ Frame d c x sib :: k) -> rbk any n (kr ++ Frame d c y sib :: k).
Proof.
  revert any n. induction kr as [|[d' c' z t] kr IH]; intros any n Hk; cbn [app] in *.
  - inversion Hk; subst; by econstructor.
  - inversion Hk; subst; econstructor; eauto.
Qed.

Lemma settle_rb (any c : bool) n k t : rbk any n k -> c || any = true ->
  (if c then ∃ n' ct, n = S n' ∧ rb ct n' t else rb true n t) -> ∃ T N, settle k t c = Some T ∧ rb true N T.
Proof.
  intros Hk Hc Ht. destruct c; cbn [settle].
  - destruct Ht as (n' & ct & -> & Ht). apply (del_fix_rb any n'); [done|by exists ct].
  - destruct (rb_fill any true n k t Hk Ht eq_refl) as [N HN]. by eexists _, _.
Qed.

Lemma del_tree_rb k c x l r N : rb true N (fill k (Node c x l r)) -> ∃ T' N', del_tree k c l r = Some T' ∧ rb true N' T'.
Proof.
  intros HT. pose proof HT as HT0. apply rb_unfill in HT as (any & c' & n & Hk & Hx & Hc).
  assert (c' = c) as -> by (by inversion Hx). destruct (near_far_rb L _ _ _ _ _ Hx) as (n' & cl & cr & Hl & Hr & Hn). cbn in Hl, Hr.
  assert (∀ t ct, rb ct n' t -> (c = false -> ct = true) -> ∃ T N, settle k t c = Some T ∧ rb true N T) as Hone.
  { intros t ct Ht Hct. apply (settle_rb any c n k t Hk Hc). destruct c; [by exists n', ct|]. destruct Hn as [-> _]. by rewrite Hct in Ht by done. }
  destruct (decide (l = Leaf)) as [->|Hll]; [apply (Hone r cr); [done|]; destruct c; naive_solver|].
  destruct (decide (r = Leaf)) as [->|Hrl].
  { assert (del_tree k c l Leaf = settle k l c) as -> by (by destruct l). apply (Hone l cl); [done|]. destruct c; naive_solver. }
  assert (del_tree k c l r = '(kr, cy, y, ry) ← extreme L [] r; settle (kr ++ Frame R c y l :: k) ry cy) as -> by (by destruct l, r).
  destruct (extreme_some L [] r Hrl) as (kr & cy & y & ry & Hex). rewrite Hex. cbn.
  destruct (extreme_spec _ _ _ _ _ _ _ Hex) as (kr' & -> & Hfill & _). rewrite app_nil_r.
  assert (fill k (Node c x l r) = fill (kr' ++ Frame R c x l :: k) (Node cy y Leaf ry)) as HK by (rewrite fill_app; by rewrite <- Hfill).
  rewrite HK in HT0. apply rb_unfill in HT0 as (any' & c' & m & HK' & Hy & Hc'). assert (c' = cy) as -> by (by inversion Hy).
  apply (settle_rb any' cy m); [by eapply rbk_addr|done|].
  destruct (near_far_rb L _ _ _ _ _ Hy) as (m' & c1 & c2 & _ & Hry & Hm). cbn in Hry. destruct cy; [by exists m', c2|]. by destruct Hm as (-> & _ & ->).
Qed.

(** Balance bounds the height. *)
Lemma rb_height c n t : rb c n t -> (height t <= 2 * n + (if c then 0 else 1))%nat ∧ (2 ^ n <= S (length (inorder t)))%nat.
Proof.
  induction 1 as [|n x cl cr l r Hl [IHl1 IHl2] Hr [IHr1 IHr2]|n x l r Hl [IHl1 IHl2] Hr [IHr1 IHr2]]; cbn [height inorder]; rewrite ?length_app; cbn [length Nat.pow].
  - cbn. lia.
  - destruct cl, cr; lia.
  - lia.
Qed.

Lemma rb_height_log n t : rb true n t -> (height t <= 2 * Nat.log2 (S (length (inorder t))))%nat.
Proof.
  intros [Hh Hp]%rb_height. assert (n <= Nat.log2 (S (length (inorder t))))%nat; [|lia].
  rewrite <- (Nat.log2_pow2 n) by lia. by apply Nat.log2_le_mono.
Qed.

(** ** Places in the sequence *)

Lemma before_app k1 k2 : before (k1 ++ k2) = before k2 ++ before k1.
Proof. induction k1 as [|f k1 IH]; cbn; [by rewrite app_nil_r|]. by rewrite IH, app_assoc. Qed.
Lemma after_app k1 k2 : after (k1 ++ k2) = after k1 ++ after k2.
Proof. induction k1 as [|f k1 IH]; cbn; [done|]. by rewrite IH, app_assoc. Qed.

(** Every node and every gap of the sequence is at the end of a path. *)
Lemma node_path T (A B : list Z) x : inorder T = A ++ x :: B ->
  ∃ k c l r, T = fill k (Node c x l r) ∧ A = before k ++ inorder l ∧ B = inorder r ++ after k.
Proof.
  revert A B. induction T as [|c y l IHl r IHr]; intros A B Hi; [by destruct A|].
  cbn in Hi. apply app_eq_inv in Hi as [(m & Hl & Hr)|(m & Hl & Hr)].
  - destruct m as [|z m]; cbn in Hr.
    + injection Hr as -> ->. exists [], c, l, r. rewrite app_nil_r in Hl. subst A. cbn. by rewrite app_nil_r.
    + injection Hr as -> ->. destruct (IHl _ _ Hl) as (k & c' & l' & r' & -> & -> & ->). exists (k ++ [Frame L c y r]), c', l', r'.
      rewrite fill_app, before_app, after_app. cbn. rewrite app_nil_r, <- app_assoc. done.
  - destruct m as [|z m]; cbn in Hr.
    + injection Hr as <- <-. exists [], c, l, r. rewrite app_nil_r in Hl. subst A. cbn. by rewrite app_nil_r.
    + injection Hr as -> Hr. destruct (IHr _ _ Hr) as (k & c' & l' & r' & -> & -> & ->). exists (k ++ [Frame R c z l]), c', l', r'. subst A.
      rewrite fill_app, before_app, after_app. cbn. rewrite app_nil_r, <- !app_assoc. done.
Qed.

Lemma gap_path T (A B : list Z) : inorder T = A ++ B -> ∃ k, T = fill k Leaf ∧ A = before k ∧ B = after k.
Proof.
  revert A B. induction T as [|c y l IHl r IHr]; intros A B Hi.
  { exists []. symmetry in Hi. by apply app_eq_nil in Hi as [-> ->]. }
  cbn in Hi. apply app_eq_inv in Hi as [(m & Hl & Hr)|(m & Hl & Hr)].
  - destruct (IHl _ _ Hl) as (k & -> & -> & ->). exists (k ++ [Frame L c y r]). rewrite fill_app, before_app, after_app, Hr. cbn. by rewrite app_nil_r.
  - destruct m as [|z m]; cbn in Hr.
    + subst B. rewrite app_nil_r in Hl. subst A. destruct (IHl (inorder l) [] ltac:(by rewrite app_nil_r)) as (k & -> & Hb & Ha).
      exists (k ++ [Frame L c y r]). rewrite fill_app, before_app, after_app. cbn. rewrite app_nil_r, <- Ha, <- Hb. done.
    + injection Hr as -> Hr. destruct (IHr _ _ Hr) as (k & -> & -> & ->). exists (k ++ [Frame R c z l]). subst A.
      rewrite fill_app, before_app, after_app. cbn. rewrite app_nil_r, <- !app_assoc. done.
Qed.
End Keep.

(** * Walking *)

Section Walk.
Implicit Types (T t a b l r : tree) (k : list frame).

(** The nodes in the order of direction [d], and those that come after the hole
    of a path. *)
Definition walk (d : side) (t : tree) : list Z := match d with R => inorder t | L => reverse (inorder t) end.
Fixpoint ahead (d : side) (k : list frame) : list Z :=
  match k with
  | [] => []
  | f :: k => (if decide (f_side f = d) then [] else f_addr f :: walk d (f_sib f)) ++ ahead d k
  end.

Lemma walk_mk d c x a b : walk d (mk d c x a b) = walk d b ++ x :: walk d a.
Proof. destruct d; cbn [walk mk inorder]; [|done]. by rewrite reverse_app, reverse_cons, <- app_assoc. Qed.

Lemma ahead_R k : ahead R k = after k.
Proof. induction k as [|[[] c x sib] k IH]; cbn; [done|..]; by rewrite IH. Qed.
Lemma ahead_L k : ahead L k = reverse (before k).
Proof.
  induction k as [|[[] c x sib] k IH]; [done|..]; cbn [ahead before f_side f_addr f_sib]; rewrite IH.
  - rewrite decide_True by done. by rewrite app_nil_r.
  - rewrite decide_False by done. cbn [walk]. rewrite !reverse_app. cbn. by rewrite <- ?app_comm_cons.
Qed.

Lemma walk_fill_extreme d kr c x b : Forall (λ f, f_side f = opp d) kr -> ∃ w, walk d (fill kr (mk (opp d) c x Leaf b)) = x :: w.
Proof.
  intros Hall. assert (∀ u y w, walk d u = y :: w -> ∃ w', walk d (fill kr u) = y :: w') as Hgo.
  { induction kr as [|[d' c' z sib] kr IH]; intros u y w Hu; [by eexists|]. apply Forall_cons in Hall as [Hd Hall]. cbn in Hd. subst d'.
    cbn [fill]. unfold up. cbn. eapply IH; [done|]. rewrite mk_opp, walk_mk, Hu. done. }
  rewrite mk_opp. eapply Hgo. rewrite walk_mk. by destruct d.
Qed.

Lemma ascend_ok d fuel k t : t <> Leaf -> (length k <= fuel)%nat -> does (ascend d fuel (ptr t)) (fill k t) (hd 0 (ahead d k)) (fill k t).
Proof.
  revert k t. induction fuel as [|fuel IH]; intros k t Ht Hf; destruct t as [|c x l r]; try done; cbn [ascend ptr].
  - destruct k; [|cbn in Hf; lia]. eapply does_bind; [apply (does_parent [] L)|]. apply does_ret.
  - eapply does_bind; [apply (does_parent k L)|]. destruct k as [|[d' c' p sib] k]; [apply does_ret|]. cbn [par f_addr].
    set (t := Node c x l r) in *. apply does_given. intros Hex.
    change (fill (Frame d' c' p sib :: k) (mk L c x l r)) with (fill k (mk d' c' p t sib)) in *.
    assert (okp p) as [Hp _] by (destruct Hex as [s Hs]; by apply (Rep_okp s k d' c' p t sib)). destruct (Z.eqb_spec p 0); [lia|].
    cbn [ahead f_side f_addr f_sib]. case_decide as Hd.
    + subst d'. eapply does_bind; [apply does_near|]. cbn [t ptr]. rewrite Z.eqb_refl. cbn [app].
      pose proof (IH k (mk d c' p t sib) (mk_node _ _ _ _ _) ltac:(cbn in Hf; lia)) as Hgo. by rewrite ptr_mk in Hgo.
    + assert (d = opp d') as -> by (by destruct d, d'). eapply does_bind; [apply does_far|].
      pose proof (siblings_differ k d' c' p t sib Hex ltac:(by left)) as Hne. destruct (Z.eqb_spec x (ptr sib)); [done|]. apply does_ret.
Qed.

Lemma neighbour_ok d fuel k c x a b : (length k + height a <= fuel)%nat ->
  does (rb_neighbour d fuel x) (fill k (mk d c x a b)) (hd 0 (walk d a ++ ahead d k)) (fill k (mk d c x a b)).
Proof.
  intros Hf. apply does_given. intros [s Hs]. unfold rb_neighbour. eapply does_bind; [apply does_parent|].
  destruct (Z.eqb_spec (par k) x) as [Heq|_].
  { exfalso. destruct d; cbn in Hs; pose proof (Rep_apart _ _ _ _ _ _ Hs) as Hap;
      apply (ap_par _ _ _ _ _ _ Hap x); [by left|done|by left|done]. }
  eapply does_bind; [apply does_near|]. destruct a as [|ca xa la ra].
  - cbn [ptr Z.eqb negb]. assert (walk d Leaf = []) as -> by (by destruct d). cbn [app].
    pose proof (ascend_ok d fuel k (mk d c x Leaf b) (mk_node _ _ _ _ _) ltac:(lia)) as Hgo. by rewrite ptr_mk in Hgo.
  - set (a := Node ca xa la ra) in *. assert (okp (ptr a)) as [Hpos _] by (apply (ptr_okp (Frame d c x b :: k) a s Hs); done).
    destruct (Z.eqb_spec (ptr a) 0); [lia|]. cbn [negb].
    destruct (extreme_some (opp d) [] a ltac:(done)) as (kr & cy & y & ry & Hex). destruct (extreme_spec _ _ _ _ _ _ _ Hex) as (kr' & -> & Hfill & Hall).
    destruct (walk_fill_extreme d kr' cy y ry Hall) as [w Hw]. rewrite Hfill in Hw. rewrite Hw. cbn [hd app].
    pose proof (path_height kr' (mk (opp d) cy y Leaf ry)) as Hlen. rewrite Hfill in Hlen.
    pose proof (descend_ok (opp d) fuel (Frame d c x b :: k) kr' cy y ry Hall ltac:(lia)) as Hgo. by rewrite Hfill in Hgo.
Qed.

Lemma extreme_ok d fuel T : (height T <= fuel)%nat -> does (rb_extreme (opp d) fuel) T (hd 0 (walk d T)) T.
Proof.
  intros Hf. unfold rb_extreme. eapply does_bind; [apply does_root|]. apply does_given. intros [s Hs].
  destruct (decide (T = Leaf)) as [->|HT]; [destruct d; apply does_ret|].
  assert (okp (ptr T)) as [Hpos _] by (by apply (ptr_okp [] T s)). destruct (Z.eqb_spec (ptr T) 0); [lia|].
  destruct (extreme_some (opp d) [] T HT) as (kr & cy & y & ry & Hex). destruct (extreme_spec _ _ _ _ _ _ _ Hex) as (kr' & -> & Hfill & Hall).
  destruct (walk_fill_extreme d kr' cy y ry Hall) as [w Hw]. rewrite Hfill in Hw. rewrite Hw. cbn [hd].
  pose proof (path_height kr' (mk (opp d) cy y Leaf ry)) as Hlen. rewrite Hfill in Hlen.
  pose proof (descend_ok (opp d) fuel [] kr' cy y ry Hall ltac:(lia)) as Hgo. by rewrite Hfill in Hgo.
Qed.
End Walk.

(** * What callers may rely on *)

Section Contract.
Implicit Types (s : rbs) (T t l r : tree) (k : list frame) (A B : list Z).

(** Memory that represents the same tree and agrees elsewhere is the same. *)
Lemma rep_lookup m p t y : rep m p t -> y ∈ inorder t -> ∀ m', rep m' p t -> m' !! y = m !! y.
Proof.
  revert p. induction t as [|c x l IHl r IHr]; intros p; cbn; [by intros _ ?%elem_of_nil|].
  intros (Hx & Hl & Hr) Hy m' (Hx' & Hl' & Hr'). apply elem_of_app in Hy as [Hy|[->|Hy]%elem_of_cons]; [by eapply IHl|congruence|by eapply IHr].
Qed.

Lemma Rep_same s s' T : Rep s T -> Rep s' T -> off (inorder T) s s' -> s' = s.
Proof.
  intros (Hr & Hm & _) (Hr' & Hm' & _) Ho. destruct s as [rt m], s' as [rt' m']. cbn in *. f_equal; [congruence|].
  apply map_eq. intros y. destruct (decide (y ∈ inorder T)); [by eapply rep_lookup|by apply Ho].
Qed.

Lemma does_run {V} (prog : Sf rbs V) T v s : does prog T v T -> Rep s T -> prog s = Some (v, s).
Proof. intros Hd Hs. destruct (Hd s Hs) as (s' & Hrun & Hs' & Ho & _). by rewrite (Rep_same s s' T Hs Hs' Ho) in Hrun. Qed.

(** Iterations that are always enough. *)
Definition enough (fuel : nat) T : Prop := (2 * Nat.log2 (S (length (inorder T))) <= fuel)%nat.

(** Linking and recolouring. *)
Lemma insert_at fuel s T N k x : Rep s T -> rb true N T -> T = fill k Leaf -> okp x -> x ∉ inorder T -> enough fuel T ->
  ∃ s' T' N', (rb_link_node x (par k) (link_of k) ;; rb_insert_color fuel x) s = Some (tt, s') ∧ Rep s' T' ∧ rb true N' T' ∧
    inorder T = before k ++ after k ∧ inorder T' = before k ++ x :: after k ∧ off (x :: inorder T) s s'.
Proof.
  intros HR HT -> Hx Hn Hf. destruct (link_ok s k x HR Hx Hn) as (s1 & Hlink & HR1 & Ho1).
  pose proof (rb_height_log _ _ HT) as Hh. pose proof (path_height k Leaf) as Hlen. unfold enough in Hf.
  destruct (rb_unfill _ _ _ HT) as (any & c & n & Hk & Hl & _). inversion Hl; subst.
  destruct (ins_fix_rb any 0 k (Node false x Leaf Leaf) Hk ltac:(apply rb_red; apply rb_leaf)) as (T' & N' & Hfix & HT' & Hrb).
  destruct (insert_color_ok fuel k (Node false x Leaf Leaf) T' ltac:(done) Hfix HT' ltac:(lia) s1 HR1) as (s' & Hrun & HR' & Ho & Hi).
  exists s', (blacken T'), N'. split_and!; try done.
  - by rewrite (bind_run _ _ _ _ _ Hlink).
  - by rewrite inorder_fill.
  - by rewrite Hi, inorder_fill.
  - apply (off_step _ _ s1); [done|]. eapply off_mono; [|done]. intros z. rewrite !inorder_perm. cbn. set_solver.
Qed.

(** Erasing. *)
Lemma erase_at fuel s T N A x B : Rep s T -> rb true N T -> inorder T = A ++ x :: B -> enough fuel T ->
  ∃ s' T' N', rb_erase fuel x s = Some (tt, s') ∧ Rep s' T' ∧ rb true N' T' ∧ inorder T' = A ++ B ∧ off (inorder T) s s'.
Proof.
  intros HR HT Hi Hf. pose proof (rb_height_log _ _ HT) as Hh. unfold enough in Hf.
  destruct (node_path _ _ _ _ Hi) as (k & c & l & r & -> & -> & ->). destruct (del_tree_rb _ _ _ _ _ _ HT) as (T' & N' & Hdel & HT').
  destruct (erase_ok fuel s k c x l r T' HR Hdel ltac:(lia)) as (s' & Hrun & HR' & Ho & Hi').
  exists s', T', N'. split_and!; try done. by rewrite Hi', <- app_assoc.
Qed.

(** Walking. *)
Lemma walk_at fuel s T N A x B : Rep s T -> rb true N T -> inorder T = A ++ x :: B -> enough fuel T ->
  rb_first fuel s = Some (hd 0 (inorder T), s) ∧ rb_last fuel s = Some (default 0 (last (inorder T)), s) ∧
  rb_next fuel x s = Some (hd 0 B, s) ∧ rb_prev fuel x s = Some (default 0 (last A), s).
Proof.
  intros HR HT Hi Hf. pose proof (rb_height_log _ _ HT) as Hh. unfold enough in Hf.
  assert (∀ C : list Z, hd 0 (reverse C) = default 0 (last C)) as Hlast.
  { intros C. induction C as [|z C _] using rev_ind; [done|]. by rewrite last_snoc, reverse_app. }
  split_and!.
  - apply (does_run _ T); [|done]. apply (extreme_ok R). lia.
  - rewrite <- Hlast. apply (does_run _ T); [|done]. apply (extreme_ok L). lia.
  - destruct (node_path _ _ _ _ Hi) as (k & c & l & r & -> & -> & ->). pose proof (path_height k (Node c x l r)) as Hlen. cbn in Hlen.
    rewrite <- ahead_R. apply (does_run _ (fill k (Node c x l r))); [|done]. apply (neighbour_ok R fuel k c x r l). lia.
  - destruct (node_path _ _ _ _ Hi) as (k & c & l & r & -> & -> & ->). pose proof (path_height k (Node c x l r)) as Hlen. cbn in Hlen.
    rewrite <- Hlast, reverse_app, <- ahead_L. apply (does_run _ (fill k (Node c x l r))); [|done]. apply (neighbour_ok L fuel k c x l r). lia.
Qed.

(** ** The contract for users of a tree *)

(** The memory holds a red-black tree of the sequence [l]. *)
Definition holds s (l : list Z) : Prop := ∃ T N, Rep s T ∧ rb true N T ∧ inorder T = l.

Lemma holds_nil m : holds (Rbs 0 m) [].
Proof. exists Leaf, O. split_and!; [split; [done|split; [done|split; constructor]]|apply rb_leaf|done]. Qed.

Lemma holds_frame s s' (l : list Z) : holds s l -> root_node s' = root_node s -> (∀ z, z ∈ l -> mem s' !! z = mem s !! z) -> holds s' l.
Proof.
  intros (T & N & (Hr & Hm & Hf) & HT & <-) Hroot Hmem. exists T, N. split_and!; [|done..]. split; [congruence|]. split; [by eapply rep_frame|done].
Qed.

Lemma holds_erase fuel s (A : list Z) x (B : list Z) : holds s (A ++ x :: B) -> (2 * Nat.log2 (S (length (A ++ x :: B))) <= fuel)%nat ->
  ∃ s', rb_erase fuel x s = Some (tt, s') ∧ holds s' (A ++ B) ∧ off (A ++ x :: B) s s'.
Proof.
  intros (T & N & HR & HT & Hi) Hf. destruct (erase_at fuel s T N A x B HR HT Hi) as (s' & T' & N' & Hrun & HR' & HT' & Hi' & Ho).
  { unfold enough. by rewrite Hi. }
  exists s'. rewrite <- Hi. split_and!; [done|by exists T', N'|done].
Qed.

Lemma holds_next fuel s (A : list Z) x (B : list Z) : holds s (A ++ x :: B) -> (2 * Nat.log2 (S (length (A ++ x :: B))) <= fuel)%nat ->
  rb_next fuel x s = Some (hd 0 B, s).
Proof.
  intros (T & N & HR & HT & Hi) Hf. apply (walk_at fuel s T N A x B HR HT Hi). unfold enough. by rewrite Hi.
Qed.

(** rb_replace_node keeps the shape and the colours. *)
Lemma rb_replace_correct s T N A x B y : Rep s T -> rb true N T -> inorder T = A ++ x :: B -> okp y -> y ∉ inorder T ->
  ∃ s' T' N', rb_replace_node x y s = Some (tt, s') ∧ Rep s' T' ∧ rb true N' T' ∧ inorder T' = A ++ y :: B ∧ off (y :: inorder T) s s'.
Proof.
  intros HR HT Hi Hy Hn. destruct (node_path _ _ _ _ Hi) as (k & c & l & r & -> & -> & ->).
  destruct (replace_ok s k c x l r y HR Hy Hn) as (s' & Hrun & HR' & Ho).
  destruct (rb_unfill _ _ _ HT) as (any & c' & n & Hk & Hx & Hc). assert (c' = c) as -> by (by inversion Hx).
  destruct (rb_fill any c n k (Node c y l r) Hk) as [N' HN']; [inversion Hx; subst; by econstructor|done|].
  exists s', (fill k (Node c y l r)), N'. split_and!; try done. rewrite inorder_fill. cbn. by rewrite <- !app_assoc.
Qed.

(** C20: linking a new node at a gap of the sequence of nodes and recolouring it:
    rb_link_node and rb_insert_color end, after at most twice the logarithm of
    the number of nodes iterations, with a red-black tree in which the new node
    is at that gap and the others keep their order; parents, colours and children
    in memory are those of that tree, and no other memory is written. *)
Theorem rb_insert_correct fuel s T N k x : Rep s T -> rb true N T -> T = fill k Leaf -> okp x -> x ∉ inorder T -> enough fuel T ->
  ∃ s' T' N', (rb_link_node x (par k) (link_of k) ;; rb_insert_color fuel x) s = Some (tt, s') ∧ Rep s' T' ∧ rb true N' T' ∧
    inorder T = before k ++ after k ∧ inorder T' = before k ++ x :: after k ∧ off (x :: inorder T) s s'.
Proof. apply insert_at. Qed.

(** C21: rb_erase of any node of a red-black tree ends, in logarithmic time as
    above, with a red-black tree of the other nodes in their order; no memory
    outside the nodes of the tree is written. *)
Theorem rb_erase_correct fuel s T N A x B : Rep s T -> rb true N T -> inorder T = A ++ x :: B -> enough fuel T ->
  ∃ s' T' N', rb_erase fuel x s = Some (tt, s') ∧ Rep s' T' ∧ rb true N' T' ∧ inorder T' = A ++ B ∧ off (inorder T) s s'.
Proof. apply erase_at. Qed.

(** Rb_first, rb_last, rb_next and rb_prev walk the sequence of nodes: they
    return its ends and the neighbours of a node, NULL where there is none, and
    write nothing. *)
Theorem rb_walk_correct fuel s T N A x B : Rep s T -> rb true N T -> inorder T = A ++ x :: B -> enough fuel T ->
  rb_first fuel s = Some (hd 0 (inorder T), s) ∧ rb_last fuel s = Some (default 0 (last (inorder T)), s) ∧
  rb_next fuel x s = Some (hd 0 B, s) ∧ rb_prev fuel x s = Some (default 0 (last A), s).
Proof. apply walk_at. Qed.

End Contract.

Module RbDemo.

(** Three nodes; 8 is the black root. *)
Definition three : rbs := Rbs 8 {[ 8 := RbNode 1 12 4; 4 := RbNode 8 0 0; 12 := RbNode 8 0 0 ]}.
Definition T3 : tree := Node true 8 (Node false 4 Leaf Leaf) (Node false 12 Leaf Leaf).

Lemma three_rep : Rep three T3.
Proof.
  split_and!; [reflexivity|repeat split; reflexivity|split].
  - apply (bool_decide_unpack _). vm_compute. exact I.
  - repeat (apply Forall_cons; split; [by split; vm_compute|]). by apply Forall_nil.
Qed.

Lemma three_rb : rb true 1 T3.
Proof. eapply rb_black; apply rb_red; apply rb_leaf. Qed.

Lemma three_enough : enough 8 T3.
Proof. unfold enough. cbn. lia. Qed.

(** 16 goes to the right of 12, whose sibling is red. *)
Definition gap : list frame := [Frame R false 12 Leaf; Frame R true 8 (Node false 4 Leaf Leaf)].

Lemma rb_insert_correct_witness : ∃ s' T', (rb_link_node 16 12 (Field R 12) ;; rb_insert_color 8 16) three = Some (tt, s') ∧
  Rep s' T' ∧ inorder T' = [4; 8; 12; 16].
Proof.
  destruct (rb_insert_correct 8 three T3 1 gap 16) as (s' & T' & N' & Hrun & HR & _ & _ & Hi & _).
  - exact three_rep.
  - exact three_rb.
  - reflexivity.
  - split; vm_compute; reflexivity.
  - apply (bool_decide_unpack _). vm_compute. exact I.
  - exact three_enough.
  - exists s', T'. split; [exact Hrun|]. split; [exact HR|exact Hi].
Defined.

Lemma rb_erase_correct_witness : ∃ s' T', rb_erase 8 8 three = Some (tt, s') ∧ Rep s' T' ∧ inorder T' = [4; 12].
Proof.
  destruct (rb_erase_correct 8 three T3 1 [4] 8 [12]) as (s' & T' & N' & Hrun & HR & _ & Hi & _).
  - exact three_rep.
  - exact three_rb.
  - reflexivity.
  - exact three_enough.
  - exists s', T'. split; [exact Hrun|]. split; [exact HR|exact Hi].
Defined.

Lemma rb_walk_correct_witness : rb_next 8 8 three = Some (12, three) ∧ rb_prev 8 8 three = Some (4, three).
Proof.
  destruct (rb_walk_correct 8 three T3 1 [4] 8 [12]) as (_ & _ & Hn & Hp).
  - exact three_rep.
  - exact three_rb.
  - reflexivity.
  - exact three_enough.
  - split; [exact Hn|exact Hp].
Defined.
End RbDemo.
