(* ===== verification/Hrtimer.v ===== *)
(** kernel/hrtimer.c: the queues of the high-resolution timers.

    A timer is known by the address of its structure, whose first member is the
    red-black node, so that the address of the node and of the timer are the
    same.  The trees of both clocks live in one memory of nodes.  The model is
    that of the uniprocessor configuration: there is one hrtimer_cpu_base, the
    locks are empty and a timer never changes its base. *)

From S2P Require Import Prelude.
From S2P Require Import Ktime.
From S2P Require Import Time.
From S2P Require Import Rbtree.

(** * Data *)

Inductive hrtimer_cb_mode :=
  | HRTIMER_CB_SOFTIRQ
  | HRTIMER_CB_IRQSAFE
  | HRTIMER_CB_IRQSAFE_NO_RESTART
  | HRTIMER_CB_IRQSAFE_NO_SOFTIRQ.
#[export] Instance cb_mode_eq_dec : EqDecision hrtimer_cb_mode.
Proof. solve_decision. Defined.

Inductive hrtimer_mode := HRTIMER_MODE_ABS | HRTIMER_MODE_REL.
#[export] Instance hrtimer_mode_eq_dec : EqDecision hrtimer_mode.
Proof. solve_decision. Defined.

Inductive hrtimer_restart := HRTIMER_NORESTART | HRTIMER_RESTART.
#[export] Instance hrtimer_restart_eq_dec : EqDecision hrtimer_restart.
Proof. solve_decision. Defined.

Definition HRTIMER_STATE_INACTIVE : Z := 0.
Definition HRTIMER_STATE_ENQUEUED : Z := 1.
Definition HRTIMER_STATE_CALLBACK : Z := 2.
Definition HRTIMER_STATE_PENDING : Z := 4.

Definition CLOCK_REALTIME : nat := 0.
Definition CLOCK_MONOTONIC : nat := 1.
Definition KTIME_HIGH_RES : Z := 1.
Definition MAX_ERRNO : Z := 4095.

(** The node is kept in the memory of nodes; [hr_base] is the index of the
    clock base. *)
Record hrtimer := Hrtimer { hr_expires : Z; hr_base : nat; hr_state : Z; cb_mode : hrtimer_cb_mode }.

(** [active] is the root of the tree. *)
Record hrtimer_clock_base := ClockBase { active : Z; first : Z; resolution : Z; softirq_time : Z; offset : Z }.

(** struct hrtimer_cpu_base, with the timers, the memory of their nodes, the
    flag of HRTIMER_SOFTIRQ and the clock and event devices. *)
Record hrtimer_cpu_base (D : Type) := CpuBase {
  nodes : gmap Z rb_node;
  hrtimers : gmap Z hrtimer;
  clock_base : list hrtimer_clock_base;
  expires_next : Z;
  hres_active : bool;
  cb_pending : list Z;
  nr_events : Z;
  softirq_raised : bool;
  hr_dev : D;
}.
Arguments CpuBase {D}.
Arguments nodes {D}.
Arguments hrtimers {D}.
Arguments clock_base {D}.
Arguments expires_next {D}.
Arguments hres_active {D}.
Arguments cb_pending {D}.
Arguments nr_events {D}.
Arguments softirq_raised {D}.
Arguments hr_dev {D}.

(** What the queues use of the tick and time-keeping code: programming the next
    event (forced or not), forgetting the event that fired, the clocks, the
    coarse time with the offset from the wall clock, as (seconds, nanoseconds)
    pairs. *)
Class TickDev (D : Type) := {
  tick_program_event : Z -> bool -> Sf D Z;
  forget_event : D -> D;
  ktime_get : Sf D Z;
  ktime_get_real : Sf D Z;
  current_kernel_time : D -> Z * Z;
  wall_to_monotonic : D -> Z * Z;
}.

(** Rounds of the loops on a tree: the addresses of a 32-bit machine hold less
    than 2^30 nodes, whose tree is at most 62 deep. *)
Definition DEPTH : nat := 62.

Section Hrtimer.
Context {D : Type} `{TickDev D}.
Abbreviation hrs := (hrtimer_cpu_base D).
Implicit Types (s : hrs) (t e : Z) (i : nat) (tm : hrtimer) (b : hrtimer_clock_base).

(** [call t]: timer->function(timer). *)
Context (call : Z -> Sf hrs hrtimer_restart).

(** ** Fields *)

Definition set_nodes m s := CpuBase m (hrtimers s) (clock_base s) (expires_next s) (hres_active s) (cb_pending s) (nr_events s) (softirq_raised s) (hr_dev s).
Definition set_timers m s := CpuBase (nodes s) m (clock_base s) (expires_next s) (hres_active s) (cb_pending s) (nr_events s) (softirq_raised s) (hr_dev s).
Definition set_bases l s := CpuBase (nodes s) (hrtimers s) l (expires_next s) (hres_active s) (cb_pending s) (nr_events s) (softirq_raised s) (hr_dev s).
Definition set_expires_next e s := CpuBase (nodes s) (hrtimers s) (clock_base s) e (hres_active s) (cb_pending s) (nr_events s) (softirq_raised s) (hr_dev s).
Definition set_hres v s := CpuBase (nodes s) (hrtimers s) (clock_base s) (expires_next s) v (cb_pending s) (nr_events s) (softirq_raised s) (hr_dev s).
Definition set_pending l s := CpuBase (nodes s) (hrtimers s) (clock_base s) (expires_next s) (hres_active s) l (nr_events s) (softirq_raised s) (hr_dev s).
Definition set_nr_events n s := CpuBase (nodes s) (hrtimers s) (clock_base s) (expires_next s) (hres_active s) (cb_pending s) n (softirq_raised s) (hr_dev s).
Definition set_raised v s := CpuBase (nodes s) (hrtimers s) (clock_base s) (expires_next s) (hres_active s) (cb_pending s) (nr_events s) v (hr_dev s).
Definition set_hr_dev (d : D) s := CpuBase (nodes s) (hrtimers s) (clock_base s) (expires_next s) (hres_active s) (cb_pending s) (nr_events s) (softirq_raised s) d.

Definition with_state v tm := Hrtimer (hr_expires tm) (hr_base tm) v (cb_mode tm).
Definition with_expires e tm := Hrtimer e (hr_base tm) (hr_state tm) (cb_mode tm).
Definition with_root v b := ClockBase v (first b) (resolution b) (softirq_time b) (offset b).
Definition with_first v b := ClockBase (active b) v (resolution b) (softirq_time b) (offset b).
Definition with_res v b := ClockBase (active b) (first b) v (softirq_time b) (offset b).
Definition with_softirq_time v b := ClockBase (active b) (first b) (resolution b) v (offset b).
Definition with_offset v b := ClockBase (active b) (first b) (resolution b) (softirq_time b) v.

(** Accesses; a pointer to nothing faults. *)
Definition timer_of t : Sf hrs hrtimer := ftry (λ s, hrtimers s !! t).
Definition base_of i : Sf hrs hrtimer_clock_base := ftry (λ s, clock_base s !! i).
Definition upd_timer t (f : hrtimer -> hrtimer) : Sf hrs unit :=
  tm ← timer_of t; fmodify (λ s, set_timers (<[t := f tm]> (hrtimers s)) s).
Definition upd_base i (f : hrtimer_clock_base -> hrtimer_clock_base) : Sf hrs unit :=
  b ← base_of i; fmodify (λ s, set_bases (<[i := f b]> (clock_base s)) s).
Definition on_dev {A} (m : Sf D A) : Sf hrs A := λ s,
  match m (hr_dev s) with Some (x, d) => Some (x, set_hr_dev d s) | None => None end.

(** A call of lib/rbtree.c on [&base->active]. *)
Definition on_tree {A} i (m : Sf rbs A) : Sf hrs A := λ s,
  match clock_base s !! i with
  | Some b =>
      match m (Rbs (active b) (nodes s)) with
      | Some (x, r) => Some (x, set_nodes (mem r) (set_bases (<[i := with_root (root_node r) b]> (clock_base s)) s))
      | None => None
      end
  | None => None
  end.

(** [base->get_time()] *)
Definition get_time i : Sf hrs Z := on_dev (if bool_decide (i = CLOCK_REALTIME) then ktime_get_real else ktime_get).

(** ** States *)

Definition hrtimer_active tm : bool := negb (hr_state tm =? HRTIMER_STATE_INACTIVE).
Definition hrtimer_is_queued tm : bool := negb (Z.land (hr_state tm) (Z.lor HRTIMER_STATE_ENQUEUED HRTIMER_STATE_PENDING) =? 0).
Definition hrtimer_callback_running tm : bool := negb (Z.land (hr_state tm) HRTIMER_STATE_CALLBACK =? 0).
Definition hrtimer_cb_pending tm : bool := negb (Z.land (hr_state tm) HRTIMER_STATE_PENDING =? 0).
Definition hrtimer_remove_cb_pending t : Sf hrs unit := fmodify (λ s, set_pending (filter (λ x, x <> t) (cb_pending s)) s).

(** [IS_ERR_VALUE]: the value, as a word, is one of the last 4095. *)
Definition IS_ERR_VALUE (x : Z) : bool := u32 (- MAX_ERRNO) <=? u32 x.

(** ** Programming the event device *)

Fixpoint earliest (n i : nat) : Sf hrs unit :=
  match n with
  | O => mret tt
  | S n =>
      b ← base_of i;
      fwhen (negb (first b =? 0))
        (tm ← timer_of (first b);
         let expires := ktime_sub (hr_expires tm) (offset b) in
         e ← fget expires_next;
         fwhen (expires <? e) (fmodify (set_expires_next expires))) ;;
      earliest n (S i)
  end.

Definition hrtimer_force_reprogram : Sf hrs unit :=
  fmodify (set_expires_next KTIME_MAX) ;;
  earliest 2 0 ;;
  e ← fget expires_next;
  fwhen (negb (e =? KTIME_MAX)) (on_dev (tick_program_event e true) ;; mret tt).

Definition hrtimer_reprogram t i : Sf hrs Z :=
  tm ← timer_of t;
  b ← base_of i;
  let expires := ktime_sub (hr_expires tm) (offset b) in
  next ← fget expires_next;
  if hrtimer_callback_running tm then mret 0
  else if next <=? expires then mret 0
  else
    res ← on_dev (tick_program_event expires false);
    fwhen (negb (IS_ERR_VALUE res)) (fmodify (set_expires_next expires)) ;;
    mret res.

Definition retrigger_next_event : Sf hrs unit :=
  hres ← fget hres_active;
  if negb hres then mret tt
  else
    w ← fget (λ s, wall_to_monotonic (hr_dev s));
    let '(sec, nsec) := set_normalized_timespec (s32 (- w.1)) (- w.2) in
    upd_base CLOCK_REALTIME (with_offset (timespec_to_ktime sec nsec)) ;;
    hrtimer_force_reprogram.

Definition clock_was_set : Sf hrs unit := retrigger_next_event.
Definition hres_timers_resume : Sf hrs unit := retrigger_next_event.

(** [true]: the timer has expired and is dealt with. *)
Definition hrtimer_enqueue_reprogram t i : Sf hrs bool :=
  hres ← fget hres_active;
  r ← (if (hres : bool) then hrtimer_reprogram t i else mret 0 : Sf hrs Z);
  if r =? 0 then mret false
  else
    tm ← timer_of t;
    match cb_mode tm with
    | HRTIMER_CB_IRQSAFE_NO_RESTART =>
        r ← call t;
        if bool_decide (r <> HRTIMER_NORESTART) then oops else mret true
    | HRTIMER_CB_IRQSAFE_NO_SOFTIRQ => mret true
    | HRTIMER_CB_IRQSAFE | HRTIMER_CB_SOFTIRQ =>
        fmodify (λ s, set_pending (cb_pending s ++ [t]) s) ;;
        upd_timer t (with_state HRTIMER_STATE_PENDING) ;;
        fmodify (set_raised true) ;;
        mret true
    end.

(** ** The queue of a base *)

(** [*link] *)
Definition deref i (l : link) : Sf hrs Z := on_tree i (match l with Root => fget root_node | Field d x => get_child d x end).

(** The search for the place of a timer that expires at [e]. *)
Fixpoint find_place (fuel : nat) i e (l : link) (parent : Z) (leftmost : bool) : Sf hrs (Z * link * bool) :=
  x ← deref i l;
  if x =? 0 then mret (parent, l, leftmost)
  else
    match fuel with
    | O => oops
    | S fuel =>
        entry ← timer_of x;
        if e <? hr_expires entry then find_place fuel i e (Field L x) x leftmost
        else find_place fuel i e (Field R x) x false
    end.

Definition enqueue_hrtimer t i (reprogram : bool) : Sf hrs unit :=
  tm ← timer_of t;
  '(parent, l, leftmost) ← find_place DEPTH i (hr_expires tm) Root 0 true;
  done ← (if (leftmost : bool) then
      r ← (if reprogram then hrtimer_enqueue_reprogram t i else mret false : Sf hrs bool);
      if (r : bool) then mret true else upd_base i (with_first t) ;; mret false
    else mret false : Sf hrs bool);
  if (done : bool) then mret tt
  else
    on_tree i (rb_link_node t parent l) ;;
    on_tree i (rb_insert_color DEPTH t) ;;
    upd_timer t (λ tm, with_state (Z.lor (hr_state tm) HRTIMER_STATE_ENQUEUED) tm).

Definition remove_hrtimer_ t i (newstate : Z) (reprogram : bool) : Sf hrs unit :=
  tm ← timer_of t;
  (if hrtimer_cb_pending tm then hrtimer_remove_cb_pending t
   else
     b ← base_of i;
     fwhen (first b =? t)
       (n ← on_tree i (rb_next DEPTH t);
        upd_base i (with_first n) ;;
        hres ← fget hres_active;
        fwhen (reprogram && hres) hrtimer_force_reprogram) ;;
     on_tree i (rb_erase DEPTH t)) ;;
  upd_timer t (with_state newstate).

Definition remove_hrtimer t i : Sf hrs Z :=
  tm ← timer_of t;
  if hrtimer_is_queued tm then remove_hrtimer_ t i HRTIMER_STATE_INACTIVE true ;; mret 1
  else mret 0.

(** ** Exported operations *)

Definition hrtimer_start t (tim : Z) (mode : hrtimer_mode) : Sf hrs Z :=
  tm ← timer_of t;
  let i := hr_base tm in
  ret ← remove_hrtimer t i;
  tim ← (match mode with
         | HRTIMER_MODE_REL =>
             now ← get_time i;
             let tim := ktime_add tim now in
             mret (if tim <? 0 then KTIME_MAX else tim)
         | HRTIMER_MODE_ABS => mret tim
         end : Sf hrs Z);
  upd_timer t (with_expires tim) ;;
  enqueue_hrtimer t i true ;;
  mret ret.

Definition hrtimer_restart_ t : Sf hrs Z :=
  tm ← timer_of t; hrtimer_start t (hr_expires tm) HRTIMER_MODE_ABS.

Definition hrtimer_try_to_cancel t : Sf hrs Z :=
  tm ← timer_of t;
  if hrtimer_callback_running tm then mret (- 1) else remove_hrtimer t (hr_base tm).

Definition hrtimer_get_remaining t : Sf hrs Z :=
  tm ← timer_of t;
  now ← get_time (hr_base tm);
  mret (ktime_sub (hr_expires tm) now).

Fixpoint min_delta (n i : nat) (mindelta : Z) : Sf hrs Z :=
  match n with
  | O => mret mindelta
  | S n =>
      b ← base_of i;
      if first b =? 0 then min_delta n (S i) mindelta
      else
        tm ← timer_of (first b);
        now ← get_time i;
        let delta := ktime_sub (hr_expires tm) now in
        min_delta n (S i) (if delta <? mindelta then delta else mindelta)
  end.

Definition hrtimer_get_next_event : Sf hrs Z :=
  hres ← fget hres_active;
  mindelta ← (if negb hres then min_delta 2 0 KTIME_MAX else mret KTIME_MAX : Sf hrs Z);
  mret (if mindelta <? 0 then 0 else mindelta).

(** The structure is cleared, the node with it. *)
Definition hrtimer_init t (clock_id : nat) (mode : hrtimer_mode) : Sf hrs unit :=
  let clock_id := if bool_decide (clock_id = CLOCK_REALTIME) && bool_decide (mode <> HRTIMER_MODE_ABS) then CLOCK_MONOTONIC else clock_id in
  fmodify (λ s, set_nodes (<[t := RbNode 0 0 0]> (nodes s))
    (set_timers (<[t := Hrtimer 0 clock_id HRTIMER_STATE_INACTIVE HRTIMER_CB_SOFTIRQ]> (hrtimers s)) s)).

Definition hrtimer_get_res (clock_id : nat) : Sf hrs (Z * Z) :=
  b ← base_of clock_id; mret (ktime_to_timespec (resolution b)).

(** ** Expiry *)

(** The timer functions run from the interrupt with the timer off the queue. *)
Definition run_irqsafe t i : Sf hrs unit :=
  remove_hrtimer_ t i HRTIMER_STATE_CALLBACK false ;;
  r ← call t;
  fwhen (bool_decide (r <> HRTIMER_NORESTART))
    (tm ← timer_of t;
     if hr_state tm =? HRTIMER_STATE_CALLBACK then enqueue_hrtimer t i false else oops) ;;
  upd_timer t (λ tm, with_state (clr (hr_state tm) HRTIMER_STATE_CALLBACK) tm).

(** The loop over one base; [next] is expires_next. *)
Fixpoint expire_base (fuel : nat) i (basenow next : Z) (raise : bool) : Sf hrs (Z * bool) :=
  b ← base_of i;
  if first b =? 0 then mret (next, raise)
  else
    let t := first b in
    tm ← timer_of t;
    if basenow <? hr_expires tm then
      let expires := ktime_sub (hr_expires tm) (offset b) in
      mret (if expires <? next then expires else next, raise)
    else
      match fuel with
      | O => oops
      | S fuel =>
          if bool_decide (cb_mode tm = HRTIMER_CB_SOFTIRQ) then
            remove_hrtimer_ t i HRTIMER_STATE_PENDING false ;;
            fmodify (λ s, set_pending (cb_pending s ++ [t]) s) ;;
            expire_base fuel i basenow next true
          else
            run_irqsafe t i ;;
            expire_base fuel i basenow next raise
      end.

(** [retry:], at most [tries] times, with [fuel] expirations per base. *)
Fixpoint interrupt_loop (tries fuel : nat) (raise : bool) : Sf hrs bool :=
  match tries with
  | O => oops
  | S tries =>
      now ← on_dev ktime_get;
      b ← base_of 0;
      '(next, raise) ← expire_base fuel 0 (ktime_add now (offset b)) KTIME_MAX raise;
      b ← base_of 1;
      '(next, raise) ← expire_base fuel 1 (ktime_add now (offset b)) next raise;
      fmodify (set_expires_next next) ;;
      if negb (next =? KTIME_MAX) then
        r ← on_dev (tick_program_event next false);
        if negb (r =? 0) then interrupt_loop tries fuel raise else mret raise
      else mret raise
  end.

Definition hrtimer_interrupt (tries fuel : nat) : Sf hrs unit :=
  hres ← fget hres_active;
  if negb hres then oops
  else
    fmodify (λ s, set_nr_events (u32 (nr_events s + 1)) s) ;;
    fmodify (λ s, set_hr_dev (forget_event (hr_dev s)) s) ;;
    raise ← interrupt_loop tries fuel false;
    fwhen raise (fmodify (set_raised true)).

(** One timer of the callback list. *)
Definition softirq_timer t : Sf hrs unit :=
  tm ← timer_of t;
  remove_hrtimer_ t (hr_base tm) HRTIMER_STATE_CALLBACK false ;;
  restart ← call t;
  upd_timer t (λ tm, with_state (clr (hr_state tm) HRTIMER_STATE_CALLBACK) tm) ;;
  tm ← timer_of t;
  if bool_decide (restart = HRTIMER_RESTART) then
    if hrtimer_active tm then oops else enqueue_hrtimer t (hr_base tm) true
  else
    fwhen (hrtimer_active tm)
      (b ← base_of (hr_base tm);
       fwhen (first b =? t) (hrtimer_reprogram t (hr_base tm) ;; mret tt)).

Fixpoint run_hrtimer_softirq (fuel : nat) : Sf hrs unit :=
  p ← fget cb_pending;
  match p with
  | [] => mret tt
  | t :: _ => match fuel with O => oops | S fuel => softirq_timer t ;; run_hrtimer_softirq fuel end
  end.

(** One timer of a queue, when the high-resolution mode is off. *)
Definition queue_timer t i : Sf hrs unit :=
  remove_hrtimer_ t i HRTIMER_STATE_CALLBACK false ;;
  restart ← call t;
  upd_timer t (λ tm, with_state (clr (hr_state tm) HRTIMER_STATE_CALLBACK) tm) ;;
  fwhen (bool_decide (restart <> HRTIMER_NORESTART))
    (tm ← timer_of t;
     if hrtimer_active tm then oops else enqueue_hrtimer t i false).

(** No base has a get_softirq_time function. *)
Fixpoint run_hrtimer_queue (fuel : nat) i : Sf hrs unit :=
  b ← base_of i;
  if first b =? 0 then mret tt
  else
    tm ← timer_of (first b);
    if softirq_time b <=? hr_expires tm then mret tt
    else match fuel with O => oops | S fuel => queue_timer (first b) i ;; run_hrtimer_queue fuel i end.

Definition hrtimer_get_softirq_time : Sf hrs unit :=
  xts ← fget (λ s, current_kernel_time (hr_dev s));
  tom ← fget (λ s, wall_to_monotonic (hr_dev s));
  let xtim := timespec_to_ktime xts.1 xts.2 in
  let tomono := timespec_to_ktime tom.1 tom.2 in
  upd_base CLOCK_REALTIME (with_softirq_time xtim) ;;
  upd_base CLOCK_MONOTONIC (with_softirq_time (ktime_add xtim tomono)).

(** [switch]: the outcome of tick_check_oneshot_change and
    hrtimer_switch_to_hres. *)
Definition hrtimer_run_queues (fuel : nat) (switch : Sf hrs bool) : Sf hrs unit :=
  hres ← fget hres_active;
  if (hres : bool) then mret tt
  else
    sw ← switch;
    if (sw : bool) then mret tt
    else
      hrtimer_get_softirq_time ;;
      run_hrtimer_queue fuel CLOCK_REALTIME ;;
      run_hrtimer_queue fuel CLOCK_MONOTONIC.

(** tick_init_highres returns an error code; tick_setup_sched_timer starts the
    emulated tick. *)
Definition hrtimer_switch_to_hres (tick_init_highres : Sf hrs Z) (tick_setup_sched_timer : Sf hrs unit) : Sf hrs bool :=
  hres ← fget hres_active;
  if (hres : bool) then mret true
  else
    r ← tick_init_highres;
    if negb (r =? 0) then mret false
    else
      fmodify (set_hres true) ;;
      upd_base CLOCK_REALTIME (with_res KTIME_HIGH_RES) ;;
      upd_base CLOCK_MONOTONIC (with_res KTIME_HIGH_RES) ;;
      tick_setup_sched_timer ;;
      retrigger_next_event ;;
      mret true.

(** init_hrtimers_cpu with hrtimer_init_hres, on the statically initialised
    bases: [low_res] is KTIME_LOW_RES. *)
Definition init_hrtimers_cpu (low_res : Z) (d : D) : hrs :=
  let b := ClockBase 0 0 low_res 0 0 in
  CpuBase ∅ ∅ [b; b] KTIME_MAX false [] 0 false d.
End Hrtimer.
