(* ===== verification/HrtimerOk.v ===== *)
(** kernel/hrtimer.c is right: the queues are sorted red-black trees of exactly
    the timers marked as enqueued, starting, cancelling and expiring timers
    keep them so, and the event device is programmed for the first of them. *)

From Stdlib Require Import Sorting.Sorted.
From stdpp Require Import functions.
From S2P Require Import Prelude.
From S2P Require Import Ktime.
From S2P Require Import Time.
From S2P Require Import Rbtree.
From S2P Require Import RbtreeRep.
From S2P Require Import RbtreeOk.
From S2P Require Import Hrtimer.

(** * The register of timers *)

(** [Q i] is the queue of base [i], [P] the callback list. *)
Section Reg.
Implicit Types (Q : nat -> list Z) (P : list Z) (m : gmap Z hrtimer) (t e : Z) (i : nat) (tm : hrtimer).

Definition key m t : Z := from_option hr_expires 0 (m !! t).
Definition enqueued tm : bool := Z.testbit (hr_state tm) 0.

Record timer_ok Q P t tm : Prop := {
  to_addr : okp t;
  to_word : t < 2 ^ 32;
  to_base : (hr_base tm < 2)%nat;
  to_state : 0 <= hr_state tm <= 4;
  to_queue i : t ∈ Q i <-> i = hr_base tm ∧ enqueued tm = true;
  to_pending : t ∈ P <-> hr_state tm = HRTIMER_STATE_PENDING;
}.

Record reg Q P m : Prop := {
  reg_timer t tm : m !! t = Some tm -> timer_ok Q P t tm;
  reg_queue i t : t ∈ Q i -> is_Some (m !! t);
  reg_pending t : t ∈ P -> is_Some (m !! t);
  reg_nodup i : NoDup (Q i);
  reg_nodup_pending : NoDup P;
  reg_sorted i : StronglySorted (λ x y, key m x <= key m y) (Q i);
}.

Lemma key_lookup m t tm : m !! t = Some tm -> key m t = hr_expires tm.
Proof. unfold key. by intros ->. Qed.

Lemma key_insert m t tm x : key (<[t := tm]> m) x = if decide (x = t) then hr_expires tm else key m x.
Proof. unfold key. case_decide; subst; [by rewrite lookup_insert_eq|by rewrite lookup_insert_ne]. Qed.

Lemma key_insert_eq m t tm : key (<[t := tm]> m) t = hr_expires tm.
Proof. by rewrite key_insert, decide_True. Qed.
Lemma key_insert_ne m t tm x : x <> t -> key (<[t := tm]> m) x = key m x.
Proof. intros. by rewrite key_insert, decide_False. Qed.

(** An order that agrees on the elements sorts the same lists. *)
Lemma sorted_ext {A} (R R' : A -> A -> Prop) (l : list A) :
  (∀ x y, x ∈ l -> y ∈ l -> R x y -> R' x y) -> StronglySorted R l -> StronglySorted R' l.
Proof.
  intros Hxy Hl. revert Hxy. induction Hl as [|x l Hs IH Hx]; intros Hxy; constructor.
  - apply IH. intros a b Ha Hb. apply Hxy; apply elem_of_cons; by right.
  - rewrite Forall_forall in *. intros y Hy. apply Hxy; [by left|apply elem_of_cons; by right|]. by apply Hx.
Qed.

Lemma sorted_insert {A} (R : A -> A -> Prop) (l1 l2 : list A) (t : A) :
  StronglySorted R (l1 ++ l2) -> Forall (λ x, R x t) l1 -> Forall (R t) l2 -> StronglySorted R (l1 ++ t :: l2).
Proof.
  induction l1 as [|x l1 IH]; cbn; intros Hs H1 H2; [by constructor|].
  apply StronglySorted_inv in Hs as [Hs Hx]. apply Forall_cons in H1 as [Hxt H1]. constructor; [by apply IH|].
  apply Forall_app in Hx as [Hx1 Hx2]. apply Forall_app. split; [done|]. by constructor.
Qed.

Lemma sorted_delete {A} (R : A -> A -> Prop) (l1 l2 : list A) (t : A) : StronglySorted R (l1 ++ t :: l2) -> StronglySorted R (l1 ++ l2).
Proof.
  induction l1 as [|x l1 IH]; cbn; intros Hs; apply StronglySorted_inv in Hs as [Hs Hx]; [done|].
  constructor; [by apply IH|]. rewrite Forall_app, Forall_cons in Hx. rewrite Forall_app. tauto.
Qed.

Lemma sorted_mid {A} (R : A -> A -> Prop) (l1 l2 : list A) (t : A) :
  StronglySorted R (l1 ++ t :: l2) -> (∀ x, x ∈ l1 -> R x t) ∧ (∀ x, x ∈ l2 -> R t x).
Proof.
  induction l1 as [|y l1 IH]; cbn; intros Hs; apply StronglySorted_inv in Hs as [Hs Hx]; rewrite Forall_forall in Hx.
  - split; [by intros x ?%elem_of_nil|done].
  - destruct (IH Hs) as [H1 H2]. split; [|done]. intros x [->|Hin]%elem_of_cons; [|by apply H1]. apply Hx. set_solver.
Qed.

(** ** Changes of the register *)

Lemma reg_at Q P m t tm : reg Q P m -> m !! t = Some tm -> timer_ok Q P t tm.
Proof. intros HR Ht. by apply HR. Qed.

(** Another timer is not affected by a change to [t]. *)
Lemma timer_ok_other Q P Q' P' x tm :
  timer_ok Q P x tm -> (∀ i, x ∈ Q' i <-> x ∈ Q i) -> (x ∈ P' <-> x ∈ P) -> timer_ok Q' P' x tm.
Proof. intros [] HQ HP. split; try done; [intros i; by rewrite HQ|by rewrite HP]. Qed.

(** A change to [t] that keeps the others in their places. *)
Lemma reg_change Q P m Q' P' t tm' :
  reg Q P m -> timer_ok Q' P' t tm' ->
  (∀ x i, x <> t -> x ∈ Q' i <-> x ∈ Q i) -> (∀ x, x <> t -> x ∈ P' <-> x ∈ P) ->
  (∀ i, NoDup (Q' i)) -> NoDup P' -> (∀ i, StronglySorted (λ x y, key (<[t := tm']> m) x <= key (<[t := tm']> m) y) (Q' i)) ->
  reg Q' P' (<[t := tm']> m).
Proof.
  intros HR Ht HQ HP Hnd HndP Hs. split; [|intros i x Hx|intros x Hx|done|done|done].
  - intros x tm Hx. destruct (decide (x = t)) as [->|Hne].
    + rewrite lookup_insert_eq in Hx. by injection Hx as <-.
    + rewrite lookup_insert_ne in Hx by done. eapply timer_ok_other; [by eapply reg_timer|intros i; by apply HQ|by apply HP].
  - destruct (decide (x = t)) as [->|Hne]; [by rewrite lookup_insert_eq|]. rewrite lookup_insert_ne by done.
    apply HQ in Hx; [|done]. by eapply reg_queue.
  - destruct (decide (x = t)) as [->|Hne]; [by rewrite lookup_insert_eq|]. rewrite lookup_insert_ne by done.
    apply HP in Hx; [|done]. by eapply reg_pending.
Qed.

(** Queues without [t] stay sorted whatever [t] becomes. *)
Lemma sorted_without Q P m t tm' i :
  reg Q P m -> t ∉ Q i -> StronglySorted (λ x y, key (<[t := tm']> m) x <= key (<[t := tm']> m) y) (Q i).
Proof.
  intros HR Hn. eapply sorted_ext; [|by eapply reg_sorted]. intros x y Hx Hy.
  rewrite !key_insert_ne by (intros ->; done). done.
Qed.

(** Timers on no queue. *)
Definition loose tm : Prop := enqueued tm = false ∧ hr_state tm <> HRTIMER_STATE_PENDING.

Lemma loose_spec Q P m t tm : reg Q P m -> m !! t = Some tm -> loose tm -> (∀ i, t ∉ Q i) ∧ t ∉ P.
Proof.
  intros HR Ht [He Hp]. pose proof (reg_at _ _ _ _ _ HR Ht) as Hok. split.
  - intros i Hi. apply (to_queue _ _ _ _ Hok) in Hi as [_ Hi]. congruence.
  - intros Hi. by apply (to_pending _ _ _ _ Hok) in Hi.
Qed.

(** A loose timer is rewritten. *)
Lemma reg_loose Q P m t tm tm' :
  reg Q P m -> m !! t = Some tm -> loose tm -> loose tm' -> (hr_base tm' < 2)%nat -> 0 <= hr_state tm' <= 4 -> reg Q P (<[t := tm']> m).
Proof.
  intros HR Ht Hl [He' Hp'] Hb Hs. destruct (loose_spec _ _ _ _ _ HR Ht Hl) as [HnQ HnP]. pose proof (reg_at _ _ _ _ _ HR Ht) as Hok.
  eapply reg_change; [done| |done|done|apply HR|apply HR|].
  - split; [apply Hok|apply Hok|done|done| |].
    + intros i. split; [intros Hi; by apply HnQ in Hi|]. intros [_ Hi]. congruence.
    + split; [done|]. by intros ?.
  - intros i. by eapply sorted_without.
Qed.

(** A loose timer is put in its place in a queue. *)
Lemma reg_insert Q P m t tm (A B : list Z) :
  reg Q P m -> m !! t = Some tm -> loose tm -> Q (hr_base tm) = A ++ B ->
  (∀ x, x ∈ A -> key m x <= hr_expires tm) -> (∀ x, x ∈ B -> hr_expires tm < key m x) ->
  reg (<[hr_base tm := A ++ t :: B]> Q) P (<[t := with_state (Z.lor (hr_state tm) HRTIMER_STATE_ENQUEUED) tm]> m).
Proof.
  intros HR Ht Hl HQ HA HB. destruct (loose_spec _ _ _ _ _ HR Ht Hl) as [HnQ HnP]. pose proof (reg_at _ _ _ _ _ HR Ht) as Hok.
  pose proof (HnQ (hr_base tm)) as Hn. rewrite HQ in Hn. set (i0 := hr_base tm) in *. destruct Hl as [He Hp].
  assert (∀ i, (<[i0 := A ++ t :: B]> Q) i = if decide (i = i0) then A ++ t :: B else Q i) as HQ'.
  { intros i. case_decide; [subst i; by rewrite fn_lookup_insert|by rewrite fn_lookup_insert_ne]. }
  eapply reg_change; [done| | |done| |apply HR|].
  - split; [apply Hok|apply Hok|apply Hok| | |]; cbn [hr_state hr_base with_state].
    + unfold HRTIMER_STATE_ENQUEUED, HRTIMER_STATE_PENDING, enqueued in *. pose proof (to_state _ _ _ _ Hok).
      assert (hr_state tm = 0 ∨ hr_state tm = 1 ∨ hr_state tm = 2 ∨ hr_state tm = 3) as [E|[E|[E|E]]] by lia; rewrite E; split; vm_compute; congruence.
    + intros i. rewrite HQ'. unfold enqueued. cbn [hr_state with_state]. rewrite Z.lor_spec, orb_true_r. fold i0. case_decide; set_solver.
    + split; [done|]. intros E. exfalso. apply (f_equal (λ z, Z.testbit z 0)) in E. rewrite Z.lor_spec, orb_true_r in E. done.
  - intros x i Hx. rewrite HQ'. case_decide; [|done]. subst i. rewrite HQ. set_solver.
  - intros i. rewrite HQ'. case_decide; [|apply HR]. pose proof (reg_nodup _ _ _ HR i0) as Hnd. rewrite HQ in Hnd.
    rewrite <- Permutation_middle. by apply NoDup_cons.
  - intros i. rewrite HQ'. case_decide; [|eapply sorted_without; [done|apply HnQ]]. apply sorted_insert.
    + rewrite <- HQ. by eapply sorted_without.
    + apply Forall_forall. intros x Hx. rewrite key_insert_eq, key_insert_ne by (intros ->; apply Hn, elem_of_app; tauto). cbn. by apply HA.
    + apply Forall_forall. intros x Hx. rewrite key_insert_eq, key_insert_ne by (intros ->; apply Hn, elem_of_app; tauto). cbn. apply HB in Hx. lia.
Qed.

(** An enqueued timer is taken off its queue. *)
Lemma reg_delete Q P m t tm (A B : list Z) n :
  reg Q P m -> m !! t = Some tm -> Q (hr_base tm) = A ++ t :: B -> loose (with_state n tm) -> 0 <= n <= 4 ->
  reg (<[hr_base tm := A ++ B]> Q) P (<[t := with_state n tm]> m).
Proof.
  intros HR Ht HQ [He' Hp'] Hn. pose proof (reg_at _ _ _ _ _ HR Ht) as Hok. set (i0 := hr_base tm) in *.
  assert (∀ i, (<[i0 := A ++ B]> Q) i = if decide (i = i0) then A ++ B else Q i) as HQ'.
  { intros i. case_decide; [subst i; by rewrite fn_lookup_insert|by rewrite fn_lookup_insert_ne]. }
  pose proof (reg_nodup _ _ _ HR i0) as Hnd. rewrite HQ in Hnd. rewrite <- Permutation_middle in Hnd. apply NoDup_cons in Hnd as [Hnin Hnd].
  assert (∀ i, t ∉ (<[i0 := A ++ B]> Q) i) as HnQ.
  { intros i. rewrite HQ'. case_decide; [done|]. intros Hi. by apply (to_queue _ _ _ _ Hok) in Hi as [? _]. }
  assert (t ∉ P) as HnP.
  { intros Hi. apply (to_pending _ _ _ _ Hok) in Hi. destruct (proj1 (to_queue _ _ _ _ Hok i0)) as [_ Hq]; [rewrite HQ; set_solver|].
    unfold enqueued in Hq. by rewrite Hi in Hq. }
  eapply reg_change; [done| | |done| |apply HR|].
  - split; [apply Hok|apply Hok|apply Hok|done| |].
    + intros i. split; [intros Hi; by apply HnQ in Hi|]. intros [_ Hi]. congruence.
    + split; [done|]. by intros ?.
  - intros x i Hx. rewrite HQ'. case_decide; [|done]. subst i. rewrite HQ. set_solver.
  - intros i. rewrite HQ'. case_decide; [done|apply HR].
  - intros i. apply sorted_ext with (λ x y, key m x <= key m y).
    + intros x y Hx Hy. rewrite !key_insert_ne by (intros ->; by apply (HnQ i)). done.
    + rewrite HQ'. case_decide; [|apply HR]. eapply sorted_delete. rewrite <- HQ. apply HR.
Qed.

(** A loose timer is put on the callback list, and taken off again. *)
Lemma reg_pend Q P m t tm : reg Q P m -> m !! t = Some tm -> loose tm ->
  reg Q (P ++ [t]) (<[t := with_state HRTIMER_STATE_PENDING tm]> m).
Proof.
  intros HR Ht Hl. destruct (loose_spec _ _ _ _ _ HR Ht Hl) as [HnQ HnP]. pose proof (reg_at _ _ _ _ _ HR Ht) as Hok.
  eapply reg_change; [done| |done| |apply HR| |].
  - split; [apply Hok|apply Hok|apply Hok|done| |].
    + intros i. split; [intros Hi; by apply HnQ in Hi|]. by intros [_ Hi].
    + split; [done|]. set_solver.
  - set_solver.
  - rewrite <- Permutation_cons_append. apply NoDup_cons. split; [done|apply HR].
  - intros i. by eapply sorted_without.
Qed.

Lemma reg_unpend Q P m t tm n : reg Q P m -> m !! t = Some tm -> hr_state tm = HRTIMER_STATE_PENDING ->
  loose (with_state n tm) -> 0 <= n <= 4 -> reg Q (filter (λ x, x <> t) P) (<[t := with_state n tm]> m).
Proof.
  intros HR Ht Hst [He' Hp'] Hn. pose proof (reg_at _ _ _ _ _ HR Ht) as Hok.
  assert (∀ i, t ∉ Q i) as HnQ.
  { intros i Hi. apply (to_queue _ _ _ _ Hok) in Hi as [_ Hi]. unfold enqueued in Hi. by rewrite Hst in Hi. }
  eapply reg_change; [done| |done| |apply HR| |].
  - split; [apply Hok|apply Hok|apply Hok|done| |].
    + intros i. split; [intros Hi; by apply HnQ in Hi|]. intros [_ Hi]. congruence.
    + rewrite list_elem_of_filter. split; [tauto|]. by intros ?.
  - intros x Hx. rewrite list_elem_of_filter. tauto.
  - apply NoDup_filter, HR.
  - intros i. by eapply sorted_without.
Qed.

(** The state word changes without a change of place. *)
Lemma reg_state Q P m t tm n : reg Q P m -> m !! t = Some tm -> 0 <= n <= 4 ->
  Z.testbit n 0 = enqueued tm -> (n = HRTIMER_STATE_PENDING <-> hr_state tm = HRTIMER_STATE_PENDING) ->
  reg Q P (<[t := with_state n tm]> m).
Proof.
  intros HR Ht Hn He Hp. pose proof (reg_at _ _ _ _ _ HR Ht) as Hok.
  eapply reg_change; [done| |done|done|apply HR|apply HR|].
  - split; [apply Hok|apply Hok|apply Hok|done| |]; cbn [hr_state hr_base with_state].
    + intros i. change (enqueued (with_state n tm)) with (Z.testbit n 0). rewrite He. apply Hok.
    + rewrite Hp. apply Hok.
  - intros i. eapply sorted_ext; [|by eapply reg_sorted]. intros x y _ _.
    assert (∀ z, key (<[t := with_state n tm]> m) z = key m z) as Hk.
    { intros z. rewrite key_insert. case_decide; [|done]. subst z. cbn. symmetry. by apply key_lookup. }
    by rewrite !Hk.
Qed.
End Reg.

(** A 32-bit memory has room for less than 2^30 nodes. *)
Lemma few_nodes (l : list Z) : NoDup l -> (∀ x, x ∈ l -> okp x ∧ x < 2 ^ 32) -> (2 * Nat.log2 (S (length l)) <= DEPTH)%nat.
Proof.
  intros Hnd Hl. assert (length l <= Z.to_nat (2 ^ 30 - 1))%nat as Hlen.
  { rewrite <- (length_fmap (λ x, x / 4) l), <- (length_seqZ 1 (2 ^ 30 - 1)). apply submseteq_length, NoDup_submseteq.
    - apply NoDup_fmap_2_strong; [|done]. intros x y [[_ Hx] _]%Hl [[_ Hy] _]%Hl Heq.
      rewrite (Z.div_mod x 4), (Z.div_mod y 4) by lia. lia.
    - intros y (x & -> & [[Hp Hm] Hx]%Hl)%list_elem_of_fmap. apply elem_of_seqZ.
      pose proof (Z.div_mod x 4 ltac:(lia)). lia. }
  assert (Nat.log2 (S (length l)) < 31)%nat; [|unfold DEPTH; lia].
  apply Nat.log2_lt_pow2; [lia|]. apply Nat2Z.inj_lt. rewrite Nat2Z.inj_pow. lia.
Qed.

(** * The devices *)

(** Programming an event, by force or not, returns: the event is accepted, or
    refused with an error code.  Reading the clocks returns. *)
Class TickDevOk (D : Type) `{TickDev D} : Prop := {
  program_runs e f d : ∃ r d', tick_program_event e f d = Some (r, d') ∧ (r = 0 ∨ - MAX_ERRNO <= r < 0);
  get_runs d : ∃ v d', ktime_get d = Some (v, d');
  get_real_runs d : ∃ v d', ktime_get_real d = Some (v, d');
}.

(** * Queues in memory *)

Section Queues.
Context {D : Type} `{TickDev D}.
Abbreviation hrs := (hrtimer_cpu_base D).
Implicit Types (s : hrs) (Q : nat -> list Z) (t e : Z) (i : nat) (tm : hrtimer) (b : hrtimer_clock_base).

Definition tree_of b s : rbs := Rbs (active b) (nodes s).

(** The trees hold the queues and [first] points to their heads. *)
Definition trees Q s : Prop :=
  length (clock_base s) = 2%nat ∧
  ∀ i b, clock_base s !! i = Some b -> holds (tree_of b s) (Q i) ∧ first b = hd 0 (Q i).

Definition hr_ok Q s : Prop := trees Q s ∧ reg Q (cb_pending s) (hrtimers s).

Lemma trees_base Q s i : trees Q s -> (i < 2)%nat -> ∃ b, clock_base s !! i = Some b ∧ holds (tree_of b s) (Q i) ∧ first b = hd 0 (Q i).
Proof.
  intros [Hl Ht] Hi. destruct (lookup_lt_is_Some_2 (clock_base s) i) as [b Hb]; [lia|]. exists b. split; [done|]. by apply Ht.
Qed.

Lemma queue_fuel Q P m i : reg Q P m -> (2 * Nat.log2 (S (length (Q i))) <= DEPTH)%nat.
Proof.
  intros HR. apply few_nodes; [apply HR|]. intros x Hx. destruct (reg_queue _ _ _ HR _ _ Hx) as [tm Htm].
  pose proof (reg_timer _ _ _ HR _ _ Htm) as Hok. split; apply Hok.
Qed.

(** Queues of different bases are disjoint. *)
Lemma queues_apart Q P m i j x : reg Q P m -> x ∈ Q i -> x ∈ Q j -> i = j.
Proof.
  intros HR Hi Hj. destruct (reg_queue _ _ _ HR _ _ Hi) as [tm Htm]. pose proof (reg_timer _ _ _ HR _ _ Htm) as Hok.
  apply (to_queue _ _ _ _ Hok) in Hi as [-> _]. by apply (to_queue _ _ _ _ Hok) in Hj as [-> _].
Qed.

(** ** Finding the place *)

Lemma deref_run s i b k (u : tree) :
  clock_base s !! i = Some b -> Rep (tree_of b s) (fill k u) -> deref i (link_of k) s = Some (ptr u, s).
Proof.
  intros Hb HR. unfold deref, on_tree. rewrite Hb. fold (tree_of b s).
  assert ((match link_of k with Root => fget root_node | Field d x => get_child d x end) (tree_of b s) = Some (ptr u, tree_of b s)) as ->.
  { destruct k as [|[d c x sib] k]; cbn [link_of f_side f_addr].
    - destruct HR as [Hr _]. unfold fget. by rewrite Hr.
    - pose proof (Rep_node (tree_of b s) k d c x u sib HR) as Hn. unfold get_child, ld.
      erewrite bind_run; [|unfold ftry; by rewrite Hn]. by destruct d. }
  cbn. do 2 f_equal. destruct b, s. unfold set_nodes, set_bases, with_root. cbn in *. f_equal. by apply list_insert_id.
Qed.

Lemma find_place_run s i b e (Hb : clock_base s !! i = Some b) fuel : ∀ k u leftmost,
  Rep (tree_of b s) (fill k u) -> (height u <= fuel)%nat -> (∀ x, x ∈ inorder (fill k u) -> is_Some (hrtimers s !! x)) ->
  StronglySorted (λ x y, key (hrtimers s) x <= key (hrtimers s) y) (inorder (fill k u)) ->
  (∀ x, x ∈ before k -> key (hrtimers s) x <= e) -> (∀ x, x ∈ after k -> e < key (hrtimers s) x) ->
  leftmost = bool_decide (before k = []) ->
  ∃ k', fill k' Leaf = fill k u ∧ find_place fuel i e (link_of k) (par k) leftmost s = Some ((par k', link_of k', bool_decide (before k' = [])), s) ∧
    (∀ x, x ∈ before k' -> key (hrtimers s) x <= e) ∧ (∀ x, x ∈ after k' -> e < key (hrtimers s) x).
Proof.
  induction fuel as [|fuel IH]; intros k u leftmost HR Hh Hall Hs HA HB ->; (destruct u as [|c x l r]; [|try (cbn in Hh; lia)]).
  1,2: exists k; split_and!; [done| |done|done]; cbn [find_place]; erewrite bind_run by (by apply (deref_run s i b k Leaf)); done.
  cbn [find_place]. erewrite bind_run by (by apply (deref_run s i b k (Node c x l r))). cbn [ptr].
  assert (okp x) as [Hx _]. { destruct HR as (_ & _ & _ & Hf). rewrite inorder_fill in Hf. cbn in Hf. rewrite !Forall_app, Forall_cons in Hf. tauto. }
  destruct (Z.eqb_spec x 0); [lia|]. assert (x ∈ inorder (fill k (Node c x l r))) as Hin.
  { rewrite inorder_fill. cbn. set_solver. }
  destruct (Hall x Hin) as [tm Htm]. erewrite bind_run by (unfold timer_of, ftry; by rewrite Htm).
  rewrite <- (key_lookup _ _ _ Htm). cbn [height] in Hh.
  assert (inorder (fill k (Node c x l r)) = (before k ++ inorder l) ++ x :: inorder r ++ after k) as Hi.
  { rewrite inorder_fill. cbn. by rewrite <- !app_assoc. }
  pose proof Hs as Hmid. rewrite Hi in Hmid. apply sorted_mid in Hmid as [Hlo Hhi].
  destruct (Z.ltb_spec e (key (hrtimers s) x)) as [Hlt|Hge].
  - destruct (IH (Frame L c x r :: k) l (bool_decide (before k = []))) as (k' & Hk' & Hrun & HA' & HB'); try done; [lia|..].
    + cbn. by rewrite app_nil_r.
    + cbn. intros y [Hy|Hy%Hhi]%elem_of_cons; [by subst|lia].
    + cbn. by rewrite app_nil_r.
    + exists k'. done.
  - destruct (IH (Frame R c x l :: k) r false) as (k' & Hk' & Hrun & HA' & HB'); try done; [lia|..].
    + cbn. intros y Hy. rewrite app_assoc, elem_of_app, list_elem_of_singleton in Hy. destruct Hy as [Hy%Hlo| ->]; lia.
    + cbn. rewrite bool_decide_false; [done|]. rewrite app_assoc. by intros [_ ?]%app_eq_nil.
    + exists k'. done.
Qed.

Lemma place_ok Q s i b e : hr_ok Q s -> clock_base s !! i = Some b ->
  ∃ T N k, Rep (tree_of b s) T ∧ rb true N T ∧ inorder T = Q i ∧ T = fill k Leaf ∧
    find_place DEPTH i e Root 0 true s = Some ((par k, link_of k, bool_decide (before k = [])), s) ∧
    (∀ x, x ∈ before k -> key (hrtimers s) x <= e) ∧ (∀ x, x ∈ after k -> e < key (hrtimers s) x).
Proof.
  intros [HT HR] Hb. destruct (proj2 HT i b Hb) as [(T & N & HRep & Hrb & Hi) _]. pose proof (rb_height_log _ _ Hrb) as Hh. rewrite Hi in Hh.
  pose proof (queue_fuel _ _ _ i HR) as Hf.
  destruct (find_place_run s i b e Hb DEPTH [] T true) as (k & Hk & Hrun & HA & HB); try done.
  - lia.
  - intros x Hx. cbn in Hx. rewrite Hi in Hx. by eapply reg_queue.
  - cbn. rewrite Hi. apply HR.
  - by intros x ?%elem_of_nil.
  - by intros x ?%elem_of_nil.
  - cbn in Hk. by exists T, N, k.
Qed.

(** ** Operations on a tree *)

Definition retree i (r : rbs) b s : hrs := set_nodes (mem r) (set_bases (<[i := with_root (root_node r) b]> (clock_base s)) s).

Lemma on_tree_run {A} i (m : Sf rbs A) b s x r :
  clock_base s !! i = Some b -> m (tree_of b s) = Some (x, r) -> on_tree i m s = Some (x, retree i r b s).
Proof. intros Hb Hm. unfold on_tree. rewrite Hb. fold (tree_of b s). by rewrite Hm. Qed.

Lemma on_tree_same {A} i (m : Sf rbs A) b s x :
  clock_base s !! i = Some b -> m (tree_of b s) = Some (x, tree_of b s) -> on_tree i m s = Some (x, s).
Proof.
  intros Hb Hm. rewrite (on_tree_run i m b s x (tree_of b s) Hb Hm). unfold retree, tree_of. destruct b, s. cbn in *. do 2 f_equal.
  unfold set_nodes, set_bases. cbn. f_equal. by apply list_insert_id.
Qed.

Lemma on_tree_bind {A} i (m1 : Sf rbs unit) (m2 : Sf rbs A) s : (on_tree i m1 ;; on_tree i m2) s = on_tree i (m1 ;; m2) s.
Proof.
  unfold mbind, Sf_bind, on_tree. destruct (clock_base s !! i) as [b|] eqn:Hb; [|done].
  destruct (m1 _) as [[[] r]|]; [|done]. cbn. rewrite list_lookup_insert_eq by (by apply lookup_lt_is_Some_1; eexists). cbn.
  destruct r as [rt m]. cbn. destruct (m2 _) as [[x r2]|]; [|done]. do 2 f_equal. unfold set_nodes, set_bases. cbn. f_equal.
  by rewrite list_insert_insert_eq.
Qed.

(** The queue [i] becomes [l]; the nodes written belong to no other queue. *)
Lemma trees_retree Q s i b b' (l w : list Z) r :
  hr_ok Q s -> clock_base s !! i = Some b -> holds r l -> first b' = hd 0 l -> off w (tree_of b s) r ->
  (∀ x j, x ∈ w -> x ∈ Q j -> j = i) -> trees (<[i := l]> Q) (retree i r b' s).
Proof.
  intros [[Hl Ht] HR] Hb Hh Hfst Ho Hw. split; [cbn; by rewrite length_insert|]. intros j bj Hj. cbn in Hj. apply list_lookup_insert_Some in Hj as [(-> & <- & _)|[Hne Hj]].
  - rewrite fn_lookup_insert. split; [|done]. unfold tree_of. cbn. by destruct r.
  - rewrite fn_lookup_insert_ne by done. destruct (Ht j bj Hj) as [Hhj Hfj]. split; [|done]. eapply holds_frame; [exact Hhj|done|].
    intros z Hz. cbn. rewrite (Ho z); [done|]. intros Hzw. by destruct (Hw z j Hzw Hz).
Qed.

(** hr_ok is about the queues only. *)
Lemma hr_ok_ext Q s s' : hr_ok Q s -> nodes s' = nodes s -> hrtimers s' = hrtimers s -> clock_base s' = clock_base s ->
  cb_pending s' = cb_pending s -> hr_ok Q s'.
Proof. unfold hr_ok, trees, tree_of. intros Hok -> -> -> ->. done. Qed.

Lemma timer_run s t tm : hrtimers s !! t = Some tm -> timer_of t s = Some (tm, s).
Proof. intros Ht. unfold timer_of, ftry. by rewrite Ht. Qed.
Lemma base_run s i b : clock_base s !! i = Some b -> base_of i s = Some (b, s).
Proof. intros Hb. unfold base_of, ftry. by rewrite Hb. Qed.
Lemma timer_of_Some s t tm s' : timer_of t s = Some (tm, s') -> hrtimers s !! t = Some tm ∧ s' = s.
Proof. exact (ftry_Some _ s _ s'). Qed.
Lemma base_of_Some s i b s' : base_of i s = Some (b, s') -> clock_base s !! i = Some b ∧ s' = s.
Proof. exact (ftry_Some _ s _ s'). Qed.
Lemma upd_timer_run s t tm f : hrtimers s !! t = Some tm -> upd_timer t f s = Some (tt, set_timers (<[t := f tm]> (hrtimers s)) s).
Proof. intros Ht. unfold upd_timer. by rewrite (bind_run _ _ _ _ _ (timer_run s t tm Ht)). Qed.
Lemma upd_base_run s i b f : clock_base s !! i = Some b -> upd_base i f s = Some (tt, set_bases (<[i := f b]> (clock_base s)) s).
Proof. intros Hb. unfold upd_base. by rewrite (bind_run _ _ _ _ _ (base_run s i b Hb)). Qed.

(** ** Insertion *)

(** [t] linked into the tree, which becomes [r]. *)
Definition linked t tm (r : rbs) b s : hrs :=
  set_timers (<[t := with_state (Z.lor (hr_state tm) HRTIMER_STATE_ENQUEUED) tm]> (hrtimers s)) (retree (hr_base tm) r b s).

(** The end of enqueue_hrtimer, when the timer has not been dealt with. *)
Definition enqueue_tail t i (parent : Z) (l : link) (leftmost : bool) : Sf hrs unit :=
  fwhen leftmost (upd_base i (with_first t)) ;;
  on_tree i (rb_link_node t parent l) ;;
  on_tree i (rb_insert_color DEPTH t) ;;
  upd_timer t (λ tm, with_state (Z.lor (hr_state tm) HRTIMER_STATE_ENQUEUED) tm).

Lemma enqueue_tail_ok Q s t tm b T N k :
  hr_ok Q s -> hrtimers s !! t = Some tm -> loose tm -> clock_base s !! hr_base tm = Some b ->
  Rep (tree_of b s) T -> rb true N T -> inorder T = Q (hr_base tm) -> T = fill k Leaf ->
  (∀ x, x ∈ before k -> key (hrtimers s) x <= hr_expires tm) -> (∀ x, x ∈ after k -> hr_expires tm < key (hrtimers s) x) ->
  let b' := if bool_decide (before k = []) then with_first t b else b in
  ∃ r, enqueue_tail t (hr_base tm) (par k) (link_of k) (bool_decide (before k = [])) s = Some (tt, linked t tm r b' s) ∧
    Q (hr_base tm) = before k ++ after k ∧ hr_ok (<[hr_base tm := before k ++ t :: after k]> Q) (linked t tm r b' s).
Proof.
  intros Hok Htm Hl Hb HRep Hrb Hi Hk HA HB b'. pose proof Hok as [HT HR]. set (i := hr_base tm) in *.
  destruct (loose_spec _ _ _ _ _ HR Htm Hl) as [HnQ _]. pose proof (reg_at _ _ _ _ _ HR Htm) as Htok.
  set (s1 := set_bases (<[i := b']> (clock_base s)) s).
  assert (clock_base s1 !! i = Some b') as Hb1 by (cbn; apply list_lookup_insert_eq; by apply lookup_lt_is_Some_1; eexists).
  assert (tree_of b' s1 = tree_of b s) as Htree by (unfold b'; by destruct (bool_decide _)).
  assert ((fwhen (bool_decide (before k = [])) (upd_base i (with_first t))) s = Some (tt, s1)) as Hfirst.
  { unfold s1, b'. case_bool_decide; cbn [fwhen]; [by apply upd_base_run|]. rewrite list_insert_id by done. by destruct s. }
  destruct (insert_at DEPTH (tree_of b s) T N k t) as (r & T' & N' & Hrun & HRep' & Hrb' & Hsplit & Hi' & Hoff); try done.
  { apply Htok. } { rewrite Hi. apply HnQ. } { unfold enough. rewrite Hi. by eapply queue_fuel. }
  rewrite Hi in Hsplit, Hoff. exists r. split_and!; [|done|].
  - unfold enqueue_tail. rewrite (bind_run _ _ _ _ _ Hfirst). rewrite <- Htree in Hrun.
    pose proof (on_tree_run i _ b' s1 tt r Hb1 Hrun) as Hrun1. rewrite <- on_tree_bind in Hrun1.
    apply Sf_bind_Some in Hrun1 as ([] & s2 & Hr1 & Hr2). rewrite (bind_run _ _ _ _ _ Hr1), (bind_run _ _ _ _ _ Hr2).
    rewrite (upd_timer_run _ _ tm) by done. do 2 f_equal. unfold linked, retree, s1. cbn. fold i. by rewrite list_insert_insert_eq.
  - split.
    + assert (trees (<[i := before k ++ t :: after k]> Q) (retree i r b' s)) as Htr.
      { eapply (trees_retree Q s i b b' _ (t :: Q i) r); [done|done|by exists T', N'| |done|].
        - unfold b'. destruct (proj2 HT i b Hb) as [_ Hf]. rewrite Hsplit in Hf. case_bool_decide as Hk0; [by rewrite Hk0|].
          destruct (before k); [done|]. by rewrite Hf.
        - intros x j [->|Hx]%elem_of_cons Hj; [by apply HnQ in Hj|]. by eapply queues_apart. }
      exact Htr.
    + cbn. by apply reg_insert.
Qed.

(** ** The next event *)

(** When the first timer of a base is due, on the monotonic clock. *)
Definition due s i : option Z :=
  b ← clock_base s !! i;
  if first b =? 0 then None
  else tm ← hrtimers s !! first b; Some (ktime_sub (hr_expires tm) (offset b)).

(** In high-resolution mode [expires_next] is no later than the first timer of
    both bases is due. *)
Definition next_covers s : Prop := hres_active s = true -> ∀ i e, due s i = Some e -> expires_next s <= e.

(** [first] is NULL or a timer. *)
Definition firsts s : Prop := length (clock_base s) = 2%nat ∧
  ∀ i b, clock_base s !! i = Some b -> first b <> 0 -> is_Some (hrtimers s !! first b).

Lemma hr_ok_firsts Q s : hr_ok Q s -> firsts s.
Proof.
  intros [[Hl Ht] HR]. split; [done|]. intros i b Hb. destruct (Ht i b Hb) as [_ ->]. destruct (Q i) as [|x l] eqn:HQ; [done|].
  intros _. apply (reg_queue _ _ _ HR i). rewrite HQ. cbn. set_solver.
Qed.

(** The smaller of [e] and an event. *)
Definition sooner (e : Z) (o : option Z) : Z := match o with Some x => if x <? e then x else e | None => e end.

Lemma sooner_le e o : sooner e o <= e ∧ (∀ x, o = Some x -> sooner e o <= x) ∧ (sooner e o = e ∨ o = Some (sooner e o)).
Proof. destruct o as [x|]; cbn; [|split_and!; [lia|by intros ? [=]|by left]]. case_cmp; (split_and!; [lia|intros ? [= <-]; lia|auto]). Qed.

(** When the first timer of all is due. *)
Definition soonest s : Z := sooner (sooner KTIME_MAX (due s 0)) (due s 1).

Lemma soonest_le s i x : (length (clock_base s) <= 2)%nat -> due s i = Some x -> soonest s <= x.
Proof.
  intros Hl Hd. destruct (sooner_le KTIME_MAX (due s 0)) as (_ & H1 & _), (sooner_le (sooner KTIME_MAX (due s 0)) (due s 1)) as (H2 & H3 & _).
  unfold soonest. destruct i as [|[|i]]; [specialize (H1 x Hd); lia|by apply H3|]. unfold due in Hd. by rewrite lookup_ge_None_2 in Hd by lia.
Qed.

Lemma soonest_ext s s' : (∀ i, due s' i = due s i) -> soonest s' = soonest s.
Proof. intros Hd. unfold soonest. by rewrite !Hd. Qed.

(** What hrtimer_force_reprogram leaves, with the queues of [s]: the time [e] of
    the first timer of all in expires_next, and the device [d'] that [d] became
    when it was told to, or [d] if there is no timer. *)
Definition reprogrammed s (e : Z) (d d' : D) : Prop :=
  e = soonest s ∧ if e =? KTIME_MAX then d' = d else ∃ r, tick_program_event e true d = Some (r, d').

Lemma earliest_step s i n : firsts s -> (i < 2)%nat ->
  earliest (S n) i s = earliest n (S i) (set_expires_next (sooner (expires_next s) (due s i)) s).
Proof.
  intros [Hl Hf] Hi. destruct (lookup_lt_is_Some_2 (clock_base s) i) as [b Hb]; [lia|]. cbn [earliest]. unfold due. rewrite Hb.
  rewrite (bind_run _ _ _ _ _ (base_run s i b Hb)). cbn [mbind option_bind].
  assert (set_expires_next (expires_next s) s = s) as Hid by (by destruct s).
  destruct (Z.eqb_spec (first b) 0) as [_|Hne]; cbn [negb fwhen sooner]; [erewrite bind_run by reflexivity; by rewrite Hid|].
  destruct (Hf i b Hb Hne) as [tm Htm]. rewrite Htm. cbn [mbind option_bind sooner].
  erewrite bind_run; [reflexivity|]. rewrite (bind_run _ _ _ _ _ (timer_run s _ tm Htm)). erewrite bind_run by reflexivity.
  cbv zeta. destruct (ktime_sub (hr_expires tm) (offset b) <? expires_next s); cbn [fwhen]; [done|by rewrite Hid].
Qed.

Lemma force_reprogram_run `{!TickDevOk D} s : firsts s -> ∃ e d,
  hrtimer_force_reprogram s = Some (tt, set_expires_next e (set_hr_dev d s)) ∧ reprogrammed s e (hr_dev s) d.
Proof.
  intros Hf. unfold hrtimer_force_reprogram, reprogrammed. erewrite bind_run by reflexivity. set (s1 := set_expires_next KTIME_MAX s).
  assert (earliest 2 0 s1 = Some (tt, set_expires_next (soonest s) s)) as Hrun.
  { rewrite earliest_step by (done || lia). by rewrite earliest_step by (done || lia). }
  rewrite (bind_run _ _ _ _ _ Hrun). erewrite bind_run by reflexivity. set (e := soonest s). exists e.
  cbn [expires_next set_expires_next]. destruct (Z.eqb_spec e KTIME_MAX) as [Heq|Hne]; cbn [negb fwhen].
  - exists (hr_dev s). split; [by destruct s|done].
  - destruct (program_runs e true (hr_dev s)) as (r & d & Hp & _). exists d. split; [|by split; [|exists r]].
    erewrite bind_run; [reflexivity|]. unfold on_dev. cbn. by rewrite Hp.
Qed.

(** ** Removal *)

Definition unlinked t tm n (r : rbs) b s : hrs :=
  set_timers (<[t := with_state n tm]> (hrtimers s)) (retree (hr_base tm) r b s).

Lemma due_same s s' i :
  (∀ b', clock_base s' !! i = Some b' -> ∃ b, clock_base s !! i = Some b ∧ first b' = first b ∧ offset b' = offset b) ->
  (∀ x tm', hrtimers s' !! x = Some tm' -> ∃ tm, hrtimers s !! x = Some tm ∧ hr_expires tm' = hr_expires tm) ->
  ∀ e, due s' i = Some e -> due s i = Some e.
Proof.
  intros Hb Ht e. unfold due. destruct (clock_base s' !! i) as [b'|]; [|done]. cbn [mbind option_bind].
  destruct (Hb b' eq_refl) as (b & -> & Hf & Ho). cbn [mbind option_bind]. rewrite Hf, Ho. destruct (first b =? 0); [done|].
  destruct (hrtimers s' !! first b) as [tm'|] eqn:Htm'; [|done]. destruct (Ht _ _ Htm') as (tm & -> & He). cbn. by rewrite He.
Qed.

Lemma due_eq s s' i :
  (λ b, (first b, offset b)) <$> clock_base s' !! i = (λ b, (first b, offset b)) <$> clock_base s !! i ->
  (∀ x, hr_expires <$> hrtimers s' !! x = hr_expires <$> hrtimers s !! x) -> due s' i = due s i.
Proof.
  intros Hb Ht. unfold due. destruct (clock_base s' !! i) as [b'|], (clock_base s !! i) as [b|]; try done. injection Hb as Hf Ho. cbn [mbind option_bind].
  rewrite Hf, Ho. destruct (first b =? 0); [done|]. specialize (Ht (first b)). destruct (hrtimers s' !! first b), (hrtimers s !! first b); try done.
  injection Ht as Ht. cbn. by rewrite Ht.
Qed.

Lemma insert_expires (m : gmap Z hrtimer) t tm tm1 : m !! t = Some tm -> hr_expires tm1 = hr_expires tm ->
  ∀ x, hr_expires <$> <[t := tm1]> m !! x = hr_expires <$> m !! x.
Proof.
  intros Ht He x. destruct (decide (x = t)) as [->|]; [|by rewrite lookup_insert_ne]. rewrite lookup_insert_eq, Ht. cbn. by rewrite He.
Qed.

Lemma enqueued_in Q s t tm : hr_ok Q s -> hrtimers s !! t = Some tm -> t ∈ Q (hr_base tm) -> enqueued tm = true ∧ hrtimer_cb_pending tm = false.
Proof.
  intros [_ HR] Ht Hin. pose proof (reg_at _ _ _ _ _ HR Ht) as Hok. apply (to_queue _ _ _ _ Hok) in Hin as [_ He]. split; [done|].
  pose proof (to_state _ _ _ _ Hok). unfold hrtimer_cb_pending, enqueued in *.
  assert (hr_state tm = 0 ∨ hr_state tm = 1 ∨ hr_state tm = 2 ∨ hr_state tm = 3 ∨ hr_state tm = 4) as [E|[E|[E|[E|E]]]] by lia; by rewrite E in *.
Qed.

Section Remove.
Context `{!TickDevOk D}.

(** What removing a queued timer leaves for the event device. *)
Definition rearmed (reprogram : bool) s s' e d : Prop :=
  if reprogram && hres_active s then reprogrammed s' e (hr_dev s) d else e = expires_next s ∧ d = hr_dev s.

Lemma remove_queued Q s t tm (A B : list Z) n reprogram :
  hr_ok Q s -> hrtimers s !! t = Some tm -> Q (hr_base tm) = A ++ t :: B ->
  ∃ b r e d, clock_base s !! hr_base tm = Some b ∧
    let b' := if bool_decide (A = []) then with_first (hd 0 B) b else b in
    let s' := unlinked t tm n r b' (set_expires_next e (set_hr_dev d s)) in
    remove_hrtimer_ t (hr_base tm) n reprogram s = Some (tt, s') ∧ trees (<[hr_base tm := A ++ B]> Q) s' ∧
    (if bool_decide (A = []) then rearmed reprogram s s' e d else e = expires_next s ∧ d = hr_dev s).
Proof.
  intros Hok Htm HQ. pose proof Hok as [HT HR]. set (i := hr_base tm) in *. pose proof (reg_at _ _ _ _ _ HR Htm) as Htok.
  destruct (trees_base Q s i HT (to_base _ _ _ _ Htok)) as (b & Hb & Hh & Hf). rewrite HQ in Hh, Hf.
  pose proof (queue_fuel _ _ _ i HR) as Hfuel. rewrite HQ in Hfuel. destruct (holds_erase DEPTH _ A t B Hh Hfuel) as (r & Herase & Hhr & Hoff).
  pose proof (holds_next DEPTH _ A t B Hh Hfuel) as Hnext. pose proof (reg_nodup _ _ _ HR i) as Hnd. rewrite HQ in Hnd.
  destruct (enqueued_in Q s t tm Hok Htm) as [_ Hcb]; [fold i; rewrite HQ; set_solver|].
  set (b' := if bool_decide (A = []) then with_first (hd 0 B) b else b). set (s1 := set_bases (<[i := b']> (clock_base s)) s).
  assert (clock_base s1 !! i = Some b') as Hb1 by (cbn; apply list_lookup_insert_eq; by apply lookup_lt_is_Some_1; eexists).
  assert (∃ e d, (fwhen (first b =? t) (n ← on_tree i (rb_next DEPTH t); upd_base i (with_first n) ;; hres ← fget hres_active;
      fwhen (reprogram && hres) hrtimer_force_reprogram)) s = Some (tt, set_expires_next e (set_hr_dev d s1)) ∧
      (if bool_decide (A = []) then rearmed reprogram s s1 e d else e = expires_next s ∧ d = hr_dev s)) as (e & d & Hfirst & Harm).
  { unfold s1, b'. destruct A as [|y A]; cbn [app hd] in *.
    - rewrite Hf, Z.eqb_refl, bool_decide_true by done. cbn [fwhen]. rewrite (bind_run _ _ _ _ _ (on_tree_same i _ b s _ Hb Hnext)).
      rewrite (bind_run _ _ _ _ _ (upd_base_run s i b _ Hb)). erewrite bind_run by reflexivity. unfold rearmed.
      change (hres_active (set_bases _ s)) with (hres_active s). destruct (reprogram && hres_active s); cbn [fwhen].
      + destruct (force_reprogram_run (set_bases (<[i := with_first (hd 0 B) b]> (clock_base s)) s)) as (e & d & Hrun & Hle); [|by exists e, d].
        split; [cbn; rewrite length_insert; apply HT|]. intros j bj Hj Hne. cbn in Hj. apply list_lookup_insert_Some in Hj as [(_ & <- & _)|[_ Hj]].
        * destruct B as [|y B]; [done|]. apply (reg_queue _ _ _ HR i). rewrite HQ. cbn. set_solver.
        * by apply (proj2 (hr_ok_firsts Q s Hok) j bj).
      + exists (expires_next s), (hr_dev s). done.
    - rewrite bool_decide_false by done. destruct (Z.eqb_spec (first b) t) as [Heq|_]; [exfalso; apply NoDup_cons in Hnd as [Hn _]; set_solver|].
      exists (expires_next s), (hr_dev s). cbn [fwhen]. rewrite list_insert_id by done. by destruct s. }
  exists b, r, e, d. split; [done|]. cbn zeta. fold b'. set (s2 := set_expires_next e (set_hr_dev d s)).
  assert (trees (<[i := A ++ B]> Q) (retree i r b' s2)) as Htrees.
  { eapply (trees_retree Q s2 i b b' _ (A ++ t :: B) r); [by eapply hr_ok_ext|done|done| |done|].
    - unfold b'. case_bool_decide as HA; [by subst A|]. destruct A; [done|]. by rewrite Hf.
    - intros x j Hx Hj. rewrite <- HQ in Hx. by eapply queues_apart. }
  split_and!; [|exact Htrees|].
  - unfold remove_hrtimer_. rewrite (bind_run _ _ _ _ _ (timer_run s t tm Htm)), Hcb.
    rewrite (bind_run _ _ s tt (retree i r b' s2)); [by rewrite (upd_timer_run _ t tm)|].
    rewrite (bind_run _ _ _ _ _ (base_run s i b Hb)), (bind_run _ _ _ _ _ Hfirst).
    rewrite (on_tree_run i _ b' _ tt r); [|exact Hb1|rewrite <- Herase; f_equal; unfold b'; by destruct (bool_decide _)].
    unfold retree, s2, s1. cbn. by rewrite list_insert_insert_eq.
  - destruct (bool_decide (A = [])); [|done]. unfold rearmed in *. destruct (reprogram && _); [|done]. destruct Harm as [-> Hd].
    assert (soonest (unlinked t tm n r b' (set_expires_next (soonest s1) (set_hr_dev d s))) = soonest s1) as Heq.
    { apply soonest_ext. intros j. apply due_eq; [|cbn; by eapply insert_expires]. cbn. destruct (decide (j = i)) as [->|Hne].
      - by rewrite !list_lookup_insert_eq by (by apply lookup_lt_is_Some_1; eexists).
      - by rewrite !list_lookup_insert_ne by done. }
    split; [symmetry; exact Heq|done].
Qed.

(** *** remove_hrtimer *)

Definition without t Q : nat -> list Z := λ j, filter (λ x, x <> t) (Q j).

Lemma hr_ok_eq Q Q' s : (∀ j, Q j = Q' j) -> hr_ok Q s -> hr_ok Q' s.
Proof.
  intros HQ [[Hl Ht] HR]. split; [split; [done|]; intros i b Hb; rewrite <- HQ; by apply Ht|]. destruct HR as [H1 H2 H3 H4 H5 H6].
  split; [|intros i t; rewrite <- HQ; apply H2|done|intros i; rewrite <- HQ; apply H4|done|intros i; rewrite <- HQ; apply H6].
  intros t tm Htm. destruct (H1 t tm Htm) as [K1 K2 K3 K4 K5 K6]. split; try done. intros i. rewrite <- HQ. apply K5.
Qed.

Lemma filter_notin_id t (l : list Z) : t ∉ l -> filter (λ x, x <> t) l = l.
Proof. intros Hn. induction l as [|x l IH]; [done|]. rewrite filter_cons, decide_True by set_solver. f_equal. apply IH. set_solver. Qed.

Lemma without_split Q P m i t (A B : list Z) : reg Q P m -> Q i = A ++ t :: B -> ∀ j, (<[i := A ++ B]> Q) j = without t Q j.
Proof.
  intros HR HQ j. unfold without. pose proof (reg_nodup _ _ _ HR i) as Hnd. rewrite HQ in Hnd. rewrite <- Permutation_middle in Hnd. apply NoDup_cons in Hnd as [Hn _].
  destruct (decide (j = i)) as [->|Hne].
  - rewrite fn_lookup_insert, HQ, filter_app, filter_cons_False by (intros Hc; by apply Hc). rewrite !filter_notin_id by set_solver. done.
  - rewrite fn_lookup_insert_ne by done. rewrite filter_notin_id; [done|]. intros Hj. apply Hne. eapply queues_apart; [done|done|]. rewrite HQ. set_solver.
Qed.

(** What no operation on the queues changes. *)
Definition same_clocks s s' : Prop := hres_active s' = hres_active s ∧ nr_events s' = nr_events s ∧
  ∀ j, (λ b, (resolution b, softirq_time b, offset b)) <$> clock_base s' !! j = (λ b, (resolution b, softirq_time b, offset b)) <$> clock_base s !! j.

#[export] Instance same_clocks_preorder : PreOrder same_clocks.
Proof. split; [by intros s|]. intros s1 s2 s3 (A1 & B1 & C1) (A2 & B2 & C2). split_and!; [congruence..|]. intros j. by rewrite C2. Qed.

Lemma same_clocks_insert s i b b' : clock_base s !! i = Some b -> (resolution b', softirq_time b', offset b') = (resolution b, softirq_time b, offset b) ->
  ∀ j, (λ b, (resolution b, softirq_time b, offset b)) <$> <[i := b']> (clock_base s) !! j = (λ b, (resolution b, softirq_time b, offset b)) <$> clock_base s !! j.
Proof.
  intros Hb He j. destruct (decide (i = j)) as [<-|]; [|by rewrite list_lookup_insert_ne]. rewrite list_lookup_insert_eq by (by apply lookup_lt_is_Some_1; eexists).
  rewrite Hb. cbn. by rewrite He.
Qed.

Lemma remove_pending s t tm n reprogram : hrtimers s !! t = Some tm -> hr_state tm = HRTIMER_STATE_PENDING ->
  remove_hrtimer_ t (hr_base tm) n reprogram s =
    Some (tt, set_timers (<[t := with_state n tm]> (hrtimers s)) (set_pending (filter (λ x, x <> t) (cb_pending s)) s)).
Proof.
  intros Htm Hst. unfold remove_hrtimer_. rewrite (bind_run _ _ _ _ _ (timer_run s t tm Htm)).
  unfold hrtimer_cb_pending. rewrite Hst. cbn [negb Z.eqb Z.land Pos.land]. erewrite bind_run by reflexivity. by rewrite (upd_timer_run _ t tm).
Qed.

Definition idle_now tm : hrtimer := if hrtimer_is_queued tm then with_state HRTIMER_STATE_INACTIVE tm else tm.

Lemma queued_cases Q P t tm : timer_ok Q P t tm -> 
  (hrtimer_is_queued tm = true ∧ enqueued tm = true ∧ hr_state tm <> HRTIMER_STATE_PENDING) ∨
  (hrtimer_is_queued tm = true ∧ hr_state tm = HRTIMER_STATE_PENDING) ∨ (hrtimer_is_queued tm = false ∧ loose tm).
Proof.
  intros Hok. pose proof (to_state _ _ _ _ Hok). unfold hrtimer_is_queued, loose, enqueued, HRTIMER_STATE_PENDING.
  assert (hr_state tm = 0 ∨ hr_state tm = 1 ∨ hr_state tm = 2 ∨ hr_state tm = 3 ∨ hr_state tm = 4) as [E|[E|[E|[E|E]]]] by lia; rewrite E; cbn; auto 6.
Qed.

(** The events of states whose first timers are the same. *)
Lemma covers_same s s' : next_covers s -> hres_active s' = hres_active s -> expires_next s' <= expires_next s ->
  (∀ j b', clock_base s' !! j = Some b' -> ∃ b, clock_base s !! j = Some b ∧ first b' = first b ∧ offset b' = offset b) ->
  (∀ x tm', hrtimers s' !! x = Some tm' -> ∃ tm, hrtimers s !! x = Some tm ∧ hr_expires tm' = hr_expires tm) -> next_covers s'.
Proof.
  intros Ha Hh He Hb Ht. intros Hres j e Hd. rewrite Hh in Hres. apply (due_same s) in Hd; [|apply Hb|done]. specialize (Ha Hres j e Hd). lia.
Qed.

Lemma insert_same_expires (m : gmap Z hrtimer) t tm tm1 : m !! t = Some tm -> hr_expires tm1 = hr_expires tm ->
  ∀ x tm', <[t := tm1]> m !! x = Some tm' -> ∃ tm, m !! x = Some tm ∧ hr_expires tm' = hr_expires tm.
Proof.
  intros Ht He x tm'. destruct (decide (x = t)) as [->|]; [rewrite lookup_insert_eq; intros [= <-]; eauto|rewrite lookup_insert_ne by done; eauto].
Qed.

(** What taking [t] off does to the event device: if [t] was the first timer of
    its clock, in high-resolution mode, the device is told the new first event. *)
Definition removed_dev Q t tm s s' : Prop :=
  if hres_active s && bool_decide (hd 0 (Q (hr_base tm)) = t) then reprogrammed s' (expires_next s') (hr_dev s) (hr_dev s')
  else expires_next s' = expires_next s ∧ hr_dev s' = hr_dev s.

Lemma removed_dev_no Q t tm s : okp t -> t ∉ Q (hr_base tm) -> ∀ s', expires_next s' = expires_next s -> hr_dev s' = hr_dev s -> removed_dev Q t tm s s'.
Proof.
  intros [Ht _] Hn s' He Hd. unfold removed_dev. rewrite bool_decide_false, andb_false_r; [done|]. destruct (Q (hr_base tm)); cbn; [lia|]. set_solver.
Qed.

Lemma remove_ok Q s t tm : hr_ok Q s -> hrtimers s !! t = Some tm ->
  ∃ s', remove_hrtimer t (hr_base tm) s = Some (Z.b2z (hrtimer_is_queued tm), s') ∧ hr_ok (without t Q) s' ∧
    hrtimers s' = <[t := idle_now tm]> (hrtimers s) ∧ loose (idle_now tm) ∧
    cb_pending s' = filter (λ x, x <> t) (cb_pending s) ∧ softirq_raised s' = softirq_raised s ∧ same_clocks s s' ∧ (next_covers s -> next_covers s') ∧ removed_dev Q t tm s s'.
Proof.
  intros Hok Htm. pose proof Hok as [HT HR]. pose proof (reg_at _ _ _ _ _ HR Htm) as Htok.
  unfold remove_hrtimer, idle_now. rewrite (bind_run _ _ _ _ _ (timer_run s t tm Htm)).
  destruct (queued_cases _ _ _ _ Htok) as [(-> & He & Hp)|[(-> & Hp)|(-> & Hl)]].
  - assert (t ∈ Q (hr_base tm)) as Hin by (by apply Htok). apply list_elem_of_split in Hin as (A & B & HQ).
    destruct (remove_queued Q s t tm A B HRTIMER_STATE_INACTIVE true Hok Htm HQ) as (b & r & e & d & Hb & Hrun & Htr & Harm).
    rewrite (bind_run _ _ _ _ _ Hrun). eexists. split; [reflexivity|]. split_and!; try done.
    + apply (hr_ok_eq (<[hr_base tm := A ++ B]> Q)); [by eapply without_split|]. split; [exact Htr|]. cbn. apply reg_delete; done.
    + cbn. rewrite filter_notin_id; [done|]. by rewrite (to_pending _ _ _ _ Htok).
    + split_and!; [done..|]. cbn. apply (same_clocks_insert s _ b); [done|]. by destruct (bool_decide _).
    + intros Ha. case_bool_decide as HA.
      { unfold rearmed in Harm. intros Hres. cbn in Hres. rewrite Hres in Harm. destruct Harm as [-> _]. intros j x. apply soonest_le.
        cbn. rewrite length_insert. by rewrite (proj1 HT). }
      destruct Harm as [-> ->]. apply (covers_same s); [done|done|cbn; lia| |by eapply insert_same_expires].
      intros j bj Hj. cbn in Hj. apply list_lookup_insert_Some in Hj as [(<- & <- & _)|[_ Hj]]; eauto.
    + unfold removed_dev. rewrite HQ. destruct A as [|y A]; cbn [app hd].
      * rewrite bool_decide_true, andb_true_r by done. rewrite bool_decide_true in Harm by done. exact Harm.
      * pose proof (reg_nodup _ _ _ HR (hr_base tm)) as Hnd. rewrite HQ in Hnd. apply NoDup_cons in Hnd as [Hn _].
        rewrite bool_decide_false, andb_false_r by set_solver. by rewrite bool_decide_false in Harm by done.
  - assert (∀ j, t ∉ Q j) as HnQ.
    { intros j Hj. apply (to_queue _ _ _ _ Htok) in Hj as [_ He]. unfold enqueued in He. by rewrite Hp in He. }
    rewrite (bind_run _ _ _ _ _ (remove_pending s t tm _ true Htm Hp)). eexists. split; [reflexivity|]. split_and!; try done.
    + apply (hr_ok_eq Q); [intros j; unfold without; by rewrite filter_notin_id|]. split; [exact HT|]. cbn. by apply reg_unpend.
    + intros Ha. apply (covers_same s); [done|done|cbn; lia|cbn; eauto|by eapply insert_same_expires].
    + apply removed_dev_no; [apply Htok|apply HnQ|done..].
  - destruct (loose_spec _ _ _ _ _ HR Htm Hl) as [HnQ HnP]. exists s. rewrite insert_id, filter_notin_id by done. split_and!; try done; [|by apply removed_dev_no; [apply Htok|..]].
    apply (hr_ok_eq Q); [intros j; unfold without; by rewrite filter_notin_id|done].
Qed.
End Remove.

(** ** Starting *)

(** The functions of timers that run in interrupt context hold the lock: they
    may change the expiry time of their timer and the rest of the system, not
    the queues.  [eff t c e d] is what the function of [t], of mode [c] and expiring at [e], does:
    its result, the new expiry time and the new system. *)
Class LockedCalls (call : Z -> Sf hrs hrtimer_restart) (eff : Z -> hrtimer_cb_mode -> Z -> D -> hrtimer_restart * Z * D) : Prop := {
  calls_locked t s tm : hrtimers s !! t = Some tm -> cb_mode tm <> HRTIMER_CB_SOFTIRQ ->
    call t s = Some ((eff t (cb_mode tm) (hr_expires tm) (hr_dev s)).1.1,
      set_hr_dev (eff t (cb_mode tm) (hr_expires tm) (hr_dev s)).2
        (set_timers (<[t := with_expires (eff t (cb_mode tm) (hr_expires tm) (hr_dev s)).1.2 tm]> (hrtimers s)) s));
  calls_no_restart t s tm : hrtimers s !! t = Some tm -> cb_mode tm = HRTIMER_CB_IRQSAFE_NO_RESTART ->
    (eff t (cb_mode tm) (hr_expires tm) (hr_dev s)).1.1 = HRTIMER_NORESTART;
}.

Section Start.
Context `{!TickDevOk D} (call : Z -> Sf hrs hrtimer_restart) (eff : Z -> hrtimer_cb_mode -> Z -> D -> hrtimer_restart * Z * D) `{HL : !LockedCalls call eff}.

Lemma is_err_neg r : - MAX_ERRNO <= r < 0 -> IS_ERR_VALUE r = true.
Proof.
  unfold MAX_ERRNO, IS_ERR_VALUE. intros Hr. apply Z.leb_le. unfold u32, wrap, MAX_ERRNO. replace (- (4095) mod 2 ^ 32) with (2 ^ 32 - 4095) by done.
  rewrite <- (Z.mod_add r 1), Z.mod_small by lia. lia.
Qed.

(** The event at [x] of a timer that comes first is to be programmed: nothing
    earlier is, and the function of the timer is not running. *)
Definition first_event s tm (x : Z) : bool := hres_active s && negb (hrtimer_callback_running tm) && (x <? expires_next s).

(** The device takes the event and becomes [d], expires_next becomes [e]; or the
    event is not asked for. *)
Definition accepted s tm (x e : Z) (d : D) : Prop :=
  if first_event s tm x then e = x ∧ tick_program_event x false (hr_dev s) = Some (0, d) else e = expires_next s ∧ d = hr_dev s.

(** The device refuses the event and becomes [d]. *)
Definition refused s tm (x : Z) (d : D) : Prop :=
  first_event s tm x = true ∧ ∃ c, c <> 0 ∧ tick_program_event x false (hr_dev s) = Some (c, d).

Lemma reprogram_run s t tm i b : hrtimers s !! t = Some tm -> clock_base s !! i = Some b ->
  let x := ktime_sub (hr_expires tm) (offset b) in
  ∃ r e d, hrtimer_reprogram t i s = Some (r, set_expires_next e (set_hr_dev d s)) ∧
    if negb (hrtimer_callback_running tm) && (x <? expires_next s)
    then tick_program_event x false (hr_dev s) = Some (r, d) ∧ e = (if r =? 0 then x else expires_next s)
    else r = 0 ∧ e = expires_next s ∧ d = hr_dev s.
Proof.
  intros Htm Hb x. unfold hrtimer_reprogram. rewrite (bind_run _ _ _ _ _ (timer_run s t tm Htm)), (bind_run _ _ _ _ _ (base_run s i b Hb)).
  erewrite bind_run by reflexivity. fold x. assert (set_expires_next (expires_next s) (set_hr_dev (hr_dev s) s) = s) as Hid by (by destruct s).
  destruct (hrtimer_callback_running tm); [exists 0, (expires_next s), (hr_dev s); by rewrite Hid|]. cbn [negb andb].
  rewrite (Z.ltb_antisym (expires_next s) x). destruct (expires_next s <=? x); [exists 0, (expires_next s), (hr_dev s); by rewrite Hid|]. cbn [negb].
  destruct (program_runs x false (hr_dev s)) as (r & d & Hp & Hr).
  rewrite (bind_run _ _ s r (set_hr_dev d s)) by (unfold on_dev; by rewrite Hp). destruct Hr as [->|Hr].
  - exists 0, x, d. split; [by destruct s|done].
  - exists r, (expires_next s), d. rewrite (is_err_neg r Hr). split; [by destruct s|]. destruct (Z.eqb_spec r 0) as [?|Hne]; [lia|done].
Qed.

Lemma reprogram_outcome s t tm i b : hres_active s = true -> hrtimers s !! t = Some tm -> clock_base s !! i = Some b ->
  let x := ktime_sub (hr_expires tm) (offset b) in
  ∃ r e d, hrtimer_reprogram t i s = Some (r, set_expires_next e (set_hr_dev d s)) ∧
    if r =? 0 then accepted s tm x e d else e = expires_next s ∧ refused s tm x d.
Proof.
  intros Hres Htm Hb x. destruct (reprogram_run s t tm i b Htm Hb) as (r & e & d & Hrun & Hr). fold x in Hr. exists r, e, d. split; [done|].
  unfold accepted, refused, first_event. rewrite Hres. cbn [andb]. destruct (negb _ && _); [|by destruct Hr as [-> ?]].
  destruct Hr as [Hp ->]. destruct (Z.eqb_spec r 0) as [->|Hne]; [done|]. split_and!; [done..|by exists r].
Qed.

(** What becomes of a timer that turns out to have expired, when the device has
    become [d]. *)
Definition handled t tm (P : list Z) (m : gmap Z hrtimer) (d : D) s' : Prop :=
  match cb_mode tm with
  | HRTIMER_CB_SOFTIRQ | HRTIMER_CB_IRQSAFE => cb_pending s' = P ++ [t] ∧ softirq_raised s' = true ∧ hr_dev s' = d ∧
      hrtimers s' = <[t := with_state HRTIMER_STATE_PENDING tm]> m
  | HRTIMER_CB_IRQSAFE_NO_RESTART => cb_pending s' = P ∧ hr_dev s' = (eff t (cb_mode tm) (hr_expires tm) d).2 ∧
      hrtimers s' = <[t := with_expires (eff t (cb_mode tm) (hr_expires tm) d).1.2 tm]> m
  | HRTIMER_CB_IRQSAFE_NO_SOFTIRQ => cb_pending s' = P ∧ hr_dev s' = d ∧ hrtimers s' = m
  end.

(** Only the timer itself changes. *)
Lemma handled_timer t tm P m d s' : m !! t = Some tm -> handled t tm P m d s' ->
  (∀ x, t <> x -> hrtimers s' !! x = m !! x) ∧ ∃ tm', hrtimers s' !! t = Some tm' ∧
    (hr_state tm' = hr_state tm ∧ cb_pending s' = P ∨ hr_state tm' = HRTIMER_STATE_PENDING ∧ cb_pending s' = P ++ [t]).
Proof.
  intros Htm Hh. unfold handled in Hh. destruct (cb_mode tm);
    [destruct Hh as (HP & _ & _ & ->)|destruct Hh as (HP & _ & _ & ->)|destruct Hh as (HP & _ & ->)|destruct Hh as (HP & _ & ->)];
    (split; [intros x Hx; by rewrite ?lookup_insert_ne|]); (eexists; split; [first [apply lookup_insert_eq|exact Htm]|]); cbn; auto.
Qed.

Lemma enqueue_reprogram_ok Q s t tm i b : hr_ok Q s -> hrtimers s !! t = Some tm -> loose tm -> clock_base s !! i = Some b ->
  let x := ktime_sub (hr_expires tm) (offset b) in
  ∃ r s', hrtimer_enqueue_reprogram call t i s = Some (r, s') ∧ clock_base s' = clock_base s ∧ hr_ok Q s' ∧ hres_active s' = hres_active s ∧ nr_events s' = nr_events s ∧
    if (r : bool) then expires_next s' = expires_next s ∧ ∃ d, refused s tm x d ∧ handled t tm (cb_pending s) (hrtimers s) d s'
    else ∃ e d, s' = set_expires_next e (set_hr_dev d s) ∧ accepted s tm x e d.
Proof.
  intros Hok Htm Hl Hb x. pose proof Hok as [HT HR]. pose proof (reg_at _ _ _ _ _ HR Htm) as Htok. unfold hrtimer_enqueue_reprogram. erewrite bind_run by reflexivity.
  destruct (hres_active s) eqn:Hres.
  2:{ exists false, s. erewrite bind_run by reflexivity. split_and!; try done. exists (expires_next s), (hr_dev s). unfold accepted, first_event. rewrite Hres. by destruct s. }
  destruct (reprogram_outcome s t tm i b Hres Htm Hb) as (r & e & d & Hrun & Hr). rewrite (bind_run _ _ _ _ _ Hrun). fold x in Hr.
  set (s1 := set_expires_next e (set_hr_dev d s)) in *. assert (hr_ok Q s1) as Hok1 by (by eapply hr_ok_ext).
  destruct (r =? 0); [exists false, s1; split_and!; try done; by exists e, d|]. destruct Hr as [-> Href].
  rewrite (bind_run _ _ _ _ _ (timer_run s1 t tm Htm)).
  assert (∀ s2, hr_ok Q s2 -> clock_base s2 = clock_base s -> hres_active s2 = true -> nr_events s2 = nr_events s -> expires_next s2 = expires_next s ->
    handled t tm (cb_pending s) (hrtimers s) d s2 -> ∃ (r : bool) s', Some (true, s2) = Some (r, s') ∧ clock_base s' = clock_base s ∧ hr_ok Q s' ∧ hres_active s' = true ∧ nr_events s' = nr_events s ∧
      if r then expires_next s' = expires_next s ∧ ∃ d, refused s tm x d ∧ handled t tm (cb_pending s) (hrtimers s) d s'
      else ∃ e d, s' = set_expires_next e (set_hr_dev d s) ∧ accepted s tm x e d) as Hend.
  { intros s2 ? ? ? ? He ?. exists true, s2. split_and!; try done. by exists d. }
  destruct (cb_mode tm) eqn:Hmode.
  1,2: erewrite bind_run by reflexivity; rewrite (bind_run _ _ _ _ _ (upd_timer_run (set_pending (cb_pending s1 ++ [t]) s1) t tm _ Htm)); erewrite bind_run by reflexivity;
       apply Hend; try done; [split; [exact HT|]; cbn; by apply reg_pend|unfold handled; by rewrite Hmode].
  - pose proof (calls_locked t s1 tm Htm ltac:(congruence)) as Hcall. rewrite (bind_run _ _ _ _ _ Hcall).
    rewrite (calls_no_restart t s1 tm Htm Hmode), bool_decide_false by (intros Hc; by apply Hc). apply Hend; try done.
    + split; [exact HT|]. cbn. eapply (reg_loose Q _ _ t tm); try done; apply Htok.
    + unfold handled. by rewrite Hmode.
  - apply Hend; try done. unfold handled. by rewrite Hmode.
Qed.

(** Where a timer that expires at [e] belongs in a queue. *)
Definition place m e (l A B : list Z) : Prop := l = A ++ B ∧ (∀ x, x ∈ A -> key m x <= e) ∧ (∀ x, x ∈ B -> e < key m x).

Lemma due_first s i b t tm : clock_base s !! i = Some b -> first b = t -> t <> 0 -> hrtimers s !! t = Some tm ->
  due s i = Some (ktime_sub (hr_expires tm) (offset b)).
Proof. intros Hb Hf Ht Htm. unfold due. rewrite Hb. cbn. rewrite Hf. destruct (Z.eqb_spec t 0); [done|]. by rewrite Htm. Qed.

(** Linking [t] keeps expires_next early enough if it is so for [t] when [t] comes first. *)
Lemma linked_covers s t tm r b (leftmost : bool) : hrtimers s !! t = Some tm -> clock_base s !! hr_base tm = Some b -> okp t -> next_covers s ->
  (leftmost = true -> hres_active s = true -> expires_next s <= ktime_sub (hr_expires tm) (offset b)) ->
  next_covers (linked t tm r (if leftmost then with_first t b else b) s).
Proof.
  intros Htm Hb Ht Ha Hx. destruct leftmost.
  - intros Hres j e Hd. destruct (decide (j = hr_base tm)) as [->|Hne].
    + rewrite (due_first _ _ (with_root (root_node r) (with_first t b)) t (with_state (Z.lor (hr_state tm) HRTIMER_STATE_ENQUEUED) tm)) in Hd.
      * injection Hd as <-. by apply Hx.
      * cbn. apply list_lookup_insert_eq. by apply lookup_lt_is_Some_1; eexists.
      * done.
      * destruct Ht. lia.
      * cbn. apply lookup_insert_eq.
    + apply (Ha Hres j). revert Hd. apply due_same; [|by eapply insert_same_expires]. cbn. rewrite list_lookup_insert_ne by done. eauto.
  - apply (covers_same s); [done|done|cbn; lia| |by eapply insert_same_expires].
    intros j bj Hj. cbn in Hj. apply list_lookup_insert_Some in Hj as [(<- & <- & _)|[_ Hj]]; eauto.
Qed.

(** A timer on no queue does not count. *)
Lemma due_loose Q s s' t tm j : hr_ok Q s -> hrtimers s !! t = Some tm -> loose tm -> clock_base s' = clock_base s ->
  (∀ x, t <> x -> hrtimers s' !! x = hrtimers s !! x) -> due s' j = due s j.
Proof.
  intros [[_ HT] HR] Htm Hl Hb Ht. destruct (loose_spec _ _ _ _ _ HR Htm Hl) as [HnQ _]. unfold due. rewrite Hb.
  destruct (clock_base s !! j) as [b|] eqn:Hj; [|done]. cbn. destruct (Z.eqb_spec (first b) 0) as [|Hne]; [done|].
  destruct (HT j b Hj) as [_ Hf]. rewrite Ht; [done|]. intros Heq. apply (HnQ j). destruct (Q j); [by rewrite Hf in Hne|]. cbn in Hf. rewrite Heq, Hf. by left.
Qed.

(** The time of an expiry on the clock of [tm], on the monotonic clock. *)
Definition event_at s tm e : Z := ktime_sub e (from_option offset 0 (clock_base s !! hr_base tm)).

(** The device after [t] is put behind [A], of [s'], with its event at [x]. *)
Definition enqueued_dev s tm x (reprogram : bool) (A : list Z) s' : Prop :=
  if reprogram && bool_decide (A = []) then accepted s tm x (expires_next s') (hr_dev s')
  else expires_next s' = expires_next s ∧ hr_dev s' = hr_dev s.

Lemma accepted_le s tm x e d : accepted s tm x e d -> e <= expires_next s ∧ (hres_active s = true -> hrtimer_callback_running tm = false -> e <= x).
Proof.
  unfold accepted, first_event. destruct (hres_active s), (hrtimer_callback_running tm); cbn; try (intros [-> _]; split; done || lia).
  destruct (Z.ltb_spec x (expires_next s)); intros [-> _]; split; lia || (intros; lia).
Qed.

Lemma enqueue_ok Q s t tm reprogram : hr_ok Q s -> hrtimers s !! t = Some tm -> loose tm ->
  let x := event_at s tm (hr_expires tm) in
  ∃ s', enqueue_hrtimer call t (hr_base tm) reprogram s = Some (tt, s') ∧ same_clocks s s' ∧
    (reprogram = true -> hrtimer_callback_running tm = false -> next_covers s -> next_covers s') ∧
    ((∃ A B, place (hrtimers s) (hr_expires tm) (Q (hr_base tm)) A B ∧ hr_ok (<[hr_base tm := A ++ t :: B]> Q) s' ∧
        hrtimers s' = <[t := with_state (Z.lor (hr_state tm) HRTIMER_STATE_ENQUEUED) tm]> (hrtimers s) ∧
        cb_pending s' = cb_pending s ∧ softirq_raised s' = softirq_raised s ∧ enqueued_dev s tm x reprogram A s') ∨
     (reprogram = true ∧ (∀ y, y ∈ Q (hr_base tm) -> hr_expires tm < key (hrtimers s) y) ∧ hr_ok Q s' ∧ expires_next s' = expires_next s ∧
        ∃ d, refused s tm x d ∧ handled t tm (cb_pending s) (hrtimers s) d s')).
Proof.
  intros Hok Htm Hl x. pose proof Hok as [HT HR]. pose proof (reg_at _ _ _ _ _ HR Htm) as Htok. set (i := hr_base tm).
  destruct (trees_base Q s i HT (to_base _ _ _ _ Htok)) as (b & Hb & _). assert (x = ktime_sub (hr_expires tm) (offset b)) as Hx0 by (unfold x, event_at; fold i; by rewrite Hb).
  destruct (place_ok Q s i b (hr_expires tm) Hok Hb) as (T & N & k & HRep & Hrb & Hi & Hk & Hfind & HA & HB).
  unfold enqueue_hrtimer. rewrite (bind_run _ _ _ _ _ (timer_run s t tm Htm)), (bind_run _ _ _ _ _ Hfind).
  assert (∀ s1, hr_ok Q s1 -> nodes s1 = nodes s -> hrtimers s1 = hrtimers s -> clock_base s1 = clock_base s ->
    ∃ r, let b' := if bool_decide (before k = []) then with_first t b else b in
    enqueue_tail t i (par k) (link_of k) (bool_decide (before k = [])) s1 = Some (tt, linked t tm r b' s1) ∧
    Q i = before k ++ after k ∧ hr_ok (<[i := before k ++ t :: after k]> Q) (linked t tm r b' s1)) as Htail.
  { intros s1 Hok1 Hn1 Ht1 Hb1. apply (enqueue_tail_ok Q s1 t tm b T N k); try done; [by rewrite Ht1|by rewrite Hb1| |by rewrite Ht1|by rewrite Ht1].
    unfold tree_of. by rewrite Hn1. }
  assert (∀ s1 r b', (b' = with_first t b ∨ b' = b) -> clock_base s1 = clock_base s -> hres_active s1 = hres_active s -> nr_events s1 = nr_events s ->
    same_clocks s (linked t tm r b' s1)) as Hclk.
  { intros s1 r b' Hb' Hb1 Hh1 Hn1. split_and!; [done..|]. cbn. rewrite Hb1. apply (same_clocks_insert s _ b); [done|]. by destruct Hb' as [->| ->]. }
  destruct (Htail s Hok eq_refl eq_refl eq_refl) as (r & Hrun & HQ & Hok').
  case_bool_decide as Hbk; cycle 1.
  { erewrite bind_run by reflexivity. cbv iota beta. exists (linked t tm r b s). split_and!; [|by apply Hclk; auto| |].
    - unfold enqueue_tail in Hrun. by erewrite bind_run in Hrun by reflexivity.
    - intros _ _ Ha. by apply (linked_covers s t tm r b false); [done..|apply Htok|done|].
    - left. exists (before k), (after k). split_and!; try done. unfold enqueued_dev. by rewrite (bool_decide_false (before k = [])), andb_false_r by done. }
  destruct reprogram; cycle 1.
  { erewrite bind_run by (erewrite bind_run by reflexivity; cbv iota; by rewrite (bind_run _ _ _ _ _ (upd_base_run s i b _ Hb))). cbv iota beta.
    exists (linked t tm r (with_first t b) s). split_and!; [|by apply Hclk; auto|done|left; by exists (before k), (after k)].
    unfold enqueue_tail in Hrun. cbn [fwhen] in Hrun. by rewrite (bind_run _ _ _ _ _ (upd_base_run s i b _ Hb)) in Hrun. }
  destruct (enqueue_reprogram_ok Q s t tm i b Hok Htm Hl Hb) as (r1 & s1 & Hrun1 & Hb1 & Hok1 & Hh1 & Hn1 & Hr1). rewrite <- Hx0 in Hr1.
  destruct r1.
  - destruct Hr1 as (He & d & Href & Hhand). erewrite bind_run by (rewrite (bind_run _ _ _ _ _ Hrun1); reflexivity). cbv iota beta.
    exists s1. split_and!; [done|split_and!; [done..|intros j; by rewrite Hb1]| |].
    + intros _ _ Ha Hres1 j y Hd. rewrite He. apply (Ha ltac:(by rewrite <- Hh1) j). rewrite <- Hd. symmetry. eapply due_loose; [done|done|done|done|].
      by eapply handled_timer.
    + right. split_and!; try done; [|by exists d]. intros y Hy. apply HB. fold i in Hy. rewrite HQ, Hbk in Hy. exact Hy.
  - destruct Hr1 as (e & d & Hs1 & Hacc). destruct (accepted_le _ _ _ _ _ Hacc) as [Hle Hx]. destruct (Htail s1) as (r' & Hrun' & _ & Hok2); [done|by rewrite Hs1..|].
    erewrite bind_run by (rewrite (bind_run _ _ _ _ _ Hrun1); cbv iota; by rewrite (bind_run _ _ _ _ _ (upd_base_run s1 i b _ ltac:(by rewrite Hb1)))).
    cbv iota beta. exists (linked t tm r' (with_first t b) s1). split_and!; [|by apply Hclk; auto| |].
    + unfold enqueue_tail in Hrun'. cbn [fwhen] in Hrun'. by rewrite (bind_run _ _ _ _ _ (upd_base_run s1 i b _ ltac:(by rewrite Hb1))) in Hrun'.
    + intros _ Hcb Ha. apply (linked_covers s1 t tm r' b true); [by rewrite Hs1|by rewrite Hb1|apply Htok| |].
      * apply (covers_same s); [done|done|by rewrite Hs1|rewrite Hb1; eauto|rewrite Hs1; eauto].
      * intros _ Hres. rewrite Hs1, <- Hx0. cbn. apply Hx; [by rewrite <- Hh1|done].
    + left. exists (before k), (after k). split_and!; try done; try by rewrite Hs1.
      unfold enqueued_dev. rewrite bool_decide_true by done. cbn [andb]. by rewrite Hs1.
Qed.

(** *** hrtimer_start *)

(** The clock of base [i] shows [now]; reading it makes [d'] of [d]. *)
Definition clock_shows i (d : D) (now : Z) (d' : D) : Prop :=
  (if bool_decide (i = CLOCK_REALTIME) then ktime_get_real else ktime_get) d = Some (now, d').

(** The expiry time asked for: absolute, or from now on, cut at the end of time. *)
Definition expiry i (mode : hrtimer_mode) (tim : Z) (d : D) (e : Z) (d' : D) : Prop :=
  match mode with
  | HRTIMER_MODE_ABS => e = tim ∧ d' = d
  | HRTIMER_MODE_REL => ∃ now, clock_shows i d now d' ∧ e = let x := ktime_add tim now in if x <? 0 then KTIME_MAX else x
  end.

Lemma get_time_run s i : ∃ now d, get_time i s = Some (now, set_hr_dev d s) ∧ clock_shows i (hr_dev s) now d.
Proof.
  unfold get_time, on_dev, clock_shows. destruct (bool_decide _); [destruct (get_real_runs (hr_dev s)) as (v & d & Hr)|destruct (get_runs (hr_dev s)) as (v & d & Hr)];
    exists v, d; by rewrite Hr.
Qed.

Lemma start_time_run s i tim mode : ∃ e d,
  (match mode with
   | HRTIMER_MODE_REL => now ← get_time i; let tim := ktime_add tim now in mret (if tim <? 0 then KTIME_MAX else tim)
   | HRTIMER_MODE_ABS => mret tim
   end : Sf hrs Z) s = Some (e, set_hr_dev d s) ∧ expiry i mode tim (hr_dev s) e d.
Proof.
  destruct mode; [exists tim, (hr_dev s); by destruct s|]. destruct (get_time_run s i) as (now & d & Hrun & Hnow).
  exists (if ktime_add tim now <? 0 then KTIME_MAX else ktime_add tim now), d. rewrite (bind_run _ _ _ _ _ Hrun). split; [done|]. by exists now.
Qed.

(** [t] set to expire at [e], off the queues. *)
Definition set_to e tm : hrtimer := with_expires e (idle_now tm).

Lemma without_notin t Q j : t ∉ without t Q j.
Proof. unfold without. rewrite list_elem_of_filter. tauto. Qed.

Lemma set_to_running e tm : hrtimer_callback_running tm = false -> hrtimer_callback_running (set_to e tm) = false.
Proof. unfold set_to, idle_now. by destruct (hrtimer_is_queued tm). Qed.

Lemma set_to_base e tm : hr_base (set_to e tm) = hr_base tm.
Proof. unfold set_to, idle_now. by destruct (hrtimer_is_queued tm). Qed.

(** A timer off the queues is set to expire at [e]. *)
Lemma set_to_ok Q s t tm e d : hr_ok Q s -> hrtimers s !! t = Some (idle_now tm) -> loose (idle_now tm) ->
  hr_ok Q (set_timers (<[t := set_to e tm]> (hrtimers s)) (set_hr_dev d s)).
Proof.
  intros [HT HR] Htm Hl. split; [apply HT|]. cbn. pose proof (reg_at _ _ _ _ _ HR Htm) as Htok. eapply reg_loose; try done; apply Htok.
Qed.

Lemma event_at_same s s' tm e : same_clocks s s' -> event_at s' tm e = event_at s tm e.
Proof.
  intros (_ & _ & Hc). unfold event_at. specialize (Hc (hr_base tm)).
  destruct (clock_base s' !! hr_base tm), (clock_base s !! hr_base tm); try done. injection Hc as _ _ Hc. cbn. by rewrite Hc.
Qed.

Lemma start_ok Q s t tm tim mode : hr_ok Q s -> hrtimers s !! t = Some tm ->
  ∃ s1 e d s', let tm1 := set_to e tm in let P := filter (λ x, x <> t) (cb_pending s) in let x := event_at s tm e in let s2 := set_hr_dev d s1 in
    remove_hrtimer t (hr_base tm) s = Some (Z.b2z (hrtimer_is_queued tm), s1) ∧ hr_ok (without t Q) s1 ∧ removed_dev Q t tm s s1 ∧
    expiry (hr_base tm) mode tim (hr_dev s1) e d ∧
    hrtimer_start call t tim mode s = Some (Z.b2z (hrtimer_is_queued tm), s') ∧ same_clocks s s' ∧
    (hrtimer_callback_running tm = false -> next_covers s -> next_covers s') ∧
    ((∃ A B, place (hrtimers s) e (without t Q (hr_base tm)) A B ∧ hr_ok (<[hr_base tm := A ++ t :: B]> (without t Q)) s' ∧
        hrtimers s' = <[t := with_state (Z.lor (hr_state tm1) HRTIMER_STATE_ENQUEUED) tm1]> (hrtimers s) ∧ cb_pending s' = P ∧
        softirq_raised s' = softirq_raised s ∧ enqueued_dev s2 tm1 x true A s') ∨
     ((∀ y, y ∈ without t Q (hr_base tm) -> e < key (hrtimers s) y) ∧ hr_ok (without t Q) s' ∧ expires_next s' = expires_next s1 ∧
        ∃ d1, refused s2 tm1 x d1 ∧ handled t tm1 P (<[t := tm1]> (hrtimers s)) d1 s')).
Proof.
  intros Hok Htm. unfold hrtimer_start. rewrite (bind_run _ _ _ _ _ (timer_run s t tm Htm)). cbv zeta.
  destruct (remove_ok Q s t tm Hok Htm) as (s1 & Hrun1 & Hok1 & Ht1 & Hl1 & HP1 & Hr1 & Hc1 & Ha1 & Hd1). rewrite (bind_run _ _ _ _ _ Hrun1).
  destruct (start_time_run s1 (hr_base tm) tim mode) as (e & d & Hrun2 & He). rewrite (bind_run _ _ _ _ _ Hrun2).
  assert (hrtimers s1 !! t = Some (idle_now tm)) as Htm1 by (rewrite Ht1; apply lookup_insert_eq).
  set (s2 := set_hr_dev d s1). rewrite (bind_run _ _ _ _ _ (upd_timer_run s2 t (idle_now tm) _ Htm1)). set (tm1 := set_to e tm).
  change (with_expires e (idle_now tm)) with tm1. set (s3 := set_timers (<[t := tm1]> (hrtimers s2)) s2). assert (hr_base tm1 = hr_base tm) as Hbase by apply set_to_base.
  assert (loose tm1) as Hl by done. assert (hr_ok (without t Q) s3) as Hok3 by exact (set_to_ok _ s1 t tm e d Hok1 Htm1 Hl1).
  assert (hrtimers s3 = <[t := tm1]> (hrtimers s)) as Ht3 by (cbn; rewrite Ht1; apply insert_insert_eq).
  assert (hrtimers s3 !! t = Some tm1) as Htm3 by (rewrite Ht3; apply lookup_insert_eq).
  assert (∀ j x, x ∈ without t Q j -> key (hrtimers s3) x = key (hrtimers s) x) as Hkey.
  { intros j x Hx. rewrite Ht3. apply key_insert_ne. intros ->. by apply without_notin in Hx. }
  destruct (enqueue_ok (without t Q) s3 t tm1 true Hok3 Htm3 Hl) as (s4 & Hrun4 & Hc4 & Ha4 & Hcase). rewrite Hbase in Hrun4, Hcase.
  assert (event_at s3 tm1 (hr_expires tm1) = event_at s tm e) as Hx.
  { transitivity (event_at s1 tm e); [unfold event_at; by rewrite Hbase|by apply event_at_same]. }
  rewrite Hx in Hcase. exists s1, e, d, s4. rewrite (bind_run _ _ _ _ _ Hrun4). split_and!; [done..|by transitivity s1| |].
  - intros Hcb Ha. apply Ha4; [done|by apply set_to_running|]. intros Hres j x Hd.
    apply (Ha1 Ha Hres j). rewrite <- Hd. symmetry. eapply (due_loose _ s1 s3 t); [done|done|done|done|]. intros y Hy. cbn. by apply lookup_insert_ne.
  - destruct Hcase as [(A & B & (HQ & HA & HB) & Hok4 & Ht4 & HP4 & Hr4 & Hd4)|(_ & Hlt & Hok4 & He4 & d1 & Href & Hh)]; [left|right].
    + exists A, B. split_and!; [|done| |by rewrite HP4, <- HP1|by rewrite Hr4, <- Hr1|exact Hd4].
      * split_and!; [done| |]; intros x Hin; [rewrite <- (Hkey (hr_base tm)) by (rewrite HQ; set_solver); by apply HA|].
        rewrite <- (Hkey (hr_base tm)) by (rewrite HQ; set_solver). by apply HB.
      * by rewrite Ht4, Ht3, insert_insert_eq.
    + split_and!; [|done|done|]; [intros x Hin; rewrite <- (Hkey _ _ Hin); by apply Hlt|]. exists d1. split; [exact Href|].
      change (cb_pending s3) with (cb_pending s1) in Hh. rewrite Ht3, HP1 in Hh. exact Hh.
Qed.

(** ** Expiry in the interrupt *)

(** What the expiry of one timer leaves alone. *)
Definition step_frame s s' : Prop := same_clocks s s' ∧ expires_next s' = expires_next s ∧ softirq_raised s' = softirq_raised s.

#[export] Instance step_frame_preorder : PreOrder step_frame.
Proof.
  split; [by intros s; split_and!|]. intros s1 s2 s3 (A1 & B1 & C1) (A2 & B2 & C2). split_and!; [by transitivity s2|congruence..].
Qed.

(** The state word is cleared of CALLBACK. *)
Lemma clr_callback_ok Q s t tm : hr_ok Q s -> hrtimers s !! t = Some tm ->
  hr_ok Q (set_timers (<[t := with_state (clr (hr_state tm) HRTIMER_STATE_CALLBACK) tm]> (hrtimers s)) s).
Proof.
  intros [HT HR] Htm. split; [exact HT|]. cbn. pose proof (to_state _ _ _ _ (reg_at _ _ _ _ _ HR Htm)) as Hst.
  unfold HRTIMER_STATE_CALLBACK. apply reg_state; [done|done|..]; unfold enqueued, HRTIMER_STATE_PENDING;
    (assert (hr_state tm = 0 ∨ hr_state tm = 1 ∨ hr_state tm = 2 ∨ hr_state tm = 3 ∨ hr_state tm = 4) as [E|[E|[E|[E|E]]]] by lia; rewrite E; by vm_compute).
Qed.

(** The first timer of a queue is taken off. *)
Lemma take_first Q s t tm (rest : list Z) n : hr_ok Q s -> hrtimers s !! t = Some tm -> Q (hr_base tm) = t :: rest ->
  ∃ s', remove_hrtimer_ t (hr_base tm) n false s = Some (tt, s') ∧ trees (<[hr_base tm := rest]> Q) s' ∧ step_frame s s' ∧
    hrtimers s' = <[t := with_state n tm]> (hrtimers s) ∧ cb_pending s' = cb_pending s ∧ hr_dev s' = hr_dev s.
Proof.
  intros Hok Htm HQ. destruct (remove_queued Q s t tm [] rest n false Hok Htm HQ) as (b & r & e & d & Hb & Hrun & Htr & [-> ->]).
  eexists. split; [exact Hrun|]. split_and!; try done. split; [|done]. split_and!; [done..|]. cbn. by apply (same_clocks_insert s _ b).
Qed.

Lemma irqsafe_ok Q s t tm (rest : list Z) : hr_ok Q s -> hrtimers s !! t = Some tm -> Q (hr_base tm) = t :: rest -> cb_mode tm <> HRTIMER_CB_SOFTIRQ ->
  let '(r, e, d) := eff t (cb_mode tm) (hr_expires tm) (hr_dev s) in
  ∃ s' n l, run_irqsafe call t (hr_base tm) s = Some (tt, s') ∧ step_frame s s' ∧ cb_pending s' = cb_pending s ∧ hr_dev s' = d ∧
    hrtimers s' = <[t := with_state n (with_expires e tm)]> (hrtimers s) ∧ hr_ok (<[hr_base tm := l]> Q) s' ∧
    (if decide (r = HRTIMER_NORESTART) then l = rest else ∃ A B, place (hrtimers s) e rest A B ∧ l = A ++ t :: B).
Proof.
  intros Hok Htm HQ Hmode. destruct (eff t (cb_mode tm) (hr_expires tm) (hr_dev s)) as [[r e] d] eqn:Heff.
  destruct (take_first Q s t tm rest HRTIMER_STATE_CALLBACK Hok Htm HQ) as (s1 & Hrun1 & Htr1 & Hf1 & Ht1 & HP1 & Hd1). pose proof Hok as [_ HR].
  unfold run_irqsafe. rewrite (bind_run _ _ _ _ _ Hrun1). set (tm1 := with_state HRTIMER_STATE_CALLBACK tm) in *. set (i := hr_base tm) in *.
  assert (hr_ok (<[i := rest]> Q) s1) as Hok1 by (split; [done|]; rewrite HP1, Ht1; by apply (reg_delete Q _ _ t tm [] rest)).
  assert (hrtimers s1 !! t = Some tm1) as Htm1 by (rewrite Ht1; apply lookup_insert_eq).
  pose proof (calls_locked t s1 tm1 Htm1 Hmode) as Hcall. change (hr_expires tm1) with (hr_expires tm) in Hcall. change (cb_mode tm1) with (cb_mode tm) in Hcall. rewrite Hd1, Heff in Hcall. cbn [fst snd] in Hcall.
  rewrite (bind_run _ _ _ _ _ Hcall). set (tm2 := with_expires e tm1). fold tm2 in Hcall. set (s2 := set_hr_dev d (set_timers (<[t := tm2]> (hrtimers s1)) s1)).
  assert (hr_ok (<[i := rest]> Q) s2) as Hok2.
  { split; [apply Hok1|]. cbn. destruct Hok1 as [_ HR1]. eapply reg_loose; try done. apply (reg_at _ _ _ _ _ HR1 Htm1). }
  assert (hrtimers s2 = <[t := tm2]> (hrtimers s)) as Ht2 by (cbn; rewrite Ht1; apply insert_insert_eq).
  assert (hrtimers s2 !! t = Some tm2) as Htm2 by (rewrite Ht2; apply lookup_insert_eq).
  destruct (decide (r = HRTIMER_NORESTART)) as [->|Hr].
  - rewrite bool_decide_false by (intros Hc; by apply Hc). cbn [fwhen]. erewrite bind_run by reflexivity. rewrite (upd_timer_run s2 t tm2) by done.
    eexists _, _, rest. split; [reflexivity|]. split_and!; [by transitivity s1|by cbn|done| |by apply clr_callback_ok|done].
    cbn. rewrite Ht1, !insert_insert_eq. reflexivity.
  - rewrite bool_decide_true by done. cbn [fwhen].
    destruct (enqueue_ok (<[i := rest]> Q) s2 t tm2 false Hok2 Htm2 ltac:(done)) as (s3 & Hrun3 & Hc3 & _ & [(A & B & Hpl & Hok3 & Ht3 & HP3 & Hr3 & Hd3)|(? & _)]); [|done].
    destruct Hd3 as [He3 Hd3']. change (hr_base tm2) with i in *. rewrite fn_lookup_insert in Hpl.
    rewrite (bind_run _ _ s2 tt s3) by (rewrite (bind_run _ _ _ _ _ (timer_run s2 t tm2 Htm2)); exact Hrun3).
    rewrite (upd_timer_run s3 t (with_state (Z.lor HRTIMER_STATE_CALLBACK HRTIMER_STATE_ENQUEUED) tm2)) by (rewrite Ht3; apply lookup_insert_eq).
    eexists _, _, (A ++ t :: B). split; [reflexivity|]. split_and!.
    + etransitivity; [exact Hf1|]. by split_and!.
    + by cbn; rewrite HP3, <- HP1.
    + cbn. by rewrite Hd3'.
    + cbn. rewrite Ht3, Ht2, !insert_insert_eq. reflexivity.
    + eapply hr_ok_eq; [|apply clr_callback_ok; [exact Hok3|rewrite Ht3; apply lookup_insert_eq]]. intros j.
      destruct (decide (j = i)) as [->|]; [by rewrite !fn_lookup_insert|by rewrite !fn_lookup_insert_ne].
    + exists A, B. split; [|done]. destruct Hpl as (HAB & HA & HB). pose proof (reg_nodup _ _ _ HR i) as Hnd. rewrite HQ in Hnd. apply NoDup_cons in Hnd as [Hn _].
      split_and!; [done| |]; intros x Hx; [specialize (HA x Hx)|specialize (HB x Hx)]; rewrite Ht2, key_insert_ne in * by (intros ->; apply Hn; rewrite HAB; set_solver); done.
Qed.

(** *** The loop over a base *)

Definition expired m now (l : list Z) : list Z := filter (λ x, key m x <= now) l.
Definition soft (m : gmap Z hrtimer) x : Prop := cb_mode <$> m !! x = Some HRTIMER_CB_SOFTIRQ.
#[export] Instance soft_dec m x : Decision (soft m x).
Proof. unfold soft. apply _. Defined.

Definition mode_of (m : gmap Z hrtimer) x : hrtimer_cb_mode := from_option cb_mode HRTIMER_CB_SOFTIRQ (m !! x).

(** The functions of [l] run in turn. *)
Definition run_all m (d : D) (l : list Z) : D := foldl (λ d x, (eff x (mode_of m x) (key m x) d).2) d l.

Lemma expired_ext m m' now (l : list Z) : (∀ x, x ∈ l -> key m' x = key m x) -> expired m' now l = expired m now l.
Proof. intros Hk. apply list_filter_ext_in. intros x Hx. by rewrite Hk. Qed.

Lemma run_all_ext m m' d (l : list Z) : (∀ x, x ∈ l -> m' !! x = m !! x) -> run_all m' d l = run_all m d l.
Proof.
  revert d. induction l as [|x l IH]; intros d Hk; [done|]. unfold run_all, mode_of, key. cbn [foldl]. rewrite Hk by set_solver. apply IH. set_solver.
Qed.

(** The first timer has expired: it goes to the callback list, or runs. *)
Definition step_one i now Q s t (rest : list Z) Q1 s1 : Prop :=
  hr_ok Q1 s1 ∧ step_frame s s1 ∧ (∀ j, j <> i -> Q1 j = Q j) ∧ expired (hrtimers s1) now (Q1 i) = expired (hrtimers s) now rest ∧
  (∀ x, x <> t -> hrtimers s1 !! x = hrtimers s !! x) ∧ (∀ x, x ∈ Q1 i -> x ∈ t :: rest) ∧
  (if decide (soft (hrtimers s) t) then cb_pending s1 = cb_pending s ++ [t] ∧ hr_dev s1 = hr_dev s
   else cb_pending s1 = cb_pending s ∧ hr_dev s1 = (eff t (mode_of (hrtimers s) t) (key (hrtimers s) t) (hr_dev s)).2).

Lemma step_soft Q s t tm (rest : list Z) now : hr_ok Q s -> hrtimers s !! t = Some tm -> Q (hr_base tm) = t :: rest -> cb_mode tm = HRTIMER_CB_SOFTIRQ ->
  ∃ s0 s1, remove_hrtimer_ t (hr_base tm) HRTIMER_STATE_PENDING false s = Some (tt, s0) ∧ s1 = set_pending (cb_pending s0 ++ [t]) s0 ∧
    step_one (hr_base tm) now Q s t rest (<[hr_base tm := rest]> Q) s1.
Proof.
  intros Hok Htm HQ Hmode. destruct (take_first Q s t tm rest HRTIMER_STATE_PENDING Hok Htm HQ) as (s0 & Hrun & Htr & Hf & Ht & HP & Hd). pose proof Hok as [_ HR].
  pose proof (reg_nodup _ _ _ HR (hr_base tm)) as Hnd. rewrite HQ in Hnd. apply NoDup_cons in Hnd as [Hn _].
  exists s0, (set_pending (cb_pending s0 ++ [t]) s0). split_and!; [done..|]. split_and!; [|done| | | | |].
  - split; [exact Htr|]. cbn. rewrite HP, Ht. pose proof (reg_delete Q _ _ t tm [] rest 0 HR Htm HQ ltac:(done) ltac:(done)) as HR0.
    pose proof (reg_pend _ _ _ t (with_state 0 tm) HR0 ltac:(apply lookup_insert_eq) ltac:(done)) as HR1. by rewrite insert_insert_eq in HR1.
  - intros j Hj. by rewrite fn_lookup_insert_ne.
  - rewrite fn_lookup_insert. cbn. rewrite Ht. apply expired_ext. intros x Hx. apply key_insert_ne. intros ->. done.
  - intros x Hx. cbn. rewrite Ht. by apply lookup_insert_ne.
  - intros x. rewrite fn_lookup_insert. by right.
  - rewrite decide_True by (unfold soft; rewrite Htm; cbn; by rewrite Hmode). cbn. by rewrite HP.
Qed.

Lemma step_hard Q s t tm (rest : list Z) now : hr_ok Q s -> hrtimers s !! t = Some tm -> Q (hr_base tm) = t :: rest -> cb_mode tm <> HRTIMER_CB_SOFTIRQ ->
  ((eff t (cb_mode tm) (hr_expires tm) (hr_dev s)).1.1 = HRTIMER_RESTART -> now < (eff t (cb_mode tm) (hr_expires tm) (hr_dev s)).1.2) ->
  ∃ Q1 s1, run_irqsafe call t (hr_base tm) s = Some (tt, s1) ∧ step_one (hr_base tm) now Q s t rest Q1 s1.
Proof.
  intros Hok Htm HQ Hmode Hfwd. pose proof (irqsafe_ok Q s t tm rest Hok Htm HQ Hmode) as Hirq. pose proof Hok as [_ HR].
  pose proof (reg_nodup _ _ _ HR (hr_base tm)) as Hnd. rewrite HQ in Hnd. apply NoDup_cons in Hnd as [Hn _].
  destruct (eff t (cb_mode tm) (hr_expires tm) (hr_dev s)) as [[r e] d] eqn:Heff. destruct Hirq as (s1 & n & l & Hrun & Hf & HP & Hd & Ht & Hok1 & Hl).
  exists (<[hr_base tm := l]> Q), s1. split; [done|]. split_and!; [done|done| | | | |].
  - intros j Hj. by rewrite fn_lookup_insert_ne.
  - rewrite fn_lookup_insert, Ht. assert (∀ k, (∀ x, x ∈ k -> x ∈ rest) -> expired (<[t := with_state n (with_expires e tm)]> (hrtimers s)) now k = expired (hrtimers s) now k) as Hext.
    { intros k Hk. apply expired_ext. intros x Hx. apply key_insert_ne. intros ->. by apply Hn, Hk. }
    case_decide as Hr; [subst l; by apply Hext|]. destruct Hl as (A & B & (-> & _ & _) & ->). unfold expired in *.
    rewrite !filter_app, filter_cons_False, !Hext; [done|set_solver..|]. rewrite key_insert_eq. cbn. assert (now < e); [|lia]. apply Hfwd. by destruct r.
  - intros x Hx. rewrite Ht. by apply lookup_insert_ne.
  - intros x. rewrite fn_lookup_insert. case_decide; [subst l; by right|]. destruct Hl as (A & B & (-> & _) & ->). set_solver.
  - rewrite decide_False by (unfold soft; rewrite Htm; cbn; congruence). split; [done|]. unfold mode_of. rewrite (key_lookup _ _ _ Htm), Htm. cbn. by rewrite Heff.
Qed.

(** A pass over base [i] at time [now]. *)
Definition passed i now Q s Q' s' : Prop :=
  let l := expired (hrtimers s) now (Q i) in
  hr_ok Q' s' ∧ step_frame s s' ∧ (∀ j, j <> i -> Q' j = Q j) ∧ (∀ x, x ∈ Q' i -> now < key (hrtimers s') x) ∧
  cb_pending s' = cb_pending s ++ filter (soft (hrtimers s)) l ∧
  hr_dev s' = run_all (hrtimers s) (hr_dev s) (filter (λ x, ¬ soft (hrtimers s) x) l) ∧
  (∀ x, x ∉ l -> hrtimers s' !! x = hrtimers s !! x).

Lemma soft_same m m' x : m' !! x = m !! x -> (soft m' x <-> soft m x).
Proof. unfold soft. by intros ->. Qed.
Lemma key_same m m' x : m' !! x = m !! x -> key m' x = key m x.
Proof. unfold key. by intros ->. Qed.

(** A step followed by a pass is a pass. *)
Lemma passed_step i now Q s t (rest : list Z) Q1 s1 Q2 s2 : hr_ok Q s -> Q i = t :: rest -> key (hrtimers s) t <= now ->
  step_one i now Q s t rest Q1 s1 -> passed i now Q1 s1 Q2 s2 -> passed i now Q s Q2 s2.
Proof.
  intros [_ HR] HQ Hk (Hok1 & Hf1 & HQ1 & Hexp & Ht1 & _ & Hone) (Hok2 & Hf2 & HQ2 & Hlt & HP2 & Hd2 & Ht2). rewrite Hexp in HP2, Hd2, Ht2.
  pose proof (reg_nodup _ _ _ HR i) as Hnd. rewrite HQ in Hnd. apply NoDup_cons in Hnd as [Hn _].
  assert (expired (hrtimers s) now (Q i) = t :: expired (hrtimers s) now rest) as Hl by (rewrite HQ; unfold expired; by rewrite filter_cons_True).
  set (l := expired (hrtimers s) now rest) in *. assert (∀ x, x ∈ l -> x <> t) as Hlt'.
  { intros x Hx ->. unfold l, expired in Hx. apply list_elem_of_filter in Hx as [_ Hx]. done. }
  assert (filter (soft (hrtimers s1)) l = filter (soft (hrtimers s)) l) as Hs by (apply list_filter_ext_in; intros x Hx; apply soft_same, Ht1; auto).
  assert (filter (λ x, ¬ soft (hrtimers s1) x) l = filter (λ x, ¬ soft (hrtimers s) x) l) as Hh
    by (apply list_filter_ext_in; intros x Hx; rewrite soft_same; [done|apply Ht1; auto]).
  rewrite Hs in HP2. rewrite Hh in Hd2. rewrite (run_all_ext (hrtimers s)) in Hd2 by (intros x [_ Hx]%list_elem_of_filter; apply Ht1; auto).
  unfold passed. rewrite Hl. split_and!; [done|by transitivity s1|intros j Hj; by rewrite HQ2, HQ1|done| | |].
  - rewrite filter_cons, HP2. destruct (decide (soft (hrtimers s) t)); destruct Hone as [-> _]; by rewrite <- ?app_assoc.
  - rewrite filter_cons, Hd2. destruct (decide (soft (hrtimers s) t)) as [Hsf|Hsf]; [rewrite decide_False by tauto|rewrite decide_True by done];
      destruct Hone as [_ ->]; done.
  - intros x [Hne Hx]%not_elem_of_cons. by rewrite Ht2, Ht1.
Qed.

(** The head of a queue: none, or the timer that expires first. *)
Lemma queue_head Q s i b : hr_ok Q s -> clock_base s !! i = Some b ->
  match Q i with
  | [] => first b = 0
  | t :: rest => first b = t ∧ t <> 0 ∧ (∃ tm, hrtimers s !! t = Some tm ∧ hr_base tm = i) ∧ ∀ x, x ∈ rest -> key (hrtimers s) t <= key (hrtimers s) x
  end.
Proof.
  intros [HT HR] Hb. destruct (proj2 HT i b Hb) as [_ Hf]. destruct (Q i) as [|t rest] eqn:HQ; [done|]. cbn in Hf.
  assert (t ∈ Q i) as Hin by (rewrite HQ; by left). destruct (reg_queue _ _ _ HR i t Hin) as [tm Htm]. pose proof (reg_at _ _ _ _ _ HR Htm) as Htok.
  pose proof (to_addr _ _ _ _ Htok) as [Hpos _]. pose proof (proj1 (to_queue _ _ _ _ Htok i) Hin) as [Hbase _]. split_and!; [done|lia|by exists tm|].
  pose proof (reg_sorted _ _ _ HR i) as Hs. rewrite HQ in Hs. exact (proj2 (sorted_mid _ [] rest t Hs)).
Qed.

Lemma nothing_expired Q s i now n next raise : (i < 2)%nat -> hr_ok Q s -> expired (hrtimers s) now (Q i) = [] ->
  expire_base call n i now next raise s = Some ((sooner next (due s i), raise), s) ∧ passed i now Q s Q s.
Proof.
  intros Hi Hok Hexp. pose proof Hok as [HT HR]. destruct (trees_base Q s i HT Hi) as (b & Hb & _). pose proof (queue_head Q s i b Hok Hb) as Hq.
  assert (∀ x, x ∈ Q i -> now < key (hrtimers s) x) as Hlt.
  { intros x Hx. destruct (Z.lt_ge_cases now (key (hrtimers s) x)); [done|]. assert (x ∈ expired (hrtimers s) now (Q i)) as Hin by (by apply list_elem_of_filter).
    rewrite Hexp in Hin. by apply elem_of_nil in Hin. }
  split.
  - destruct n; cbn [expire_base]; rewrite (bind_run _ _ _ _ _ (base_run s i b Hb)); unfold due; rewrite Hb; cbn [mbind option_bind];
      (destruct (Q i) as [|t rest]; [by rewrite Hq|]; destruct Hq as (-> & Ht0 & (tm & Htm & _) & _); destruct (Z.eqb_spec t 0); [done|];
       cbv zeta; rewrite (bind_run _ _ _ _ _ (timer_run s t tm Htm)), Htm; cbn [mbind option_bind sooner];
       specialize (Hlt t ltac:(by left)); rewrite (key_lookup _ _ _ Htm) in Hlt; destruct (Z.ltb_spec now (hr_expires tm)); [done|lia]).
  - unfold passed. rewrite Hexp. cbn. rewrite app_nil_r. by split_and!.
Qed.

Lemma expire_base_ok (G : D -> Prop) i now n :
  (i < 2)%nat -> ∀ Q s next raise, hr_ok Q s -> G (hr_dev s) ->
  (∀ t c e d, t ∈ Q i -> G d -> G (eff t c e d).2 ∧ ((eff t c e d).1.1 = HRTIMER_RESTART -> now < (eff t c e d).1.2)) -> (length (expired (hrtimers s) now (Q i)) <= n)%nat ->
  ∃ Q' s', expire_base call n i now next raise s =
      Some ((sooner next (due s' i), raise || bool_decide (filter (soft (hrtimers s)) (expired (hrtimers s) now (Q i)) <> [])), s') ∧
    passed i now Q s Q' s' ∧ G (hr_dev s').
Proof.
  intros Hi. induction n as [|n IH]; intros Q s next raise Hok HG Hfwd Hlen.
  { apply Nat.le_0_r, length_zero_iff_nil in Hlen. rewrite Hlen. destruct (nothing_expired Q s i now 0 next raise Hi Hok Hlen) as [Hrun Hp].
    exists Q, s. cbn. by rewrite orb_false_r. }
  destruct (expired (hrtimers s) now (Q i)) as [|y l] eqn:Hexp.
  { destruct (nothing_expired Q s i now (S n) next raise Hi Hok Hexp) as [Hrun Hp]. exists Q, s. rewrite bool_decide_false by (intros Hc; by apply Hc). by rewrite orb_false_r. }
  pose proof Hok as [HT HR]. destruct (trees_base Q s i HT Hi) as (b & Hb & _). pose proof (queue_head Q s i b Hok Hb) as Hq.
  destruct (Q i) as [|t rest] eqn:HQ; [done|]. destruct Hq as (Hf & Ht0 & (tm & Htm & Hbase) & Hmin). 
  assert (key (hrtimers s) t <= now) as Hk.
  { assert (y ∈ expired (hrtimers s) now (t :: rest)) as Hy by (rewrite Hexp; by left). apply list_elem_of_filter in Hy as [Hy [->|Hin]%elem_of_cons]; [done|].
    specialize (Hmin y Hin). lia. }
  assert (y :: l = t :: expired (hrtimers s) now rest) as Hyl by (rewrite <- Hexp; unfold expired; by rewrite filter_cons_True).
  injection Hyl as -> ->. cbn [length] in Hlen. subst i. set (i := hr_base tm) in *.
  cbn [expire_base]. rewrite (bind_run _ _ _ _ _ (base_run s i b Hb)), Hf. destruct (Z.eqb_spec t 0); [done|]. cbv zeta.
  rewrite (bind_run _ _ _ _ _ (timer_run s t tm Htm)). pose proof (key_lookup _ _ _ Htm) as Hkt. destruct (Z.ltb_spec now (hr_expires tm)); [lia|].
  case_bool_decide as Hmode.
  - destruct (step_soft Q s t tm rest now Hok Htm HQ Hmode) as (s0 & s1 & Hrun0 & Hs1 & Hstep). fold i in Hstep. rewrite (bind_run _ _ _ _ _ Hrun0).
    rewrite (bind_run _ _ s0 tt s1) by (by rewrite Hs1). pose proof Hstep as (Hok1 & _ & _ & Hexp1 & _ & Hin & Hdev). rewrite decide_True in Hdev by (unfold soft; rewrite Htm; cbn; by rewrite Hmode).
    destruct (IH _ s1 next true Hok1) as (Q' & s' & Hrun & Hp & HG'); [by destruct Hdev as [_ ->]|intros x c e d Hx; apply Hfwd; by apply Hin|rewrite Hexp1; lia|]. exists Q', s'. split; [|split; [by eapply passed_step|done]].
    rewrite Hrun. do 3 f_equal. cbn [orb]. rewrite filter_cons_True by (unfold soft; rewrite Htm; cbn; by rewrite Hmode).
    rewrite bool_decide_true by done. by rewrite orb_true_r.
  - destruct (step_hard Q s t tm rest now Hok Htm HQ Hmode) as (Q1 & s1 & Hrun1 & Hstep); [apply Hfwd; [by left|done]|]. fold i in Hstep. rewrite (bind_run _ _ _ _ _ Hrun1).
    pose proof Hstep as (Hok1 & _ & _ & Hexp1 & Hsame & Hin & Hdev). rewrite decide_False in Hdev by (unfold soft; rewrite Htm; cbn; congruence).
    destruct (IH _ s1 next raise Hok1) as (Q' & s' & Hrun & Hp & HG'); [destruct Hdev as [_ ->]; by apply Hfwd; [left|]|intros x c e d Hx; apply Hfwd; by apply Hin|rewrite Hexp1; lia|]. exists Q', s'. split; [|split; [by eapply passed_step|done]].
    rewrite Hrun. do 4 f_equal. rewrite Hexp1. rewrite filter_cons_False by (unfold soft; rewrite Htm; cbn; congruence).
    apply bool_decide_ext. rewrite (list_filter_ext_in (soft (hrtimers s1)) (soft (hrtimers s))); [done|]. intros x Hx. apply soft_same, Hsame.
    intros ->. unfold expired in Hx. apply list_elem_of_filter in Hx as [_ Hx]. pose proof (reg_nodup _ _ _ HR i) as Hnd. rewrite HQ in Hnd. by apply NoDup_cons in Hnd as [? _].
Qed.

(** *** The interrupt *)

(** The time of a clock when the monotonic clock shows [now]. *)
Definition now_of s now i : Z := ktime_add now (from_option offset 0 (clock_base s !! i)).

Lemma due_queue Q s i b : hr_ok Q s -> clock_base s !! i = Some b ->
  due s i = match Q i with [] => None | t :: _ => Some (ktime_sub (key (hrtimers s) t) (offset b)) end.
Proof.
  intros Hok Hb. pose proof (queue_head Q s i b Hok Hb) as Hq. unfold due. rewrite Hb. cbn [mbind option_bind].
  destruct (Q i) as [|t rest]; [by rewrite Hq|]. destruct Hq as (-> & Ht0 & (tm & Htm & _) & _). destruct (Z.eqb_spec t 0); [done|].
  rewrite (key_lookup _ _ _ Htm), Htm. done.
Qed.

Lemma same_clocks_offset s s' i b' : same_clocks s s' -> clock_base s' !! i = Some b' -> ∃ b, clock_base s !! i = Some b ∧ offset b' = offset b.
Proof.
  intros (_ & _ & Hc) Hb'. specialize (Hc i). rewrite Hb' in Hc. destruct (clock_base s !! i) as [b|]; [|done]. injection Hc as _ _ Hc. by exists b.
Qed.

Lemma now_of_same s s' now i : same_clocks s s' -> now_of s' now i = now_of s now i.
Proof.
  intros (_ & _ & Hc). unfold now_of. specialize (Hc i). destruct (clock_base s' !! i) as [b'|], (clock_base s !! i) as [b|]; try done. injection Hc as _ _ Hc. cbn. by rewrite Hc.
Qed.

(** A pass over base [i] does not concern the other. *)
Lemma passed_other i now Q s Q' s' j x : hr_ok Q s -> passed i now Q s Q' s' -> j <> i -> x ∈ Q j -> hrtimers s' !! x = hrtimers s !! x.
Proof.
  intros [_ HR] (_ & _ & _ & _ & _ & _ & Ht) Hji Hx. apply Ht. intros Hl. unfold expired in Hl. apply list_elem_of_filter in Hl as [_ Hl]. apply Hji. by eapply queues_apart.
Qed.

Lemma passed_due i now Q s Q' s' j : hr_ok Q s -> passed i now Q s Q' s' -> j <> i -> due s' j = due s j.
Proof.
  intros Hok Hp Hji. pose proof Hp as (Hok' & (Hc & _) & HQ & _). destruct (clock_base s' !! j) as [b'|] eqn:Hb'.
  - destruct (same_clocks_offset s s' j b' Hc Hb') as (b & Hb & Ho). rewrite (due_queue Q' s' j b' Hok' Hb'), (due_queue Q s j b Hok Hb), HQ, Ho by done.
    destruct (Q j) as [|t rest] eqn:HQj; [done|]. rewrite (key_same (hrtimers s)); [done|]. eapply passed_other; [done|done|done|]. rewrite HQj. by left.
  - destruct Hc as (_ & _ & Hc). specialize (Hc j). rewrite Hb' in Hc. unfold due. rewrite Hb'. by destruct (clock_base s !! j).
Qed.

(** The timers that have expired when the monotonic clock shows [now], by clock,
    each in the order of their expiry times. *)
Definition all_expired Q s now : list Z :=
  expired (hrtimers s) (now_of s now 0) (Q 0%nat) ++ expired (hrtimers s) (now_of s now 1) (Q 1%nat).

(** One round of the interrupt. *)
Lemma queue_base Q s i x : hr_ok Q s -> x ∈ Q i -> (i < 2)%nat.
Proof.
  intros [_ HR] Hx. destruct (reg_queue _ _ _ HR i x Hx) as [tm Htm]. pose proof (reg_at _ _ _ _ _ HR Htm) as Htok.
  pose proof (proj1 (to_queue _ _ _ _ Htok i) Hx) as [Hb _]. rewrite Hb. apply Htok.
Qed.

Lemma round_ok (G : D -> Prop) Q s now fuel raise : hr_ok Q s -> G (hr_dev s) -> (∀ i, (length (Q i) <= fuel)%nat) ->
  (∀ i t c e d, t ∈ Q i -> G d -> G (eff t c e d).2 ∧ ((eff t c e d).1.1 = HRTIMER_RESTART -> now_of s now i < (eff t c e d).1.2)) ->
  ∃ Q' s', let l := all_expired Q s now in
    (b ← base_of 0; '(next, raise) ← expire_base call fuel 0 (ktime_add now (offset b)) KTIME_MAX raise;
     b ← base_of 1; expire_base call fuel 1 (ktime_add now (offset b)) next raise) s =
      Some ((sooner (sooner KTIME_MAX (due s' 0)) (due s' 1), raise || bool_decide (filter (soft (hrtimers s)) l <> [])), s') ∧
    hr_ok Q' s' ∧ step_frame s s' ∧ (∀ i x, x ∈ Q' i -> now_of s now i < key (hrtimers s') x) ∧
    cb_pending s' = cb_pending s ++ filter (soft (hrtimers s)) l ∧
    hr_dev s' = run_all (hrtimers s) (hr_dev s) (filter (λ x, ¬ soft (hrtimers s) x) l) ∧
    (∀ x, x ∉ l -> hrtimers s' !! x = hrtimers s !! x).
Proof.
  intros Hok HG Hfuel Hfwd. pose proof Hok as [HT _]. destruct (trees_base Q s 0 HT) as (b0 & Hb0 & _); [lia|].
  assert (∀ m n (k : list Z), (length k <= fuel)%nat -> (length (expired m n k) <= fuel)%nat) as Hlen.
  { intros m n k Hk. etransitivity; [apply length_filter|done]. }
  rewrite (bind_run _ _ _ _ _ (base_run s 0 b0 Hb0)). replace (ktime_add now (offset b0)) with (now_of s now 0) by (unfold now_of; by rewrite Hb0).
  destruct (expire_base_ok G 0 (now_of s now 0) fuel ltac:(lia) Q s KTIME_MAX raise Hok) as (Q1 & s1 & Hrun1 & Hp1 & HG1); [done|intros t c e d; apply Hfwd|by apply Hlen|].
  rewrite (bind_run _ _ _ _ _ Hrun1). cbv iota beta. pose proof Hp1 as (Hok1 & Hf1 & HQ1 & Hlt1 & HP1 & Hd1 & Ht1). pose proof Hok1 as [HT1 _].
  destruct (trees_base Q1 s1 1 HT1) as (b1 & Hb1 & _); [lia|]. rewrite (bind_run _ _ _ _ _ (base_run s1 1 b1 Hb1)).
  assert (ktime_add now (offset b1) = now_of s now 1) as -> by (rewrite <- (now_of_same s s1) by apply Hf1; unfold now_of; by rewrite Hb1).
  assert (Q1 1%nat = Q 1%nat) as HQ11 by (by apply HQ1).
  match goal with |- context [expire_base call fuel 1 _ ?n ?r] =>
    destruct (expire_base_ok G 1 (now_of s now 1) fuel ltac:(lia) Q1 s1 n r Hok1) as (Q2 & s2 & Hrun2 & Hp2 & _);
      [done|rewrite HQ11; intros t c e d; apply Hfwd|apply Hlen; by rewrite HQ11|] end.
  pose proof Hp2 as (Hok2 & Hf2 & HQ2 & Hlt2 & HP2 & Hd2 & Ht2). rewrite HQ11 in *.
  assert (∀ x, x ∈ Q 1%nat -> hrtimers s1 !! x = hrtimers s !! x) as Hsame by (intros x; by apply (passed_other 0 (now_of s now 0) Q s Q1 s1)).
  assert (expired (hrtimers s1) (now_of s now 1) (Q 1%nat) = expired (hrtimers s) (now_of s now 1) (Q 1%nat)) as Hexp
    by (apply expired_ext; intros x Hx; by apply key_same, Hsame).
  assert (∀ x, x ∈ expired (hrtimers s) (now_of s now 1) (Q 1%nat) -> x ∈ Q 1%nat) as Hsub by (intros x [_ Hx]%list_elem_of_filter; done).
  rewrite Hexp in Hrun2, HP2, Hd2, Ht2.
  rewrite (list_filter_ext_in (soft (hrtimers s1)) (soft (hrtimers s))) in Hrun2, HP2 by (intros x Hx; by apply soft_same, Hsame, Hsub).
  rewrite (list_filter_ext_in (λ x, ¬ soft (hrtimers s1) x) (λ x, ¬ soft (hrtimers s) x)) in Hd2 by (intros x Hx; by rewrite (soft_same (hrtimers s)) by (by apply Hsame, Hsub)).
  rewrite (run_all_ext (hrtimers s)) in Hd2 by (intros x [_ Hx]%list_elem_of_filter; by apply Hsame, Hsub).
  exists Q2, s2. unfold all_expired. cbv zeta. rewrite !filter_app. split_and!; [|done|by transitivity s1| | | |].
  - rewrite Hrun2. rewrite (passed_due 1 (now_of s now 1) Q1 s1 Q2 s2 0) by done. do 3 f_equal. rewrite <- orb_assoc. f_equal.
    repeat case_bool_decide as Hx; destruct (filter (soft (hrtimers s)) (expired _ _ (Q 0%nat))), (filter (soft (hrtimers s)) (expired _ _ (Q 1%nat))); naive_solver.
  - intros [|[|i]] x Hx; [|by apply Hlt2|apply (queue_base Q2 s2 _ _ Hok2) in Hx; lia]. rewrite HQ2 in Hx by done. pose proof (Hlt1 x Hx) as Hk.
    by rewrite (key_same (hrtimers s1)) by (by apply (passed_other 1 (now_of s now 1) Q1 s1 Q2 s2 0 x)).
  - by rewrite HP2, HP1, <- app_assoc.
  - rewrite Hd2, Hd1. unfold run_all. by rewrite foldl_app.
  - intros x Hx. apply not_elem_of_app in Hx as [H1 H2]. by rewrite Ht2, Ht1.
Qed.

Lemma soonest_covers_all s : (∀ i, (2 <= i)%nat -> due s i = None) ->
  next_covers (set_expires_next (sooner (sooner KTIME_MAX (due s 0)) (due s 1)) s).
Proof.
  intros Hout _ i e Hd. change (due s i = Some e) in Hd. cbn. destruct (sooner_le KTIME_MAX (due s 0)) as (_ & H1 & _).
  destruct (sooner_le (sooner KTIME_MAX (due s 0)) (due s 1)) as (H2 & H3 & _).
  destruct i as [|[|i]]; [specialize (H1 e Hd); lia|by apply H3|]. rewrite Hout in Hd by lia. done.
Qed.

(** The interrupt: [s1] is the state after the first round, before the device is
    programmed. *)
Lemma interrupt_ok (G : D -> Prop) Q s now d0 fuel tries : hr_ok Q s -> hres_active s = true ->
  ktime_get (forget_event (hr_dev s)) = Some (now, d0) -> G d0 -> (∀ i, (length (Q i) <= fuel)%nat) ->
  (∀ i t c e d, t ∈ Q i -> G d -> G (eff t c e d).2 ∧ ((eff t c e d).1.1 = HRTIMER_RESTART -> now_of s now i < (eff t c e d).1.2)) ->
  let l := all_expired Q s now in
  let d1 := run_all (hrtimers s) d0 (filter (λ x, ¬ soft (hrtimers s) x) l) in
  ∃ Q' s1, hr_ok Q' s1 ∧ next_covers s1 ∧ expires_next s1 = soonest s1 ∧ (∀ i x, x ∈ Q' i -> now_of s now i < key (hrtimers s1) x) ∧
    cb_pending s1 = cb_pending s ++ filter (soft (hrtimers s)) l ∧
    softirq_raised s1 = softirq_raised s || bool_decide (filter (soft (hrtimers s)) l <> []) ∧
    (∀ x, x ∉ l -> hrtimers s1 !! x = hrtimers s !! x) ∧ hr_dev s1 = d1 ∧
    (expires_next s1 = KTIME_MAX -> hrtimer_interrupt call (S tries) fuel s = Some (tt, s1)) ∧
    (∀ d2, expires_next s1 <> KTIME_MAX -> tick_program_event (expires_next s1) false d1 = Some (0, d2) ->
       hrtimer_interrupt call (S tries) fuel s = Some (tt, set_hr_dev d2 s1)).
Proof.
  intros Hok Hres Hget HG Hfuel Hfwd l d1. set (s0 := set_hr_dev d0 (set_nr_events (u32 (nr_events s + 1)) s)).
  destruct (round_ok G Q s0 now fuel false) as (Q' & s1 & Hrun & Hok1 & (Hc1 & He1 & Hr1) & Hlt & HP & Hd & Ht); [by eapply hr_ok_ext|done|done|done|].
  change (all_expired Q s0 now) with l in *. cbn [orb] in Hrun. set (next := sooner (sooner KTIME_MAX (due s1 0)) (due s1 1)) in *.
  apply Sf_bind_Some in Hrun as (b0 & s0' & Hb0 & Hrun). apply Sf_bind_Some in Hrun as ([n0 r0] & s2 & Hx0 & Hrun).
  apply Sf_bind_Some in Hrun as (b1 & s2' & Hb1 & Hx1). set (r := bool_decide _) in Hx1. assert (hr_dev s1 = d1) as Hd1 by exact Hd.
  set (send := λ d, if r then set_raised true (set_hr_dev d (set_expires_next next s1)) else set_hr_dev d (set_expires_next next s1)).
  assert (∀ d, (next = KTIME_MAX ∧ d = d1) ∨ (next <> KTIME_MAX ∧ tick_program_event next false d1 = Some (0, d)) ->
    hrtimer_interrupt call (S tries) fuel s = Some (tt, send d)) as Hint.
  { intros d Hcase. unfold hrtimer_interrupt. erewrite bind_run by reflexivity. rewrite Hres. cbn [negb].
    erewrite bind_run by reflexivity. erewrite bind_run by reflexivity. rewrite (bind_run _ _ _ r (set_hr_dev d (set_expires_next next s1))); [by destruct r|].
    cbn [interrupt_loop]. rewrite (bind_run _ _ _ now s0) by (unfold on_dev; cbn; by rewrite Hget).
    rewrite (bind_run _ _ _ _ _ Hb0), (bind_run _ _ _ _ _ Hx0). cbv iota beta. rewrite (bind_run _ _ _ _ _ Hb1), (bind_run _ _ _ _ _ Hx1). cbv iota beta.
    erewrite bind_run by reflexivity. destruct (Z.eqb_spec next KTIME_MAX) as [He|He], Hcase as [[Hn ->]|[Hn Hp]]; try done; cbn [negb].
    - rewrite <- Hd1. by destruct s1.
    - by rewrite (bind_run _ _ _ 0 (set_hr_dev d (set_expires_next next s1))) by (unfold on_dev; cbn; by rewrite Hd1, Hp). }
  assert (∀ d, hr_ok Q' (send d)) as Hok' by (intros d; unfold send; destruct r; by eapply hr_ok_ext).
  assert (∀ d, next_covers (send d)) as Ha'.
  { intros d. assert (next_covers (set_expires_next next s1)) as Ha; [|unfold send; by destruct r]. apply (soonest_covers_all s1).
    intros i Hi. unfold due. rewrite lookup_ge_None_2; [done|]. destruct Hok1 as [[Hlen _] _]. lia. }
  assert (∀ d, hrtimers (send d) = hrtimers s1 ∧ cb_pending (send d) = cb_pending s1 ∧ expires_next (send d) = next ∧ hr_dev (send d) = d) as Hsend by (intros d; unfold send; by destruct r).
  assert (soonest (send d1) = next) as Hsoon by (unfold send; by destruct r).
  destruct (Hsend d1) as (Hst & Hsp & Hse & Hsd). exists Q', (send d1). rewrite Hst, Hsp, Hse, Hsd. split_and!; try done.
  - unfold send. change (bool_decide (filter (soft (hrtimers s)) l <> [])) with r. destruct r; cbn; [by rewrite orb_true_r|by rewrite orb_false_r, Hr1].
  - intros Hn. by apply Hint; left.
  - intros d2 Hn Hp. rewrite (Hint d2) by (by right). unfold send. by destruct r.
Qed.

(** ** What the rest of the kernel may do *)

(** Steps between which the lock is free: the exported operations, the
    interrupt, writes to a timer that is on no queue (its expiry time, its
    callback mode, a new initialisation), and anything outside the queues. *)
Inductive api s : hrs -> Prop :=
  | api_start t tim mode r s' : hrtimer_start call t tim mode s = Some (r, s') -> api s s'
  | api_cancel t r s' : hrtimer_try_to_cancel t s = Some (r, s') -> api s s'
  | api_interrupt tries fuel s' : hrtimer_interrupt call tries fuel s = Some (tt, s') -> api s s'
  | api_clock_set s' : clock_was_set s = Some (tt, s') -> api s s'
  | api_write t tm e mode : hrtimers s !! t = Some tm -> loose tm ->
      api s (set_timers (<[t := Hrtimer e (hr_base tm) (hr_state tm) mode]> (hrtimers s)) s)
  | api_init t clock mode s' : okp t -> t < 2 ^ 32 -> (clock < 2)%nat ->
      (∀ tm, hrtimers s !! t = Some tm -> hr_state tm = HRTIMER_STATE_INACTIVE) ->
      hrtimer_init t clock mode s = Some (tt, s') -> api s s'
  | api_other d : api s (set_hr_dev d s).

Definition wf s : Prop := ∃ Q, hr_ok Q s.

Lemma start_wf s t tim mode r s' : wf s -> hrtimer_start call t tim mode s = Some (r, s') -> wf s'.
Proof.
  intros [Q Hok] Hrun. assert (∃ tm, hrtimers s !! t = Some tm) as [tm Htm].
  { unfold hrtimer_start in Hrun. apply Sf_bind_Some in Hrun as (tm & s0 & [Htm _]%timer_of_Some & _). by exists tm. }
  destruct (start_ok Q s t tm tim mode Hok Htm) as (s0 & e & d & s1 & _ & _ & _ & _ & Hrun1 & _ & _ & [(A & B & _ & Hok1 & _)|(_ & Hok1 & _)]);
    rewrite Hrun1 in Hrun; injection Hrun as _ <-; by eexists.
Qed.

Lemma cancel_wf s t r s' : wf s -> hrtimer_try_to_cancel t s = Some (r, s') -> wf s'.
Proof.
  intros [Q Hok] Hrun. unfold hrtimer_try_to_cancel in Hrun. apply Sf_bind_Some in Hrun as (tm & s0 & [Htm ->]%timer_of_Some & Hrun).
  destruct (hrtimer_callback_running tm); [injection Hrun as _ <-; by exists Q|].
  destruct (remove_ok Q s t tm Hok Htm) as (s1 & Hrun1 & Hok1 & _). rewrite Hrun1 in Hrun. injection Hrun as _ <-. by eexists.
Qed.

(** A new node outside the queues. *)
Lemma init_wf s t clock mode s' : wf s -> okp t -> t < 2 ^ 32 -> (clock < 2)%nat ->
  (∀ tm, hrtimers s !! t = Some tm -> hr_state tm = HRTIMER_STATE_INACTIVE) -> hrtimer_init t clock mode s = Some (tt, s') -> wf s'.
Proof.
  intros [Q [[Hl HT] HR]] Ht Hw Hc Hidle Hrun. exists Q. injection Hrun as <-.
  assert ((∀ i, t ∉ Q i) ∧ t ∉ cb_pending s) as [HnQ HnP].
  { destruct (hrtimers s !! t) as [tm|] eqn:Htm.
    - apply (loose_spec Q _ _ t tm HR Htm). split; unfold enqueued; by rewrite (Hidle tm eq_refl).
    - split; [intros i Hi; apply (reg_queue _ _ _ HR) in Hi|intros Hi; apply (reg_pending _ _ _ HR) in Hi]; rewrite Htm in Hi; by destruct Hi. }
  split; [split; [done|]; intros i b Hb; destruct (HT i b Hb) as [Hh Hf]; split; [|done]; eapply holds_frame; [exact Hh|done|];
    intros z Hz; cbn; apply lookup_insert_ne; intros <-; by apply (HnQ i)|].
  cbn. eapply reg_change; [done| |done|done|apply HR|apply HR|intros i; by eapply sorted_without].
  split; [done|done| |done| |]; cbn.
  - by destruct (bool_decide _ && _); unfold CLOCK_MONOTONIC; [lia|].
  - intros i. split; [intros Hi; by apply HnQ in Hi|by intros [_ ?]].
  - split; [done|by intros ?].
Qed.

Lemma expire_wf i now n : (i < 2)%nat -> ∀ s next raise x s', wf s -> expire_base call n i now next raise s = Some (x, s') -> wf s'.
Proof.
  intros Hi. induction n as [|n IH]; intros s next raise x s' [Q Hok] Hrun; pose proof Hok as [HT _];
    destruct (trees_base Q s i HT Hi) as (b & Hb & _); pose proof (queue_head Q s i b Hok Hb) as Hq; cbn [expire_base] in Hrun;
    rewrite (bind_run _ _ _ _ _ (base_run s i b Hb)) in Hrun;
    (destruct (Q i) as [|t rest] eqn:HQ; [rewrite Hq in Hrun; injection Hrun as _ <-; by exists Q|]);
    destruct Hq as (Hf & Ht0 & (tm & Htm & Hbase) & _); rewrite Hf in Hrun; (destruct (Z.eqb_spec t 0); [done|]); cbv zeta in Hrun;
    rewrite (bind_run _ _ _ _ _ (timer_run s t tm Htm)) in Hrun; (destruct (now <? hr_expires tm); [injection Hrun as _ <-; by exists Q|]); [done|].
  subst i. case_bool_decide as Hmode.
  - destruct (step_soft Q s t tm rest now Hok Htm HQ Hmode) as (s0 & s1 & Hrun0 & Hs1 & Hok1 & _). rewrite (bind_run _ _ _ _ _ Hrun0) in Hrun.
    rewrite (bind_run _ _ s0 tt s1) in Hrun by (by rewrite Hs1). eapply IH; [|exact Hrun]. by eexists.
  - pose proof (irqsafe_ok Q s t tm rest Hok Htm HQ Hmode) as Hirq. destruct (eff t (cb_mode tm) (hr_expires tm) (hr_dev s)) as [[r e] d].
    destruct Hirq as (s1 & m & l & Hrun1 & _ & _ & _ & _ & Hok1 & _). rewrite (bind_run _ _ _ _ _ Hrun1) in Hrun. eapply IH; [|exact Hrun]. by eexists.
Qed.

Lemma wf_ext s s' : wf s -> nodes s' = nodes s -> hrtimers s' = hrtimers s -> clock_base s' = clock_base s -> cb_pending s' = cb_pending s -> wf s'.
Proof. intros [Q Hok] ? ? ? ?. exists Q. by eapply hr_ok_ext. Qed.

Lemma on_dev_wf {A} (m : Sf D A) s x s' : wf s -> on_dev m s = Some (x, s') -> wf s'.
Proof. intros Hw. unfold on_dev. destruct (m (hr_dev s)) as [[y d]|]; [|done]. intros [= <- <-]. by eapply wf_ext. Qed.

Lemma interrupt_wf s tries fuel s' : wf s -> hrtimer_interrupt call tries fuel s = Some (tt, s') -> wf s'.
Proof.
  intros Hw Hrun. unfold hrtimer_interrupt in Hrun. erewrite bind_run in Hrun by reflexivity. destruct (hres_active s); [|done]. cbn [negb] in Hrun.
  erewrite bind_run in Hrun by reflexivity. erewrite bind_run in Hrun by reflexivity. apply Sf_bind_Some in Hrun as (r & s1 & Hloop & Hend).
  assert (wf s1) as Hw1.
  { clear Hend. match type of Hloop with _ ?s0 = _ => assert (wf s0) as Hw0 by (by eapply wf_ext); revert Hw0; generalize dependent s0 end. clear Hw s.
    generalize false. induction tries as [|tries IH]; intros raise s Hloop Hw; [done|]. cbn [interrupt_loop] in Hloop.
    apply Sf_bind_Some in Hloop as (now & s2 & Hget & Hloop). apply on_dev_wf in Hget; [|done].
    apply Sf_bind_Some in Hloop as (b0 & s2' & [_ ->]%base_of_Some & Hloop). apply Sf_bind_Some in Hloop as ([n0 r0] & s3 & Hx0 & Hloop). apply expire_wf in Hx0; [|lia|done].
    apply Sf_bind_Some in Hloop as (b1 & s3' & [_ ->]%base_of_Some & Hloop). apply Sf_bind_Some in Hloop as ([n1 r1] & s4 & Hx1 & Hloop). apply expire_wf in Hx1; [|lia|done].
    erewrite bind_run in Hloop by reflexivity. assert (wf (set_expires_next n1 s4)) as Hw4 by (by apply (wf_ext s4)).
    destruct (negb _); [|by injection Hloop as _ <-]. apply Sf_bind_Some in Hloop as (res & s5 & Hp & Hloop). apply on_dev_wf in Hp; [|done].
    destruct (negb _); [by eapply IH|by injection Hloop as _ <-]. }
  destruct r; injection Hend as <-; [by apply (wf_ext s1)|done].
Qed.

(** A base changes in its clock only. *)
Lemma base_clock_wf s i b b' : wf s -> clock_base s !! i = Some b -> active b' = active b -> first b' = first b ->
  wf (set_bases (<[i := b']> (clock_base s)) s).
Proof.
  intros [Q [[Hl HT] HR]] Hb Ha Hf. exists Q. split; [|done]. split; [cbn; by rewrite length_insert|]. intros j bj Hj. cbn in Hj.
  apply list_lookup_insert_Some in Hj as [(<- & <- & _)|[_ Hj]]; [|by apply HT]. rewrite Hf. destruct (HT i b Hb) as [Hh Hfst]. split; [|done].
  unfold tree_of in *. cbn. by rewrite Ha.
Qed.

Lemma upd_base_wf s i f x s' : wf s -> (∀ b, active (f b) = active b ∧ first (f b) = first b) -> upd_base i f s = Some (x, s') -> wf s'.
Proof.
  intros Hw Hf Hrun. unfold upd_base in Hrun. apply Sf_bind_Some in Hrun as (b & s0 & [Hb ->]%base_of_Some & Hrun). injection Hrun as _ <-.
  destruct (Hf b). by eapply base_clock_wf.
Qed.

Lemma retrigger_wf s x s' : wf s -> retrigger_next_event s = Some (x, s') -> wf s'.
Proof.
  intros Hw Hrun. unfold retrigger_next_event in Hrun. erewrite bind_run in Hrun by reflexivity. destruct (negb _); [by injection Hrun as _ <-|].
  erewrite bind_run in Hrun by reflexivity. destruct (set_normalized_timespec _ _) as [sec nsec].
  apply Sf_bind_Some in Hrun as (y & s1 & Hupd & Hrun). apply upd_base_wf in Hupd as [Q Hok]; [|done|done].
  destruct (force_reprogram_run s1 (hr_ok_firsts Q s1 Hok)) as (e & d & Hforce & _). rewrite Hforce in Hrun. injection Hrun as _ <-. apply (wf_ext s1); [by exists Q|done..].
Qed.

Lemma write_wf s t tm tm' : wf s -> hrtimers s !! t = Some tm -> loose tm -> hr_base tm' = hr_base tm -> hr_state tm' = hr_state tm ->
  wf (set_timers (<[t := tm']> (hrtimers s)) s).
Proof.
  intros [Q [HT HR]] Htm Hl Hb Hs. exists Q. split; [done|]. pose proof (reg_at _ _ _ _ _ HR Htm) as Htok. cbn. eapply reg_loose; try done.
  - unfold loose, enqueued in *. by rewrite Hs.
  - rewrite Hb. apply Htok.
  - rewrite Hs. apply Htok.
Qed.

Lemma api_wf s s' : wf s -> api s s' -> wf s'.
Proof.
  intros Hw Hstep. destruct Hstep; [by eapply start_wf|by eapply cancel_wf|by eapply interrupt_wf|by eapply retrigger_wf|by eapply write_wf|by eapply init_wf|].
  by apply (wf_ext s).
Qed.

Lemma apis_wf s s' : rtc api s s' -> wf s -> wf s'.
Proof. induction 1 as [|s1 s2 s3 Hstep _ IH]; [done|]. intros Hw. eapply IH, api_wf; [exact Hw|exact Hstep]. Qed.

(** The functions of the timers that run in the softirq do steps of the
    interface, and do not give their timer another clock. *)
Class SoftCalls : Prop := {
  soft_calls t s tm r s' : hrtimers s !! t = Some tm -> cb_mode tm = HRTIMER_CB_SOFTIRQ -> call t s = Some (r, s') -> rtc api s s';
  soft_base t s tm r s' : hrtimers s !! t = Some tm -> cb_mode tm = HRTIMER_CB_SOFTIRQ -> call t s = Some (r, s') ->
    ∃ tm', hrtimers s' !! t = Some tm' ∧ hr_base tm' = hr_base tm;
}.

Section Events.
Context `{HS : !SoftCalls}.

Lemma call_wf s t tm r s' : wf s -> hrtimers s !! t = Some tm -> loose tm -> call t s = Some (r, s') -> wf s'.
Proof.
  intros Hw Htm Hl Hcall. destruct (decide (cb_mode tm = HRTIMER_CB_SOFTIRQ)) as [Hm|Hm].
  - eapply apis_wf; [by eapply (soft_calls t s tm)|done].
  - rewrite (calls_locked t s tm Htm Hm) in Hcall. injection Hcall as _ <-.
    apply (wf_ext (set_timers (<[t := with_expires (eff t (cb_mode tm) (hr_expires tm) (hr_dev s)).1.2 tm]> (hrtimers s)) s)); [by eapply (write_wf s t tm)|done..].
Qed.

Lemma call_base s t tm r s' : hrtimers s !! t = Some tm -> call t s = Some (r, s') -> ∃ tm', hrtimers s' !! t = Some tm' ∧ hr_base tm' = hr_base tm.
Proof.
  intros Htm Hcall. destruct (decide (cb_mode tm = HRTIMER_CB_SOFTIRQ)) as [Hm|Hm]; [by eapply soft_base|].
  rewrite (calls_locked t s tm Htm Hm) in Hcall. injection Hcall as _ <-. eexists. split; [apply lookup_insert_eq|done].
Qed.

(** A timer is taken off the queue or the callback list, its function runs and
    the running mark is cleared. *)
Lemma run_one_wf s t tm x s' restart s2 : wf s -> hrtimers s !! t = Some tm -> hrtimer_is_queued tm = true ->
  remove_hrtimer_ t (hr_base tm) HRTIMER_STATE_CALLBACK false s = Some (x, s') -> call t s' = Some (restart, s2) ->
  ∀ y s3, upd_timer t (λ tm, with_state (clr (hr_state tm) HRTIMER_STATE_CALLBACK) tm) s2 = Some (y, s3) ->
  wf s3 ∧ ∃ tm3, hrtimers s3 !! t = Some tm3 ∧ hr_base tm3 = hr_base tm.
Proof.
  intros [Q Hok] Htm Hq Hrem Hcall y s3 Hupd. pose proof Hok as [HT HR]. pose proof (reg_at _ _ _ _ _ HR Htm) as Htok.
  assert (∃ Q1, hr_ok Q1 s' ∧ hrtimers s' !! t = Some (with_state HRTIMER_STATE_CALLBACK tm)) as (Q1 & Hok1 & Htm1).
  { destruct (queued_cases _ _ _ _ Htok) as [(_ & He & _)|[(_ & Hp)|(? & _)]]; [| |congruence].
    - assert (t ∈ Q (hr_base tm)) as Hin by (by apply Htok). apply list_elem_of_split in Hin as (A & B & HQ).
      destruct (remove_queued Q s t tm A B HRTIMER_STATE_CALLBACK false Hok Htm HQ) as (b & r & e & d & Hb & Hrun & Htr & _).
      rewrite Hrun in Hrem. injection Hrem as _ <-. eexists. split; [split; [exact Htr|]; cbn; by apply reg_delete|cbn; apply lookup_insert_eq].
    - rewrite (remove_pending s t tm _ false Htm Hp) in Hrem. injection Hrem as _ <-. exists Q. split; [|cbn; apply lookup_insert_eq].
      split; [exact HT|]. cbn. by apply reg_unpend. }
  destruct (call_wf s' t _ restart s2 ltac:(by exists Q1) Htm1 ltac:(done) Hcall) as [Q2 Hok2].
  destruct (call_base s' t _ restart s2 Htm1 Hcall) as (tm2 & Htm2 & Hb2). rewrite (upd_timer_run s2 t tm2) in Hupd by done. injection Hupd as _ <-.
  split; [exists Q2; by apply clr_callback_ok|]. eexists. split; [apply lookup_insert_eq|done].
Qed.

Lemma enqueue_wf s t tm reprogram x s' : wf s -> hrtimers s !! t = Some tm -> loose tm ->
  enqueue_hrtimer call t (hr_base tm) reprogram s = Some (x, s') -> wf s'.
Proof.
  intros [Q Hok] Htm Hl Hrun. destruct (enqueue_ok Q s t tm reprogram Hok Htm Hl) as (s1 & Hrun1 & _ & _ & [(A & B & _ & Hok1 & _)|(_ & _ & Hok1 & _)]);
    rewrite Hrun1 in Hrun; injection Hrun as _ <-; by eexists.
Qed.

Lemma inactive_loose tm : hrtimer_active tm = false -> loose tm.
Proof. unfold hrtimer_active, loose, enqueued. destruct (Z.eqb_spec (hr_state tm) HRTIMER_STATE_INACTIVE) as [->|]; done. Qed.

Lemma softirq_wf fuel : ∀ s s', wf s -> run_hrtimer_softirq call fuel s = Some (tt, s') -> wf s'.
Proof.
  induction fuel as [|fuel IH]; intros s s' Hw Hrun; cbn [run_hrtimer_softirq] in Hrun; erewrite bind_run in Hrun by reflexivity;
    (destruct (cb_pending s) as [|t P] eqn:HP; [by injection Hrun as <-|]); [done|].
  apply Sf_bind_Some in Hrun as ([] & s1 & Hone & Hrun). eapply IH; [|exact Hrun]. clear IH Hrun s' fuel. unfold softirq_timer in Hone.
  apply Sf_bind_Some in Hone as (tm & s0 & [Htm ->]%timer_of_Some & Hone). apply Sf_bind_Some in Hone as (x & s2 & Hrem & Hone).
  apply Sf_bind_Some in Hone as (restart & s3 & Hcall & Hone). apply Sf_bind_Some in Hone as (y & s4 & Hupd & Hone).
  assert (hrtimer_is_queued tm = true) as Hq.
  { destruct Hw as [Q [_ HR]]. pose proof (reg_at _ _ _ _ _ HR Htm) as Htok. unfold hrtimer_is_queued.
    assert (t ∈ cb_pending s) as Hin by (rewrite HP; by left). apply (to_pending _ _ _ _ Htok) in Hin. by rewrite Hin. }
  destruct (run_one_wf s t tm x s2 restart s3 Hw Htm Hq Hrem Hcall y s4 Hupd) as [Hw4 _].
  apply Sf_bind_Some in Hone as (tm4 & s4' & [Htm4 ->]%timer_of_Some & Hone). case_bool_decide.
  - destruct (hrtimer_active tm4) eqn:Hact; [done|]. eapply enqueue_wf; [exact Hw4|exact Htm4|by apply inactive_loose|exact Hone].
  - destruct (hrtimer_active tm4); cbn [fwhen] in Hone; [|by injection Hone as <-]. apply Sf_bind_Some in Hone as (b & s5 & [Hb ->]%base_of_Some & Hone).
    destruct (first b =? t); cbn [fwhen] in Hone; [|by injection Hone as <-]. apply Sf_bind_Some in Hone as (res & s6 & Hrep & Hone). injection Hone as <-.
    destruct (reprogram_run s4 t tm4 (hr_base tm4) b Htm4 Hb) as (r & e & d & Hrun & _). rewrite Hrun in Hrep. injection Hrep as _ <-. by apply (wf_ext s4).
Qed.

Lemma queue_wf fuel i : (i < 2)%nat -> ∀ s x s', wf s -> run_hrtimer_queue call fuel i s = Some (x, s') -> wf s'.
Proof.
  intros Hi. induction fuel as [|fuel IH]; intros s x s' Hw Hrun; destruct Hw as [Q Hok]; pose proof Hok as [HT HR];
    destruct (trees_base Q s i HT Hi) as (b & Hb & _); pose proof (queue_head Q s i b Hok Hb) as Hq; cbn [run_hrtimer_queue] in Hrun;
    rewrite (bind_run _ _ _ _ _ (base_run s i b Hb)) in Hrun;
    (destruct (Q i) as [|t rest] eqn:HQ; [rewrite Hq in Hrun; injection Hrun as _ <-; by exists Q|]);
    destruct Hq as (Hf & Ht0 & (tm & Htm & Hbase) & _); rewrite Hf in Hrun; (destruct (Z.eqb_spec t 0); [done|]);
    rewrite (bind_run _ _ _ _ _ (timer_run s t tm Htm)) in Hrun; (destruct (softirq_time b <=? hr_expires tm); [injection Hrun as _ <-; by exists Q|]); [done|].
  apply Sf_bind_Some in Hrun as (z & s1 & Hone & Hrun). eapply IH; [|exact Hrun]. clear IH Hrun. subst i. unfold queue_timer in Hone.
  apply Sf_bind_Some in Hone as (w & s2 & Hrem & Hone). apply Sf_bind_Some in Hone as (restart & s3 & Hcall & Hone). apply Sf_bind_Some in Hone as (y & s4 & Hupd & Hone).
  assert (hrtimer_is_queued tm = true) as Hq.
  { pose proof (reg_at _ _ _ _ _ HR Htm) as Htok. destruct (queued_cases _ _ _ _ Htok) as [(-> & _)|[(-> & _)|(_ & Hl)]]; [done..|].
    exfalso. apply (proj1 (loose_spec _ _ _ _ _ HR Htm Hl) (hr_base tm)). rewrite HQ. by left. }
  destruct (run_one_wf s t tm w s2 restart s3 ltac:(by exists Q) Htm Hq Hrem Hcall y s4 Hupd) as [Hw4 (tm4 & Htm4 & Hb4)].
  destruct (bool_decide _); cbn [fwhen] in Hone; [|by injection Hone as _ <-]. rewrite (bind_run _ _ _ _ _ (timer_run s4 t tm4 Htm4)) in Hone.
  destruct (hrtimer_active tm4) eqn:Hact; [done|]. rewrite <- Hb4 in Hone. eapply enqueue_wf; [exact Hw4|exact Htm4|by apply inactive_loose|exact Hone].
Qed.

(** ** Everything that happens to the queues *)

Inductive event s : hrs -> Prop :=
  | ev_api s' : api s s' -> event s s'
  | ev_softirq fuel s' : run_hrtimer_softirq call fuel s = Some (tt, s') -> event s s'
  | ev_tick fuel s' : hrtimer_run_queues call fuel (mret false) s = Some (tt, s') -> event s s'
  | ev_hres code r s' : hrtimer_switch_to_hres (mret code) (mret tt) s = Some (r, s') -> event s s'.

Lemma tick_wf fuel s x s' : wf s -> hrtimer_run_queues call fuel (mret false) s = Some (x, s') -> wf s'.
Proof.
  intros Hw Hrun. unfold hrtimer_run_queues in Hrun. erewrite bind_run in Hrun by reflexivity. destruct (hres_active s); [by injection Hrun as _ <-|].
  erewrite bind_run in Hrun by reflexivity. apply Sf_bind_Some in Hrun as (y & s1 & Htime & Hrun). assert (wf s1) as Hw1.
  { unfold hrtimer_get_softirq_time in Htime. erewrite bind_run in Htime by reflexivity. erewrite bind_run in Htime by reflexivity.
    apply Sf_bind_Some in Htime as (? & s0 & H1%upd_base_wf & H2%upd_base_wf); done. }
  apply Sf_bind_Some in Hrun as (z & s2 & Hq0%queue_wf & Hq1); [|unfold CLOCK_REALTIME; lia|done]. eapply queue_wf; [|exact Hq0|exact Hq1]. unfold CLOCK_MONOTONIC. lia.
Qed.

Lemma switch_wf code s r s' : wf s -> hrtimer_switch_to_hres (mret code) (mret tt) s = Some (r, s') -> wf s'.
Proof.
  intros Hw Hrun. unfold hrtimer_switch_to_hres in Hrun. erewrite bind_run in Hrun by reflexivity. destruct (hres_active s); [by injection Hrun as _ <-|].
  erewrite bind_run in Hrun by reflexivity. destruct (negb _); [by injection Hrun as _ <-|]. erewrite bind_run in Hrun by reflexivity.
  assert (wf (set_hres true s)) as Hw0 by (by apply (wf_ext s)).
  apply Sf_bind_Some in Hrun as (? & s1 & H1%upd_base_wf & Hrun); [|done|done]. apply Sf_bind_Some in Hrun as (? & s2 & H2%upd_base_wf & Hrun); [|done|done].
  erewrite bind_run in Hrun by reflexivity. apply Sf_bind_Some in Hrun as (? & s3 & H3%retrigger_wf & Hrun); [|done]. by injection Hrun as _ <-.
Qed.

Lemma event_wf s s' : wf s -> event s s' -> wf s'.
Proof. intros Hw Hev. destruct Hev; [by eapply api_wf|by eapply softirq_wf|by eapply tick_wf|by eapply switch_wf]. Qed.

Lemma init_cpu_wf low_res d : wf (init_hrtimers_cpu low_res d).
Proof.
  exists (λ _, []). split; [split; [done|]; intros i b Hb|].
  - assert (b = ClockBase 0 0 low_res 0 0) as -> by (destruct i as [|[|i]]; [by injection Hb as <-|by injection Hb as <-|done]). split; [apply holds_nil|done].
  - split; [intros t tm Ht; change ((∅ : gmap Z hrtimer) !! t = Some tm) in Ht; by rewrite lookup_empty in Ht|by intros i t ?%elem_of_nil|by intros t ?%elem_of_nil|constructor|constructor|constructor].
Qed.
End Events.
End Start.
End Queues.
