(* ===== verification/HrtimerSpec.v ===== *)
(** What kernel/hrtimer.c guarantees: the invariant of the queues, the contract
    of starting and cancelling a timer and of the interrupt, with what the
    event device is told; and the event that the softirq loses. *)

From stdpp Require Import functions.
From S2P Require Import Prelude.
From S2P Require Import Ktime.
From S2P Require Import Rbtree.
From S2P Require Import RbtreeRep.
From S2P Require Import RbtreeOk.
From S2P Require Import Hrtimer.
From S2P Require Import HrtimerOk.

Section Contract.
Context {D : Type} `{TickDevOk D}.
Abbreviation hrs := (hrtimer_cpu_base D).
Context (call : Z -> Sf hrs hrtimer_restart) (eff : Z -> hrtimer_cb_mode -> Z -> D -> hrtimer_restart * Z * D).
Context `{HL : !LockedCalls call eff}.
Implicit Types (s : hrs) (Q : nat -> list Z).

(** C7: in every state that starting, cancelling, initialising and forwarding
    timers, the interrupt, the softirq, the tick, setting the clock and the
    switch to high-resolution mode can lead to, in any order and with timer
    functions that themselves do any of this, each clock has a red-black tree
    in memory of exactly the timers marked as enqueued on it, in the order of
    their expiry times, [first] points to the first of them, and the callback
    list holds exactly the timers marked as pending. *)
Theorem hrtimer_queue_invariant `{!SoftCalls call} low_res (d : D) s :
  rtc (event call) (init_hrtimers_cpu low_res d) s -> ∃ Q, hr_ok Q s.
Proof.
  intros Hrtc. assert (wf (init_hrtimers_cpu low_res d)) as Hw by apply init_cpu_wf. revert Hw.
  induction Hrtc as [s|s1 s2 s3 Hev _ IH]; [done|]. intros Hw. apply IH. by eapply (event_wf call eff).
Qed.

(** C8: hrtimer_start takes the timer off whatever queue it is on, and puts it
    behind all timers of its clock that expire no later, ahead of the others,
    which keep their order; it tells whether the timer was queued.  The time asked
    for is absolute, or counted from what the clock of the timer shows.  The
    event device: if the timer was first of its clock, in high-resolution mode, the
    device is told, by force, the first event of the remaining timers; then, if
    the timer comes first of its clock in its new place and its event is earlier than
    expires_next, the device is told this event and expires_next is it; otherwise
    neither changes.  So expires_next stays no later than the first timer of both
    clocks, unless the function of the timer is running.  If the device refuses the
    event, and only then, the timer is not queued: it goes to the callback
    list and the softirq is raised, its function runs at once, or it is left to
    the caller, by its mode, and expires_next is unchanged. *)
Theorem hrtimer_start_correct Q s t tm tim mode : hr_ok Q s -> hrtimers s !! t = Some tm ->
  ∃ s1 e d s', let tm1 := set_to e tm in let P := filter (λ x, x <> t) (cb_pending s) in let x := event_at s tm e in let s2 := set_hr_dev d s1 in
    remove_hrtimer t (hr_base tm) s = Some (Z.b2z (hrtimer_is_queued tm), s1) ∧ hr_ok (without t Q) s1 ∧ removed_dev Q t tm s s1 ∧
    expiry (hr_base tm) mode tim (hr_dev s1) e d ∧
    hrtimer_start call t tim mode s = Some (Z.b2z (hrtimer_is_queued tm), s') ∧ same_clocks s s' ∧
    (hrtimer_callback_running tm = false -> next_covers s -> next_covers s') ∧
    ((∃ A B, place (hrtimers s) e (without t Q (hr_base tm)) A B ∧ hr_ok (<[hr_base tm := A ++ t :: B]> (without t Q)) s' ∧
        hrtimers s' = <[t := with_state (Z.lor (hr_state tm1) HRTIMER_STATE_ENQUEUED) tm1]> (hrtimers s) ∧ cb_pending s' = P ∧
        softirq_raised s' = softirq_raised s ∧ enqueued_dev s2 tm1 x true A s') ∨
     ((∀ y, y ∈ without t Q (hr_base tm) -> e < key (hrtimers s) y) ∧ hr_ok (without t Q) s' ∧ expires_next s' = expires_next s1 ∧
        ∃ d1, refused s2 tm1 x d1 ∧ handled eff t tm1 P (<[t := tm1]> (hrtimers s)) d1 s')).
Proof. apply (start_ok call eff). Qed.

(** Cancelling a timer whose function is not running. *)
Lemma cancel_ok Q s t tm : hr_ok Q s -> hrtimers s !! t = Some tm -> hrtimer_callback_running tm = false ->
  ∃ s', hrtimer_try_to_cancel t s = Some (Z.b2z (hrtimer_is_queued tm), s') ∧
     hr_ok (without t Q) s' ∧ hrtimers s' = <[t := idle_now tm]> (hrtimers s) ∧ hr_state (idle_now tm) = HRTIMER_STATE_INACTIVE ∧
     cb_pending s' = filter (λ x, x <> t) (cb_pending s) ∧ (next_covers s -> next_covers s') ∧ removed_dev Q t tm s s'.
Proof.
  intros Hok Htm Hcb. pose proof Hok as [_ HR]. destruct (remove_ok Q s t tm Hok Htm) as (s' & Hrun & Hok' & Ht & Hl & HP & _ & _ & Ha & Hd). exists s'.
  unfold hrtimer_try_to_cancel. rewrite (bind_run _ _ _ _ _ (timer_run s t tm Htm)), Hcb. split_and!; try done.
  pose proof (to_state _ _ _ _ (reg_at _ _ _ _ _ HR Htm)). unfold idle_now, hrtimer_is_queued, hrtimer_callback_running in *.
  assert (hr_state tm = 0 ∨ hr_state tm = 1 ∨ hr_state tm = 2 ∨ hr_state tm = 3 ∨ hr_state tm = 4) as [E|[E|[E|[E|E]]]] by lia; by rewrite E in *.
Qed.

(** What starting an idle timer leaves. *)
Lemma start_idle Q s t tm tim mode : hr_ok Q s -> hrtimers s !! t = Some tm -> hr_state tm = HRTIMER_STATE_INACTIVE ->
  ∃ s1 Q1 tm1, hrtimer_start call t tim mode s = Some (0, s1) ∧ hr_ok Q1 s1 ∧ (∀ j, without t Q1 j = Q j) ∧
    hrtimers s1 !! t = Some tm1 ∧ hrtimer_callback_running tm1 = false ∧
    filter (λ x, x <> t) (cb_pending s1) = cb_pending s ∧ (∀ x, x <> t -> hrtimers s1 !! x = hrtimers s !! x).
Proof.
  intros Hok Htm Hst. pose proof Hok as [_ HR].
  assert (loose tm) as Hl by (unfold loose, enqueued; by rewrite Hst). destruct (loose_spec _ _ _ _ _ HR Htm Hl) as [HnQ HnP].
  assert (∀ j, without t Q j = Q j) as HQ by (intros j; by apply filter_notin_id).
  assert (∀ e, set_to e tm = with_expires e tm) as Hset by (intros e; unfold set_to, idle_now, hrtimer_is_queued; by rewrite Hst).
  destruct (start_ok call eff Q s t tm tim mode Hok Htm) as (s0 & e & d & s1 & _ & _ & _ & _ & Hrun & _ & _ & Hcase). rewrite Hset in Hcase.
  replace (hrtimer_is_queued tm) with false in Hrun by (unfold hrtimer_is_queued; by rewrite Hst). rewrite filter_notin_id in Hcase by done. exists s1.
  destruct Hcase as [(A & B & (HAB & _) & Hok1 & Ht1 & HP1 & _)|(_ & Hok1 & _ & d1 & _ & Hh)].
  - eexists _, _. split_and!; [done|exact Hok1| |rewrite Ht1; apply lookup_insert_eq|cbn; by rewrite Hst|by rewrite HP1, filter_notin_id|intros x Hx; rewrite Ht1; by apply lookup_insert_ne].
    intros j. rewrite <- (without_split _ _ _ (hr_base tm) t A B (proj2 Hok1)) by apply fn_lookup_insert. rewrite <- HQ.
    destruct (decide (j = hr_base tm)) as [->|]; [by rewrite fn_lookup_insert|by rewrite !fn_lookup_insert_ne].
  - apply handled_timer in Hh as (Ho & tm1 & Htm1 & Hs1); [|apply lookup_insert_eq]. exists (without t Q), tm1. split_and!; [done|done| |done| | |].
    + intros j. unfold without at 1. rewrite filter_notin_id; [apply HQ|]. rewrite HQ. apply HnQ.
    + unfold hrtimer_callback_running. destruct Hs1 as [[-> _]|[-> _]]; [cbn; by rewrite Hst|done].
    + destruct Hs1 as [[_ ->]|[_ ->]]; [by apply filter_notin_id|]. rewrite filter_app, filter_cons_False by (intros Hc; by apply Hc). by rewrite filter_notin_id, app_nil_r.
    + intros x Hx. rewrite Ho by done. by apply lookup_insert_ne.
Qed.

(** C10: hrtimer_try_to_cancel refuses a timer whose function is running, and
    changes nothing; otherwise it takes the timer off its queue or the callback
    list, leaves the other timers in their order, and tells whether the timer was
    queued.  If the timer was first of its clock, in high-resolution mode,
    expires_next becomes the time of the first of the remaining timers and the event
    device is told this time, by force (if there is no timer it is left alone);
    otherwise neither changes.  Starting an idle timer and cancelling it gives the
    queues, the callback list and all other timers back, also when the device
    refused the event and the timer went to the callback list or ran. *)
Theorem hrtimer_cancel_correct Q s t tm : hr_ok Q s -> hrtimers s !! t = Some tm ->
  (hrtimer_callback_running tm = true -> hrtimer_try_to_cancel t s = Some (- 1, s)) ∧
  (hrtimer_callback_running tm = false -> ∃ s', hrtimer_try_to_cancel t s = Some (Z.b2z (hrtimer_is_queued tm), s') ∧
     hr_ok (without t Q) s' ∧ hrtimers s' = <[t := idle_now tm]> (hrtimers s) ∧ hr_state (idle_now tm) = HRTIMER_STATE_INACTIVE ∧
     cb_pending s' = filter (λ x, x <> t) (cb_pending s) ∧ (next_covers s -> next_covers s') ∧ removed_dev Q t tm s s') ∧
  (hr_state tm = HRTIMER_STATE_INACTIVE -> ∀ tim mode, ∃ s1 tm1 s2,
     hrtimer_start call t tim mode s = Some (0, s1) ∧ hrtimers s1 !! t = Some tm1 ∧
     hrtimer_try_to_cancel t s1 = Some (Z.b2z (hrtimer_is_queued tm1), s2) ∧ hr_ok Q s2 ∧ cb_pending s2 = cb_pending s ∧
     (∀ x, x <> t -> hrtimers s2 !! x = hrtimers s !! x) ∧ hr_state <$> hrtimers s2 !! t = Some HRTIMER_STATE_INACTIVE).
Proof.
  intros Hok Htm. split_and!.
  - intros Hcb. unfold hrtimer_try_to_cancel. by rewrite (bind_run _ _ _ _ _ (timer_run s t tm Htm)), Hcb.
  - by apply cancel_ok.
  - intros Hst tim mode. destruct (start_idle Q s t tm tim mode Hok Htm Hst) as (s1 & Q1 & tm1 & Hrun & Hok1 & HQ & Htm1 & Hcb & HP & Ho).
    destruct (cancel_ok Q1 s1 t tm1 Hok1 Htm1 Hcb) as (s2 & Hrun2 & Hok2 & Ht2 & Hi & HP2 & _). exists s1, tm1, s2.
    split_and!; [done..|by apply (hr_ok_eq (without t Q1))|by rewrite HP2| |].
    + intros x Hx. rewrite Ht2, lookup_insert_ne by done. by apply Ho.
    + rewrite Ht2, lookup_insert_eq. cbn. by rewrite Hi.
Qed.

(** C9: the timer interrupt.  Exactly the timers of both clocks that have
    expired are taken off their queues; those for the softirq are put on the callback list, in the order of their
    expiry times, and the softirq is raised; the functions of the others run,
    once each and in that order, and those that ask for it are queued again; all
    other timers are untouched.  Then no queued timer has expired; the event of the first
    one is computed, and if there is none or the device takes it the interrupt
    returns with the device told this time, which is expires_next.  The loops end after one round per
    expired timer, provided the functions that restart their timer, in the states
    [G] that the functions keep, set it to a later time. *)
Theorem hrtimer_interrupt_correct (G : D -> Prop) Q s now d0 fuel tries : hr_ok Q s -> hres_active s = true ->
  ktime_get (forget_event (hr_dev s)) = Some (now, d0) -> G d0 -> (∀ i, (length (Q i) <= fuel)%nat) ->
  (∀ i t c e d, t ∈ Q i -> G d -> G (eff t c e d).2 ∧ ((eff t c e d).1.1 = HRTIMER_RESTART -> now_of s now i < (eff t c e d).1.2)) ->
  let l := all_expired Q s now in
  let d1 := run_all eff (hrtimers s) d0 (filter (λ x, ¬ soft (hrtimers s) x) l) in
  ∃ Q' s1, hr_ok Q' s1 ∧ next_covers s1 ∧ expires_next s1 = soonest s1 ∧ (∀ i x, x ∈ Q' i -> now_of s now i < key (hrtimers s1) x) ∧
    cb_pending s1 = cb_pending s ++ filter (soft (hrtimers s)) l ∧
    softirq_raised s1 = softirq_raised s || bool_decide (filter (soft (hrtimers s)) l <> []) ∧
    (∀ x, x ∉ l -> hrtimers s1 !! x = hrtimers s !! x) ∧ hr_dev s1 = d1 ∧
    (expires_next s1 = KTIME_MAX -> hrtimer_interrupt call (S tries) fuel s = Some (tt, s1)) ∧
    (∀ d2, expires_next s1 <> KTIME_MAX -> tick_program_event (expires_next s1) false d1 = Some (0, d2) ->
       hrtimer_interrupt call (S tries) fuel s = Some (tt, set_hr_dev d2 s1)).
Proof. apply (interrupt_ok call eff). Qed.

(** ** The lost event *)

(** The state in which the softirq calls the function of [t]. *)
Definition taken t tm s : hrs :=
  set_timers (<[t := with_state HRTIMER_STATE_CALLBACK tm]> (hrtimers s)) (set_pending (filter (λ x, x <> t) (cb_pending s)) s).

Lemma taken_ok Q s t tm : hr_ok Q s -> hrtimers s !! t = Some tm -> hr_state tm = HRTIMER_STATE_PENDING -> hr_ok Q (taken t tm s).
Proof. intros [HT HR] Htm Hst. split; [exact HT|]. cbn. by apply reg_unpend. Qed.

(** The function restarts its timer ahead of all others: the timer is first of
    its clock, and the event device is not asked. *)
Lemma restart_running Q s t tm tim r s1 : hr_ok Q s -> hrtimers s !! t = Some tm -> hr_state tm = HRTIMER_STATE_CALLBACK ->
  (∀ y, y ∈ Q (hr_base tm) -> tim < key (hrtimers s) y) -> hrtimer_start call t tim HRTIMER_MODE_ABS s = Some (r, s1) ->
  hr_ok (<[hr_base tm := t :: Q (hr_base tm)]> Q) s1 ∧ same_clocks s s1 ∧
  hrtimers s1 = <[t := with_state (Z.lor HRTIMER_STATE_CALLBACK HRTIMER_STATE_ENQUEUED) (with_expires tim tm)]> (hrtimers s) ∧
  cb_pending s1 = cb_pending s ∧ softirq_raised s1 = softirq_raised s ∧ expires_next s1 = expires_next s ∧ hr_dev s1 = hr_dev s.
Proof.
  intros Hok Htm Hst Hlt Hrun. pose proof Hok as [_ HR]. assert (loose tm) as Hl by (unfold loose, enqueued; by rewrite Hst).
  destruct (loose_spec _ _ _ _ _ HR Htm Hl) as [HnQ HnP]. assert (okp t) as [Ht0 _] by apply (reg_at _ _ _ _ _ HR Htm).
  assert (∀ j, without t Q j = Q j) as HQ by (intros j; by apply filter_notin_id).
  assert (set_to tim tm = with_expires tim tm) as Hset by (unfold set_to, idle_now, hrtimer_is_queued; by rewrite Hst).
  assert (hrtimer_callback_running (set_to tim tm) = true) as Hcb by (rewrite Hset; unfold hrtimer_callback_running; cbn; by rewrite Hst).
  destruct (start_ok call eff Q s t tm tim HRTIMER_MODE_ABS Hok Htm) as (s0 & e & d & s' & Hrem & Hok0 & Hd0 & [-> ->] & Hrun' & Hc & _ & Hcase).
  rewrite Hrun' in Hrun. injection Hrun as _ <-. unfold removed_dev in Hd0. rewrite bool_decide_false, andb_false_r in Hd0
    by (specialize (HnQ (hr_base tm)); destruct (Q (hr_base tm)); cbn; [lia|set_solver]). destruct Hd0 as [He0 Hd0].
  rewrite HQ in Hcase. rewrite filter_notin_id in Hcase by done.
  destruct Hcase as [(A & B & (HAB & HA & _) & Hok1 & Ht1 & HP1 & Hr1 & Hdev)|(_ & _ & _ & d1 & [Hf _] & _)].
  - assert (A = []) as ->.
    { destruct A as [|y A]; [done|]. specialize (HA y ltac:(by left)). specialize (Hlt y ltac:(rewrite HAB; by left)). lia. }
    cbn [app] in *. subst B. unfold enqueued_dev, accepted, first_event in Hdev. rewrite Hcb, andb_false_r in Hdev. cbn in Hdev. destruct Hdev as [He Hd].
    split_and!; [|done|by rewrite Ht1, Hset; cbn; rewrite Hst|done..|by rewrite He|by rewrite Hd].
    eapply hr_ok_eq; [|exact Hok1]. intros j. destruct (decide (j = hr_base tm)) as [->|]; [by rewrite !fn_lookup_insert|by rewrite !fn_lookup_insert_ne].
  - unfold first_event in Hf. by rewrite Hcb, andb_false_r in Hf.
Qed.

(** The softirq runs the function of [t], finds the timer queued and first, and
    does not mind that the device refuses its event. *)
Lemma softirq_refused s t tm s1 tm1 b c d : hrtimers s !! t = Some tm -> hr_state tm = HRTIMER_STATE_PENDING ->
  call t (taken t tm s) = Some (HRTIMER_NORESTART, s1) -> hrtimers s1 !! t = Some tm1 ->
  hr_state tm1 = Z.lor HRTIMER_STATE_CALLBACK HRTIMER_STATE_ENQUEUED -> clock_base s1 !! hr_base tm1 = Some b -> first b = t ->
  let x := ktime_sub (hr_expires tm1) (offset b) in
  x < expires_next s1 -> tick_program_event x false (hr_dev s1) = Some (c, d) -> c <> 0 ->
  softirq_timer call t s = Some (tt, set_hr_dev d (set_timers (<[t := with_state HRTIMER_STATE_ENQUEUED tm1]> (hrtimers s1)) s1)).
Proof.
  intros Htm Hst Hcall Htm1 Hst1 Hb Hfst x Hx Hp Hc. set (tm2 := with_state HRTIMER_STATE_ENQUEUED tm1). set (s2 := set_timers (<[t := tm2]> (hrtimers s1)) s1).
  assert (hrtimers s2 !! t = Some tm2) as Htm2 by apply lookup_insert_eq.
  destruct (reprogram_run s2 t tm2 (hr_base tm1) b Htm2 Hb) as (c' & e & d' & Hrep & Hout). change (hr_expires tm2) with (hr_expires tm1) in Hout. fold x in Hout.
  change (hr_dev s2) with (hr_dev s1) in Hout. change (expires_next s2) with (expires_next s1) in Hout. rewrite (proj2 (Z.ltb_lt _ _) Hx) in Hout. cbn in Hout.
  rewrite Hp in Hout. destruct Hout as [[= <- <-] ->]. destruct (Z.eqb_spec c 0) as [?|_]; [done|].
  unfold softirq_timer. rewrite (bind_run _ _ _ _ _ (timer_run s t tm Htm)), (bind_run _ _ _ _ _ (remove_pending s t tm _ false Htm Hst)).
  fold (taken t tm s). rewrite (bind_run _ _ _ _ _ Hcall), (bind_run _ _ _ _ _ (upd_timer_run s1 t tm1 _ Htm1)), Hst1.
  change (set_timers _ s1) with s2. rewrite (bind_run _ _ s2 tm2 s2) by (by apply timer_run). rewrite bool_decide_false by done.
  change (hrtimer_active tm2) with true. cbn [fwhen]. rewrite (bind_run _ _ s2 b s2) by (by apply base_run). rewrite Hfst, Z.eqb_refl. cbn [fwhen].
  rewrite (bind_run _ _ _ _ _ Hrep). by destruct s1.
Qed.

End Contract.

(** * A concrete system *)

Module HrDemo.

(** A clock that stands still at [d_now], an event device, which refuses events
    that are not in the future if it is [d_strict], and a log of the functions
    that ran. *)
Record dev := Dev { d_now : Z; d_event : Z; d_strict : bool; d_log : list Z }.

#[export] Instance dev_tick : TickDev dev := {
  tick_program_event e force d :=
    if d_strict d && (e <=? d_now d) then
      (if force then Some (0, Dev (d_now d) (d_now d + 1000) (d_strict d) (d_log d)) else Some (- ETIME, d))
    else Some (0, Dev (d_now d) e (d_strict d) (d_log d));
  forget_event d := Dev (d_now d) KTIME_MAX (d_strict d) (d_log d);
  ktime_get d := Some (d_now d, d);
  ktime_get_real d := Some (d_now d, d);
  current_kernel_time d := (0, d_now d);
  wall_to_monotonic _ := (0, 0);
}.

#[export] Instance dev_tick_ok : TickDevOk dev.
Proof.
  split; intros; cbn.
  - destruct (_ && _); [destruct f|]; eexists _, _; (split; [reflexivity|]); [by left|right; vm_compute; split; congruence|by left].
  - by eexists _, _.
  - by eexists _, _.
Qed.

Abbreviation hrs := (hrtimer_cpu_base dev).

(** Functions log their timer; those that may restart do so 100 later. *)
Definition eff (t : Z) (c : hrtimer_cb_mode) (e : Z) (d : dev) : hrtimer_restart * Z * dev :=
  (if decide (c = HRTIMER_CB_IRQSAFE_NO_RESTART) then HRTIMER_NORESTART else HRTIMER_RESTART, d_now d + 100, Dev (d_now d) (d_event d) (d_strict d) (d_log d ++ [t])).
Definition call (t : Z) : Sf hrs hrtimer_restart := λ s,
  match hrtimers s !! t with
  | Some tm =>
      if decide (cb_mode tm = HRTIMER_CB_SOFTIRQ) then Some (HRTIMER_NORESTART, s)
      else let '(r, e, d) := eff t (cb_mode tm) (hr_expires tm) (hr_dev s) in
           Some (r, set_hr_dev d (set_timers (<[t := with_expires e tm]> (hrtimers s)) s))
  | None => None
  end.

#[export] Instance call_locked : LockedCalls call eff.
Proof.
  split.
  - intros t s tm Htm Hm. unfold call. rewrite Htm. by rewrite decide_False.
  - intros t s tm Htm Hm. unfold eff. by rewrite decide_True.
Qed.

#[export] Instance call_soft : SoftCalls call.
Proof.
  split; intros t s tm r s' Htm Hm; unfold call; rewrite Htm, decide_True by done; intros [= <- <-]; [done|by exists tm].
Qed.

(** Timers 8 and 16 of the monotonic clock, started for 50 and 40; 24, of the
    softirq, for 45; all before the switch to high-resolution mode. *)
Definition run {A} (m : Sf hrs A) (s : hrs) : hrs := match m s with Some (_, s') => s' | None => s end.
Definition mode_at (t : Z) (c : hrtimer_cb_mode) (s : hrs) : hrs :=
  match hrtimers s !! t with Some tm => set_timers (<[t := Hrtimer (hr_expires tm) (hr_base tm) (hr_state tm) c]> (hrtimers s)) s | None => s end.
Definition s0 : hrs := init_hrtimers_cpu 10000000 (Dev 10 0 true []).
Definition s1 : hrs := mode_at 8 HRTIMER_CB_IRQSAFE (run (hrtimer_init 8 1 HRTIMER_MODE_ABS) s0).
Definition s2 : hrs := mode_at 16 HRTIMER_CB_IRQSAFE (run (hrtimer_init 16 1 HRTIMER_MODE_ABS) s1).
Definition s3 : hrs := run (hrtimer_init 24 1 HRTIMER_MODE_ABS) s2.
Definition s4 : hrs := run (hrtimer_start call 8 50 HRTIMER_MODE_ABS) s3.
Definition s5 : hrs := run (hrtimer_start call 16 40 HRTIMER_MODE_ABS) s4.
Definition s6 : hrs := run (hrtimer_start call 24 45 HRTIMER_MODE_ABS) s5.
Definition s7 : hrs := run (hrtimer_switch_to_hres (mret 0) (mret tt)) s6.

Example s7_view : (first <$> clock_base s7, expires_next s7, hres_active s7) = ([0; 16], 40, true).
Proof. by vm_compute. Qed.

Definition returns {A} (m : Sf hrs A) (s : hrs) : bool := match m s with Some _ => true | None => false end.
Lemma run_Some {A} (m : Sf hrs A) s : returns m s = true -> ∃ x, m s = Some (x, run m s).
Proof. unfold returns, run. destruct (m s) as [[x s']|]; [by exists x|done]. Qed.

Lemma init_step s t c m : returns (hrtimer_init t c m) s = true -> okp t -> t < 2 ^ 32 -> (c < 2)%nat -> hrtimers s !! t = None ->
  event call s (run (hrtimer_init t c m) s).
Proof.
  intros [[] Hr]%run_Some Ht Hw Hc Hn. apply ev_api. eapply api_init; [exact Ht|exact Hw|exact Hc| |exact Hr]. intros tm Htm. by rewrite Hn in Htm.
Qed.

Lemma start_step s t e m : returns (hrtimer_start call t e m) s = true -> event call s (run (hrtimer_start call t e m) s).
Proof. intros [x Hr]%run_Some. apply ev_api. by eapply api_start. Qed.

Lemma mode_step s t c tm : hrtimers s !! t = Some tm -> loose tm -> event call s (mode_at t c s).
Proof. intros Htm Hl. unfold mode_at. rewrite Htm. apply ev_api. by apply (api_write call s t tm (hr_expires tm) c). Qed.

Definition fresh : hrtimer := Hrtimer 0 1 HRTIMER_STATE_INACTIVE HRTIMER_CB_SOFTIRQ.

(** A new timer that runs in interrupt context. *)
Lemma irqsafe_steps s t : okp t -> t < 2 ^ 32 -> hrtimers s !! t = None ->
  rtc (event call) s (mode_at t HRTIMER_CB_IRQSAFE (run (hrtimer_init t 1 HRTIMER_MODE_ABS) s)).
Proof.
  intros Ht Hw Hn. eapply rtc_l; [apply (init_step s t 1 HRTIMER_MODE_ABS); [done|done|done|lia|done]|]. apply rtc_once, (mode_step _ _ _ fresh); [|done].
  change (<[t := fresh]> (hrtimers s) !! t = Some fresh). apply lookup_insert_eq.
Qed.

Lemma s3_reached : rtc (event call) s0 s3.
Proof.
  transitivity s1; [apply irqsafe_steps; by vm_compute|]. transitivity s2; [apply irqsafe_steps; by vm_compute|].
  apply rtc_once, init_step; [by vm_compute..|lia|by vm_compute].
Qed.

Lemma s7_reached : rtc (event call) s0 s7.
Proof.
  transitivity s3; [exact s3_reached|]. apply (rtc_l _ _ s4); [apply start_step; by vm_compute|].
  apply (rtc_l _ _ s5); [apply start_step; by vm_compute|]. apply (rtc_l _ _ s6); [apply start_step; by vm_compute|].
  apply rtc_once. destruct (run_Some (hrtimer_switch_to_hres (mret 0) (mret tt)) s6) as [r Hr]; [by vm_compute|]. by apply (ev_hres call s6 0 r).
Qed.

Lemma hrtimer_queue_invariant_witness : ∃ Q, hr_ok Q s7.
Proof. apply (hrtimer_queue_invariant call eff 10000000 (Dev 10 0 true []) s7). exact s7_reached. Defined.

(** The same queue, written out: 16 and 8 are the children of 24. *)
Definition tm_at (e : Z) (c : hrtimer_cb_mode) : hrtimer := Hrtimer e 1 HRTIMER_STATE_ENQUEUED c.
Definition waiting (now : Z) : hrs :=
  CpuBase {[ 24 := RbNode 1 8 16; 16 := RbNode 24 0 0; 8 := RbNode 24 0 0 ]}
    {[ 24 := tm_at 45 HRTIMER_CB_SOFTIRQ; 16 := tm_at 40 HRTIMER_CB_IRQSAFE; 8 := tm_at 50 HRTIMER_CB_IRQSAFE ]}
    [ClockBase 0 0 1 0 0; ClockBase 24 16 1 0 0] 40 true [] 0 false (Dev now 40 false []).
Definition Q3 (i : nat) : list Z := if decide (i = 1%nat) then [16; 24; 8] else [].
Definition T3 : tree := Node true 24 (Node false 16 Leaf Leaf) (Node false 8 Leaf Leaf).

Lemma waiting_holds now : holds (Rbs 24 (nodes (waiting now))) [16; 24; 8].
Proof.
  exists T3, 1%nat. split_and!; [split; [done|split; [repeat split; reflexivity|]]|eapply rb_black; apply rb_red; apply rb_leaf|done].
  split; [apply (bool_decide_unpack _); by vm_compute|]. repeat (apply Forall_cons; split; [by vm_compute|]). by apply Forall_nil.
Qed.

Lemma waiting_timer now t tm : hrtimers (waiting now) !! t = Some tm ->
  (t = 24 ∧ tm = tm_at 45 HRTIMER_CB_SOFTIRQ) ∨ (t = 16 ∧ tm = tm_at 40 HRTIMER_CB_IRQSAFE) ∨ (t = 8 ∧ tm = tm_at 50 HRTIMER_CB_IRQSAFE).
Proof.
  cbn. rewrite !lookup_insert_Some, lookup_singleton_Some. naive_solver.
Qed.

Lemma three_queued_ok now : hr_ok Q3 (waiting now).
Proof.
  split; [split; [done|]|split].
  - intros [|[|i]] b [= <-]; [split; [apply holds_nil|done]|split; [apply waiting_holds|done]].
  - intros t tm Ht. apply waiting_timer in Ht. 
    assert (okp t ∧ t < 2 ^ 32 ∧ t ∈ [16; 24; 8] ∧ hr_base tm = 1%nat ∧ hr_state tm = 1) as (Hp & Hw & Hin & Hb & Hs).
    { destruct Ht as [[-> ->]|[[-> ->]|[-> ->]]]; (split_and!; [by vm_compute|by vm_compute|set_solver|done..]). }
    split; [done|done|lia|lia| |].
    + intros i. unfold Q3, enqueued. rewrite Hb, Hs. case_decide; [naive_solver|]. rewrite elem_of_nil. naive_solver.
    + rewrite Hs. cbn. rewrite elem_of_nil. done.
  - intros i t Hin. unfold Q3 in Hin. case_decide; [|by apply elem_of_nil in Hin]. rewrite !elem_of_cons, elem_of_nil in Hin.
    destruct Hin as [->|[->|[->|[]]]]; by eexists.
  - by intros t ?%elem_of_nil.
  - intros i. unfold Q3. case_decide; [|constructor]. apply (bool_decide_unpack _). by vm_compute.
  - constructor.
  - intros i. unfold Q3. case_decide; [|constructor]. repeat (constructor; [|repeat constructor; by vm_compute]). constructor.
Qed.

Lemma waiting_covers now : next_covers (waiting now).
Proof. intros _ [|[|i]] e Hd; [done| |done]. injection Hd as <-. by vm_compute. Qed.

(** 16, first of the queue, is put off, and the device is told the event of 24. *)
Lemma hrtimer_start_correct_witness :
  ∃ s', hrtimer_start call 16 60 HRTIMER_MODE_ABS (waiting 10) = Some (1, s') ∧ next_covers s' ∧ (∃ Q, hr_ok Q s') ∧ d_event (hr_dev s') = 45.
Proof.
  destruct (hrtimer_start_correct call eff Q3 (waiting 10) 16 (tm_at 40 HRTIMER_CB_IRQSAFE) 60 HRTIMER_MODE_ABS (three_queued_ok 10) eq_refl)
    as (s1 & e & d & s' & _ & _ & _ & _ & Hrun & _ & Ha & Hcase).
  exists s'. split; [exact Hrun|]. split; [apply Ha; [reflexivity|apply waiting_covers]|]. split.
  - destruct Hcase as [(A & B & _ & Hok & _)|(_ & Hok & _)]; eexists; exact Hok.
  - assert (run (hrtimer_start call 16 60 HRTIMER_MODE_ABS) (waiting 10) = s') as <- by (unfold run; by rewrite Hrun). by vm_compute.
Defined.

(** 16 is cancelled, and the device is told the event of 24. *)
Lemma hrtimer_cancel_correct_witness :
  ∃ s', hrtimer_try_to_cancel 16 (waiting 10) = Some (1, s') ∧ hr_ok (without 16 Q3) s' ∧ without 16 Q3 1%nat = [24; 8] ∧
    reprogrammed s' (expires_next s') (hr_dev (waiting 10)) (hr_dev s').
Proof.
  destruct (hrtimer_cancel_correct call eff Q3 (waiting 10) 16 (tm_at 40 HRTIMER_CB_IRQSAFE) (three_queued_ok 10) eq_refl) as (_ & Hc & _).
  destruct (Hc eq_refl) as (s' & Hrun & Hok & _ & _ & _ & _ & Hd). exists s'. split; [exact Hrun|]. split; [exact Hok|]. split; [reflexivity|exact Hd].
Defined.

(** At 47 the function of 16 runs and 24 goes to the callback list. *)
Lemma hrtimer_interrupt_correct_witness :
  ∃ s', hrtimer_interrupt call 1 3 (waiting 47) = Some (tt, s') ∧ next_covers s' ∧ cb_pending s' = [24] ∧ softirq_raised s' = true ∧ d_log (hr_dev s') = [16].
Proof.
  destruct (hrtimer_interrupt_correct call eff (λ d, d_now d = 47) Q3 (waiting 47) 47 (Dev 47 KTIME_MAX false []) 3 0 (three_queued_ok 47))
    as (Q' & s1 & _ & Ha & _ & _ & HP & Hr & _ & Hd & Hnone & Hsome).
  - reflexivity.
  - reflexivity.
  - reflexivity.
  - intros i. unfold Q3. case_decide; cbn; lia.
  - intros i t c e d Hin Hd. split; [exact Hd|]. intros _. cbn. rewrite Hd. unfold Q3 in Hin. case_decide; [subst i|by apply elem_of_nil in Hin]. by vm_compute.
  - destruct (decide (expires_next s1 = KTIME_MAX)) as [Hn|Hn].
    + exists s1. split; [exact (Hnone Hn)|]. split; [exact Ha|]. split; [rewrite HP; by vm_compute|]. split; [rewrite Hr; by vm_compute|]. rewrite Hd. by vm_compute.
    + exists (set_hr_dev (Dev 47 (expires_next s1) false [16]) s1). split; [apply Hsome; [exact Hn|reflexivity]|].
      split; [exact Ha|]. split; [change (cb_pending s1 = [24]); rewrite HP; by vm_compute|].
      split; [change (softirq_raised s1 = true); rewrite Hr; by vm_compute|]. reflexivity.
Defined.

(** ** The lost event *)

(** The functions of the softirq restart their timer for time 5. *)
Definition rearm (t : Z) : Sf hrs hrtimer_restart := λ s,
  match hrtimers s !! t with
  | Some tm => if decide (cb_mode tm = HRTIMER_CB_SOFTIRQ) then (hrtimer_start call t 5 HRTIMER_MODE_ABS ;; mret HRTIMER_NORESTART) s else call t s
  | None => None
  end.

#[export] Instance rearm_locked : LockedCalls rearm eff.
Proof.
  split; [|by apply call_locked]. intros t s tm Htm Hm. unfold rearm. rewrite Htm, decide_False by done. by apply call_locked.
Qed.

(** It is time 10, in high-resolution mode; 24 is on the callback list and
    nothing else is queued. *)
Definition tm24 : hrtimer := Hrtimer 8 1 HRTIMER_STATE_PENDING HRTIMER_CB_SOFTIRQ.
Definition late : hrs :=
  CpuBase {[ 24 := RbNode 0 0 0 ]} {[ 24 := tm24 ]}
    [ClockBase 0 0 1 0 0; ClockBase 0 0 1 0 0] KTIME_MAX true [24] 0 true (Dev 10 KTIME_MAX true []).

Lemma late_ok : hr_ok (λ _, []) late.
Proof.
  split; [split; [done|]; intros [|[|i]] b [= <-]; (split; [apply holds_nil|done])|split].
  - intros t tm Ht. cbn in Ht. apply lookup_singleton_Some in Ht as [<- <-]. split; [done|done|cbn; lia|cbn; unfold HRTIMER_STATE_PENDING; lia|intros i; split; [by intros ?%elem_of_nil|by intros [_ ?]]|]. cbn. set_solver.
  - by intros i t ?%elem_of_nil.
  - intros t ->%list_elem_of_singleton. by eexists.
  - constructor.
  - apply NoDup_singleton.
  - constructor.
Qed.

Definition restarted : hrs := run (hrtimer_start rearm 24 5 HRTIMER_MODE_ABS) (taken 24 tm24 late).

End HrDemo.
