(* ===== verification/TickOneshot.v ===== *)
(** kernel/time/tick-oneshot.c: the next event of the high-resolution timers on
    the system timer of timecs.c.

    The time-keeping code is a parameter: the clocks are functions of the state
    of the machine.  The handler of the event device is not part of the model of
    the device and is not set. *)

From S2P Require Import Prelude.
From S2P Require Import Hw.
From S2P Require Import Mp2520fIrq.
From S2P Require Import Mp2520fBoard.
From S2P Require Import Ktime.
From S2P Require Import Clockevent.
From S2P Require Import Hrtimer.

Section Oneshot.
Context {D : Type} `{Bus D}.
Abbreviation ts := (timer_state D).
Context (clock clock_real : D -> Z) (xtime monotonic_offset : D -> Z * Z).

Definition tick_now : Sf ts Z := fget (λ s, clock (timer_dev s)).

(** [while (1)]: the rounds after the first are only made when forced. *)
Fixpoint program_loop (fuel : nat) (expires now : Z) (force : bool) : Sf ts Z :=
  ret ← clockevents_program_event expires now;
  if (ret =? 0) || negb force then mret ret
  else
    match fuel with
    | O => oops
    | S fuel =>
        now ← tick_now;
        c ← fget clockevent_mp2520f;
        program_loop fuel (ktime_add now (ktime_set 0 (min_delta_ns c))) now force
    end.

Definition tick_program_event (fuel : nat) (expires : Z) (force : bool) : Sf ts Z :=
  now ← tick_now; program_loop fuel expires now force.

Definition tick_resume_oneshot (fuel : nat) : Sf ts unit :=
  clockevents_set_mode CLOCK_EVT_MODE_ONESHOT ;;
  now ← tick_now;
  tick_program_event fuel now true ;; mret tt.

Definition tick_setup_oneshot (next : Z) : Sf ts unit :=
  clockevents_set_mode CLOCK_EVT_MODE_ONESHOT ;;
  now ← tick_now;
  clockevents_program_event next now ;; mret tt.

(** The timers' view of this device. *)
#[export] Instance oneshot_tick : TickDev ts := {
  tick_program_event := tick_program_event 2;
  forget_event s := set_evt (set_next_event KTIME_MAX (clockevent_mp2520f s)) s;
  ktime_get := tick_now;
  ktime_get_real := fget (λ s, clock_real (timer_dev s));
  current_kernel_time s := xtime (timer_dev s);
  wall_to_monotonic s := monotonic_offset (timer_dev s);
}.

(** An event that is not forced is taken or refused at once. *)
Lemma set_next_event_runs evt (s : ts) : ∃ r s', mp2520f_set_next_event evt s = Some (r, s') ∧ (r = 0 ∨ r = - ETIME).
Proof.
  unfold mp2520f_set_next_event, io. unfold mbind, Sf_bind. repeat match goal with |- context [let '(_, _) := ?m in _] => destruct m end.
  eexists _, _. split; [reflexivity|]. case_cmp; auto.
Qed.

Lemma program_event_runs expires now (s : ts) : ∃ r s', clockevents_program_event expires now s = Some (r, s') ∧ (r = 0 ∨ r = - ETIME).
Proof.
  unfold clockevents_program_event. destruct (expires <? 0); [eexists _, _; split; [reflexivity|auto]|]. destruct (_ <=? 0); [eexists _, _; split; [reflexivity|auto]|].
  erewrite bind_run by reflexivity. erewrite bind_run by reflexivity. case_bool_decide; [eexists _, _; split; [reflexivity|auto]|]. cbv zeta. apply set_next_event_runs.
Qed.

Lemma tick_unforced fuel expires (s : ts) : ∃ r s', tick_program_event fuel expires false s = Some (r, s') ∧ (r = 0 ∨ r = - ETIME).
Proof.
  destruct (program_event_runs expires (clock (timer_dev s)) s) as (r & s' & Hrun & Hr).
  exists r, s'. split; [|done]. unfold tick_program_event. erewrite bind_run by reflexivity.
  destruct fuel; cbn [program_loop]; rewrite (bind_run _ _ _ _ _ Hrun); by rewrite orb_true_r.
Qed.
End Oneshot.

Section OneshotSpec.
Context {D : Type} `{TimerRegs D}.
Abbreviation ts := (timer_state D).
Context (clock : D -> Z).

(** The counter runs at most 13 ticks while a match value is written. *)
Definition slow_counter : Prop := ∀ (d : D) v, u32 (eval (rd TCOUNT) (exec (wr TMATCH0 v) (exec (rd TCOUNT) d)) - eval (rd TCOUNT) d) <= 13.

(** The smallest delay of the device is at least 13 ticks. *)
Lemma min_delay_ticks p c ticks : clockevent_ready p c -> 28356 <= p < 250000000 -> min_delta_ns c * p < (ticks + 2) * NSEC_PER_SEC -> 13 <= ticks.
Proof.
  intros (_ & _ & _ & ->) Hp. pose proof (evt_mult_range p Hp) as Hm. pose proof (evt_mult_bounds p ltac:(unfold NSEC_PER_SEC; lia)) as Hb.
  unfold NSEC_PER_SEC, LONG_MAX in *. set (m := evt_mult p) in *. set (q := 15 * 2 ^ 32 / m).
  pose proof (Z.div_mod (15 * 2 ^ 32) m ltac:(lia)) as Hq. pose proof (Z.mod_pos_bound (15 * 2 ^ 32) m ltac:(lia)). fold q in Hq.
  assert (0 <= q < 2 ^ 20) as Hqr by (unfold q; split; [apply Z.div_pos; lia|apply Z.div_lt_upper_bound; lia]).
  assert (15 * 2 ^ 32 - m < m * q) by lia. assert (q * (1000000000 * m) <= q * (p * 2 ^ 32)) by (apply Z.mul_le_mono_nonneg_l; lia).
  assert (q <= Z.max 1000 (Z.min (2 ^ 31 - 1) q)) as Hd by lia. intros Ht.
  assert (q * p <= Z.max 1000 (Z.min (2 ^ 31 - 1) q) * p) by (apply Z.mul_le_mono_nonneg_r; lia). clearbody q m. nia.
Qed.

(** A round changes the device's next event and the machine, not its settings. *)
Lemma program_keeps expires now (s : ts) r s1 : clockevents_program_event expires now s = Some (r, s1) ->
  ∃ e, clockevent_mp2520f s1 = set_next_event e (clockevent_mp2520f s).
Proof.
  unfold clockevents_program_event. assert (∀ c, c = set_next_event (next_event c) c) as Hid by (by intros []).
  destruct (expires <? 0); [intros [= _ <-]; eauto|]. destruct (_ <=? 0); [intros [= _ <-]; eauto|].
  erewrite bind_run by reflexivity. erewrite bind_run by reflexivity. case_bool_decide; [intros [= _ <-]; by eexists|]. cbv zeta.
  unfold mp2520f_set_next_event, io. unfold mbind, Sf_bind. repeat match goal with |- context [let '(_, _) := ?m in _] => destruct m end.
  intros [= _ <-]. by eexists.
Qed.

(** A forced event is programmed, in the second round at the latest. *)
Theorem tick_forced p expires (s : ts) : slow_counter -> clockevent_ready p (clockevent_mp2520f s) -> 28356 <= p < 250000000 ->
  dev_mode (clockevent_mp2520f s) <> CLOCK_EVT_MODE_SHUTDOWN ->
  (∀ d, proper (clock d) ∧ 0 <= clock d ∧ fits_ns (ns (clock d) + 2 ^ 31)) ->
  ∃ s', tick_program_event clock 1 expires true s = Some (0, s').
Proof.
  intros Hslow Hready Hp Hmode Hclock. unfold tick_program_event. erewrite bind_run by reflexivity. cbn [program_loop].
  destruct (program_event_runs expires (clock (timer_dev s)) s) as (r & s1 & Hrun & _). rewrite (bind_run _ _ _ _ _ Hrun).
  destruct (Z.eqb_spec r 0) as [->|_]; [by exists s1|]. cbn [orb negb]. do 2 (erewrite bind_run by reflexivity).
  destruct (program_keeps _ _ _ _ _ Hrun) as [e Hc]. set (c := clockevent_mp2520f s1) in *. set (now := clock (timer_dev s1)).
  destruct (Hclock (timer_dev s1)) as (Hpr & Hpos & Hfit). fold now in Hpr, Hpos, Hfit. assert (clockevent_ready p c) as Hready1 by (by rewrite Hc).
  pose proof Hready1 as (_ & _ & Hmax & Hmin). pose proof (evt_mult_range p Hp) as Hm.
  assert (1000 <= min_delta_ns c < 2 ^ 20) as Hmd.
  { rewrite Hmin. assert (0xf * 2 ^ 32 / evt_mult p < 2 ^ 20) by (apply Z.div_lt_upper_bound; lia). unfold LONG_MAX. lia. }
  destruct (proper_of_ns now Hpr) as [En Fn].
  assert (ktime_add now (ktime_set 0 (min_delta_ns c)) = of_ns (ns now + min_delta_ns c)) as Hadd.
  { unfold ktime_set. rewrite (tv_pack_of_ns 0 (min_delta_ns c) (min_delta_ns c) 0).
    - rewrite En at 1. apply ktime_add_of; [done|unfold fits_ns, NSEC_PER_SEC; lia|unfold fits_ns, NSEC_PER_SEC in *; lia].
    - unfold NSEC_PER_SEC. by rewrite Z.div_small by lia.
    - unfold NSEC_PER_SEC. by rewrite Z.mod_small by lia.
    - unfold fits_ns, NSEC_PER_SEC. lia. }
  assert (fits_ns (ns now + min_delta_ns c)) as Hf by (unfold fits_ns, NSEC_PER_SEC in *; lia).
  destruct (of_ns_proper _ Hf) as [Hpe Hns]. rewrite Hadd. set (ex := of_ns (ns now + min_delta_ns c)) in *.
  assert (now < ex) as Hlt by (apply ns_lt; [done|done|lia]).
  destruct (program_ticks p ex now s1) as [_ Hgo]; [done|done|fold c; by rewrite Hc|done|done|lia|done|]. destruct (Hgo Hlt) as (ticks & Hrun2 & Ht & Htr).
  fold c in Ht, Hrun2. rewrite Hns in Ht. replace (Z.max _ _) with (min_delta_ns c) in Ht by (rewrite Hmax; unfold LONG_MAX; lia).
  pose proof (min_delay_ticks p c ticks Hready1 Hp ltac:(lia)) as H13.
  destruct (set_next_event_wrap_safe ticks (set_evt (set_next_event ex c) s1)) as (d & Hset & _); [done|eapply Z.le_lt_trans; [apply (Hslow (timer_dev s1))|done]|].
  rewrite Hset in Hrun2. rewrite (bind_run _ _ _ _ _ Hrun2).
  pose proof (Hslow (timer_dev s1) (u32 (eval (rd TCOUNT) (timer_dev s1) + ticks))) as Hc13. cbn [timer_dev set_evt].
  destruct (Z.leb_spec (u32 (eval (rd TCOUNT) (exec (wr TMATCH0 (u32 (eval (rd TCOUNT) (timer_dev s1) + ticks))) (exec (rd TCOUNT) (timer_dev s1))) - eval (rd TCOUNT) (timer_dev s1))) ticks); [|lia].
  by eexists.
Qed.
End OneshotSpec.
