(* ===== verification/Mmc.v ===== *)
(** drivers/mmc/host/mp2520f.c: the SD/MMC host driver.

    A request is carried out synchronously: the registers are programmed, the
    command status is polled, the response is decoded, a read's data are
    copied byte by byte from the receive FIFO into the scatter list, and the
    request is handed back to the MMC core.  Memory is a finite map from
    addresses to bytes; [PRINTK] is on, so its register reads are kept. *)

From S2P Require Import Prelude.
From S2P Require Import Hw.
From S2P Require Import Genirq.
From S2P Require Import Mp2520fIrq.
From S2P Require Import Mp2520fBoard.

(** * Constants *)

(** regs-sdi.h *)
Definition SDICON_BYTE_BE : Z := BIT 4.
Definition SDICON_FRESET : Z := BIT 1.
Definition SDICON_ENCLK : Z := BIT 0.
Definition SDICMDCON_HOSTRCV : Z := BIT 10.
Definition SDICMDCON_HOSTWAITS : Z := BIT 9.
Definition SDICMDCON_CMDOPST : Z := BIT 8.
Definition SDICMDCON_CMDINDEX_MSK : Z := 0xff.
Definition SDICMDSTA_RSPCRC : Z := BIT 12.
Definition SDICMDSTA_CMDTOUT : Z := BIT 10.
Definition SDICMDSTA_RSPFIN : Z := BIT 9.
Definition SDICMDSTA_RSPINDEX : Z := 0xff.
Definition SDIDATCON_TARSP : Z := BIT 20.
Definition SDIDATCON_RACMD : Z := BIT 19.
Definition SDIDATCON_BLKMODE : Z := BIT 17.
Definition SDIDATCON_WIDE : Z := BIT 16.
Definition SDIDATCON_DATMODE_RS : Z := Z.shiftl 2 12.
Definition SDIDATCON_DATMODE_TS : Z := Z.shiftl 3 12.
Definition SDIDATCON_STOPMODE : Z := BIT 14.
Definition SDIFSTA_RFDET : Z := BIT 12.

(** include/linux/mmc/core.h and host.h *)
Definition MMC_RSP_PRESENT : Z := BIT 0.
Definition MMC_RSP_136 : Z := BIT 1.
Definition MMC_RSP_CRC : Z := BIT 2.
Definition MMC_DATA_WRITE : Z := BIT 8.
Definition MMC_DATA_READ : Z := BIT 9.
Definition MMC_POWER_OFF : Z := 0.
Definition MMC_POWER_UP : Z := 1.
Definition MMC_POWER_ON : Z := 2.
Definition MMC_BUS_WIDTH_4 : Z := 2.
Definition NO_IRQ : Z := -1.

(** * Data *)

Record mmsp2_mmc_host := MmcHost { bus_width : Z; power_mode : Z; h_clock : Z }.

(** [error] is a C [unsigned int] that holds a negated error number. *)
Record mmc_command := MmcCommand { opcode : Z; arg : Z; c_flags : Z; resp : list Z; c_error : Z }.

(** A scatter list entry is the virtual address and the length of a buffer. *)
Record scatter := Scatter { sg_virt : Z; sg_length : Z }.

Record mmc_data := MmcData { blksz : Z; blocks : Z; d_flags : Z; bytes_xfered : Z; stop : option mmc_command;
  sg : list scatter }.

Record mmc_request := MmcRequest { cmd : mmc_command; data : option mmc_data }.

Record mmc_ios := MmcIos { ios_clock : Z; ios_power_mode : Z; ios_bus_width : Z }.

(** The machine: the host structure, the device, memory, and the requests
    given back to the MMC core. *)
Record mmach (D : Type) := MMach { mhost : mmsp2_mmc_host; mdev : D; ram : gmap Z Z; finished : list mmc_request }.
Arguments MMach {D}.
Arguments mhost {D}.
Arguments mdev {D}.
Arguments ram {D}.
Arguments finished {D}.

Section Driver.
Context {D : Type} `{Bus D}.
Abbreviation msys := (mmach D).

Definition dev {A} (m : St D A) : Sf msys A := λ s,
  let '(x, d) := m (mdev s) in Some (x, MMach (mhost s) d (ram s) (finished s)).
Definition set_host (h : mmsp2_mmc_host) : Sf msys unit := fmodify (λ s, MMach h (mdev s) (ram s) (finished s)).
Definition poke (a v : Z) : Sf msys unit := fmodify (λ s, MMach (mhost s) (mdev s) (<[a := v]> (ram s)) (finished s)).

(** ** PIO *)

(** The [while] of mp2520f_mmc_pio_read: [buffer] is the current entry's
    address, [left] what it still takes.  Returns [cnt]. *)
Fixpoint pio_loop (fuel : nat) (l : list scatter) (len cnt sg_idx buffer left : Z) : Sf msys Z :=
  match fuel with
  | O => oops
  | S fuel =>
      fsta ← dev (rd SDIFSTA);
      if tst fsta SDIFSTA_RFDET && (cnt <? len) then
        '(sg_idx, buffer, left) ← (
          if left =? 0 then
            let sg_idx := sg_idx + 1 in
            if sg_idx =? Z.of_nat (length l) then oops
            else e ← ftry (λ _, l !! Z.to_nat sg_idx); mret (sg_idx, sg_virt e, sg_length e)
          else mret (sg_idx, buffer, left) : Sf msys (Z * Z * Z));
        v ← dev (rd SDIDAT);
        poke (buffer + cnt) v ;;
        a ← dev (rd SDIFSTA); b ← dev (rd SDIFSTA); dev (wr SDIFSTA (Z.land a b)) ;;
        pio_loop fuel l len (cnt + 1) sg_idx buffer (u32 (left - 1))
      else mret cnt
  end.

Definition mp2520f_mmc_pio_read (d : mmc_data) : Sf msys mmc_data :=
  let len := u32 (blksz d * blocks d) in
  e ← ftry (λ _, sg d !! 0%nat);
  cnt ← pio_loop (S (Z.to_nat len)) (sg d) len 0 0 (sg_virt e) (sg_length e);
  dev (or_reg SDIDATCON SDIDATCON_STOPMODE) ;;
  mret (MmcData (blksz d) (blocks d) (d_flags d) cnt (stop d) (sg d)).

(** ** Helpers *)

Definition mp2520f_start_command (c : mmc_command) : Sf msys unit :=
  dev (wr SDICMDCON (Z.lor (Z.land (opcode c) SDICMDCON_CMDINDEX_MSK) (BIT 6))) ;;
  fwhen (tst (c_flags c) MMC_RSP_PRESENT) (
    fwhen (tst (c_flags c) MMC_RSP_136) (dev (or_reg SDICMDCON SDICMDCON_HOSTRCV)) ;;
    dev (or_reg SDICMDCON SDICMDCON_HOSTWAITS)) ;;
  dev (wr SDICMDARG (arg c)) ;;
  dev (or_reg SDICMDCON SDICMDCON_CMDOPST).

Definition datcon_value (width : Z) (d : mmc_data) : Z :=
  let v := if width =? MMC_BUS_WIDTH_4 then SDIDATCON_WIDE else 0 in
  let v := Z.lor v (Z.lor (Z.land (blocks d) 0xff) SDIDATCON_BLKMODE) in
  let v := if tst (d_flags d) MMC_DATA_WRITE then Z.lor v (Z.lor SDIDATCON_TARSP SDIDATCON_DATMODE_TS) else v in
  if tst (d_flags d) MMC_DATA_READ then Z.lor v (Z.lor SDIDATCON_RACMD SDIDATCON_DATMODE_RS) else v.

Definition mp2520f_start_data (d : mmc_data) : Sf msys unit :=
  h ← fget mhost;
  dev (wr SDIBSIZE (blksz d)) ;;
  dev (wr SDIDATCON (datcon_value (bus_width h) d)).

(** The error a command status stands for; [None]: unchanged. *)
Definition cmd_error (flags sta : Z) : option Z :=
  if tst sta SDICMDSTA_CMDTOUT then Some (- ETIMEDOUT)
  else if negb (tst sta SDICMDSTA_RSPFIN) then Some (- EINVAL)
  else if tst flags MMC_RSP_CRC && tst sta SDICMDSTA_RSPCRC then Some (- EILSEQ)
  else None.

(** [SDIRSPlo | (SDIRSPhi << 16)] *)
Definition rsp_word (n : Z) : Sf msys Z :=
  lo ← dev (rd (SDIRSP (2 * n)));
  hi ← dev (rd (SDIRSP (2 * n + 1)));
  mret (Z.lor lo (Z.shiftl hi 16)).

Definition mmsp2_mmc_cmd_end (c : mmc_command) : Sf msys mmc_command :=
  _ ← dev (rd SDICMDSTA);
  sta ← dev (rd SDICMDSTA);
  c ← (if tst (c_flags c) MMC_RSP_PRESENT then
         r ← (if tst (c_flags c) MMC_RSP_136 then
                r3 ← rsp_word 3; r2 ← rsp_word 2; r1 ← rsp_word 1; r0 ← rsp_word 0; mret [r0; r1; r2; r3]
              else r0 ← rsp_word 0; mret (r0 :: drop 1 (resp c)) : Sf msys (list Z));
         mret (MmcCommand (opcode c) (arg c) (c_flags c) r
           (match cmd_error (c_flags c) sta with Some e => u32 e | None => c_error c end))
       else mret c);
  dev (wr SDICMDSTA sta) ;;
  mret c.

Definition mmsp2_mmc_data_end (d : mmc_data) : Sf msys mmc_data :=
  d ← (if tst (d_flags d) MMC_DATA_WRITE then mret d else mp2520f_mmc_pio_read d);
  a ← dev (rd SDIDATSTA); b ← dev (rd SDIDATSTA); dev (wr SDIDATSTA (Z.land a b)) ;;
  dev (or_reg SDICON SDICON_FRESET) ;;
  mret d.

(** [while (!(SDICMDSTA & ~SDICMDSTA_RSPINDEX));] *)
Fixpoint wait_status (fuel : nat) : Sf msys unit :=
  match fuel with
  | O => oops
  | S fuel => v ← dev (rd SDICMDSTA); if clr v SDICMDSTA_RSPINDEX =? 0 then wait_status fuel else mret tt
  end.

Definition mmc_request_done (r : mmc_request) : Sf msys unit :=
  fmodify (λ s, MMach (mhost s) (mdev s) (ram s) (finished s ++ [r])).

Definition mmsp2_mmc_request_end (fuel : nat) (r : mmc_request) : Sf msys unit :=
  _ ← dev (rd SDICMDSTA); _ ← dev (rd SDIDATSTA); _ ← dev (rd SDIFSTA);
  wait_status fuel ;;
  c ← mmsp2_mmc_cmd_end (cmd r);
  d ← (match data r with
       | Some d =>
           if c_error c =? 0 then
             d ← mmsp2_mmc_data_end d;
             (match stop d with Some st => mp2520f_start_command st | None => mret tt end) ;;
             mret (Some d)
           else mret (Some d)
       | None => mret None
       end : Sf msys (option mmc_data));
  mmc_request_done (MmcRequest c d).

(** ** Interrupt (the line is never requested) and host operations *)

Definition mmsp2_mmc_irq : Sf msys Z :=
  _ ← dev (rd SDICMDSTA);
  dev (wr SDIINTENB1 0) ;; dev (wr SDIINTENB0 0) ;;
  a ← dev (rd SDICMDSTA); b ← dev (rd SDICMDSTA); dev (wr SDICMDSTA (Z.land a b)) ;;
  a ← dev (rd SDIDATSTA); b ← dev (rd SDIDATSTA); dev (wr SDIDATSTA (Z.land a b)) ;;
  a ← dev (rd SDIFSTA); b ← dev (rd SDIFSTA); dev (wr SDIFSTA (Z.land a b)) ;;
  mret IRQ_HANDLED.

Definition mmsp2_mmc_request (fuel : nat) (r : mmc_request) : Sf msys unit :=
  (match data r with Some d => mp2520f_start_data d | None => mret tt end) ;;
  mp2520f_start_command (cmd r) ;;
  mmsp2_mmc_request_end fuel r.

(** [SDIPRE = pclk/ios->clock - 1] *)
Definition prescaler (pclk clock : Z) : Z := u32 (pclk / clock - 1).

Definition set_power (mode : Z) : Sf msys unit :=
  if mode =? MMC_POWER_OFF then
    dev (wr SDICON 0) ;; dev (wr SDIDATCON 0) ;; dev (wr SDIINTENB1 0) ;; dev (wr SDIINTENB0 0) ;;
    dev (wr SDIDTIMERL 0) ;; dev (wr SDIDTIMERH 0) ;; dev (wr SDIBSIZE 0)
  else if mode =? MMC_POWER_UP then
    dev (wr SDICON (Z.lor (Z.lor SDICON_FRESET SDICON_BYTE_BE) SDICON_ENCLK)) ;;
    dev (wr SDIDTIMERL 0xffff) ;; dev (wr SDIDTIMERH 0x007f)
  else if mode =? MMC_POWER_ON then dev (or_reg SDICON SDICON_ENCLK)
  else mret tt.

Definition mmsp2_mmc_set_ios (ios : mmc_ios) : Sf msys unit :=
  (if ios_bus_width ios =? MMC_BUS_WIDTH_4 then dev (or_reg SDIDATCON SDIDATCON_WIDE)
   else dev (clr_reg SDIDATCON SDIDATCON_WIDE)) ;;
  h ← fget mhost;
  set_host (MmcHost (ios_bus_width ios) (power_mode h) (h_clock h)) ;;
  fwhen (negb (ios_clock ios =? 0) && negb (ios_clock ios =? h_clock h)) (
    p ← dev mmsp2_get_pclk;
    match p with
    | None => oops
    | Some pclk =>
        dev (wr SDIPRE (prescaler pclk (ios_clock ios))) ;;
        h ← fget mhost;
        set_host (MmcHost (bus_width h) (power_mode h) (ios_clock ios))
    end) ;;
  h ← fget mhost;
  fwhen (negb (power_mode h =? ios_power_mode ios)) (
    set_power (ios_power_mode ios) ;;
    h ← fget mhost;
    set_host (MmcHost (bus_width h) (ios_power_mode ios) (h_clock h))).

(** ** Platform *)

(** [region] says whether request_mem_region and [mem] whether mmc_alloc_host
    succeeds; the result of the latter is a zeroed host structure.  Returns
    the code and the clock limits given to the MMC core. *)
Definition mmsp2_mmc_probe (pdev : platform_device) (region mem : bool) : Sf msys (Z * option (Z * Z)) :=
  let irq := platform_get_irq (pd_resource pdev) 0 in
  match platform_get_resource (pd_resource pdev) IORESOURCE_MEM 0 with
  | None => mret (- ENXIO, None)
  | Some r =>
      if irq =? NO_IRQ then mret (- ENXIO, None)
      else if negb region then mret (- EBUSY, None)
      else if negb mem then mret (- ENOMEM, None)
      else
        p ← dev mmsp2_get_pclk;
        match p with
        | None => oops
        | Some f_max =>
            set_host (MmcHost 0 0 0) ;;
            dev (mmsp2_gpio_mode GPIOL 0 GPIO_FN_ALT1) ;;
            dev (mmsp2_gpio_mode GPIOL 1 GPIO_FN_ALT1) ;;
            dev (mmsp2_gpio_mode GPIOL 2 GPIO_FN_ALT1) ;;
            dev (mmsp2_gpio_mode GPIOL 3 GPIO_FN_ALT1) ;;
            dev (mmsp2_gpio_mode GPIOL 4 GPIO_FN_ALT1) ;;
            dev (mmsp2_gpio_mode GPIOL 5 GPIO_FN_ALT1) ;;
            mret (0, Some (f_max, f_max / (256 + 1)))
        end
  end.
End Driver.

(** * Reading data *)

(** What the driver relies on: RFDET says that the receive FIFO has data, the
    data register takes the oldest byte, and looking at or acknowledging the
    FIFO status loses nothing. *)
Class SdFifo (D : Type) `{Bus D} := {
  sd_fifo : D -> list Z;
  sd_detect d : tst (wrap 16 (bus_load SDIFSTA d).1) SDIFSTA_RFDET = match sd_fifo d with [] => false | _ => true end;
  sd_status d : sd_fifo (bus_load SDIFSTA d).2 = sd_fifo d;
  sd_pop d c q : sd_fifo d = c :: q -> (bus_load SDIDAT d).1 = c ∧ sd_fifo (bus_load SDIDAT d).2 = q;
  sd_ack v d : sd_fifo (bus_store SDIFSTA v d) = sd_fifo d;
}.

(** Consecutive bytes written to memory. *)
Fixpoint pokes (m : gmap Z Z) (a : Z) (l : list Z) : gmap Z Z :=
  match l with [] => m | v :: l => pokes (<[a := v]> m) (a + 1) l end.

Lemma pokes_lookup m a l x :
  pokes m a l !! x = if decide (a <= x < a + Z.of_nat (length l)) then l !! Z.to_nat (x - a) else m !! x.
Proof.
  revert m a. induction l as [|v l IH]; intros m a; cbn [pokes length].
  { rewrite decide_False by lia. done. }
  rewrite IH. destruct (decide (x = a)) as [->|Hne].
  - rewrite decide_False by lia. rewrite decide_True by lia. rewrite lookup_insert, decide_True, Z.sub_diag by done. done.
  - rewrite lookup_insert_ne by done. repeat case_decide; try lia; [|done].
    replace (Z.to_nat (x - a)) with (S (Z.to_nat (x - (a + 1)))) by lia. done.
Qed.

Lemma pokes_app m a l1 l2 : pokes m a (l1 ++ l2) = pokes (pokes m a l1) (a + Z.of_nat (length l1)) l2.
Proof.
  revert m a. induction l1 as [|v l1 IH]; intros m a; cbn [app pokes length]; [by rewrite Z.add_0_r|].
  rewrite IH. f_equal. lia.
Qed.

Section Pio.
Context {D : Type} `{Bus D} `{!SdFifo D}.
Abbreviation msys := (mmach D).
Implicit Types (s : msys) (l : list scatter).

Definition put_dev (d : D) s : msys := MMach (mhost s) d (ram s) (finished s).
Definition put_ram (m : gmap Z Z) s : msys := MMach (mhost s) (mdev s) m (finished s).

Lemma dev_rd_run r s : dev (rd r) s = Some (wrap (reg_width r) (bus_load r (mdev s)).1, put_dev (bus_load r (mdev s)).2 s).
Proof. unfold dev, rd, put_dev. by destruct (bus_load r (mdev s)). Qed.

Lemma dev_wr_run r v s : dev (wr r v) s = Some (tt, put_dev (bus_store r (wrap (reg_width r) v) (mdev s)) s).
Proof. done. Qed.

(** One byte of the current entry. *)
Lemma pio_byte fuel l len cnt idx buf left s c q :
  sd_fifo (mdev s) = c :: q -> in_u 8 c -> cnt < len -> 0 < left < 2 ^ 32 ->
  ∃ d', pio_loop (S fuel) l len cnt idx buf left s =
      pio_loop fuel l len (cnt + 1) idx buf (left - 1) (put_dev d' (put_ram (<[buf + cnt := c]> (ram s)) s)) ∧
    sd_fifo d' = q.
Proof.
  intros Hq Hc Hcnt Hleft. cbn [pio_loop]. rewrite (bind_run _ _ _ _ _ (dev_rd_run _ _)).
  change (reg_width SDIFSTA) with 16. rewrite sd_detect, Hq. set (d1 := (bus_load SDIFSTA (mdev s)).2).
  assert (sd_fifo d1 = c :: q) as Hq1 by (subst d1; by rewrite sd_status).
  destruct (Z.ltb_spec cnt len); [|lia]. cbn [andb]. destruct (Z.eqb_spec left 0); [lia|].
  rewrite (bind_run (mret _) _ _ (idx, buf, left) (put_dev d1 s)) by done. cbv iota.
  rewrite (bind_run _ _ _ _ _ (dev_rd_run _ _)). destruct (sd_pop d1 c q Hq1) as [Hv Hq2].
  change (mdev (put_dev d1 s)) with d1. rewrite Hv. change (reg_width SDIDAT) with 8. rewrite (wrap_id 8) by done.
  set (d2 := (bus_load SDIDAT d1).2) in *.
  rewrite (bind_run _ _ _ tt (put_dev d2 (put_ram (<[buf + cnt := c]> (ram s)) s))) by done.
  rewrite (bind_run _ _ _ _ _ (dev_rd_run _ _)), (bind_run _ _ _ _ _ (dev_rd_run _ _)), (bind_run _ _ _ _ _ (dev_wr_run _ _ _)).
  unfold u32. rewrite (wrap_id 32 (left - 1)) by (unfold in_u; lia). eexists. split; [reflexivity|].
  simpl. rewrite sd_ack, !sd_status. done.
Qed.

(** A run of bytes inside one entry. *)
Lemma pio_run k fuel l len cnt idx buf left s q r :
  sd_fifo (mdev s) = q ++ r -> length q = k -> Forall (in_u 8) q -> cnt + Z.of_nat k <= len -> Z.of_nat k <= left < 2 ^ 32 ->
  ∃ d', pio_loop (k + fuel) l len cnt idx buf left s =
      pio_loop fuel l len (cnt + Z.of_nat k) idx buf (left - Z.of_nat k) (put_dev d' (put_ram (pokes (ram s) (buf + cnt) q) s)) ∧
    sd_fifo d' = r.
Proof.
  revert cnt left s q. induction k as [|k IH]; intros cnt left s q Hq Hk Hu Hlen Hleft.
  - apply length_zero_iff_nil in Hk as ->. exists (mdev s). rewrite Z.add_0_r, Z.sub_0_r. split; [by destruct s|done].
  - destruct q as [|c q]; [done|]. injection Hk as Hk. apply Forall_cons in Hu as [Hc Hu].
    destruct (pio_byte (k + fuel) l len cnt idx buf left s c (q ++ r)) as (d1 & Hrun & Hq1); [done|done|lia|lia|].
    cbn [Nat.add]. rewrite Hrun.
    destruct (IH (cnt + 1) (left - 1) (put_dev d1 (put_ram (<[buf + cnt := c]> (ram s)) s)) q) as (d' & Hrun' & Hq');
      [done|done|done|lia|lia|].
    rewrite Hrun'. exists d'. split; [|done]. cbn [pokes].
    replace (cnt + 1 + Z.of_nat k) with (cnt + Z.of_nat (S k)) by lia.
    replace (left - 1 - Z.of_nat k) with (left - Z.of_nat (S k)) by lia.
    replace (buf + (cnt + 1)) with (buf + cnt + 1) by lia. done.
Qed.

(** The loop ends when the FIFO is empty or everything was read. *)
Lemma pio_stop fuel l len cnt idx buf left s : sd_fifo (mdev s) = [] ∨ len <= cnt ->
  ∃ d', pio_loop (S fuel) l len cnt idx buf left s = Some (cnt, put_dev d' s) ∧ sd_fifo d' = sd_fifo (mdev s).
Proof.
  intros Hs. cbn [pio_loop]. rewrite (bind_run _ _ _ _ _ (dev_rd_run _ _)). change (reg_width SDIFSTA) with 16.
  rewrite sd_detect. exists (bus_load SDIFSTA (mdev s)).2. split; [|apply sd_status].
  destruct Hs as [->|Hle]; [done|]. destruct (Z.ltb_spec cnt len); [lia|]. by rewrite andb_false_r.
Qed.

(** The next scatter list entry. *)
Lemma pio_next fuel l len cnt idx buf s e : sd_fifo (mdev s) <> [] -> cnt < len -> l !! Z.to_nat (idx + 1) = Some e ->
  0 <= idx -> sg_length e <> 0 ->
  pio_loop (S fuel) l len cnt idx buf 0 s = pio_loop (S fuel) l len cnt (idx + 1) (sg_virt e) (sg_length e) s.
Proof.
  intros Hq Hcnt He Hidx Hz. pose proof (lookup_lt_Some _ _ _ He) as Hl. cbn [pio_loop].
  rewrite !(bind_run _ _ _ _ _ (dev_rd_run _ _)). change (reg_width SDIFSTA) with 16. rewrite sd_detect.
  destruct (sd_fifo (mdev s)) as [|c q]; [done|]. destruct (Z.ltb_spec cnt len); [|lia]. cbn [andb].
  rewrite Z.eqb_refl. destruct (Z.eqb_spec (sg_length e) 0); [done|].
  destruct (Z.eqb_spec (idx + 1) (Z.of_nat (length l))); [lia|].
  erewrite (bind_run (ftry _ ≫= _) _ _ (idx + 1, sg_virt e, sg_length e)).
  2: { unfold mbind, Sf_bind, ftry. rewrite He. reflexivity. }
  done.
Qed.
End Pio.

Section PioRead.
Context {D : Type} `{Bus D} `{!SdFifo D}.
Abbreviation msys := (mmach D).
Implicit Types (s : msys) (x : mmc_data).

Definition set_xfered (n : Z) x : mmc_data := MmcData (blksz x) (blocks x) (d_flags x) n (stop x) (sg x).

Lemma dev_total {A} (m : St D A) s : dev m s = Some (eval m (mdev s), put_dev (exec m (mdev s)) s).
Proof. unfold dev, eval, exec, put_dev. by destruct (m (mdev s)). Qed.

(** A read into one buffer that is large enough delivers the first bytes of
    the receive FIFO, in order, from the start of the buffer: as many as the
    request asks for or as the FIFO holds, whichever is less, and reports that
    number.  No other byte of memory changes, and the loop ends. *)
Theorem pio_read_one_buffer x e s :
  sg x = [e] -> 0 <= blksz x * blocks x <= sg_length e -> sg_length e < 2 ^ 32 ->
  Forall (in_u 8) (sd_fifo (mdev s)) ->
  ∃ d', let n := Z.min (blksz x * blocks x) (Z.of_nat (length (sd_fifo (mdev s)))) in
    mp2520f_mmc_pio_read x s =
    Some (set_xfered n x, MMach (mhost s) d' (pokes (ram s) (sg_virt e) (take (Z.to_nat n) (sd_fifo (mdev s)))) (finished s)).
Proof.
  intros Hsg Hlen Hl Hu. cbv zeta. set (len := blksz x * blocks x) in *. set (q := sd_fifo (mdev s)).
  set (n := Z.min len (Z.of_nat (length q))). unfold mp2520f_mmc_pio_read. fold len. unfold u32. rewrite wrap_id by (unfold in_u; lia).
  rewrite (bind_run _ _ s e s) by (unfold ftry; by rewrite Hsg).
  destruct (pio_run (Z.to_nat n) (S (Z.to_nat len) - Z.to_nat n) (sg x) len 0 0 (sg_virt e) (sg_length e) s
    (take (Z.to_nat n) q) (drop (Z.to_nat n) q)) as (d1 & Hrun & Hq1).
  { by rewrite take_drop. } { rewrite length_take. lia. } { by apply Forall_take. } { lia. } { lia. }
  replace (Z.to_nat n + (S (Z.to_nat len) - Z.to_nat n))%nat with (S (Z.to_nat len)) in Hrun by lia.
  rewrite Z.add_0_l, Z.add_0_r, Z2Nat.id in Hrun by lia.
  destruct (pio_stop (Z.to_nat len - Z.to_nat n) (sg x) len n 0 (sg_virt e) (sg_length e - n)
    (put_dev d1 (put_ram (pokes (ram s) (sg_virt e) (take (Z.to_nat n) q)) s))) as (d2 & Hstop & _).
  { simpl. rewrite Hq1. destruct (decide (n = len)); [right; lia|left]. apply drop_ge. lia. }
  replace (S (Z.to_nat len) - Z.to_nat n)%nat with (S (Z.to_nat len - Z.to_nat n)) in Hrun by lia.
  rewrite Hstop in Hrun. rewrite (bind_run _ _ _ _ _ Hrun), (bind_run _ _ _ _ _ (dev_total _ _)).
  eexists. reflexivity.
Qed.

(** With two buffers the index is not reset when the loop moves to the
    second one.  Reading exactly what the two take puts the first part where
    it belongs, but byte [j] of the second part at [l1 + j] of its buffer: its
    first [l1] bytes are never written and the last byte lands [l1] past its
    end, and yet the full length is reported. *)
Theorem pio_read_scatter_misplaced x e1 e2 s :
  sg x = [e1; e2] -> 0 < sg_length e1 < 2 ^ 31 -> 0 < sg_length e2 < 2 ^ 31 ->
  blksz x * blocks x = sg_length e1 + sg_length e2 ->
  sg_length e1 + sg_length e2 <= Z.of_nat (length (sd_fifo (mdev s))) -> Forall (in_u 8) (sd_fifo (mdev s)) ->
  ∃ d' m', let q := sd_fifo (mdev s) in
    mp2520f_mmc_pio_read x s = Some (set_xfered (sg_length e1 + sg_length e2) x, MMach (mhost s) d' m' (finished s)) ∧
    m' = pokes (pokes (ram s) (sg_virt e1) (take (Z.to_nat (sg_length e1)) q))
           (sg_virt e2 + sg_length e1) (take (Z.to_nat (sg_length e2)) (drop (Z.to_nat (sg_length e1)) q)) ∧
    (sg_virt e1 + sg_length e1 <= sg_virt e2 ∨ sg_virt e2 + sg_length e1 <= sg_virt e1 ->
     ∀ a, sg_virt e2 <= a < sg_virt e2 + sg_length e1 -> m' !! a = ram s !! a) ∧
    m' !! (sg_virt e2 + sg_length e2 + sg_length e1 - 1) = q !! Z.to_nat (sg_length e1 + sg_length e2 - 1).
Proof.
  intros Hsg Hl1 Hl2 Hlen Hfifo Hu. set (l1 := sg_length e1) in *. set (l2 := sg_length e2) in *.
  set (q := sd_fifo (mdev s)) in *. set (q1 := take (Z.to_nat l1) q). set (q2 := take (Z.to_nat l2) (drop (Z.to_nat l1) q)).
  assert (length q1 = Z.to_nat l1) as Hq1 by (unfold q1; rewrite length_take; lia).
  assert (length q2 = Z.to_nat l2) as Hq2 by (unfold q2; rewrite length_take, length_drop; lia).
  unfold mp2520f_mmc_pio_read. rewrite Hlen. unfold u32. rewrite wrap_id by (unfold in_u; lia). set (len := l1 + l2).
  rewrite (bind_run _ _ s e1 s) by (unfold ftry; by rewrite Hsg).
  destruct (pio_run (Z.to_nat l1) (Z.to_nat l2 + 1) (sg x) len 0 0 (sg_virt e1) l1 s q1 (drop (Z.to_nat l1) q)) as (d1 & Hr1 & Hd1).
  { unfold q1. by rewrite take_drop. } { done. } { by apply Forall_take. } { lia. } { lia. }
  rewrite Z.add_0_l, Z.add_0_r, Z2Nat.id, Z.sub_diag in Hr1 by lia. set (s1 := put_dev d1 _) in Hr1.
  rewrite Nat.add_1_r in Hr1. rewrite (pio_next _ _ _ _ _ _ _ e2) in Hr1.
  2: { simpl. rewrite Hd1. intros H0. apply (f_equal length) in H0. rewrite length_drop in H0. simpl in H0. lia. }
  2: { lia. } 2: { by rewrite Hsg. } 2: { done. } 2: { fold l2. lia. }
  fold l2 in Hr1. rewrite <- Nat.add_1_r in Hr1.
  destruct (pio_run (Z.to_nat l2) 1 (sg x) len l1 1 (sg_virt e2) l2 s1 q2 (drop (Z.to_nat l2) (drop (Z.to_nat l1) q)))
    as (d2 & Hr2 & Hd2).
  { simpl. unfold q2. by rewrite take_drop, Hd1. } { done. } { by apply Forall_take, Forall_drop. } { lia. } { lia. }
  rewrite Z2Nat.id, Z.sub_diag in Hr2 by lia. fold len in Hr2. set (s2 := put_dev d2 _) in Hr2.
  destruct (pio_stop 0 (sg x) len len 1 (sg_virt e2) 0 s2) as (d3 & Hr3 & _); [by right|].
  change (0 + 1) with 1 in Hr1. rewrite Hr2, Hr3 in Hr1.
  replace (Z.to_nat l1 + (Z.to_nat l2 + 1))%nat with (S (Z.to_nat len)) in Hr1 by lia.
  exists (exec (or_reg SDIDATCON SDIDATCON_STOPMODE) d3), (pokes (pokes (ram s) (sg_virt e1) q1) (sg_virt e2 + l1) q2).
  cbv zeta. split_and!.
  - rewrite (bind_run _ _ _ _ _ Hr1), (bind_run _ _ _ _ _ (dev_total _ _)). reflexivity.
  - done.
  - intros Hdisj a Ha. rewrite !pokes_lookup, !decide_False by lia. done.
  - rewrite pokes_lookup, decide_True by lia. unfold q2. rewrite lookup_take_lt, lookup_drop by lia. f_equal. lia.
Qed.
End PioRead.

(** * The clock *)

(** The control registers hold what is written. *)
Definition sdi_regs : list reg :=
  [SDICON; SDIPRE; SDIBSIZE; SDIDATCON; SDIINTENB1; SDIINTENB0; SDIDTIMERL; SDIDTIMERH; FPLLVSETREG; SYSCSETREG].

Class MmcRegs (D : Type) `{BusModel D} : Prop := {
  sdi_storage r : r ∈ sdi_regs -> kind_of r = Storage;
}.

Section Clock.
Context {D : Type} `{MmcRegs D}.
Abbreviation msys := (mmach D).
Implicit Types (s : msys).

(** The driver steps that leave the prescaler and the PLL settings alone. *)
Definition keeps (m : Sf msys unit) : Prop := ∀ s, ∃ d', m s = Some (tt, put_dev d' s) ∧
  ∀ r, r ∈ [SDIPRE; FPLLVSETREG; SYSCSETREG] -> peek r d' = peek r (mdev s).

Lemma keeps_ret : keeps (mret tt).
Proof. intros s. exists (mdev s). split; [by destruct s|done]. Qed.

Lemma keeps_seq m k : keeps m -> keeps k -> keeps (m ;; k).
Proof.
  intros Hm Hk s. destruct (Hm s) as (d1 & Hr1 & Hp1). destruct (Hk (put_dev d1 s)) as (d2 & Hr2 & Hp2).
  exists d2. rewrite (bind_run _ _ _ _ _ Hr1). split; [done|]. intros r Hr. by rewrite Hp2, Hp1.
Qed.

(** A control register other than those. *)
Definition other (r : reg) : Prop := r ∈ [SDICON; SDIBSIZE; SDIDATCON; SDIINTENB1; SDIINTENB0; SDIDTIMERL; SDIDTIMERH].

Lemma other_disj r r' : other r -> r' ∈ [SDIPRE; FPLLVSETREG; SYSCSETREG] ->
  kind_of r <> Opaque ∧ kind_of r' <> Opaque ∧ reg_disj r r'.
Proof.
  intros Hr Hr'. split_and!.
  - apply storage_known, sdi_storage. unfold other, sdi_regs in *. set_solver.
  - apply storage_known, sdi_storage. unfold sdi_regs. set_solver.
  - unfold other in Hr. revert r' Hr'. apply Forall_forall. revert r Hr. apply Forall_forall.
    apply (bool_decide_unpack _). vm_compute. exact I.
Qed.

Lemma keeps_wr r v : other r -> keeps (dev (wr r v)).
Proof.
  intros Hr s. eexists. split; [apply dev_total|]. intros r' Hr'. destruct (other_disj r r' Hr Hr') as (? & ? & ?).
  by apply wr_frame.
Qed.

Lemma keeps_or r v : other r -> keeps (dev (or_reg r v)).
Proof.
  intros Hr s. eexists. split; [rewrite dev_total; by destruct (eval _ _)|]. intros r' Hr'.
  destruct (other_disj r r' Hr Hr') as (? & ? & ?). by apply or_reg_frame.
Qed.

Lemma keeps_clr r v : other r -> keeps (dev (clr_reg r v)).
Proof.
  intros Hr s. eexists. split; [rewrite dev_total; by destruct (eval _ _)|]. intros r' Hr'.
  destruct (other_disj r r' Hr Hr') as (? & ? & ?). by apply clr_reg_frame.
Qed.

Ltac is_other := unfold other; set_solver.

Lemma keeps_power mode : keeps (set_power mode).
Proof.
  unfold set_power. repeat case_match; repeat apply keeps_seq; try apply keeps_wr; try apply keeps_or; try apply keeps_ret; is_other.
Qed.

(** A clock change programs the prescaler with [pclk / clock - 1], so the
    card clock [pclk / (SDIPRE + 1)] is never below the requested one, and
    strictly above it whenever the request does not divide the bus clock: the
    limit the MMC core asks for is exceeded (by less than a factor of two). *)
Theorem set_ios_clock_overshoots ios s :
  let pclk := pll_hz (peek FPLLVSETREG (mdev s)) / 4 in
  let clock := ios_clock ios in
  0 < clock <= pclk -> clock <> h_clock (mhost s) -> pclk / clock <= 2 ^ 16 ->
  ∃ s', mmsp2_mmc_set_ios ios s = Some (tt, s') ∧
    h_clock (mhost s') = clock ∧ peek SDIPRE (mdev s') + 1 = pclk / clock ∧
    clock * (peek SDIPRE (mdev s') + 1) <= pclk ∧
    (pclk mod clock <> 0 -> clock * (peek SDIPRE (mdev s') + 1) < pclk) ∧
    pclk < 2 * clock * (peek SDIPRE (mdev s') + 1).
Proof.
  intros pclk clock Hc Hne Hdiv.
  assert (keeps (if ios_bus_width ios =? MMC_BUS_WIDTH_4 then dev (or_reg SDIDATCON SDIDATCON_WIDE)
    else dev (clr_reg SDIDATCON SDIDATCON_WIDE))) as Hwide by (destruct (_ =? _); [apply keeps_or|apply keeps_clr]; is_other).
  unfold mmsp2_mmc_set_ios. destruct (Hwide s) as (d1 & Hr1 & Hp1). rewrite (bind_run _ _ _ _ _ Hr1).
  rewrite (bind_run (fget mhost) _ (put_dev d1 s) (mhost s) (put_dev d1 s)) by done.
  set (s2 := MMach (MmcHost (ios_bus_width ios) (power_mode (mhost s)) (h_clock (mhost s))) d1 (ram s) (finished s)).
  rewrite (bind_run (set_host _) _ _ tt s2) by done.
  fold clock. destruct (Z.eqb_spec clock 0); [lia|]. destruct (Z.eqb_spec clock (h_clock (mhost s))); [done|]. cbn [negb andb fwhen].
  assert (1 <= pclk / clock) as Hq by (apply Z.div_le_lower_bound; lia).
  set (d3 := exec (wr SDIPRE (prescaler pclk clock)) d1).
  set (s3 := MMach (MmcHost (ios_bus_width ios) (power_mode (mhost s)) clock) d3 (ram s) (finished s)).
  erewrite (bind_run (dev mmsp2_get_pclk ≫= _) _ s2 tt s3).
  2: { rewrite (bind_run _ _ _ (Some pclk) s2); [reflexivity|]. unfold dev. simpl (mdev s2).
       rewrite pclk_value by (apply sdi_storage; unfold sdi_regs; set_solver). rewrite Hp1 by set_solver. done. }
  assert (peek SDIPRE d3 = pclk / clock - 1) as Hpre.
  { unfold d3. rewrite wr_storage by (apply sdi_storage; unfold sdi_regs; set_solver). change (reg_width SDIPRE) with 16.
    unfold prescaler, u32. rewrite (wrap_id 32) by (unfold in_u; lia). apply wrap_id. unfold in_u. lia. }
  assert (∃ s', (h ← fget mhost; fwhen (negb (power_mode h =? ios_power_mode ios))
      (set_power (ios_power_mode ios) ;; h ← fget mhost; set_host (MmcHost (bus_width h) (ios_power_mode ios) (h_clock h)))) s3 = Some (tt, s') ∧
    h_clock (mhost s') = clock ∧ peek SDIPRE (mdev s') = pclk / clock - 1) as (s' & -> & Hh & Hp).
  { rewrite (bind_run (fget mhost) _ s3 (mhost s3) s3) by done. destruct (negb _); cbn [fwhen]; [|by exists s3].
    destruct (keeps_power (ios_power_mode ios) s3) as (d4 & Hr4 & Hp4). rewrite (bind_run _ _ _ _ _ Hr4).
    eexists. split; [reflexivity|]. split; [done|]. simpl. rewrite Hp4 by set_solver. done. }
  exists s'. rewrite Hp. pose proof (Z.div_mod pclk clock ltac:(lia)) as Hdm. pose proof (Z.mod_pos_bound pclk clock ltac:(lia)).
  split_and!; try done; try lia; nia.
Qed.
End Clock.

(** * Completion of requests *)

Section Request.
Context {D : Type} `{Bus D}.
Abbreviation msys := (mmach D).
Implicit Types (s : msys) (d : D).

(** The device after [k] polls of the command status, and what poll [k] sees. *)
Fixpoint polled (k : nat) d : D := match k with O => d | S k => polled k (bus_load SDICMDSTA d).2 end.
Definition poll (k : nat) d : Z := clr (wrap 16 (bus_load SDICMDSTA (polled k d)).1) SDICMDSTA_RSPINDEX.

Lemma wait_returns k fuel s : (k < fuel)%nat -> (∀ j, (j < k)%nat -> poll j (mdev s) = 0) -> poll k (mdev s) <> 0 ->
  wait_status fuel s = Some (tt, put_dev (polled (S k) (mdev s)) s).
Proof.
  revert fuel s. induction k as [|k IH]; intros fuel s Hf Hz Hk; (destruct fuel as [|fuel]; [lia|]); cbn [wait_status];
    rewrite (bind_run _ _ _ _ _ (dev_rd_run _ _)); change (reg_width SDICMDSTA) with 16.
  - unfold poll in Hk. simpl in Hk. destruct (Z.eqb_spec (clr (wrap 16 (bus_load SDICMDSTA (mdev s)).1) SDICMDSTA_RSPINDEX) 0); done.
  - pose proof (Hz 0%nat ltac:(lia)) as H0. unfold poll in H0. simpl in H0. rewrite H0. cbn [Z.eqb].
    rewrite (IH fuel (put_dev _ s)); [done|lia| |done]. intros j Hj. apply (Hz (S j)). lia.
Qed.

Lemma wait_hangs fuel s : (∀ j, poll j (mdev s) = 0) -> wait_status fuel s = None.
Proof.
  revert s. induction fuel as [|fuel IH]; intros s Hz; [done|]. cbn [wait_status].
  rewrite (bind_run _ _ _ _ _ (dev_rd_run _ _)). change (reg_width SDICMDSTA) with 16.
  pose proof (Hz 0%nat) as H0. unfold poll in H0. simpl in H0. rewrite H0. cbn [Z.eqb]. apply IH.
  intros j. apply (Hz (S j)).
Qed.

(** A program that only drives the device. *)
Definition pure_dev {A} (m : Sf msys A) : Prop := ∀ s, ∃ x d', m s = Some (x, put_dev d' s).

Lemma pure_ret {A} (x : A) : pure_dev (mret x).
Proof. intros s. exists x, (mdev s). by destruct s. Qed.

Lemma pure_dev_dev {A} (m : St D A) : pure_dev (dev m).
Proof. intros s. eexists _, _. apply dev_total. Qed.

Lemma pure_bind {A B} (m : Sf msys A) (k : A -> Sf msys B) : pure_dev m -> (∀ x, pure_dev (k x)) -> pure_dev (m ≫= k).
Proof.
  intros Hm Hk s. destruct (Hm s) as (x & d1 & Hr). destruct (Hk x (put_dev d1 s)) as (y & d2 & Hr2).
  exists y, d2. by rewrite (bind_run _ _ _ _ _ Hr).
Qed.

Lemma pure_when b (m : Sf msys unit) : pure_dev m -> pure_dev (fwhen b m).
Proof. intros Hm. destruct b; [done|apply pure_ret]. Qed.

Lemma pure_start_command c : pure_dev (mp2520f_start_command c).
Proof. repeat first [apply pure_bind; [|intros ?] | apply pure_when | apply pure_dev_dev]. Qed.

Lemma pure_rsp n : pure_dev (rsp_word n).
Proof. repeat first [apply pure_bind; [|intros ?] | apply pure_dev_dev | apply pure_ret]. Qed.

(** The status decides the error. *)
Lemma cmd_end_run c s : ∃ c' d', mmsp2_mmc_cmd_end c s = Some (c', put_dev d' s) ∧
  opcode c' = opcode c ∧ arg c' = arg c ∧ c_flags c' = c_flags c ∧
  let sta := wrap 16 (bus_load SDICMDSTA (bus_load SDICMDSTA (mdev s)).2).1 in
  c_error c' = if tst (c_flags c) MMC_RSP_PRESENT
               then match cmd_error (c_flags c) sta with Some e => u32 e | None => c_error c end
               else c_error c.
Proof.
  unfold mmsp2_mmc_cmd_end. rewrite !(bind_run _ _ _ _ _ (dev_rd_run _ _)). change (reg_width SDICMDSTA) with 16.
  set (s1 := put_dev _ (put_dev _ s)). change (mdev (put_dev (bus_load SDICMDSTA (mdev s)).2 s)) with ((bus_load SDICMDSTA (mdev s)).2).
  set (sta := wrap 16 _). destruct (tst (c_flags c) MMC_RSP_PRESENT).
  - set (m := if tst (c_flags c) MMC_RSP_136 then _ else _).
    assert (pure_dev m) as Hm.
    { unfold m. destruct (tst _ _); repeat first [apply pure_rsp | apply pure_ret | apply pure_bind; [|intros ?]]. }
    destruct (Hm s1) as (r & d1 & Hr). erewrite (bind_run (m ≫= _)).
    2: { rewrite (bind_run _ _ _ _ _ Hr). reflexivity. }
    rewrite (bind_run _ _ _ _ _ (dev_wr_run _ _ _)). eexists _, _. split; [reflexivity|]. by split_and!.
  - rewrite (bind_run (mret c) _ s1 c s1), (bind_run _ _ _ _ _ (dev_wr_run _ _ _)) by done.
    eexists _, _. split; [reflexivity|]. by split_and!.
Qed.

(** The error of a command, case by case. *)
Lemma error_cases flags sta old err :
  err = (if tst flags MMC_RSP_PRESENT then match cmd_error flags sta with Some e => u32 e | None => old end else old) ->
  (tst flags MMC_RSP_PRESENT = true -> tst sta SDICMDSTA_CMDTOUT = true -> err = 2 ^ 32 - ETIMEDOUT) ∧
  (tst flags MMC_RSP_PRESENT = true -> tst sta SDICMDSTA_CMDTOUT = false -> tst sta SDICMDSTA_RSPFIN = false -> err = 2 ^ 32 - EINVAL) ∧
  (tst flags MMC_RSP_PRESENT = true -> tst sta SDICMDSTA_CMDTOUT = false -> tst sta SDICMDSTA_RSPFIN = true ->
     tst flags MMC_RSP_CRC && tst sta SDICMDSTA_RSPCRC = true -> err = 2 ^ 32 - EILSEQ) ∧
  (tst flags MMC_RSP_PRESENT = false ∨
     tst sta SDICMDSTA_CMDTOUT = false ∧ tst sta SDICMDSTA_RSPFIN = true ∧ tst flags MMC_RSP_CRC && tst sta SDICMDSTA_RSPCRC = false -> err = old).
Proof.
  intros ->. unfold cmd_error. split_and!.
  - by intros -> ->.
  - by intros -> -> ->.
  - by intros -> -> -> ->.
  - intros [->|(-> & -> & ->)]; [done|]. by destruct (tst flags MMC_RSP_PRESENT).
Qed.

(** The device when a command request starts to poll. *)
Definition armed (c : mmc_command) s : D :=
  match (mp2520f_start_command c ;; _ ← dev (rd SDICMDSTA); _ ← dev (rd SDIDATSTA); dev (rd SDIFSTA)) s with
  | Some (_, s') => mdev s'
  | None => mdev s
  end.

(** C40: a command without data is given back to the MMC core exactly once, with
    nothing else of the machine but the device changed, as soon as a poll sees a
    status bit.  A command with a response gets its error from the status read
    after that: a timeout is -ETIMEDOUT; no timeout and no end of the response
    -EINVAL; a response with a bad checksum, if the command has one, -EILSEQ;
    a good response, and a command without one, leave the error as it was.
    But nothing bounds the polling: if no status bit ever appears (a dead
    controller, a clock that is off) the request never returns. *)
Theorem mmc_command_completes c s :
  (∀ k fuel, (k < fuel)%nat -> (∀ j, (j < k)%nat -> poll j (armed c s) = 0) -> poll k (armed c s) <> 0 ->
     ∃ c' d', mmsp2_mmc_request fuel (MmcRequest c None) s =
         Some (tt, MMach (mhost s) d' (ram s) (finished s ++ [MmcRequest c' None])) ∧
       opcode c' = opcode c ∧ arg c' = arg c ∧
       let sta := wrap 16 (bus_load SDICMDSTA (polled (S (S k)) (armed c s))).1 in
       let present := tst (c_flags c) MMC_RSP_PRESENT in
       let bad_crc := tst (c_flags c) MMC_RSP_CRC && tst sta SDICMDSTA_RSPCRC in
       (present = true -> tst sta SDICMDSTA_CMDTOUT = true -> c_error c' = 2 ^ 32 - ETIMEDOUT) ∧
       (present = true -> tst sta SDICMDSTA_CMDTOUT = false -> tst sta SDICMDSTA_RSPFIN = false -> c_error c' = 2 ^ 32 - EINVAL) ∧
       (present = true -> tst sta SDICMDSTA_CMDTOUT = false -> tst sta SDICMDSTA_RSPFIN = true -> bad_crc = true ->
          c_error c' = 2 ^ 32 - EILSEQ) ∧
       (present = false ∨ tst sta SDICMDSTA_CMDTOUT = false ∧ tst sta SDICMDSTA_RSPFIN = true ∧ bad_crc = false ->
          c_error c' = c_error c)) ∧
  ((∀ k, poll k (armed c s) = 0) -> ∀ fuel, mmsp2_mmc_request fuel (MmcRequest c None) s = None).
Proof.
  destruct (pure_start_command c s) as ([] & d1 & Hr1).
  set (s4 := put_dev (bus_load SDIFSTA (bus_load SDIDATSTA (bus_load SDICMDSTA d1).2).2).2 s).
  assert (armed c s = mdev s4) as Harm.
  { unfold armed. rewrite (bind_run _ _ _ _ _ Hr1), !(bind_run _ _ _ _ _ (dev_rd_run _ _)), dev_rd_run. done. }
  assert (∀ fuel, mmsp2_mmc_request fuel (MmcRequest c None) s =
    (wait_status fuel ;; c ← mmsp2_mmc_cmd_end c; d ← mret None; mmc_request_done (MmcRequest c d)) s4) as Hrun.
  { intros fuel. unfold mmsp2_mmc_request. cbn [data cmd]. rewrite (bind_run (mret tt) _ s tt s) by done.
    rewrite (bind_run _ _ _ _ _ Hr1). unfold mmsp2_mmc_request_end. rewrite !(bind_run _ _ _ _ _ (dev_rd_run _ _)). done. }
  rewrite Harm. split.
  - intros k fuel Hf Hz Hk. rewrite Hrun, (bind_run _ _ _ _ _ (wait_returns k fuel s4 Hf Hz Hk)).
    destruct (cmd_end_run c (put_dev (polled (S k) (mdev s4)) s4)) as (c' & d' & Hc & Ho & Ha & _ & He).
    rewrite (bind_run _ _ _ _ _ Hc). exists c', d'. split; [done|]. split; [done|]. split; [done|].
    cbv zeta in *.
    assert (∀ n d, (bus_load SDICMDSTA (polled n d)).2 = polled (S n) d) as Hp.
    { induction n as [|n IH]; intros d; [done|]. cbn [polled]. rewrite IH. done. }
    change (mdev (put_dev (polled (S k) (mdev s4)) s4)) with (polled (S k) (mdev s4)) in He.
    rewrite (Hp (S k)) in He. by apply error_cases.
  - intros Hz fuel. rewrite Hrun. unfold mbind at 1, Sf_bind at 1. rewrite wait_hangs; done.
Qed.
End Request.

(** * Concrete instances *)

Module MmcDemo.

(** A card whose command status is read from a script, with a receive FIFO. *)
Record card := Card { script : list Z; received : list Z }.

#[export] Instance card_bus : Bus card := {|
  bus_load := λ r d,
    if decide (r = SDICMDSTA) then
      match script d with [] => (0, d) | v :: l => (v, Card l (received d)) end
    else if decide (r = SDIDAT) then
      match received d with [] => (0, d) | c :: q => (c, Card (script d) q) end
    else if decide (r = SDIFSTA) then (match received d with [] => 0 | _ => SDIFSTA_RFDET end, d)
    else (0, d);
  bus_store := λ r v d, d |}.

#[export] Instance card_fifo : SdFifo card.
Proof.
  refine {| sd_fifo := received |}.
  - intros d. unfold bus_load, card_bus. cbn [fst]. rewrite !decide_False, decide_True by done. by destruct (received d).
  - intros d. unfold bus_load, card_bus. by rewrite !decide_False, decide_True by done.
  - intros d c q Hq. unfold bus_load, card_bus. by rewrite decide_False, decide_True, Hq by done.
  - done.
Defined.

Definition machine (d : card) : mmach card := MMach (MmcHost 0 0 0) d ∅ [].
Definition read4 (l : list scatter) : mmc_data := MmcData 2 2 MMC_DATA_READ 0 None l.

Lemma pio_read_one_buffer_witness :
  ∃ d', mp2520f_mmc_pio_read (read4 [Scatter 100 8]) (machine (Card [] [1; 2; 3; 4; 5])) =
    Some (set_xfered 4 (read4 [Scatter 100 8]), MMach (MmcHost 0 0 0) d' (pokes ∅ 100 [1; 2; 3; 4]) []).
Proof.
  destruct (pio_read_one_buffer (read4 [Scatter 100 8]) (Scatter 100 8) (machine (Card [] [1; 2; 3; 4; 5]))) as (d' & Hr).
  - reflexivity.
  - split; vm_compute; discriminate.
  - reflexivity.
  - repeat constructor; vm_compute; discriminate.
  - exists d'. exact Hr.
Defined.

Lemma pio_read_scatter_misplaced_witness : ∃ d' m',
  mp2520f_mmc_pio_read (read4 [Scatter 100 2; Scatter 200 2]) (machine (Card [] [1; 2; 3; 4])) =
    Some (set_xfered 4 (read4 [Scatter 100 2; Scatter 200 2]), MMach (MmcHost 0 0 0) d' m' []) ∧
  m' = pokes (pokes ∅ 100 [1; 2]) 202 [3; 4] ∧
  (102 <= 200 ∨ 202 <= 100 -> ∀ a, 200 <= a < 202 -> m' !! a = (∅ : gmap Z Z) !! a) ∧
  m' !! 203 = Some 4.
Proof.
  destruct (pio_read_scatter_misplaced (read4 [Scatter 100 2; Scatter 200 2]) (Scatter 100 2) (Scatter 200 2)
    (machine (Card [] [1; 2; 3; 4]))) as (d' & m' & Hr & Hm & Hk & Hl).
  - reflexivity.
  - split; vm_compute; congruence.
  - split; vm_compute; congruence.
  - reflexivity.
  - vm_compute. discriminate.
  - repeat constructor; vm_compute; discriminate.
  - exists d', m'. split; [exact Hr|]. split; [exact Hm|]. split; [exact Hk|exact Hl].
Defined.

Import RegFile.

#[export] Instance mmc_regs : MmcRegs RegFile.t.
Proof. split. intros r Hr. unfold sdi_regs in Hr. revert r Hr. apply Forall_forall. repeat constructor. Defined.

(** The bus clock is 26.0352 MHz; the core asks for 400 kHz. *)
Definition board : mmach RegFile.t := MMach (MmcHost 0 0 0) {| RegFile.contents := [(FPLLVSETREG, 0x6902)] |} ∅ [].

Lemma set_ios_clock_overshoots_witness :
  ∃ s', mmsp2_mmc_set_ios (MmcIos 400000 0 0) board = Some (tt, s') ∧
    h_clock (mhost s') = 400000 ∧ peek SDIPRE (mdev s') + 1 = 65.
Proof.
  destruct (set_ios_clock_overshoots (MmcIos 400000 0 0) board) as (s' & Hr & Hh & Hp & _).
  - split; vm_compute; congruence.
  - vm_compute. discriminate.
  - vm_compute. discriminate.
  - exists s'. split; [exact Hr|]. split; [exact Hh|]. rewrite Hp. vm_compute. reflexivity.
Defined.

(** SEND_STATUS to a card that times out at the second poll. *)
Definition send_status : mmc_command := MmcCommand 13 0 (Z.lor MMC_RSP_PRESENT MMC_RSP_CRC) [0; 0; 0; 0] 0.
Definition slow_card : card := Card [0; 0; SDICMDSTA_CMDTOUT; SDICMDSTA_CMDTOUT; SDICMDSTA_CMDTOUT] [].
Definition dead_card : card := Card [] [].

Lemma dead_polled k d : script d = [] -> polled k d = d.
Proof. revert d. induction k as [|k IH]; intros [l q] Hd; simpl in Hd; subst; [done|]. apply (IH (Card [] q)). done. Qed.

Lemma mmc_command_completes_witness :
  (∃ c' d', mmsp2_mmc_request 2 (MmcRequest send_status None) (machine slow_card) =
     Some (tt, MMach (MmcHost 0 0 0) d' ∅ [MmcRequest c' None]) ∧
     opcode c' = 13 ∧ arg c' = 0 ∧ c_error c' = u32 (- ETIMEDOUT)) ∧
  (∀ fuel, mmsp2_mmc_request fuel (MmcRequest send_status None) (machine dead_card) = None).
Proof.
  split.
  - destruct (proj1 (mmc_command_completes send_status (machine slow_card)) 1%nat 2%nat) as (c' & d' & Hr & Ho & Ha & He & _).
    + lia.
    + intros j Hj. destruct j; [vm_compute; reflexivity|lia].
    + vm_compute. discriminate.
    + exists c', d'. split; [exact Hr|]. split; [exact Ho|]. split; [exact Ha|]. apply He; vm_compute; reflexivity.
  - apply (proj2 (mmc_command_completes send_status (machine dead_card))).
    intros k. unfold poll. rewrite dead_polled by (vm_compute; reflexivity). vm_compute. reflexivity.
Defined.

End MmcDemo.
