(* ===== verification/Display.v ===== *)
(** The display of the GP2X: drivers/video/mmsp2fb.c (framebuffer),
    arch/arm/mach-mp2520f/gp2x.c (the pins of the LCD) and
    drivers/uio/mp25xxf_mlc.c (the multi-layer controller for user space).

    Memory that a driver allocates is listed in the state, so that what an
    error path forgets can be seen.  What the allocators, ioremap,
    register_framebuffer and uio_register_device answer is an argument. *)

From S2P Require Import Prelude.
From S2P Require Import Hw.
From S2P Require Import Genirq.
From S2P Require Import Mp2520fIrq.
From S2P Require Import Mp2520fBoard.
From S2P Require Import Resource.

(** * Registers *)

(** regs-mlc.h; both drivers use these addresses. *)
Definition MP25XXF_MLC_START : Z := 0xc0002880.
Definition MLC_STL_OADRL : reg := REGW (MP25XXF_MLC_START + 0x8e).
Definition MLC_STL_OADRH : reg := REGW (MP25XXF_MLC_START + 0x90).
Definition MLC_STL_EADRL : reg := REGW (MP25XXF_MLC_START + 0x92).
Definition MLC_STL_EADRH : reg := REGW (MP25XXF_MLC_START + 0x94).

(** * Data *)

(** include/asm-arm/arch-mp25xxf/lcd.h *)
Record mmsp2_platform_lcd (D : Type) := Lcd {
  width : Z; height : Z; bpp : Z; lcd_hsync_len : Z; lcd_vsync_len : Z; lcd_init : St D Z }.
Arguments Lcd {D}. Arguments width {D}. Arguments height {D}. Arguments bpp {D}.
Arguments lcd_hsync_len {D}. Arguments lcd_vsync_len {D}. Arguments lcd_init {D}.

Record fb_bitfield := Bitfield { bf_offset : Z; bf_length : Z }.

(** include/linux/fb.h: the fields the driver uses. *)
Record fb_fix_screeninfo := Fix { fix_id : string; smem_start : Z; smem_len : Z; visual : Z }.
Record fb_var_screeninfo := Var {
  xres : Z; yres : Z; xres_virtual : Z; yres_virtual : Z; bits_per_pixel : Z;
  red : fb_bitfield; green : fb_bitfield; blue : fb_bitfield; hsync_len : Z; vsync_len : Z }.

Record mmsp2fb_info := Par { map_dma : Z; map_cpu : option Z; map_size : Z }.
Record fb_info := FbInfo {
  var : fb_var_screeninfo; fix_ : fb_fix_screeninfo; screen_base : option Z; pseudo_palette : option (list Z);
  fbops : bool; par : mmsp2fb_info }.

(** [framebuffer_alloc] zeroes what it returns. *)
Definition fb_zero : fb_info :=
  FbInfo (Var 0 0 0 0 0 (Bitfield 0 0) (Bitfield 0 0) (Bitfield 0 0) 0 0) (Fix "" 0 0 0) None None false (Par 0 None 0).

Inductive obj := OFb | OPalette | OVideo (size : Z) | OUio.
#[export] Instance obj_eq_dec : EqDecision obj.
Proof. solve_decision. Defined.

(** The registers, the driver data of the platform device, and what is
    allocated. *)
Record fbsys (D : Type) := FbSys { fdev : D; drvdata : option fb_info; live : list obj }.
Arguments FbSys {D}. Arguments fdev {D}. Arguments drvdata {D}. Arguments live {D}.

Definition FB_VISUAL_TRUECOLOR : Z := 2.
Definition DRIVER_NAME : string := "mmsp2_fb".
Definition PAGE_ALIGN (x : Z) : Z := clr (u32 (x + 4096 - 1)) (4096 - 1).

Section Fb.
Context {D : Type} `{Bus D}.
Abbreviation sys := (fbsys D).

Definition fb_dev {A} (m : St D A) : Sf sys A := λ s,
  let '(x, d) := m (fdev s) in Some (x, FbSys d (drvdata s) (live s)).
(** [fbi = platform_get_drvdata(pdev)]; [fbi->...] of NULL faults. *)
Definition get_fb : Sf sys fb_info := ftry drvdata.
Definition put_fb (o : option fb_info) : Sf sys unit := fmodify (λ s, FbSys (fdev s) o (live s)).
Definition alloc (o : obj) : Sf sys unit := fmodify (λ s, FbSys (fdev s) (drvdata s) (o :: live s)).
(** [kfree] of the one object of this kind. *)
Definition free (o : obj) : Sf sys unit := fmodify (λ s, FbSys (fdev s) (drvdata s) (filter (.≠ o) (live s))).

(** * The LCD of the GP2X *)

Definition gp2x_lcd_init : St D Z :=
  mmsp2_gpio_mode GPIOH 1 GPIO_FN_OUTPUT ;;
  mmsp2_gpio_mode GPIOH 2 GPIO_FN_OUTPUT ;;
  mmsp2_gpio_mode GPIOB 3 GPIO_FN_OUTPUT ;;
  mmsp2_gpio_write GPIOH 1 1 ;;
  mmsp2_gpio_write GPIOH 2 1 ;;
  mmsp2_gpio_write GPIOB 3 1 ;;
  mmsp2_gpio_mode GPIOB 7 GPIO_FN_ALT1 ;;
  mmsp2_gpio_mode GPIOB 6 GPIO_FN_ALT1 ;;
  mmsp2_gpio_mode GPIOB 5 GPIO_FN_ALT1 ;;
  mmsp2_gpio_mode GPIOB 4 GPIO_FN_ALT1 ;;
  mret 0.

Definition gp2x_platform_lcd : mmsp2_platform_lcd D := Lcd 320 240 24 30 4 gp2x_lcd_init.

(** * The framebuffer driver *)

(** [pal]: what kmalloc returned for the palette, with its contents. *)
Definition mmsp2fb_init_fbinfo (pdata : mmsp2_platform_lcd D) (pal : option (list Z)) : Sf sys Z :=
  fbi ← get_fb;
  match pal with
  | None => mret (- ENOMEM)
  | Some p =>
      alloc OPalette ;;
      put_fb (Some (FbInfo
        (Var (width pdata) (height pdata) (width pdata) (height pdata) (bpp pdata)
           (red (var fbi)) (green (var fbi)) (blue (var fbi)) (lcd_hsync_len pdata) (lcd_vsync_len pdata))
        (Fix DRIVER_NAME (smem_start (fix_ fbi)) (u32 (width pdata * height pdata * 3)) FB_VISUAL_TRUECOLOR)
        (screen_base fbi) (Some p) (fbops fbi) (par fbi))) ;;
      mret 0
  end.

Definition chan_to_field (chan : Z) (bf : fb_bitfield) : Z :=
  let chan := Z.land chan 0xffff in
  let chan := Z.shiftr chan (u32 (16 - bf_length bf)) in
  u32 (Z.shiftl chan (bf_offset bf)).

(** [mem]: the CPU and bus addresses dma_alloc_writecombine returned; clearing
    the memory is left out. *)
Definition mmsp2fb_map_video_memory (mem : option (Z * Z)) : Sf sys Z :=
  fbi ← get_fb;
  let size := PAGE_ALIGN (smem_len (fix_ fbi)) in
  match mem with
  | None =>
      put_fb (Some (FbInfo (var fbi) (fix_ fbi) (screen_base fbi) (pseudo_palette fbi) (fbops fbi) (Par (map_dma (par fbi)) None size))) ;;
      mret (- ENOMEM)
  | Some (cpu, dma) =>
      alloc (OVideo size) ;;
      put_fb (Some (FbInfo (var fbi) (Fix (fix_id (fix_ fbi)) dma (smem_len (fix_ fbi)) (visual (fix_ fbi)))
        (Some cpu) (pseudo_palette fbi) (fbops fbi) (Par dma (Some cpu) size))) ;;
      mret 0
  end.

Definition mmsp2_fb_setcolreg (regno r g b trans : Z) : Sf sys Z :=
  fbi ← get_fb;
  if (visual (fix_ fbi) =? FB_VISUAL_TRUECOLOR) && (regno <? 16) then
    pal ← ftry (λ _ : sys, pseudo_palette fbi);
    let val := chan_to_field r (red (var fbi)) in
    let val := Z.lor val (chan_to_field g (green (var fbi))) in
    let val := Z.lor val (chan_to_field b (blue (var fbi))) in
    put_fb (Some (FbInfo (var fbi) (fix_ fbi) (screen_base fbi) (Some (<[Z.to_nat regno := val]> pal)) (fbops fbi) (par fbi))) ;;
    mret 0
  else mret 0.

Definition mmsp2_fb_check_var (v : fb_var_screeninfo) : Sf sys Z := mret 0.

Definition mmsp2_fb_set_par : Sf sys Z :=
  fbi ← get_fb;
  let dma := map_dma (par fbi) in
  fb_dev (wr MLC_STL_OADRL (Z.land dma 0xffff)) ;;
  fb_dev (wr MLC_STL_OADRH (Z.shiftr dma 16)) ;;
  fb_dev (wr MLC_STL_EADRL (Z.land dma 0xffff)) ;;
  fb_dev (wr MLC_STL_EADRH (Z.shiftr dma 16)) ;;
  mret 0.

Definition mmsp2_fb_blank (blank : Z) : Sf sys Z := mret 0.

(** [fbmem]: framebuffer_alloc succeeds; [reg]: the code register_framebuffer
    returns. *)
Definition mmsp2_fb_probe (pdata : option (mmsp2_platform_lcd D)) (fbmem : bool) (pal : option (list Z))
    (mem : option (Z * Z)) (reg : Z) : Sf sys Z :=
  match pdata with
  | None => mret (- EINVAL)
  | Some pdata =>
      if negb fbmem then mret (- ENOMEM)
      else
        alloc OFb ;;
        put_fb (Some fb_zero) ;;
        ret ← mmsp2fb_init_fbinfo pdata pal;
        if ret <? 0 then mret ret
        else
          ret ← mmsp2fb_map_video_memory mem;
          if negb (ret =? 0) then mret (- ENOMEM)
          else
            fb_dev (lcd_init pdata) ;;
            fbi ← get_fb;
            put_fb (Some (FbInfo (var fbi) (fix_ fbi) (screen_base fbi) (pseudo_palette fbi) true (par fbi))) ;;
            if reg <? 0 then mret reg else mret 0
  end.

Definition mmsp2_fb_remove : Sf sys Z :=
  fbi ← fget drvdata;
  put_fb None ;;
  match fbi with Some _ => free OFb | None => mret tt end ;;
  mret 0.
End Fb.

(** * The multi-layer controller for user space *)

Record uio_mem := UioMem { um_addr : Z; um_size : Z }.
Record uio_info := UioInfo { uio_name : string; uio_mem0 : uio_mem; uio_mem1 : uio_mem }.

(** The registers, the tree of I/O memory, the driver data and what is
    allocated. *)
Record mlcsys (D : Type) := MlcSys { mdev : D; iomem : heap; mlc_data : option uio_info; mlc_live : list obj }.
Arguments MlcSys {D}. Arguments mdev {D}. Arguments iomem {D}. Arguments mlc_data {D}. Arguments mlc_live {D}.

Section Mlc.
Context {D : Type} `{Bus D}.
Abbreviation sys := (mlcsys D).
(** [&iomem_resource], and bounds for the loops over its children. *)
Context (iomem_resource : ptr) (levels fuel : nat).

Definition mlc_dev (m : St D unit) : Sf sys unit := fmodify (λ s, MlcSys (exec m (mdev s)) (iomem s) (mlc_data s) (mlc_live s)).
Definition in_iomem {A} (m : Sf heap A) : Sf sys A := λ s,
  match m (iomem s) with Some (x, h) => Some (x, MlcSys (mdev s) h (mlc_data s) (mlc_live s)) | None => None end.
Definition mlc_alloc (o : obj) : Sf sys unit := fmodify (λ s, MlcSys (mdev s) (iomem s) (mlc_data s) (o :: mlc_live s)).
Definition mlc_free (o : obj) : Sf sys unit := fmodify (λ s, MlcSys (mdev s) (iomem s) (mlc_data s) (filter (.≠ o) (mlc_live s))).
Definition put_mlc (o : option uio_info) : Sf sys unit := fmodify (λ s, MlcSys (mdev s) (iomem s) o (mlc_live s)).

(** [r->end - r->start + 1] *)
Definition res_len (r : pres) : Z := u32 (pr_end r - pr_start r + 1).

(** [imem]: kzalloc of the uio_info succeeds; [res]: the node kzalloc returns in
    __request_region; [remap]: ioremap succeeds; [cpu], [dma]: what
    dma_alloc_writecombine returns and stores (its result is not looked at);
    [uio]: the code of uio_register_device.  The reads of the last printk are
    left out. *)
Definition mp25xxf_mlc_probe (pdev : platform_device) (imem : bool) (res : option ptr) (remap : bool)
    (cpu : option Z) (dma : Z) (uio : Z) : Sf sys Z :=
  if negb imem then mret (- ENOMEM)
  else
    mlc_alloc OUio ;;
    match platform_get_resource (pd_resource pdev) IORESOURCE_MEM 0 with
    | None => mlc_free OUio ;; mret (- ENXIO)
    | Some r =>
        got ← in_iomem (request_region_ levels fuel res iomem_resource (pr_start r) (res_len r));
        match got with
        | None => mlc_free OUio ;; mret (- ENXIO)
        | Some _ =>
            if negb remap then mlc_free OUio ;; mret (- ENOMEM)
            else
              let size := 320 * 240 * 3 in
              match cpu with Some _ => mlc_alloc (OVideo size) | None => mret tt end ;;
              mlc_dev (wr MLC_STL_OADRL (Z.land dma 0xffff)) ;;
              mlc_dev (wr MLC_STL_EADRL (Z.land dma 0xffff)) ;;
              mlc_dev (wr MLC_STL_OADRH (Z.shiftr dma 16)) ;;
              mlc_dev (wr MLC_STL_EADRH (Z.shiftr dma 16)) ;;
              if negb (uio =? 0) then
                _ ← in_iomem (release_region_ fuel iomem_resource (pr_start r) (res_len r));
                mlc_free OUio ;;
                mret (- ENODEV)
              else
                put_mlc (Some (UioInfo "mp25xxf_mlc" (UioMem (pr_start r) (res_len r)) (UioMem dma size))) ;;
                mret 0
        end
    end.

Definition mp25xxf_mlc_remove : Sf sys Z :=
  put_mlc None ;;
  mlc_free OUio ;;
  mret 0.
End Mlc.

(** * The framebuffer comes up *)

(** The start addresses of the layer hold what is written. *)
Class DisplayRegs (D : Type) `{BusModel D} := {
  mlc_storage r : r ∈ [MLC_STL_OADRL; MLC_STL_OADRH; MLC_STL_EADRL; MLC_STL_EADRH] -> kind_of r = Storage;
}.

(** The top [bf_length] bits of a 16-bit channel, moved to [bf_offset]. *)
Lemma chan_to_field_bits chan bf i : 0 <= bf_offset bf -> 0 <= bf_length bf <= 16 -> bf_offset bf + bf_length bf <= 32 -> 0 <= i ->
  Z.testbit (chan_to_field chan bf) i =
  (bf_offset bf <=? i) && (i <? bf_offset bf + bf_length bf) && Z.testbit chan (16 - bf_length bf + (i - bf_offset bf)).
Proof.
  intros Ho Hl Hs Hi. unfold chan_to_field, u32. rewrite (wrap_id 32 (16 - bf_length bf)) by (unfold in_u; lia).
  rewrite wrap_testbit by lia. destruct (Z.leb_spec (bf_offset bf) i) as [Hlo|Hlo]; cbn [andb].
  - rewrite Z.shiftl_spec_high by lia. rewrite Z.shiftr_spec by lia. rewrite Z.land_spec.
    change 0xffff with (Z.ones 16). rewrite Z.testbit_ones by lia.
    replace (i - bf_offset bf + (16 - bf_length bf)) with (16 - bf_length bf + (i - bf_offset bf)) by lia.
    case_cmp; try lia; cbn [andb]; by rewrite ?andb_true_r, ?andb_false_r.
  - rewrite Z.shiftl_spec_low by lia. apply andb_false_r.
Qed.

Lemma chan_to_field_zero chan : chan_to_field chan (Bitfield 0 0) = 0.
Proof.
  apply Z.bits_inj'. intros i Hi. rewrite chan_to_field_bits, Z.bits_0 by (cbn; lia). cbn [bf_offset bf_length].
  destruct (Z.ltb_spec i (0 + 0)); [lia|]. by rewrite andb_false_r.
Qed.

(** The address the controller is given, from its two halves. *)
Lemma halves x : in_u 32 x -> Z.lor (Z.shiftl (wrap 16 (Z.shiftr x 16)) 16) (wrap 16 (Z.land x 0xffff)) = x.
Proof.
  intros Hx. apply Z.bits_inj'. intros i Hi. rewrite Z.lor_spec, (wrap_testbit 16 (Z.land x _)), Z.land_spec by lia.
  change 0xffff with (Z.ones 16). rewrite Z.testbit_ones by lia. destruct (decide (i < 16)).
  - rewrite Z.shiftl_spec_low by lia. cbn [orb]. case_cmp; try lia. cbn [andb]. by rewrite andb_true_r.
  - rewrite Z.shiftl_spec_high, wrap_testbit, Z.shiftr_spec by lia. replace (i - 16 + 16) with i by lia.
    destruct (Z.ltb_spec i 16); [lia|]. cbn [andb]. rewrite orb_false_r. destruct (Z.ltb_spec (i - 16) 16); [done|].
    symmetry. apply (testbit_high 32); [done|lia].
Qed.

Section FbSpec.
Context {D : Type} `{GpioRegs D} {HD : DisplayRegs D}.
Implicit Types d : D.

Lemma gpio_mode_bit k pin mode d i : 0 <= k <= 14 -> 0 <= pin < 8 -> 0 <= i < 16 ->
  Z.testbit (peek (GPIOxALTFNLOW (2 * k)) (exec (mmsp2_gpio_mode (2 * k) pin mode) d)) i =
  if i / 2 =? pin then Z.testbit mode (i mod 2) else Z.testbit (peek (GPIOxALTFNLOW (2 * k)) d) i.
Proof.
  intros Hk Hp Hi. rewrite gpio_mode_low, peek_wr_altfn by (lia || auto with hw).
  rewrite altfn_value_bits by (lia || apply (peek_range (GPIOxALTFNLOW (2 * k))); auto with hw).
  destruct (Z.ltb_spec i 16); [|lia]. case_cmp; [|done]. cbn [andb]. f_equal. pose proof (Z.div_mod i 2). lia.
Qed.

Lemma gpio_mode_frame k pin mode d r : 0 <= k <= 14 -> 0 <= pin < 8 -> kind_of r = Storage -> reg_disj (GPIOxALTFNLOW (2 * k)) r ->
  peek r (exec (mmsp2_gpio_mode (2 * k) pin mode) d) = peek r d.
Proof. intros Hk Hp Hr Hd. rewrite gpio_mode_low by lia. apply wr_frame; auto with hw. Qed.

Lemma gpio_write_frame k pin v d r : 0 <= k <= 14 -> kind_of r = Storage -> reg_disj (GPIOxOUT (2 * k)) r ->
  peek r (exec (mmsp2_gpio_write (2 * k) pin v) d) = peek r d.
Proof.
  intros Hk Hr Hd. unfold mmsp2_gpio_write. rewrite !exec_rd_skip by auto with hw. rewrite exec_bind, exec_rd_skip by auto with hw.
  apply wr_frame; auto with hw.
Qed.

(** The pins of the LCD: VGH, backlight and reset are outputs and high, the
    clock and the synchronisation signals belong to the controller; all other
    pins of the two groups stay as they were. *)
Definition lcd_pins d d' : Prop := ∀ i, 0 <= i < 16 ->
  Z.testbit (peek (GPIOxALTFNLOW GPIOH) d') i =
    (if (i / 2 =? 1) || (i / 2 =? 2) then Z.testbit GPIO_FN_OUTPUT (i mod 2) else Z.testbit (peek (GPIOxALTFNLOW GPIOH) d) i) ∧
  Z.testbit (peek (GPIOxALTFNLOW GPIOB) d') i =
    (if i / 2 =? 3 then Z.testbit GPIO_FN_OUTPUT (i mod 2)
     else if 4 <=? i / 2 then Z.testbit GPIO_FN_ALT1 (i mod 2) else Z.testbit (peek (GPIOxALTFNLOW GPIOB) d) i) ∧
  Z.testbit (peek (GPIOxOUT GPIOH) d') i = ((i =? 1) || (i =? 2) || Z.testbit (peek (GPIOxOUT GPIOH) d) i) ∧
  Z.testbit (peek (GPIOxOUT GPIOB) d') i = ((i =? 3) || Z.testbit (peek (GPIOxOUT GPIOB) d) i).

Ltac lcd_side := first [lia | assumption | apply (bool_decide_unpack _); vm_compute; exact I].
Ltac lcd_step := first [rewrite gpio_mode_frame by lcd_side | rewrite gpio_write_frame by lcd_side
  | rewrite gpio_mode_bit by lia | rewrite (gpio_write_sets_pin _ _ true) by lia].

Lemma lcd_init_pins d : lcd_pins d (exec gp2x_lcd_init d).
Proof.
  intros i Hi. unfold gp2x_lcd_init. rewrite !exec_bind. change (exec (mret 0) ?x) with x.
  change GPIOH with (2 * 7). change GPIOB with (2 * 1).
  pose proof (OUT_storage 1 ltac:(lia)). pose proof (OUT_storage 7 ltac:(lia)).
  pose proof (ALTFNLOW_storage 1 ltac:(lia)). pose proof (ALTFNLOW_storage 7 ltac:(lia)).
  change (mmsp2_gpio_write ?g ?p 1) with (mmsp2_gpio_write g p (Z.b2z true)).
  pose proof (Z.div_lt_upper_bound i 2 8). split_and!; repeat lcd_step; case_cmp; (done || lia).
Qed.


Definition start_of (lo hi : reg) d : Z := Z.lor (Z.shiftl (peek hi d) 16) (peek lo d).

Lemma fb_dev_run {A} (m : St D A) (s : fbsys D) : fb_dev m s = Some (eval m (fdev s), FbSys (exec m (fdev s)) (drvdata s) (live s)).
Proof. unfold fb_dev, eval, exec. by destruct (m (fdev s)). Qed.

Ltac mlc_step := first [rewrite wr_frame by (first [apply storage_known, mlc_storage; set_solver | apply (bool_decide_unpack _); vm_compute; exact I])
  | rewrite wr_storage by (apply mlc_storage; set_solver)].

Lemma set_par_run s fbi : drvdata s = Some fbi -> in_u 32 (map_dma (par fbi)) ->
  ∃ d', mmsp2_fb_set_par s = Some (0, FbSys d' (drvdata s) (live s)) ∧
    start_of MLC_STL_OADRL MLC_STL_OADRH d' = map_dma (par fbi) ∧ start_of MLC_STL_EADRL MLC_STL_EADRH d' = map_dma (par fbi).
Proof.
  intros Hs Hd. unfold mmsp2_fb_set_par. rewrite (bind_run _ _ s fbi s) by (unfold get_fb, ftry; by rewrite Hs).
  cbv zeta. do 4 (erewrite bind_run by apply fb_dev_run). cbn [fdev drvdata live]. eexists. split; [reflexivity|].
  unfold start_of. repeat mlc_step. change (reg_width _) with 16. by rewrite !halves.
Qed.

(** What probing leaves behind, for any LCD. *)
Definition fb_up (pdata : mmsp2_platform_lcd D) pal cpu dma : fb_info :=
  let len := u32 (width pdata * height pdata * 3) in
  FbInfo (Var (width pdata) (height pdata) (width pdata) (height pdata) (bpp pdata)
      (Bitfield 0 0) (Bitfield 0 0) (Bitfield 0 0) (lcd_hsync_len pdata) (lcd_vsync_len pdata))
    (Fix DRIVER_NAME dma len FB_VISUAL_TRUECOLOR) (Some cpu) (Some pal) true (Par dma (Some cpu) (PAGE_ALIGN len)).

Lemma fb_probe_run (s : fbsys D) pdata pal cpu dma reg :
  mmsp2_fb_probe (Some pdata) true (Some pal) (Some (cpu, dma)) reg s =
  Some (if reg <? 0 then reg else 0, FbSys (exec (lcd_init pdata) (fdev s)) (Some (fb_up pdata pal cpu dma))
    (OVideo (map_size (par (fb_up pdata pal cpu dma))) :: OPalette :: OFb :: live s)).
Proof.
  destruct s as [d o l]. unfold mmsp2_fb_probe, mmsp2fb_init_fbinfo, mmsp2fb_map_video_memory, get_fb, put_fb, alloc, ftry, fb_dev, mbind, Sf_bind.
  cbn. unfold exec. destruct (lcd_init pdata d) as [x d']. cbn. by destruct (reg <? 0).
Qed.

(** The framebuffer driver on the GP2X, when memory is there and the
    framebuffer layer accepts: probing returns 0, sets up the pins of the LCD
    and nothing else of their groups, describes 320 by 240 pixels of three bytes
    in whole pages of video memory, and set_par gives the controller the bus
    address of that memory for both fields.  The colour fields are never
    described, so every colour a console sets becomes 0. *)
Theorem fb_bring_up (s : fbsys D) pal cpu dma reg : in_u 32 dma -> 0 <= reg ->
  ∃ s' fbi, mmsp2_fb_probe (Some gp2x_platform_lcd) true (Some pal) (Some (cpu, dma)) reg s = Some (0, s') ∧
    lcd_pins (fdev s) (fdev s') ∧ drvdata s' = Some fbi ∧
    (xres (var fbi) = 320 ∧ yres (var fbi) = 240 ∧ smem_start (fix_ fbi) = dma ∧ screen_base fbi = Some cpu ∧
     smem_len (fix_ fbi) = 320 * 240 * 3 ∧ smem_len (fix_ fbi) <= map_size (par fbi) ∧ map_size (par fbi) mod 4096 = 0 ∧
     live s' = OVideo (map_size (par fbi)) :: OPalette :: OFb :: live s) ∧
    (∃ s2, mmsp2_fb_set_par s' = Some (0, s2) ∧ start_of MLC_STL_OADRL MLC_STL_OADRH (fdev s2) = dma ∧
       start_of MLC_STL_EADRL MLC_STL_EADRH (fdev s2) = dma) ∧
    (∀ regno r g b t, 0 <= regno -> ∃ s2, mmsp2_fb_setcolreg regno r g b t s' = Some (0, s2) ∧
       drvdata s2 ≫= pseudo_palette = Some (if regno <? 16 then <[Z.to_nat regno := 0]> pal else pal)).
Proof.
  intros Hd Hr. set (fbi := fb_up gp2x_platform_lcd pal cpu dma).
  exists (FbSys (exec gp2x_lcd_init (fdev s)) (Some fbi) (OVideo 233472 :: OPalette :: OFb :: live s)), fbi. split_and!; try done.
  - rewrite fb_probe_run. destruct (Z.ltb_spec reg 0); [lia|reflexivity].
  - apply lcd_init_pins.
  - destruct (set_par_run (FbSys (exec gp2x_lcd_init (fdev s)) (Some fbi) (OVideo 233472 :: OPalette :: OFb :: live s)) fbi)
      as (d' & Hrun & Ho & He); [done..|]. by exists (FbSys d' (Some fbi) (OVideo 233472 :: OPalette :: OFb :: live s)).
  - intros regno r g b t Hn. unfold mmsp2_fb_setcolreg. erewrite bind_run by reflexivity. cbn [visual fix_ fbi fb_up].
    change (FB_VISUAL_TRUECOLOR =? FB_VISUAL_TRUECOLOR) with true. cbn [andb]. destruct (Z.ltb_spec regno 16); [|by eexists].
    erewrite bind_run by reflexivity. cbn [red green blue var fbi fb_up]. rewrite !chan_to_field_zero. by eexists.
Qed.

(** Failing late forgets what was allocated, and removing the driver frees
    neither the palette nor the video memory. *)
Lemma fb_probe_leaks (s : fbsys D) pdata pal mem reg r s' :
  mmsp2_fb_probe (Some pdata) true pal mem reg s = Some (r, s') -> r < 0 -> OFb ∈ live s'.
Proof.
  destruct pal as [p|]; [|intros [= <- <-] _; by left].
  destruct mem as [[cpu dma]|]; [|intros [= <- <-] _; right; by left].
  rewrite fb_probe_run. intros [= <- <-] _. do 2 right. by left.
Qed.
End FbSpec.

(** * A busy window *)

Section MlcSpec.
Implicit Types (h : heap) (l : list ptr).

(** The window [a .. b] under [root] is held by one busy region, and no other
    child meets it. *)
Definition window_busy h root l (a b : Z) : Prop := level h root l ∧ (root ∉ l) ∧
  (∃ rr, h !! root = Some rr ∧ r_parent rr = None ∧ r_start rr <= a ∧ b <= r_end rr) ∧
  (∃ y ry, y ∈ l ∧ h !! y = Some ry ∧ overlaps ry a b) ∧
  ∀ y ry, y ∈ l -> h !! y = Some ry -> overlaps ry a b -> tst (r_flags ry) IORESOURCE_BUSY = true.

Lemma level_fresh h root l x r : level h root l -> h !! x = None -> level (<[x := r]> h) root l.
Proof.
  intros (rr & Hr & Hs) Hx. exists rr. split; [rewrite lookup_insert_ne; congruence|].
  eapply sibs_frame; [|exact Hs]. intros y Hy. destruct (sibs_parent _ _ _ _ _ _ _ Hs Hy) as (ry & Hry & _).
  rewrite lookup_insert_ne; congruence.
Qed.

Section Region.
Context (h : heap) (root res : ptr) (l : list ptr) (rr : resource) (a n : Z) (levels fuel : nat).
Context (Hrr : h !! root = Some rr) (Hpar : r_parent rr = None) (Hl : level h root l) (Hrl : root ∉ l) (Hres : h !! res = None).
Context (Hf : (length l < fuel)%nat) (Hlev : (0 < levels)%nat).
Abbreviation b := (u32 (a + n - 1)).

Lemma region_step : let r := Resource a b IORESOURCE_BUSY None None None in let h1 := <[res := r]> h in
  (free_range h rr l a b ∧ ∃ h' l1 l2, request_resource_ fuel root res h1 = Some (None, h') ∧ l = l1 ++ l2 ∧
     linked h1 h' root res (Child root) l (l1 ++ res :: l2) r rr ∧ level h' root (l1 ++ res :: l2)) ∨
  (~ free_range h rr l a b ∧ ∃ c, request_resource_ fuel root res h1 = Some (Some c, h1) ∧
     (c = root ∧ ~ (a <= b ∧ r_start rr <= a ∧ b <= r_end rr) ∨ c ∈ l ∧ ∃ rc, h !! c = Some rc ∧ overlaps rc a b)).
Proof.
  intros r h1. assert (root <> res) as Hne by congruence.
  assert (∀ y, y ∈ l -> h1 !! y = h !! y) as Hy.
  { intros y Hin. destruct Hl as (rr' & Hr' & Hs). destruct (sibs_parent _ _ _ _ _ _ _ Hs Hin) as (ry & Hry & _).
    unfold h1. rewrite lookup_insert_ne; congruence. }
  assert (∀ x y, free_range h1 rr l x y <-> free_range h rr l x y) as Hfree.
  { intros x y. unfold free_range. split; intros (? & ? & ? & Hno); split_and!; try done; intros z rz Hz Hrz; apply (Hno z rz); try done; [by rewrite Hy|by rewrite <- Hy]. }
  destruct (request_resource_spec_ fuel root res h1 l rr r) as [(Hfr & h' & l1 & l2 & Hrun & Hl12 & Hlk & Hl')|(Hno & c & Hrun & Hc)];
    try done.
  - unfold h1. by rewrite lookup_insert_ne.
  - unfold h1. by rewrite lookup_insert_eq.
  - split; [done|]. exists r. split; [by unfold h1; rewrite lookup_insert_eq|]. split; [done|]. intros rr'. unfold h1.
    rewrite lookup_insert_ne by done. intros ?. simplify_eq. by rewrite Hpar.
  - by apply level_fresh.
  - left. split; [by apply Hfree|]. by exists h', l1, l2.
  - right. split; [by rewrite <- Hfree|]. exists c. split; [done|]. destruct Hc as [Hc|[Hin (rc & Hrc & Hov)]]; [by left|right].
    split; [done|]. exists rc. by rewrite <- Hy.
Qed.

(** A free window is claimed, *)
Lemma request_region_free : free_range h rr l a b ->
  ∃ h' l', request_region_ levels fuel (Some res) root a n h = Some (Some res, h') ∧ window_busy h' root l' a b ∧
    (length l' = S (length l))%nat.
Proof.
  intros Hfr. destruct region_step as [(_ & h' & l1 & l2 & Hrun & -> & Hlk & Hl')|[Hno _]]; [|done].
  unfold request_region_. erewrite bind_run by reflexivity. destruct levels as [|lv]; [lia|]. cbn [region_loop].
  exists h', (l1 ++ res :: l2). destruct Hlk as [Hslot [next Hnew] Hnodes Hframe]. unfold window_busy. split_and!.
  - rewrite (bind_run _ _ _ true h'); [done|]. by rewrite (bind_run _ _ _ _ _ Hrun).
  - done.
  - intros Hin. assert (root <> res) by congruence. set_solver.
  - eexists. split; [exact Hslot|]. destruct Hfr as (? & ? & ? & _). by destruct rr.
  - exists res. eexists. split; [set_solver|]. split; [exact Hnew|]. destruct Hfr as (? & _). unfold overlaps. cbn. lia.
  - intros y ry Hy Hry Hov. destruct (decide (y = res)) as [->|Hne]; [rewrite Hnew in Hry; by simplify_eq|].
    assert (y ∈ l1 ++ l2) as Hin by set_solver. destruct (Hnodes y Hin) as (ry0 & sb & H1 & H2). simplify_eq.
    rewrite lookup_insert_ne in H1 by congruence. destruct Hfr as (_ & _ & _ & Hno). by destruct (Hno y ry0 Hin H1).
  - rewrite !length_app. cbn. lia.
Qed.

(** and a busy one is refused, without a trace. *)
Lemma request_region_busy : window_busy h root l a b -> a <= b ->
  request_region_ levels fuel (Some res) root a n h = Some (None, h).
Proof.
  intros (_ & _ & (rr' & Hr' & _ & Hlo & Hhi) & (y & ry & Hy & Hry & Hyo) & Hbusy) Hab. simplify_eq.
  destruct region_step as [[(_ & _ & _ & Hno) _]|(_ & c & Hrun & Hc)]; [by destruct (Hno y ry)|].
  unfold request_region_. erewrite bind_run by reflexivity. destruct levels as [|lv]; [lia|]. cbn [region_loop].
  set (h1 := <[res := _]> h) in *. rewrite (bind_run _ _ h1 false h1).
  { erewrite bind_run by reflexivity. unfold mret, Sf_ret, h1. by rewrite delete_insert_id. }
  rewrite (bind_run _ _ _ _ _ Hrun). destruct Hc as [[-> ?]|[Hin (rc & Hrc & Hov)]]; [tauto|].
  rewrite bool_decide_false by congruence. erewrite bind_run.
  2:{ apply load_run. unfold h1. rewrite lookup_insert_ne by congruence. exact Hrc. }
  by rewrite (Hbusy c rc Hin Hrc Hov).
Qed.
End Region.
End MlcSpec.

Section MlcLeak.
Context {D : Type} `{Bus D}.
Context (root : ptr) (levels fuel : nat).
Abbreviation probe := (mp25xxf_mlc_probe root levels fuel mp25xxf_mlc_device).
Abbreviation mlc_start := (0xc0002880).
Abbreviation mlc_end := (0xc00029c0).

(** Up to the request for the window. *)
Ltac enter_probe := unfold mp25xxf_mlc_probe; cbn [negb]; erewrite bind_run by reflexivity;
  change (platform_get_resource _ _ _) with (Some (res_mem mlc_start mlc_end)); cbv iota beta.

(** Every further probe fails with -ENXIO. *)
Definition stuck (s : mlcsys D) : Prop := ∀ res remap cpu dma uio, iomem s !! res = None ->
  ∃ s2, probe true (Some res) remap cpu dma uio s = Some (- ENXIO, s2) ∧ iomem s2 = iomem s.

Lemma in_iomem_run {A} (m : Sf heap A) (s : mlcsys D) x h : m (iomem s) = Some (x, h) ->
  in_iomem m s = Some (x, MlcSys (mdev s) h (mlc_data s) (mlc_live s)).
Proof. intros Hm. unfold in_iomem. by rewrite Hm. Qed.

Lemma busy_stuck (s : mlcsys D) l : window_busy (iomem s) root l mlc_start mlc_end -> (length l < fuel)%nat -> (0 < levels)%nat -> stuck s.
Proof.
  intros Hb Hf Hlv res remap cpu dma uio Hres. pose proof Hb as (Hl & Hrl & (rr & Hrr & Hp & _) & _).
  enter_probe.
  erewrite bind_run; [|apply in_iomem_run; cbn [iomem]; by apply (request_region_busy (iomem s) root res l rr mlc_start 0x141)].
  by eexists.
Qed.

(** The driver of the layer controller gives its register window back only
    when the registration with the user-space layer fails: after a failing
    ioremap, and after the driver was removed, the window stays busy and every
    later probe fails with -ENXIO. *)
Theorem mlc_window_leaks (s : mlcsys D) l rr res cpu dma :
  iomem s !! root = Some rr -> r_parent rr = None -> level (iomem s) root l -> root ∉ l -> iomem s !! res = None ->
  (S (length l) < fuel)%nat -> (0 < levels)%nat -> free_range (iomem s) rr l mlc_start mlc_end ->
  (∀ uio, ∃ s', probe true (Some res) false cpu dma uio s = Some (- ENOMEM, s') ∧ stuck s') ∧
  (∃ s1 s2, probe true (Some res) true cpu dma 0 s = Some (0, s1) ∧ mp25xxf_mlc_remove s1 = Some (0, s2) ∧ stuck s2 ∧
     (cpu <> None -> OVideo (320 * 240 * 3) ∈ mlc_live s2)).
Proof.
  intros Hrr Hp Hl Hrl Hres Hf Hlv Hfree.
  destruct (request_region_free (iomem s) root res l rr mlc_start 0x141 levels fuel) as (h' & l' & Hrun & Hb & Hlen); try done; [lia|].
  split.
  - intros uio. eexists. split.
    + enter_probe. erewrite bind_run by (apply in_iomem_run; exact Hrun). reflexivity.
    + apply (busy_stuck _ l'); [exact Hb|lia|done].
  - eexists _, _. split_and!.
    + enter_probe. erewrite bind_run by (apply in_iomem_run; exact Hrun).
      cbn [negb]. rewrite (bind_run _ _ _ tt (MlcSys (mdev s) h' (mlc_data s) (match cpu with Some _ => [OVideo (320 * 240 * 3)] | None => [] end ++ OUio :: mlc_live s)))
        by (by destruct cpu). reflexivity.
    + reflexivity.
    + apply (busy_stuck _ l'); [exact Hb|lia|done].
    + intros Hc. destruct cpu; [|done]. by left.
Qed.
End MlcLeak.

Module DisplayDemo.
Import RegFile BoardDemo.

#[export] Instance display_regs : DisplayRegs RegFile.t.
Proof.
  split. intros r Hin. repeat (apply elem_of_cons in Hin as [->|Hin]; [reflexivity|]). by apply not_elem_of_nil in Hin.
Defined.

Lemma fb_bring_up_witness : ∃ s', mmsp2_fb_probe (Some gp2x_platform_lcd) true (Some [7; 7; 7]) (Some (0xc3000000, 0x03f00000)) 0
    (FbSys gpiob None []) = Some (0, s') ∧
  live s' = [OVideo 233472; OPalette; OFb] ∧
  ∃ s2, mmsp2_fb_setcolreg 1 0xffff 0xffff 0xffff 0 s' = Some (0, s2) ∧ drvdata s2 ≫= pseudo_palette = Some [7; 0; 7].
Proof.
  destruct (fb_bring_up (FbSys gpiob None []) [7; 7; 7] 0xc3000000 0x03f00000 0) as (s' & fbi & Hrun & _ & Hfb & Hgeo & _ & Hcol).
  - split; lia.
  - lia.
  - exists s'. split; [exact Hrun|]. rewrite fb_probe_run in Hrun. apply (inj Some) in Hrun. apply pair_equal_spec in Hrun as [_ <-].
    split; [reflexivity|]. exact (Hcol 1 0xffff 0xffff 0xffff 0 ltac:(lia)).
Defined.

(** The whole address space, with the serial port in it. *)
Definition io : heap :=
  {[ 1%positive := Resource 0 0xffffffff 0 None None (Some 2%positive);
     2%positive := Resource 0xc0001200 0xc000127f 0x80000000 (Some 1%positive) None None ]}.

Lemma io_level : level io 1 [2%positive].
Proof.
  eexists. split; [reflexivity|]. split; [reflexivity|]. eexists. split; [reflexivity|]. simpl. split_and!; lia || done.
Qed.

Lemma mlc_window_leaks_witness : ∃ s1 s2, mp25xxf_mlc_probe 1 4 9 mp25xxf_mlc_device true (Some 3%positive) true (Some 0xc3000000) 0x03f00000 0
    (MlcSys gpiob io None []) = Some (0, s1) ∧ mp25xxf_mlc_remove s1 = Some (0, s2) ∧ stuck 1 4 9 s2.
Proof.
  destruct (mlc_window_leaks 1 4 9 (MlcSys gpiob io None []) [2%positive] (Resource 0 0xffffffff 0 None None (Some 2%positive)) 3 (Some 0xc3000000) 0x03f00000) 
    as [_ (s1 & s2 & Hp & Hr & Hs & _)].
  - reflexivity.
  - reflexivity.
  - exact io_level.
  - set_solver.
  - reflexivity.
  - simpl. lia.
  - lia.
  - split_and!; simpl; try lia. intros y ry ->%list_elem_of_singleton Hry [_ Hov].
    change (io !! 2%positive) with (Some (Resource 0xc0001200 0xc000127f 0x80000000 (Some 1%positive) None None)) in Hry.
    injection Hry as <-. unfold overlaps in *. simpl in *. lia.
  - exists s1, s2. split; [exact Hp|]. split; [exact Hr|exact Hs].
Defined.
End DisplayDemo.
