(* ===== verification/Mtdpart.v ===== *)
(** drivers/mtd/mtdpart.c: the partitions of a flash device.

    A partition is a device of its own that passes its operations on to the
    master device with the addresses moved.  The master is known by what its
    operations do ([Master]); its laws are those of a flash memory
    ([FlashModel]). *)

From S2P Require Import Prelude.

Definition MTD_WRITEABLE : Z := 0x400.
Definition MTDPART_OFS_NXTBLK : Z := 2 ^ 32 - 2.
Definition MTDPART_OFS_APPEND : Z := 2 ^ 32 - 1.
Definition MTDPART_SIZ_FULL : Z := 0.

(** * Data *)

(** struct mtd_partition; [wants_mtdp] says that [mtdp] is set. *)
Record mtd_partition := Partition { part_name : string; part_size : Z; part_offset : Z; mask_flags : Z; wants_mtdp : bool }.

(** struct mtd_part with the fields of its struct mtd_info that the code uses;
    the others are copied from the master.  [master] is the address of the
    master. *)
Record mtd_part := MtdPart {
  name : string; flags : Z; size : Z; erasesize : Z; offset : Z; index : Z; registered : bool; master : Z;
  ecc_corrected : Z; ecc_failed : Z; badblocks : Z }.

Definition set_stats (c f : Z) (p : mtd_part) : mtd_part :=
  MtdPart (name p) (flags p) (size p) (erasesize p) (offset p) (index p) (registered p) (master p) c f (badblocks p).
Definition set_bad (n : Z) (p : mtd_part) : mtd_part :=
  MtdPart (name p) (flags p) (size p) (erasesize p) (offset p) (index p) (registered p) (master p) (ecc_corrected p) (ecc_failed p) n.
Definition writeable (p : mtd_part) : bool := tst (flags p) MTD_WRITEABLE.

(** struct erase_info *)
Record erase_info := Erase { addr : Z; elen : Z; fail_addr : Z }.

(** * The operations of a partition *)

(** The operations of the master: addresses are [loff_t], 64 bits with a sign,
    lengths [size_t]. *)
Class Master (D : Type) := {
  m_read : Z -> Z -> St D (Z * list Z);
  m_write : Z -> list Z -> St D Z;
  m_writev : list (list Z) -> Z -> St D Z;
  m_erase : erase_info -> St D (Z * erase_info);
  m_lock : Z -> Z -> St D Z;
  m_unlock : Z -> Z -> St D Z;
  m_block_isbad : Z -> St D Z;
  m_block_markbad : Z -> St D Z;
}.

Section Part.
Context {D : Type} `{Master D}.
Implicit Types (p : mtd_part).

(** The length that is passed on. *)
Definition clamp p (from len : Z) : Z :=
  if size p <=? from then 0 else if size p <? s64 (from + len) then u32 (size p - from) else len.

(** [mtd->ecc_stats] after a read. *)
Definition account (res : Z) p : mtd_part :=
  if res =? 0 then p
  else
    let p := if res =? - EUCLEAN then set_stats (u32 (ecc_corrected p + 1)) (ecc_failed p) p else p in
    if res =? - EBADMSG then set_stats (ecc_corrected p) (u32 (ecc_failed p + 1)) p else p.

Definition part_read p (from len : Z) : St D (Z * list Z * mtd_part) :=
  '(res, buf) ← m_read (s64 (from + offset p)) (clamp p from len);
  mret (res, buf, account res p).

(** The first [len] bytes of the buffer are written. *)
Definition part_write p (to : Z) (buf : list Z) : St D Z :=
  if negb (writeable p) then mret (- EROFS)
  else m_write (s64 (to + offset p)) (take (Z.to_nat (clamp p to (Z.of_nat (length buf)))) buf).

Definition part_writev p (vecs : list (list Z)) (to : Z) : St D Z :=
  if negb (writeable p) then mret (- EROFS) else m_writev vecs (s64 (to + offset p)).

(** The addresses of [instr] are 32 bits wide. *)
Definition part_erase p (instr : erase_info) : St D (Z * erase_info) :=
  if negb (writeable p) then mret (- EROFS, instr)
  else if size p <=? addr instr then mret (- EINVAL, instr)
  else
    '(ret, instr) ← m_erase (Erase (u32 (addr instr + offset p)) (elen instr) (fail_addr instr));
    mret (if ret =? 0 then (ret, instr)
          else (ret, Erase (u32 (addr instr - offset p)) (elen instr)
                 (if fail_addr instr =? 0xffffffff then fail_addr instr else u32 (fail_addr instr - offset p)))).

(** [is_part]: [instr->mtd->erase == part_erase]. *)
Definition mtd_erase_callback (is_part : bool) p (instr : erase_info) : erase_info :=
  if is_part then
    Erase (u32 (addr instr - offset p)) (elen instr)
      (if fail_addr instr =? 0xffffffff then fail_addr instr else u32 (fail_addr instr - offset p))
  else instr.

Definition part_lock p (ofs len : Z) : St D Z :=
  if size p <? s64 (len + ofs) then mret (- EINVAL) else m_lock (s64 (ofs + offset p)) len.
Definition part_unlock p (ofs len : Z) : St D Z :=
  if size p <? s64 (len + ofs) then mret (- EINVAL) else m_unlock (s64 (ofs + offset p)) len.

Definition part_block_isbad p (ofs : Z) : St D Z :=
  if size p <=? ofs then mret (- EINVAL) else m_block_isbad (s64 (ofs + offset p)).
Definition part_block_markbad p (ofs : Z) : St D (Z * mtd_part) :=
  if negb (writeable p) then mret (- EROFS, p)
  else if size p <=? ofs then mret (- EINVAL, p)
  else
    res ← m_block_markbad (s64 (ofs + offset p));
    mret (res, if res =? 0 then set_bad (u32 (badblocks p + 1)) p else p).
End Part.

(** * The table of partitions *)

(** What add_mtd_partitions uses of the master device: [eraseregions] are
    (offset, erase size) pairs, [isbad] its block_isbad, when it has one. *)
Record mtd_info := MtdInfo { m_addr : Z; m_flags : Z; m_size : Z; m_erasesize : Z; eraseregions : list (Z * Z); isbad : option (Z -> bool) }.

(** The list mtd_partitions and the devices that are registered. *)
Abbreviation parts_list := (list mtd_part).

Definition del_mtd_partitions (m : mtd_info) (l : parts_list) : parts_list := filter (λ s, master s ≠ m_addr m) l.

(** The place of a partition: its offset and size, and the offset after it. *)
Definition place (m : mtd_info) (cur : Z) (pt : mtd_partition) : Z * Z * Z :=
  let ofs := part_offset pt in
  let ofs := if ofs =? MTDPART_OFS_APPEND then cur else ofs in
  let ofs :=
    if ofs =? MTDPART_OFS_NXTBLK then
      if negb (cur mod m_erasesize m =? 0) then u32 ((cur / m_erasesize m + 1) * m_erasesize m) else cur
    else ofs in
  let sz := if part_size pt =? MTDPART_SIZ_FULL then u32 (m_size m - ofs) else part_size pt in
  let cur := u32 (ofs + sz) in
  let '(ofs, sz) := if m_size m <=? ofs then (0, 0) else (ofs, sz) in
  let sz := if m_size m <? u32 (ofs + sz) then u32 (m_size m - ofs) else sz in
  (ofs, sz, cur).

(** The two loops over the erase regions. *)
Fixpoint first_region (n i : nat) (rs : list (Z * Z)) (ofs : Z) : nat :=
  match n with
  | O => i
  | S n => match rs !! i with Some r => if r.1 <=? ofs then first_region n (S i) rs ofs else i | None => i end
  end.
Fixpoint largest_region (n i : nat) (rs : list (Z * Z)) (last es : Z) : Z :=
  match n with
  | O => es
  | S n => match rs !! i with
           | Some r => if r.1 <? last then largest_region n (S i) rs last (if es <? r.2 then r.2 else es) else es
           | None => es
           end
  end.
(** [None]: the loop starts before the first region. *)
Definition slave_erasesize (m : mtd_info) (ofs sz : Z) : option Z :=
  let rs := eraseregions m in
  if (1 <? length rs)%nat then
    match first_region (length rs) 0 rs ofs with
    | O => None
    | S i => Some (largest_region (length rs) i rs (u32 (ofs + sz)) 0)
    end
  else Some (m_erasesize m).

(** [while(offs < slave->mtd.size)] *)
Fixpoint count_bad (fuel : nat) (bad : Z -> bool) (ofs sz es offs n : Z) : option Z :=
  if offs <? sz then
    match fuel with
    | O => None
    | S fuel => count_bad fuel bad ofs sz es (u32 (offs + es)) (if bad (u32 (offs + ofs)) then u32 (n + 1) else n)
    end
  else Some n.

(** One round of the loop: the new partition and the next offset.  A division
    by an erase size of zero faults. *)
Definition new_part (fuel : nat) (m : mtd_info) (i cur : Z) (pt : mtd_partition) : option (mtd_part * Z) :=
  if (m_erasesize m =? 0) && ((part_offset pt =? MTDPART_OFS_NXTBLK) || (part_offset pt =? MTDPART_OFS_APPEND) && (cur =? MTDPART_OFS_NXTBLK)) then None else
  let '(ofs, sz, cur) := place m cur pt in
  es ← slave_erasesize m ofs sz;
  let fl := clr (m_flags m) (mask_flags pt) in
  if tst fl MTD_WRITEABLE && (es =? 0) then None else
  let fl := if tst fl MTD_WRITEABLE && negb (ofs mod es =? 0) then clr fl MTD_WRITEABLE else fl in
  let fl := if tst fl MTD_WRITEABLE && negb (sz mod es =? 0) then clr fl MTD_WRITEABLE else fl in
  bad ← match isbad m with Some f => count_bad fuel f ofs sz es 0 0 | None => Some 0 end;
  Some (MtdPart (part_name pt) fl sz es ofs i (negb (wants_mtdp pt)) (m_addr m) 0 0 bad, cur).

(** [mem]: whether kzalloc succeeds, per partition. *)
Fixpoint add_loop (fuel : nat) (m : mtd_info) (parts : list mtd_partition) (mem : list bool) (i cur : Z) (l : parts_list) : option (Z * parts_list) :=
  match parts with
  | [] => Some (0, l)
  | pt :: parts =>
      match mem with
      | true :: mem => '(s, cur) ← new_part fuel m i cur pt; add_loop fuel m parts mem (i + 1) cur (s :: l)
      | _ => Some (- ENOMEM, del_mtd_partitions m l)
      end
  end.
Definition add_mtd_partitions (fuel : nat) (m : mtd_info) (parts : list mtd_partition) (mem : list bool) (l : parts_list) : option (Z * parts_list) :=
  add_loop fuel m parts mem 0 0 l.

(** * Isolation *)

(** What a flash memory does: reading returns the bytes and changes none; a
    write changes nothing outside of the bytes it is given. *)
Class FlashModel (D : Type) `{Master D} := {
  content : D -> Z -> Z;
  read_content : ∀ from len d, let '(res, buf, d') := m_read from len d in
    content d' = content d ∧ (res = 0 -> buf = (λ k, content d (from + k)) <$> seqZ 0 len);
  write_outside : ∀ to buf d a, ~ to <= a < to + Z.of_nat (length buf) -> content (m_write to buf d).2 a = content d a;
}.

Definition inside (p : mtd_part) (a : Z) : Prop := offset p <= a < offset p + size p.
Definition part_ok (total : Z) (p : mtd_part) : Prop := 0 <= offset p ∧ 0 <= size p ∧ offset p + size p <= total ∧ total <= 2 ^ 32.

Section Isolation.
Context {D : Type} `{FlashModel D}.

Lemma clamp_small p from len : in_u 32 (size p) -> 0 <= from -> 0 <= len < 2 ^ 32 -> from < 2 ^ 63 ->
  0 <= clamp p from len <= len ∧ (clamp p from len = 0 ∨ from + clamp p from len <= size p).
Proof.
  intros [Hs0 Hs] Hf Hl Hf63. unfold clamp. destruct (Z.leb_spec (size p) from); [lia|].
  unfold s64. rewrite sx_id by lia. destruct (Z.ltb_spec (size p) (from + len)); [|lia].
  unfold u32. rewrite wrap_id by (unfold in_u; lia). lia.
Qed.

(** A write through a partition changes nothing outside of it. *)
Lemma part_write_inside total p to buf d a : part_ok total p -> size p < 2 ^ 32 -> 0 <= to < 2 ^ 63 -> Z.of_nat (length buf) < 2 ^ 32 -> ~ inside p a ->
  content (part_write p to buf d).2 a = content d a.
Proof.
  intros (Ho & Hs & Ht & Htot) Hs32 Hto Hl Hout. unfold part_write. destruct (negb (writeable p)); [done|].
  destruct (clamp_small p to (Z.of_nat (length buf))) as [Hc Hb]; [split; lia|lia|lia|lia|]. set (c := clamp p to (Z.of_nat (length buf))) in *.
  apply write_outside. rewrite length_take. unfold inside in Hout. destruct Hb as [Hz|Hb]; [rewrite Hz; cbn; lia|].
  destruct (decide (c = 0)) as [->|]; [cbn; lia|]. unfold s64. rewrite sx_id by lia. lia.
Qed.

(** The length of an access, cut at the end of the partition. *)
Lemma clamp_value p from len : in_u 32 (size p) -> 0 <= from < 2 ^ 63 -> 0 <= len < 2 ^ 32 ->
  clamp p from len = Z.max 0 (Z.min len (size p - from)).
Proof.
  intros [Hs0 Hs] Hf Hl. unfold clamp. destruct (Z.leb_spec (size p) from); [lia|].
  unfold s64. rewrite sx_id by lia. destruct (Z.ltb_spec (size p) (from + len)); [|lia].
  unfold u32. rewrite wrap_id by (unfold in_u; lia). lia.
Qed.

(** What a read through a partition delivers depends only on its own bytes. *)
Lemma part_read_bytes total p from len d : part_ok total p -> size p < 2 ^ 32 -> 0 <= from < 2 ^ 63 -> 0 <= len < 2 ^ 32 ->
  let '(res, bytes, _, d') := part_read p from len d in
  content d' = content d ∧
  (res = 0 -> bytes = (λ k, content d (offset p + from + k)) <$> seqZ 0 (Z.max 0 (Z.min len (size p - from)))).
Proof.
  intros (Ho & Hs & Ht & Htot) Hs32 Hf Hl. unfold part_read. rewrite clamp_value by (unfold in_u; lia). set (n := Z.max 0 _).
  pose proof (read_content (s64 (from + offset p)) n d) as HR. unfold mbind, St_bind.
  destruct (m_read (s64 (from + offset p)) n d) as [[res' buf'] d1]. cbn. destruct HR as [Hd Hbuf]. split; [done|].
  intros Hz. rewrite Hbuf by done. apply list_fmap_ext. intros i k Hk. apply lookup_seqZ in Hk as [-> Hk]. f_equal. unfold s64. rewrite sx_id by lia. lia.
Qed.
End Isolation.

(** ** Placing partitions one after the other *)

(** A table whose partitions follow each other from [cur] on: each is appended
    (or, at the start, put at 0), and only the last may take the rest. *)
Inductive follows (m : mtd_info) : Z -> list mtd_partition -> Prop :=
  | follows_nil cur : 0 <= cur <= m_size m -> follows m cur []
  | follows_rest cur pt : 0 <= cur < m_size m -> part_offset pt = MTDPART_OFS_APPEND -> part_size pt = MTDPART_SIZ_FULL -> follows m cur [pt]
  | follows_cons cur pt parts : 0 <= cur < m_size m -> part_offset pt = MTDPART_OFS_APPEND ∨ cur = 0 ∧ part_offset pt = 0 -> 0 < part_size pt -> cur + part_size pt <= m_size m ->
      follows m (cur + part_size pt) parts -> follows m cur (pt :: parts).

(** The offsets and sizes such a table asks for: each partition starts where
    the one before ends and has the size of its entry, or the rest. *)
Fixpoint layout (m : mtd_info) (cur : Z) (parts : list mtd_partition) : list (Z * Z) :=
  match parts with
  | [] => []
  | pt :: parts =>
      let sz := if part_size pt =? MTDPART_SIZ_FULL then m_size m - cur else part_size pt in
      (cur, sz) :: layout m (cur + sz) parts
  end.
Definition total (l : list (Z * Z)) : Z := foldr (λ x n, x.2 + n) 0 l.

(** Partitions [l], the latest first, that fill [0, cur). *)
Inductive tiled (m : Z) : Z -> list mtd_part -> Prop :=
  | tiled_nil : tiled m 0 []
  | tiled_cons cur p l : tiled m cur l -> master p = m -> offset p = cur -> 0 < size p -> tiled m (cur + size p) (p :: l).

Lemma place_append m cur pt : m_size m < 2 ^ 32 - 2 -> 0 <= cur < m_size m -> part_offset pt = MTDPART_OFS_APPEND ∨ cur = 0 ∧ part_offset pt = 0 ->
  (0 < part_size pt ∧ cur + part_size pt <= m_size m -> place m cur pt = (cur, part_size pt, cur + part_size pt)) ∧
  (part_size pt = MTDPART_SIZ_FULL -> place m cur pt = (cur, m_size m - cur, m_size m)).
Proof.
  intros Hm Hc Hofs. unfold place.
  assert ((if part_offset pt =? MTDPART_OFS_APPEND then cur else part_offset pt) = cur) as ->. { destruct Hofs as [->|[-> ->]]; done. }
  assert ((cur =? MTDPART_OFS_NXTBLK) = false) as -> by (apply Z.eqb_neq; unfold MTDPART_OFS_NXTBLK; lia).
  assert ((m_size m <=? cur) = false) as Hle by (apply Z.leb_gt; lia). cbv zeta. rewrite Hle. split.
  - intros [Hs Ht]. assert ((part_size pt =? MTDPART_SIZ_FULL) = false) as -> by (apply Z.eqb_neq; unfold MTDPART_SIZ_FULL; lia).
    assert (u32 (cur + part_size pt) = cur + part_size pt) as -> by (apply wrap_id; unfold in_u; lia). destruct (Z.ltb_spec (m_size m) (cur + part_size pt)); [lia|done].
  - intros ->. rewrite Z.eqb_refl. assert (u32 (m_size m - cur) = m_size m - cur) as -> by (apply wrap_id; unfold in_u; lia).
    assert (u32 (cur + (m_size m - cur)) = m_size m) as -> by (replace (cur + (m_size m - cur)) with (m_size m) by lia; apply wrap_id; unfold in_u; lia).
    rewrite Z.ltb_irrefl. done.
Qed.

(** The loop that counts the bad blocks ends. *)
Lemma count_bad_ends bad ofs sz es : 0 < es -> sz + es <= 2 ^ 32 -> ∀ fuel offs n, 0 <= offs -> sz - offs < Z.of_nat fuel * es -> offs <= sz + es ->
  ∃ k, count_bad fuel bad ofs sz es offs n = Some k.
Proof.
  intros Hes Hsz. induction fuel as [|fuel IH]; intros offs n Ho Hf Hb; cbn [count_bad]; (destruct (Z.ltb_spec offs sz); [|by eexists]); [lia|].
  unfold u32 at 1. rewrite (wrap_id 32 (offs + es)) by (unfold in_u; lia). apply IH; lia.
Qed.

Lemma new_part_plain fuel m i cur pt ofs sz cur' : (length (eraseregions m) <= 1)%nat -> 0 < m_erasesize m -> place m cur pt = (ofs, sz, cur') ->
  sz + m_erasesize m <= 2 ^ 32 -> 0 <= sz < Z.of_nat fuel * m_erasesize m ->
  ∃ p, new_part fuel m i cur pt = Some (p, cur') ∧ offset p = ofs ∧ size p = sz ∧ master p = m_addr m.
Proof.
  intros Hr He Hp Hs Hf. unfold new_part. rewrite (proj2 (Z.eqb_neq (m_erasesize m) 0)) by lia. cbn [andb]. rewrite Hp.
  unfold slave_erasesize. rewrite (proj2 (Nat.ltb_ge 1 _)) by done. cbn [mbind option_bind]. rewrite (proj2 (Z.eqb_neq (m_erasesize m) 0)), andb_false_r by lia.
  assert (∃ k, match isbad m with Some f => count_bad fuel f ofs sz (m_erasesize m) 0 0 | None => Some 0 end = Some k) as [k ->].
  { destruct (isbad m) as [f|]; [apply count_bad_ends; lia|by eexists]. }
  cbn [mbind option_bind]. by eexists.
Qed.

Lemma tiled_bound a cur l p : tiled a cur l -> p ∈ l -> 0 <= offset p ∧ 0 < size p ∧ offset p + size p <= cur.
Proof.
  assert (∀ cur l, tiled a cur l -> 0 <= cur) as Hpos by (induction 1; lia).
  induction 1 as [|cur q l Ht IH Hm Ho Hs]; [by intros ?%not_elem_of_nil|]. intros [->|Hin]%elem_of_cons; [|specialize (IH Hin); lia].
  specialize (Hpos _ _ Ht). lia.
Qed.

Lemma tiled_apart a cur l : tiled a cur l -> ∀ i j p q, l !! i = Some p -> l !! j = Some q -> i ≠ j ->
  offset p + size p <= offset q ∨ offset q + size q <= offset p.
Proof.
  induction 1 as [|cur r l Ht IH Hm Ho Hs]; intros i j p q Hi Hj Hij; [done|]. destruct i as [|i], j as [|j]; cbn in Hi, Hj; [done|..].
  - injection Hi as ->. apply list_elem_of_lookup_2, (tiled_bound _ _ _ _ Ht) in Hj. lia.
  - injection Hj as ->. apply list_elem_of_lookup_2, (tiled_bound _ _ _ _ Ht) in Hi. lia.
  - eapply IH; [done..|congruence].
Qed.

(** Every address below the end belongs to a partition. *)
Lemma tiled_cover a cur l : tiled a cur l -> ∀ x, 0 <= x < cur -> ∃ p, p ∈ l ∧ inside p x.
Proof.
  induction 1 as [|cur p l Ht IH Hm Ho Hs]; intros x Hx; [lia|]. destruct (decide (x < cur)) as [Hlt|Hge].
  - destruct (IH x) as (q & Hin & Hq); [lia|]. exists q. split; [set_solver|done].
  - exists p. split; [set_solver|]. unfold inside. lia.
Qed.

Section Table.
Context (fuel : nat) (m : mtd_info).
Context (Hsz : m_size m < 2 ^ 32 - 2) (Hrs : (length (eraseregions m) <= 1)%nat) (Hes : 0 < m_erasesize m)
  (Hwrap : m_size m + m_erasesize m <= 2 ^ 32) (Hfuel : m_size m < Z.of_nat fuel * m_erasesize m).

Lemma add_follows parts cur : follows m cur parts -> ∀ i l l0, tiled (m_addr m) cur l ->
  ∃ new, add_loop fuel m parts (repeat true (length parts)) i cur (l ++ l0) = Some (0, new ++ l ++ l0) ∧
    tiled (m_addr m) (cur + total (layout m cur parts)) (new ++ l) ∧ cur + total (layout m cur parts) <= m_size m ∧
    (λ p, (offset p, size p)) <$> reverse new = layout m cur parts.
Proof.
  induction 1 as [cur Hc|cur pt Hc Ho Hs|cur pt parts Hc Ho Hs Hle Hf IH]; intros i l l0 Ht.
  - exists []. cbn. rewrite Z.add_0_r. split_and!; [done|done|lia|done].
  - destruct (place_append m cur pt Hsz Hc (or_introl Ho)) as [_ Hp]. specialize (Hp Hs).
    destruct (new_part_plain fuel m i cur pt _ _ _ Hrs Hes Hp) as (p & Hn & Hof & Hsi & Hma); [lia|lia|].
    exists [p]. cbn [length repeat add_loop layout total foldr]. rewrite Hn, Hs, Z.eqb_refl. cbn [snd].
    replace (cur + (m_size m - cur + 0)) with (cur + size p) by lia.
    split_and!; [done|by constructor; [..|lia]|lia|]. cbn. by rewrite Hof, Hsi.
  - destruct (place_append m cur pt Hsz Hc Ho) as [Hp _]. specialize (Hp (conj Hs Hle)).
    destruct (new_part_plain fuel m i cur pt _ _ _ Hrs Hes Hp) as (p & Hn & Hof & Hsi & Hma); [lia|lia|].
    assert ((part_size pt =? MTDPART_SIZ_FULL) = false) as Hfull by (apply Z.eqb_neq; unfold MTDPART_SIZ_FULL; lia).
    destruct (IH (i + 1) (p :: l) l0) as (new & Ha & Htl & Hc' & Hlay); [rewrite <- Hsi; by constructor; [..|lia]|].
    exists (new ++ [p]). cbn [length repeat add_loop layout]. rewrite Hn, Hfull. cbn [mbind option_bind total foldr snd]. fold (total (layout m (cur + part_size pt) parts)).
    rewrite app_comm_cons, Ha, <- !app_assoc, Z.add_assoc. split_and!; [done|done|done|].
    rewrite reverse_app, reverse_singleton. cbn [app fmap list_fmap]. by rewrite Hlay, Hof, Hsi.
Qed.
End Table.

(** C32: the partitions of a table that are placed one after the other (each
    entry appended, only the last one may take the rest), on a flash with one
    erase size.  add_mtd_partitions creates one device for each entry, with the
    offset and the size that the table asks for; together they hold every byte
    up to the end of the last one, which is inside the flash, and no byte
    belongs to two of them.  A write through one of them, at any position and
    of any length, changes no byte outside of it; a read through one changes no
    byte at all and, if it succeeds, returns the bytes of that partition from
    the position on, cut at its end. *)
Theorem partitions_isolated {D} `{FlashModel D} fuel m parts l0 :
  m_size m < 2 ^ 32 - 2 -> (length (eraseregions m) <= 1)%nat -> 0 < m_erasesize m -> m_size m + m_erasesize m <= 2 ^ 32 ->
  m_size m < Z.of_nat fuel * m_erasesize m -> follows m 0 parts ->
  ∃ new, add_mtd_partitions fuel m parts (repeat true (length parts)) l0 = Some (0, new ++ l0) ∧
    (λ p, (offset p, size p)) <$> reverse new = layout m 0 parts ∧ total (layout m 0 parts) <= m_size m ∧
    (∀ a, 0 <= a < total (layout m 0 parts) -> ∃ p, p ∈ new ∧ inside p a) ∧
    (∀ i j p q a, new !! i = Some p -> new !! j = Some q -> i ≠ j -> inside p a -> ~ inside q a) ∧
    ∀ p (d : D), p ∈ new ->
      (∀ to buf a, 0 <= to < 2 ^ 63 -> Z.of_nat (length buf) < 2 ^ 32 -> ~ inside p a -> content (part_write p to buf d).2 a = content d a) ∧
      (∀ from len, 0 <= from < 2 ^ 63 -> 0 <= len < 2 ^ 32 ->
         let '(res, bytes, _, d') := part_read p from len d in
         content d' = content d ∧
         (res = 0 -> bytes = (λ k, content d (offset p + from + k)) <$> seqZ 0 (Z.max 0 (Z.min len (size p - from))))).
Proof.
  intros Hsz Hrs Hes Hwrap Hfuel Hf. destruct (add_follows fuel m Hsz Hrs Hes Hwrap Hfuel parts 0 Hf 0 [] l0 (tiled_nil _)) as (new & Ha & Ht & Hc & Hl).
  rewrite app_nil_r, Z.add_0_l in *. exists new. split_and!; [done|done|done|by eapply tiled_cover| |].
  - intros i j p q a Hi Hj Hij. pose proof (tiled_apart _ _ _ Ht i j p q Hi Hj Hij). unfold inside. lia.
  - intros p d Hin. destruct (tiled_bound _ _ _ _ Ht Hin) as (? & ? & ?).
    assert (part_ok (m_size m) p ∧ size p < 2 ^ 32) as [Hp Hps] by (unfold part_ok; lia). split.
    + intros to buf a. by apply (part_write_inside (m_size m)).
    + intros from len Hfrom Hlen. by apply (part_read_bytes (m_size m)).
Qed.

(** * Where it fails *)

(** A flash memory in memory. *)
Module FlashRam.
Definition ram : Type := Z -> Z.
Definition fill (to n : Z) (f : Z -> Z) (d : ram) : ram := λ a, if (to <=? a) && (a <? to + n) then f (a - to) else d a.

#[export] Instance ram_master : Master ram := {|
  m_read from len := λ d, ((0, (λ k, d (from + k)) <$> seqZ 0 len), d);
  m_write to buf := λ d, (0, fill to (Z.of_nat (length buf)) (λ k, nth (Z.to_nat k) buf 0) d);
  m_writev vecs to := λ d, (0, fill to (Z.of_nat (length (concat vecs))) (λ k, nth (Z.to_nat k) (concat vecs) 0) d);
  m_erase i := λ d, ((0, i), fill (addr i) (elen i) (λ _, 0xff) d);
  m_lock _ _ := λ d, (0, d);
  m_unlock _ _ := λ d, (0, d);
  m_block_isbad _ := λ d, (0, d);
  m_block_markbad _ := λ d, (0, d) |}.

#[export] Instance ram_model : FlashModel ram.
Proof.
  refine {| content := λ d : ram, d |}.
  - intros from len d. cbn. done.
  - intros to buf d a Ha. cbn. unfold fill. destruct (Z.leb_spec to a), (Z.ltb_spec a (to + Z.of_nat (length buf))); cbn; done || lia.
Defined.
End FlashRam.
Import FlashRam.

(** part_erase checks where an erasure starts and not where it ends: with a
    length beyond the end of the partition the next one is erased; part_writev
    checks nothing. *)
Theorem erase_leaves_partition : ∃ (p : mtd_part) (d : FlashRam.ram) a, part_ok 0x4000000 p ∧ ~ inside p a ∧ content d a = 7 ∧
  (∃ i, ((part_erase p i d).1).1 = 0 ∧ addr i < size p ∧ content (part_erase p i d).2 a = 0xff) ∧
  ∃ vecs to, to < size p ∧ (part_writev p vecs to d).1 = 0 ∧ content (part_writev p vecs to d).2 a = 9.
Proof.
  exists (MtdPart "Param" MTD_WRITEABLE 0x20000 0x4000 0x80000 1 true 1 0 0 0), (λ _, 7), 0xa0000. split; [by vm_compute|].
  split; [by vm_compute; intros [_ ?]|]. split; [done|]. split.
  - exists (Erase 0x1c000 0x8000 0xffffffff). by vm_compute.
  - exists [[1; 2]; [9]], 0x1fffe. by vm_compute.
Qed.
