(* ===== verification/NandEcc.v ===== *)
(** drivers/mtd/nand/nand_ecc.c: the error correcting code of the NAND flash, 3
    bytes for a block of 256.

    Bytes are numbers below 256.  [smc] is CONFIG_MTD_NAND_ECC_SMC, the order of
    the first two bytes of the code. *)

From S2P Require Import Prelude.

(** * The code *)

Definition nand_ecc_precalc_table : list Z :=
  [ 0;85;86;3;89;12;15;90;90;15;12;89;3;86;85;0;
    101;48;51;102;60;105;106;63;63;106;105;60;102;51;48;101;
    102;51;48;101;63;106;105;60;60;105;106;63;101;48;51;102;
    3;86;85;0;90;15;12;89;89;12;15;90;0;85;86;3;
    105;60;63;106;48;101;102;51;51;102;101;48;106;63;60;105;
    12;89;90;15;85;0;3;86;86;3;0;85;15;90;89;12;
    15;90;89;12;86;3;0;85;85;0;3;86;12;89;90;15;
    106;63;60;105;51;102;101;48;48;101;102;51;105;60;63;106;
    106;63;60;105;51;102;101;48;48;101;102;51;105;60;63;106;
    15;90;89;12;86;3;0;85;85;0;3;86;12;89;90;15;
    12;89;90;15;85;0;3;86;86;3;0;85;15;90;89;12;
    105;60;63;106;48;101;102;51;51;102;101;48;106;63;60;105;
    3;86;85;0;90;15;12;89;89;12;15;90;0;85;86;3;
    102;51;48;101;63;106;105;60;60;105;106;63;101;48;51;102;
    101;48;51;102;60;105;106;63;63;106;105;60;102;51;48;101;
    0;85;86;3;89;12;15;90;90;15;12;89;3;86;85;0 ].

(** The registers of nand_calculate_ecc: column parity, and the parities of the
    lines and of the inverted lines. *)
Record ecc_regs := EccRegs { reg1 : Z; reg2 : Z; reg3 : Z }.

(** One byte of the block. *)
Definition ecc_byte (i x : Z) (r : ecc_regs) : ecc_regs :=
  let idx := nth (Z.to_nat x) nand_ecc_precalc_table 0 in
  let r := EccRegs (Z.lxor (reg1 r) (Z.land idx 0x3f)) (reg2 r) (reg3 r) in
  if Z.land idx 0x40 =? 0 then r
  else EccRegs (reg1 r) (Z.lxor (reg2 r) (u8 (Z.lnot (u8 i)))) (Z.lxor (reg3 r) (u8 i)).

(** [for(i = 0; i < 256; i++)]; reading past the end of the block faults. *)
Fixpoint ecc_loop (n : nat) (i : Z) (dat : list Z) (r : ecc_regs) : option ecc_regs :=
  match n with
  | O => Some r
  | S n => match dat with x :: dat => ecc_loop n (i + 1) dat (ecc_byte i x r) | [] => None end
  end.

Definition line_hi (r : ecc_regs) : Z :=
  let tmp1 := Z.shiftr (Z.land (reg3 r) 0x80) 0 in
  let tmp1 := Z.lor tmp1 (Z.shiftr (Z.land (reg2 r) 0x80) 1) in
  let tmp1 := Z.lor tmp1 (Z.shiftr (Z.land (reg3 r) 0x40) 1) in
  let tmp1 := Z.lor tmp1 (Z.shiftr (Z.land (reg2 r) 0x40) 2) in
  let tmp1 := Z.lor tmp1 (Z.shiftr (Z.land (reg3 r) 0x20) 2) in
  let tmp1 := Z.lor tmp1 (Z.shiftr (Z.land (reg2 r) 0x20) 3) in
  let tmp1 := Z.lor tmp1 (Z.shiftr (Z.land (reg3 r) 0x10) 3) in
  Z.lor tmp1 (Z.shiftr (Z.land (reg2 r) 0x10) 4).

Definition line_lo (r : ecc_regs) : Z :=
  let tmp2 := Z.shiftl (Z.land (reg3 r) 0x08) 4 in
  let tmp2 := Z.lor tmp2 (Z.shiftl (Z.land (reg2 r) 0x08) 3) in
  let tmp2 := Z.lor tmp2 (Z.shiftl (Z.land (reg3 r) 0x04) 3) in
  let tmp2 := Z.lor tmp2 (Z.shiftl (Z.land (reg2 r) 0x04) 2) in
  let tmp2 := Z.lor tmp2 (Z.shiftl (Z.land (reg3 r) 0x02) 2) in
  let tmp2 := Z.lor tmp2 (Z.shiftl (Z.land (reg2 r) 0x02) 1) in
  let tmp2 := Z.lor tmp2 (Z.shiftl (Z.land (reg3 r) 0x01) 1) in
  Z.lor tmp2 (Z.shiftl (Z.land (reg2 r) 0x01) 0).

(** The three bytes [ecc_code]. *)
Record ecc_code := Ecc { ecc0 : Z; ecc1 : Z; ecc2 : Z }.

Definition nand_calculate_ecc (smc : bool) (dat : list Z) : option ecc_code :=
  match ecc_loop 256 0 dat (EccRegs 0 0 0) with
  | None => None
  | Some r =>
      let tmp1 := line_hi r in
      let tmp2 := line_lo r in
      let c2 := u8 (Z.lor (Z.shiftl (Z.lnot (reg1 r)) 2) 0x03) in
      Some (if smc then Ecc (u8 (Z.lnot tmp2)) (u8 (Z.lnot tmp1)) c2 else Ecc (u8 (Z.lnot tmp1)) (u8 (Z.lnot tmp2)) c2)
  end.

(** [for (;byte; byte >>= 1)]: 32 rounds empty a word. *)
Fixpoint countbits_loop (fuel : nat) (byte res : Z) : Z :=
  match fuel with
  | O => res
  | S fuel => if byte =? 0 then res else countbits_loop fuel (Z.shiftr byte 1) (res + Z.land byte 0x01)
  end.
Definition countbits (byte : Z) : Z := countbits_loop 32 byte 0.

Definition byte_offset (s0 s1 : Z) : Z :=
  let byteoffs := Z.land (Z.shiftl s1 0) 0x80 in
  let byteoffs := Z.lor byteoffs (Z.land (Z.shiftl s1 1) 0x40) in
  let byteoffs := Z.lor byteoffs (Z.land (Z.shiftl s1 2) 0x20) in
  let byteoffs := Z.lor byteoffs (Z.land (Z.shiftl s1 3) 0x10) in
  let byteoffs := Z.lor byteoffs (Z.land (Z.shiftr s0 4) 0x08) in
  let byteoffs := Z.lor byteoffs (Z.land (Z.shiftr s0 3) 0x04) in
  let byteoffs := Z.lor byteoffs (Z.land (Z.shiftr s0 2) 0x02) in
  Z.lor byteoffs (Z.land (Z.shiftr s0 1) 0x01).

Definition bit_number (s2 : Z) : Z :=
  let bitnum := Z.land (Z.shiftr s2 5) 0x04 in
  let bitnum := Z.lor bitnum (Z.land (Z.shiftr s2 4) 0x02) in
  Z.lor bitnum (Z.land (Z.shiftr s2 3) 0x01).

(** [dat[k] ^= 1 << b]; outside of the block it faults. *)
Definition flip_bit (dat : list Z) (k b : Z) : option (list Z) :=
  x ← dat !! Z.to_nat k; Some (<[Z.to_nat k := u8 (Z.lxor x (Z.shiftl 1 b))]> dat).

Definition nand_correct_data (smc : bool) (dat : list Z) (read_ecc calc_ecc : ecc_code) : option (Z * list Z) :=
  let '(s0, s1, s2) :=
    if smc then (Z.lxor (ecc0 calc_ecc) (ecc0 read_ecc), Z.lxor (ecc1 calc_ecc) (ecc1 read_ecc), Z.lxor (ecc2 calc_ecc) (ecc2 read_ecc))
    else (Z.lxor (ecc1 calc_ecc) (ecc1 read_ecc), Z.lxor (ecc0 calc_ecc) (ecc0 read_ecc), Z.lxor (ecc2 calc_ecc) (ecc2 read_ecc)) in
  if Z.lor (Z.lor s0 s1) s2 =? 0 then Some (0, dat)
  else if (Z.land (Z.lxor s0 (Z.shiftr s0 1)) 0x55 =? 0x55) && (Z.land (Z.lxor s1 (Z.shiftr s1 1)) 0x55 =? 0x55)
    && (Z.land (Z.lxor s2 (Z.shiftr s2 1)) 0x54 =? 0x54) then
    dat ← flip_bit dat (byte_offset s0 s1) (bit_number s2); Some (1, dat)
  else if countbits (Z.lor (Z.lor s0 (u32 (Z.shiftl s1 8))) (u32 (Z.shiftl s2 16))) =? 1 then Some (1, dat)
  else Some (- EBADMSG, dat).

(** * Errors *)

(** Bit [b] of byte [k] of the block, or of byte [k] of the code. *)
Inductive error := InData (k b : nat) | InCode (k b : nat).
#[export] Instance error_eq_dec : EqDecision error.
Proof. solve_decision. Defined.

Definition flip (x : Z) (b : nat) : Z := Z.lxor x (2 ^ Z.of_nat b).

(** A page as it is read: the block and its stored code. *)
Definition hit (e : error) (p : list Z * ecc_code) : list Z * ecc_code :=
  let '(dat, c) := p in
  match e with
  | InData k b => (alter (λ x, flip x b) k dat, c)
  | InCode 0 b => (dat, Ecc (flip (ecc0 c) b) (ecc1 c) (ecc2 c))
  | InCode 1 b => (dat, Ecc (ecc0 c) (flip (ecc1 c) b) (ecc2 c))
  | InCode _ b => (dat, Ecc (ecc0 c) (ecc1 c) (flip (ecc2 c) b))
  end.

(** The bits there are; the two lowest of the third byte carry nothing. *)
Definition in_page (e : error) : Prop :=
  match e with InData k b => (k < 256)%nat ∧ (b < 8)%nat | InCode k b => (k < 3)%nat ∧ (b < 8)%nat end.
Definition carries (e : error) : Prop := match e with InCode 2 b => (2 <= b)%nat | _ => True end.

Definition block_ok (dat : list Z) : Prop := length dat = 256%nat ∧ Forall (λ x, 0 <= x < 256) dat.

(** Reading a page: the code of the block as read against the stored one. *)
Definition read_page (smc : bool) (p : list Z * ecc_code) : option (Z * list Z) :=
  calc ← nand_calculate_ecc smc p.1; nand_correct_data smc p.1 p.2 calc.

(** * The code is linear *)

Definition rxor (r r' : ecc_regs) : ecc_regs :=
  EccRegs (Z.lxor (reg1 r) (reg1 r')) (Z.lxor (reg2 r) (reg2 r')) (Z.lxor (reg3 r) (reg3 r')).
Definition col (x : Z) : Z := nth (Z.to_nat x) nand_ecc_precalc_table 0.

(** What flipping bit [b] of byte [i] does to the registers. *)
Definition delta (i : Z) (b : nat) : ecc_regs :=
  EccRegs (Z.land (col (2 ^ Z.of_nat b)) 0x3f) (u8 (Z.lnot (u8 i))) (u8 i).

Lemma rxor_assoc r r' r'' : rxor (rxor r r') r'' = rxor r (rxor r' r'').
Proof. unfold rxor; simpl. by rewrite !Z.lxor_assoc. Qed.
Lemma rxor_comm r r' : rxor r r' = rxor r' r.
Proof. unfold rxor. f_equal; apply Z.lxor_comm. Qed.

Lemma ecc_byte_rxor i x r r' : ecc_byte i x (rxor r r') = rxor (ecc_byte i x r) r'.
Proof.
  unfold ecc_byte, rxor. destruct (_ =? 0); simpl; f_equal; rewrite ?Z.lxor_assoc; f_equal; apply Z.lxor_comm.
Qed.

Lemma ecc_loop_rxor n : ∀ i dat r r', ecc_loop n i dat (rxor r r') = (λ o, rxor o r') <$> ecc_loop n i dat r.
Proof.
  induction n as [|n IH]; intros i dat r r'; [done|]. cbn [ecc_loop]. destruct dat as [|x dat]; [done|].
  by rewrite ecc_byte_rxor, IH.
Qed.

(** Two facts about every entry of the table. *)
Definition table_flip_ok : bool :=
  forallb (λ x, forallb (λ b,
    let x := Z.of_nat x in
    (Z.land (col (flip x b)) 0x3f =? Z.lxor (Z.land (col x) 0x3f) (Z.land (col (2 ^ Z.of_nat b)) 0x3f))
    && eqb (Z.land (col (flip x b)) 0x40 =? 0) (negb (Z.land (col x) 0x40 =? 0))) (seq 0 8)) (seq 0 256).

Lemma table_flips : table_flip_ok = true.
Proof. vm_compute. reflexivity. Qed.

Lemma table_flip x b : 0 <= x < 256 -> (b < 8)%nat ->
  Z.land (col (flip x b)) 0x3f = Z.lxor (Z.land (col x) 0x3f) (Z.land (col (2 ^ Z.of_nat b)) 0x3f) ∧
  (Z.land (col (flip x b)) 0x40 =? 0) = negb (Z.land (col x) 0x40 =? 0).
Proof.
  intros Hx Hb. pose proof table_flips as H. unfold table_flip_ok in H. rewrite forallb_forall in H.
  specialize (H (Z.to_nat x)). rewrite forallb_forall in H. specialize (H ltac:(apply in_seq; lia) b ltac:(apply in_seq; lia)).
  cbv zeta in H. rewrite Z2Nat.id in H by lia. apply andb_true_iff in H as [H1 H2]. split; [by apply Z.eqb_eq|by apply eqb_prop].
Qed.

Lemma ecc_byte_flip i x b r : 0 <= x < 256 -> (b < 8)%nat -> ecc_byte i (flip x b) r = rxor (ecc_byte i x r) (delta i b).
Proof.
  intros Hx Hb. destruct (table_flip x b Hx Hb) as [H1 H2]. unfold ecc_byte. fold (col (flip x b)) (col x). cbv zeta. rewrite H1, H2.
  unfold rxor, delta. destruct (Z.land (col x) 64 =? 0); simpl; f_equal; rewrite ?Z.lxor_assoc; try done.
  all: by rewrite Z.lxor_nilpotent, Z.lxor_0_r.
Qed.

Lemma ecc_loop_flip n : ∀ i dat r k b, Forall (λ x, 0 <= x < 256) dat -> (k < n)%nat -> (n <= length dat)%nat -> (b < 8)%nat ->
  ecc_loop n i (alter (λ x, flip x b) k dat) r = (λ o, rxor o (delta (i + Z.of_nat k) b)) <$> ecc_loop n i dat r.
Proof.
  induction n as [|n IH]; intros i dat r k b Hd Hk Hl Hb; [lia|]. destruct dat as [|x dat]; [cbn in Hl; lia|].
  inversion_clear Hd. destruct k as [|k]; cbn [alter list_alter ecc_loop].
  - rewrite ecc_byte_flip by done. rewrite ecc_loop_rxor. by rewrite Z.add_0_r.
  - change (list_alter (λ x0, flip x0 b) k dat) with (alter (λ x0, flip x0 b) k dat). rewrite IH by (done || cbn in Hl; lia).
    replace (i + 1 + Z.of_nat k) with (i + Z.of_nat (S k)) by lia. done.
Qed.

Lemma ecc_loop_total n : ∀ i dat r, (n <= length dat)%nat -> ∃ o, ecc_loop n i dat r = Some o.
Proof.
  induction n as [|n IH]; intros i dat r Hl; [by exists r|]. destruct dat as [|x dat]; [cbn in Hl; lia|]. apply IH. cbn in Hl. lia.
Qed.

(** ** The bytes of the code *)

Lemma byte_bits i : 0 <= i -> i = 0 ∨ i = 1 ∨ i = 2 ∨ i = 3 ∨ i = 4 ∨ i = 5 ∨ i = 6 ∨ i = 7 ∨ 8 <= i.
Proof. lia. Qed.

(** Evaluates one bit of a combination of shifts and masks. *)
Ltac code_bits :=
  rewrite ?Z.lor_spec; repeat (rewrite Z.shiftr_spec by lia); repeat (rewrite Z.shiftl_spec by lia); rewrite ?Z.land_spec.
(** The masks have no bit from bit [w] on. *)
Ltac mask_ends w :=
  repeat match goal with |- context [Z.testbit (Zpos ?m) ?k] => rewrite (testbit_high w (Zpos m) k) by (unfold in_u; lia) end.

Lemma line_hi_bits r i : 0 <= i ->
  Z.testbit (line_hi r) i = (i <? 8) && (if Z.odd i then Z.testbit (reg3 r) (4 + i / 2) else Z.testbit (reg2 r) (4 + i / 2)).
Proof.
  intros Hi. unfold line_hi. cbv zeta. code_bits.
  destruct (byte_bits i Hi) as [->|[->|[->|[->|[->|[->|[->|[->|Hi8]]]]]]]].
  1-8: cbn; rewrite ?andb_false_r, ?andb_true_r, ?orb_false_r; reflexivity.
  destruct (Z.ltb_spec i 8); [lia|]. mask_ends 8. by rewrite !andb_false_r.
Qed.

Lemma line_lo_bits r i : 0 <= i ->
  Z.testbit (line_lo r) i = (i <? 8) && (if Z.odd i then Z.testbit (reg3 r) (i / 2) else Z.testbit (reg2 r) (i / 2)).
Proof.
  intros Hi. unfold line_lo. cbv zeta. code_bits.
  destruct (byte_bits i Hi) as [->|[->|[->|[->|[->|[->|[->|[->|Hi8]]]]]]]].
  1-8: cbn; rewrite ?andb_false_r, ?andb_true_r, ?orb_false_r; reflexivity.
  destruct (Z.ltb_spec i 8); [lia|].
  mask_ends 4. by rewrite !andb_false_r.
Qed.

Definition code_of (smc : bool) (r : ecc_regs) : ecc_code :=
  let c2 := u8 (Z.lor (Z.shiftl (Z.lnot (reg1 r)) 2) 0x03) in
  if smc then Ecc (u8 (Z.lnot (line_lo r))) (u8 (Z.lnot (line_hi r))) c2 else Ecc (u8 (Z.lnot (line_hi r))) (u8 (Z.lnot (line_lo r))) c2.

Lemma line_hi_xor r d : Z.lxor (u8 (Z.lnot (line_hi (rxor r d)))) (u8 (Z.lnot (line_hi r))) = line_hi d.
Proof.
  apply Z.bits_inj'. intros i Hi. unfold u8. rewrite Z.lxor_spec, !wrap_testbit, !Z.lnot_spec, !line_hi_bits by lia. unfold rxor; simpl.
  destruct (i <? 8), (Z.odd i); simpl; [rewrite Z.lxor_spec..|done|done];
    [destruct (Z.testbit (reg3 r) (4 + i / 2)), (Z.testbit (reg3 d) (4 + i / 2))|destruct (Z.testbit (reg2 r) (4 + i / 2)), (Z.testbit (reg2 d) (4 + i / 2))]; done.
Qed.
Lemma line_lo_xor r d : Z.lxor (u8 (Z.lnot (line_lo (rxor r d)))) (u8 (Z.lnot (line_lo r))) = line_lo d.
Proof.
  apply Z.bits_inj'. intros i Hi. unfold u8. rewrite Z.lxor_spec, !wrap_testbit, !Z.lnot_spec, !line_lo_bits by lia. unfold rxor; simpl.
  destruct (i <? 8), (Z.odd i); simpl; [rewrite Z.lxor_spec..|done|done];
    [destruct (Z.testbit (reg3 r) (i / 2)), (Z.testbit (reg3 d) (i / 2))|destruct (Z.testbit (reg2 r) (i / 2)), (Z.testbit (reg2 d) (i / 2))]; done.
Qed.
Lemma column_xor a d :
  Z.lxor (u8 (Z.lor (Z.shiftl (Z.lnot (Z.lxor a d)) 2) 3)) (u8 (Z.lor (Z.shiftl (Z.lnot a) 2) 3)) = u8 (Z.shiftl d 2).
Proof.
  apply Z.bits_inj'. intros i Hi. unfold u8. rewrite Z.lxor_spec, !wrap_testbit, !Z.lor_spec, !Z.shiftl_spec by lia.
  destruct (decide (i < 2)).
  - rewrite !(Z.testbit_neg_r _ (i - 2)) by lia. destruct (i <? 8), (Z.testbit 3 i); done.
  - rewrite !Z.lnot_spec, Z.lxor_spec by lia. destruct (i <? 8), (Z.testbit a (i - 2)), (Z.testbit d (i - 2)), (Z.testbit 3 i) eqn:E3; try done;
      (rewrite (testbit_high 2 3) in E3 by (unfold in_u; lia); done).
Qed.

(** ** Syndromes *)

Record syndrome := Syn { s0 : Z; s1 : Z; s2 : Z }.
Definition sxor (s t : syndrome) : syndrome := Syn (Z.lxor (s0 s) (s0 t)) (Z.lxor (s1 s) (s1 t)) (Z.lxor (s2 s) (s2 t)).
Definition clean : syndrome := Syn 0 0 0.
#[export] Instance syndrome_eq_dec : EqDecision syndrome.
Proof. solve_decision. Defined.

Lemma sxor_assoc s t u : sxor (sxor s t) u = sxor s (sxor t u).
Proof. unfold sxor; simpl. by rewrite !Z.lxor_assoc. Qed.
Lemma sxor_clean s : sxor s clean = s.
Proof. destruct s. unfold sxor; simpl. by rewrite !Z.lxor_0_r. Qed.
Lemma sxor_cancel s t : sxor s t = clean -> s = t.
Proof. destruct s, t. unfold sxor, clean; simpl. intros [= H1 H2 H3]. by rewrite (Z.lxor_eq _ _ H1), (Z.lxor_eq _ _ H2), (Z.lxor_eq _ _ H3). Qed.

Definition syndrome_of (smc : bool) (calc read : ecc_code) : syndrome :=
  if smc then Syn (Z.lxor (ecc0 calc) (ecc0 read)) (Z.lxor (ecc1 calc) (ecc1 read)) (Z.lxor (ecc2 calc) (ecc2 read))
  else Syn (Z.lxor (ecc1 calc) (ecc1 read)) (Z.lxor (ecc0 calc) (ecc0 read)) (Z.lxor (ecc2 calc) (ecc2 read)).

(** The syndrome of one error. *)
Definition of_regs (r : ecc_regs) : syndrome := Syn (line_lo r) (line_hi r) (u8 (Z.shiftl (reg1 r) 2)).
Definition syn (smc : bool) (e : error) : syndrome :=
  match e with
  | InData k b => of_regs (delta (Z.of_nat k) b)
  | InCode 0 b => if smc then Syn (2 ^ Z.of_nat b) 0 0 else Syn 0 (2 ^ Z.of_nat b) 0
  | InCode 1 b => if smc then Syn 0 (2 ^ Z.of_nat b) 0 else Syn (2 ^ Z.of_nat b) 0 0
  | InCode _ b => Syn 0 0 (2 ^ Z.of_nat b)
  end.

Lemma syndrome_regs smc r d c : syndrome_of smc (code_of smc (rxor r d)) c = sxor (syndrome_of smc (code_of smc r) c) (of_regs d).
Proof.
  assert (∀ x y z w, Z.lxor x y = z -> Z.lxor x w = Z.lxor (Z.lxor y w) z) as Hx.
  { intros x y z w <-. apply Z.bits_inj'. intros i _. rewrite !Z.lxor_spec. by destruct (Z.testbit x i), (Z.testbit y i), (Z.testbit w i). }
  unfold syndrome_of, sxor, of_regs. destruct smc; simpl; f_equal; apply Hx; (apply line_hi_xor || apply line_lo_xor || apply column_xor).
Qed.

Lemma calc_loop smc dat : nand_calculate_ecc smc dat = code_of smc <$> ecc_loop 256 0 dat (EccRegs 0 0 0).
Proof. unfold nand_calculate_ecc. by destruct (ecc_loop _ _ _ _), smc. Qed.

Lemma flip_byte x b : 0 <= x < 256 -> (b < 8)%nat -> 0 <= flip x b < 256.
Proof.
  intros Hx Hb. assert (in_u 8 (flip x b)) as H; [|unfold in_u in H; lia]. unfold flip. apply in_u_bits; [lia| |].
  - apply Z.lxor_nonneg. split; intros; [apply Z.pow_nonneg; lia|lia].
  - intros i Hi. rewrite Z.lxor_spec, (testbit_high 8 x), Z.pow2_bits_false by (unfold in_u; lia). done.
Qed.

Lemma block_flip dat k b : block_ok dat -> (b < 8)%nat -> block_ok (alter (λ x, flip x b) k dat).
Proof.
  intros [Hl Hd] Hb. split; [by rewrite length_alter|]. apply Forall_alter; [done|]. intros x _ Hx. by apply flip_byte.
Qed.

(** An error adds its syndrome. *)
Lemma hit_syndrome smc e dat c code : block_ok dat -> in_page e -> nand_calculate_ecc smc dat = Some code ->
  let p := hit e (dat, c) in block_ok p.1 ∧ ∃ code', nand_calculate_ecc smc p.1 = Some code' ∧
    syndrome_of smc code' p.2 = sxor (syndrome_of smc code c) (syn smc e).
Proof.
  intros Hb He Hc. destruct e as [k b|k b]; cbn [hit fst snd]; cbv zeta.
  - destruct He as [Hk Hb8]. split; [by apply block_flip|]. rewrite calc_loop in *. rewrite ecc_loop_flip; [|apply Hb|done|destruct Hb; lia|done].
    destruct (ecc_loop 256 0 dat (EccRegs 0 0 0)) as [r|]; [|done]. injection Hc as <-. eexists. split; [reflexivity|].
    cbn [fst snd]. rewrite Z.add_0_l. apply syndrome_regs.
  - destruct He as [Hk Hb8]. assert (∀ x y b, Z.lxor x (flip y b) = Z.lxor (Z.lxor x y) (2 ^ Z.of_nat b)) as Hf by (intros; unfold flip; by rewrite Z.lxor_assoc).
    destruct k as [|[|[|k]]]; [..|lia]; cbn [fst snd]; (split; [done|exists code; split; [done|]]); destruct smc; unfold syndrome_of, sxor; simpl; by rewrite ?Hf, ?Z.lxor_0_r.
Qed.

(** ** Verdicts *)

Inductive verdict := Clean | Bit (k b : Z) | CodeBit | Uncorrectable.
Definition word_of (s : syndrome) : Z := Z.lor (Z.lor (s0 s) (u32 (Z.shiftl (s1 s) 8))) (u32 (Z.shiftl (s2 s) 16)).
(** The two bits of a pair differ; [m] selects the pairs. *)
Definition pairs (m x : Z) : Z := Z.land (Z.lxor x (Z.shiftr x 1)) m.
Definition all_pairs (s : syndrome) : bool := (pairs 0x55 (s0 s) =? 0x55) && (pairs 0x55 (s1 s) =? 0x55) && (pairs 0x54 (s2 s) =? 0x54).
Definition judge (s : syndrome) : verdict :=
  if Z.lor (Z.lor (s0 s) (s1 s)) (s2 s) =? 0 then Clean
  else if all_pairs s then Bit (byte_offset (s0 s) (s1 s)) (bit_number (s2 s))
  else if countbits (word_of s) =? 1 then CodeBit else Uncorrectable.
#[export] Instance verdict_eq_dec : EqDecision verdict.
Proof. solve_decision. Defined.

Lemma correct_judge smc dat read calc : nand_correct_data smc dat read calc =
  match judge (syndrome_of smc calc read) with
  | Clean => Some (0, dat)
  | Bit k b => dat ← flip_bit dat k b; Some (1, dat)
  | CodeBit => Some (1, dat)
  | Uncorrectable => Some (- EBADMSG, dat)
  end.
Proof.
  unfold nand_correct_data, judge, all_pairs, pairs, word_of. destruct smc; cbn [syndrome_of s0 s1 s2];
    (destruct (_ =? 0); [done|]); (destruct (_ && _ && _); [done|]); by destruct (_ =? 1).
Qed.

Lemma pairs_xor m x y : pairs m (Z.lxor x y) = Z.lxor (pairs m x) (pairs m y).
Proof.
  unfold pairs. rewrite Z.shiftr_lxor. apply Z.bits_inj'. intros i _. rewrite !Z.land_spec, !Z.lxor_spec, !Z.land_spec, !Z.lxor_spec.
  by destruct (Z.testbit x i), (Z.testbit y i), (Z.testbit (Z.shiftr x 1) i), (Z.testbit (Z.shiftr y 1) i), (Z.testbit m i).
Qed.

(** The number of ones is odd. *)
Lemma countbits_acc n : ∀ x r, countbits_loop n x r = r + countbits_loop n x 0.
Proof.
  induction n as [|n IH]; intros x r; cbn [countbits_loop]; [lia|]. destruct (x =? 0); [lia|].
  rewrite (IH _ (r + _)), (IH _ (0 + _)). lia.
Qed.
Lemma countbits_odd_step n x : Z.odd (countbits_loop (S n) x 0) = xorb (Z.odd x) (Z.odd (countbits_loop n (Z.shiftr x 1) 0)).
Proof.
  cbn [countbits_loop]. destruct (Z.eqb_spec x 0) as [->|]; [by destruct n|].
  rewrite countbits_acc, Z.odd_add. f_equal. rewrite Z.add_0_l, <- Z.bit0_odd, Z.land_spec. by rewrite andb_true_r, Z.bit0_odd.
Qed.
Lemma countbits_odd_xor n : ∀ x y,
  Z.odd (countbits_loop n (Z.lxor x y) 0) = xorb (Z.odd (countbits_loop n x 0)) (Z.odd (countbits_loop n y 0)).
Proof.
  induction n as [|n IH]; intros x y; [done|]. rewrite !countbits_odd_step, Z.shiftr_lxor, IH.
  assert (Z.odd (Z.lxor x y) = xorb (Z.odd x) (Z.odd y)) as -> by (rewrite <- !Z.bit0_odd; apply Z.lxor_spec).
  by destruct (Z.odd x), (Z.odd y), (Z.odd (countbits_loop n (Z.shiftr x 1) 0)), (Z.odd (countbits_loop n (Z.shiftr y 1) 0)).
Qed.

Definition syn_ok (s : syndrome) : Prop := in_u 8 (s0 s) ∧ in_u 8 (s1 s) ∧ in_u 8 (s2 s).
Definition odd_weight (s : syndrome) : bool := Z.odd (countbits (word_of s)).

Lemma word_bits s i : syn_ok s -> 0 <= i -> Z.testbit (word_of s) i =
  if i <? 8 then Z.testbit (s0 s) i else if i <? 16 then Z.testbit (s1 s) (i - 8) else if i <? 24 then Z.testbit (s2 s) (i - 16) else false.
Proof.
  intros (H0 & H1 & H2) Hi. unfold word_of, u32. rewrite !Z.lor_spec, !wrap_testbit, !Z.shiftl_spec by lia.
  destruct (Z.ltb_spec i 8).
  - rewrite !(Z.testbit_neg_r _ (i - _)) by lia. by rewrite !andb_false_r, !orb_false_r.
  - rewrite (testbit_high 8 (s0 s)) by (done || lia). destruct (Z.ltb_spec i 16).
    + rewrite (Z.testbit_neg_r _ (i - 16)) by lia. destruct (Z.ltb_spec i 32); [|lia]. by rewrite orb_false_r.
    + rewrite (testbit_high 8 (s1 s)) by (done || lia). destruct (Z.ltb_spec i 24); [destruct (Z.ltb_spec i 32); [|lia]; by rewrite andb_false_r|].
      rewrite (testbit_high 8 (s2 s)) by (done || lia). by rewrite !andb_false_r.
Qed.

Lemma lxor_word w x y : 0 <= w -> in_u w x -> in_u w y -> in_u w (Z.lxor x y).
Proof.
  intros Hw Hx Hy. apply in_u_bits; [done| |].
  - apply Z.lxor_nonneg. unfold in_u in *. tauto.
  - intros i Hi. by rewrite Z.lxor_spec, (testbit_high w x), (testbit_high w y).
Qed.
Lemma sxor_ok s t : syn_ok s -> syn_ok t -> syn_ok (sxor s t).
Proof. intros (? & ? & ?) (? & ? & ?). unfold syn_ok. split_and!; by apply lxor_word. Qed.

Lemma odd_weight_xor s t : syn_ok s -> syn_ok t -> odd_weight (sxor s t) = xorb (odd_weight s) (odd_weight t).
Proof.
  intros Hs Ht. assert (word_of (sxor s t) = Z.lxor (word_of s) (word_of t)) as Hw.
  { apply Z.bits_inj'. intros i Hi. rewrite Z.lxor_spec, !word_bits by (done || by apply sxor_ok). cbn [sxor s0 s1 s2].
    rewrite !Z.lxor_spec. by destruct (i <? 8), (i <? 16), (i <? 24). }
  unfold odd_weight, countbits. rewrite Hw. apply countbits_odd_xor.
Qed.

(** Nothing can be done about a syndrome of even weight with a pair of equal
    bits, unless it is zero. *)
Lemma judge_bad s : s ≠ clean -> odd_weight s = false -> all_pairs s = false -> judge s = Uncorrectable.
Proof.
  intros Hn Ho Ha. unfold judge. destruct (Z.eqb_spec (Z.lor (Z.lor (s0 s) (s1 s)) (s2 s)) 0) as [Hz|_].
  { apply Z.lor_eq_0_iff in Hz as [[H0 H1]%Z.lor_eq_0_iff H2]. destruct s. cbn in *. by subst. }
  rewrite Ha. destruct (Z.eqb_spec (countbits (word_of s)) 1) as [H1|]; [|done]. unfold odd_weight in Ho. by rewrite H1 in Ho.
Qed.

(** ** The syndromes of single errors *)

#[export] Instance syn_ok_dec s : Decision (syn_ok s).
Proof. unfold syn_ok. apply _. Defined.
Definition lines_ok (k : nat) : bool :=
  let s := syn true (InData k 0) in
  (pairs 0x55 (s0 s) =? 0x55) && (pairs 0x55 (s1 s) =? 0x55) && (byte_offset (s0 s) (s1 s) =? Z.of_nat k)
  && negb (odd_weight (Syn (s0 s) (s1 s) 0)) && bool_decide (syn_ok s).
Definition column_ok (b : nat) : bool :=
  let s := syn true (InData 0 b) in
  (pairs 0x54 (s2 s) =? 0x54) && (bit_number (s2 s) =? Z.of_nat b) && odd_weight (Syn 0 0 (s2 s)) && bool_decide (syn_ok s).

Lemma all_lines_ok : forallb lines_ok (seq 0 256) = true.
Proof. vm_compute. reflexivity. Qed.
Lemma all_columns_ok : forallb column_ok (seq 0 8) = true.
Proof. vm_compute. reflexivity. Qed.

(** An error in the block: all pairs differ, and the bit is found. *)
Lemma data_syndrome smc k b : (k < 256)%nat -> (b < 8)%nat ->
  let s := syn smc (InData k b) in
  all_pairs s = true ∧ odd_weight s = true ∧ syn_ok s ∧ byte_offset (s0 s) (s1 s) = Z.of_nat k ∧ bit_number (s2 s) = Z.of_nat b.
Proof.
  intros Hk Hb. pose proof all_lines_ok as HL. rewrite forallb_forall in HL. specialize (HL k ltac:(apply in_seq; lia)).
  pose proof all_columns_ok as HC. rewrite forallb_forall in HC. specialize (HC b ltac:(apply in_seq; lia)).
  unfold lines_ok in HL. unfold column_ok in HC. cbv zeta in *. rewrite !andb_true_iff, !Z.eqb_eq, negb_true_iff, bool_decide_eq_true in HL.
  rewrite !andb_true_iff, !Z.eqb_eq, bool_decide_eq_true in HC. destruct HL as ((((HP0 & HP1) & Hoff) & Ho) & HK0 & HK1 & _), HC as (((HP2 & Hbit) & Ho2) & _ & _ & HK2).
  cbn [syn of_regs s0 s1 s2] in *.
  assert (of_regs (delta (Z.of_nat k) b) = sxor (Syn (line_lo (delta (Z.of_nat k) 0)) (line_hi (delta (Z.of_nat k) 0)) 0) (Syn 0 0 (u8 (Z.shiftl (reg1 (delta (Z.of_nat 0) b)) 2)))) as He.
  { unfold sxor, of_regs; simpl. by rewrite !Z.lxor_0_r, ?Z.lxor_0_l. }
  assert (in_u 8 0) as Hz by (unfold in_u; lia).
  assert (syn_ok (Syn (line_lo (delta (Z.of_nat k) 0)) (line_hi (delta (Z.of_nat k) 0)) 0)) as Hs1 by done.
  assert (syn_ok (Syn 0 0 (u8 (Z.shiftl (reg1 (delta (Z.of_nat 0) b)) 2)))) as Hs2 by done.
  split_and!; try done.
  - unfold all_pairs. cbn [s0 s1 s2]. rewrite !andb_true_iff, !Z.eqb_eq. by split_and!.
  - rewrite He, odd_weight_xor by done. by rewrite Ho2, (negbTE Ho) || rewrite Ho2, Ho.
Qed.

(** An error in the code: one bit, in a pair. *)
Definition code_errors : list error := (λ n, InCode (n / 8) (n mod 8)) <$> seq 0 24.
Lemma code_errors_all k b : in_page (InCode k b) -> InCode k b ∈ code_errors.
Proof.
  intros [Hk Hb]. apply list_elem_of_fmap. exists (8 * k + b)%nat. split; [|apply elem_of_seq; lia].
  f_equal; [apply Nat.div_unique with b; lia|apply Nat.mod_unique with k; lia].
Qed.

#[export] Instance carries_dec e : Decision (carries e).
Proof. destruct e as [|[|[|[]]]]; apply _. Defined.

Definition code_ok (smc : bool) (e : error) : bool :=
  let s := syn smc e in bool_decide (judge s = CodeBit) && odd_weight s && bool_decide (syn_ok s)
  && (negb (bool_decide (carries e)) || negb ((pairs 0x55 (s0 s) =? 0) && (pairs 0x55 (s1 s) =? 0) && (pairs 0x54 (s2 s) =? 0)))
  && negb (all_pairs s).
Lemma all_codes_ok : forallb (λ smc, forallb (code_ok smc) code_errors) [true; false] = true.
Proof. vm_compute. reflexivity. Qed.

Definition code_pair_ok (smc : bool) (e e' : error) : bool :=
  bool_decide (e = e') || (negb (bool_decide (sxor (syn smc e) (syn smc e') = clean)) && negb (all_pairs (sxor (syn smc e) (syn smc e')))).
Lemma all_code_pairs_ok : forallb (λ smc, forallb (λ e, forallb (code_pair_ok smc e) code_errors) code_errors) [true; false] = true.
Proof. vm_compute. reflexivity. Qed.

Lemma code_syndrome smc k b : in_page (InCode k b) ->
  let e := InCode k b in let s := syn smc e in judge s = CodeBit ∧ odd_weight s = true ∧ syn_ok s ∧ all_pairs s = false ∧
  (carries e -> pairs 0x55 (s0 s) ≠ 0 ∨ pairs 0x55 (s1 s) ≠ 0 ∨ pairs 0x54 (s2 s) ≠ 0).
Proof.
  intros Hin e s. pose proof all_codes_ok as H. rewrite forallb_forall in H. specialize (H smc ltac:(destruct smc; simpl; tauto)).
  rewrite forallb_forall in H. specialize (H e ltac:(apply list_elem_of_In, code_errors_all, Hin)). unfold code_ok in H. fold s in H.
  cbv zeta in H. rewrite !andb_true_iff, orb_true_iff, !negb_true_iff, !bool_decide_eq_true in H. destruct H as [[[[Hj Ho] Hk] Hp] Ha].
  split_and!; try done. intros Hc. destruct Hp as [Hp|Hp]; [by apply bool_decide_eq_false in Hp|].
  rewrite !andb_false_iff, !Z.eqb_neq in Hp. tauto.
Qed.

Lemma syn_facts smc e : in_page e -> odd_weight (syn smc e) = true ∧ syn_ok (syn smc e).
Proof.
  destruct e as [k b|k b]; intros He.
  - destruct (data_syndrome smc k b) as (_ & ? & ? & _); [apply He..|done].
  - destruct (code_syndrome smc k b He) as (_ & ? & ? & _). done.
Qed.

Lemma pairs_full s : all_pairs s = true <-> pairs 0x55 (s0 s) = 0x55 ∧ pairs 0x55 (s1 s) = 0x55 ∧ pairs 0x54 (s2 s) = 0x54.
Proof. unfold all_pairs. rewrite !andb_true_iff, !Z.eqb_eq. tauto. Qed.

(** Two errors leave a pair of equal bits. *)
Lemma two_errors smc e e' : in_page e -> in_page e' -> carries e -> carries e' -> e ≠ e' -> judge (sxor (syn smc e) (syn smc e')) = Uncorrectable.
Proof.
  assert (∀ k b j c, in_page (InData k b) -> in_page (InCode j c) -> carries (InCode j c) ->
    sxor (syn smc (InData k b)) (syn smc (InCode j c)) ≠ clean ∧ all_pairs (sxor (syn smc (InData k b)) (syn smc (InCode j c))) = false) as Hmix.
  { intros k b j c [Hk Hb] Hc Hcar. destruct (data_syndrome smc k b Hk Hb) as (Ha & _). destruct (code_syndrome smc j c Hc) as (_ & _ & _ & Hn & Hp).
    split; [intros Heq%sxor_cancel; rewrite Heq in Ha; congruence|]. apply not_true_iff_false. intros Hf. rewrite pairs_full in Ha, Hf.
    cbn [sxor s0 s1 s2] in Hf. rewrite !pairs_xor in Hf. destruct Ha as (A0 & A1 & A2), Hf as (F0 & F1 & F2). rewrite A0 in F0. rewrite A1 in F1. rewrite A2 in F2.
    assert (∀ m x, Z.lxor m x = m -> x = 0) as Hl. { intros m x Hx. assert (Z.lxor m (Z.lxor m x) = x) as <- by (by rewrite <- Z.lxor_assoc, Z.lxor_nilpotent, Z.lxor_0_l). rewrite Hx. apply Z.lxor_nilpotent. }
    apply Hl in F0, F1, F2. destruct (Hp Hcar) as [?|[?|?]]; done. }
  intros He He' Hc Hc' Hne. destruct (syn_facts smc e He) as [Ho Hs], (syn_facts smc e' He') as [Ho' Hs'].
  assert (odd_weight (sxor (syn smc e) (syn smc e')) = false) as Hodd by (rewrite odd_weight_xor, Ho, Ho' by done; done).
  assert (∀ s t, sxor s t = sxor t s) as Hcomm by (intros s t; unfold sxor; f_equal; apply Z.lxor_comm).
  destruct e as [k b|k b], e' as [j c|j c].
  - destruct (data_syndrome smc k b) as (Ha & _ & _ & Hk & Hb); [apply He..|]. destruct (data_syndrome smc j c) as (Ha' & _ & _ & Hj & Hc2); [apply He'..|].
    apply judge_bad; [|done|].
    + intros Heq%sxor_cancel. rewrite Heq, Hj in Hk. rewrite Heq, Hc2 in Hb. apply Hne. f_equal; lia.
    + apply not_true_iff_false. intros Hf. rewrite pairs_full in Ha, Ha', Hf. cbn [sxor s0] in Hf. rewrite pairs_xor in Hf.
      destruct Ha as (A0 & _), Ha' as (A0' & _), Hf as (F0 & _). rewrite A0, A0' in F0. done.
  - by apply judge_bad; [apply Hmix|..|apply Hmix].
  - rewrite Hcomm in *. by apply judge_bad; [apply Hmix|..|apply Hmix].
  - pose proof all_code_pairs_ok as H. rewrite forallb_forall in H. specialize (H smc ltac:(destruct smc; simpl; tauto)).
    rewrite forallb_forall in H. specialize (H _ ltac:(apply list_elem_of_In, code_errors_all, He)).
    rewrite forallb_forall in H. specialize (H _ ltac:(apply list_elem_of_In, code_errors_all, He')). unfold code_pair_ok in H.
    rewrite orb_true_iff, andb_true_iff, !negb_true_iff, bool_decide_eq_true, bool_decide_eq_false in H. destruct H as [|[]]; [done|]. by apply judge_bad.
Qed.

Lemma flip_back dat k b : block_ok dat -> (k < 256)%nat -> (b < 8)%nat ->
  flip_bit (alter (λ x, flip x b) k dat) (Z.of_nat k) (Z.of_nat b) = Some dat.
Proof.
  intros [Hl Hd] Hk Hb. unfold flip_bit. rewrite Nat2Z.id. destruct (lookup_lt_is_Some_2 dat k ltac:(lia)) as [x Hx].
  rewrite list_lookup_alter_eq, Hx. simpl. f_equal. rewrite Z.shiftl_1_l. unfold flip. rewrite Z.lxor_assoc, Z.lxor_nilpotent, Z.lxor_0_r.
  rewrite Forall_lookup in Hd. unfold u8. rewrite wrap_id by (by eapply Hd). apply list_eq. intros j. destruct (decide (j = k)) as [->|].
  - rewrite list_lookup_insert_eq; [done|]. rewrite length_alter. lia.
  - by rewrite list_lookup_insert_ne, list_lookup_alter_ne.
Qed.

Lemma ecc_page smc dat : block_ok dat -> ∃ code, nand_calculate_ecc smc dat = Some code ∧
  read_page smc (dat, code) = Some (0, dat) ∧
  (∀ e, in_page e -> read_page smc (hit e (dat, code)) = Some (1, dat)) ∧
  (∀ e e', in_page e -> in_page e' -> carries e -> carries e' -> e ≠ e' ->
     let p := hit e' (hit e (dat, code)) in read_page smc p = Some (- EBADMSG, p.1)).
Proof.
  intros Hok. destruct (ecc_loop_total 256 0 dat (EccRegs 0 0 0)) as [r Hr]; [destruct Hok; lia|].
  exists (code_of smc r). assert (nand_calculate_ecc smc dat = Some (code_of smc r)) as Hc by (by rewrite calc_loop, Hr). split; [done|].
  assert (syndrome_of smc (code_of smc r) (code_of smc r) = clean) as Hz by (unfold syndrome_of; destruct smc; by rewrite !Z.lxor_nilpotent).
  assert (∀ s, sxor clean s = s) as Hcl by (intros []; done). split_and!.
  - unfold read_page. cbn [fst snd]. rewrite Hc. simpl. rewrite correct_judge, Hz. done.
  - intros e He. destruct (hit_syndrome smc e dat (code_of smc r) _ Hok He Hc) as (_ & c' & Hc' & Hs). rewrite Hz, Hcl in Hs.
    unfold read_page. rewrite Hc'. cbv [mbind option_bind]. rewrite correct_judge, Hs. destruct e as [k b|k b].
    + destruct He as [Hk Hb]. destruct (data_syndrome smc k b Hk Hb) as (Ha & Ho & _ & Hoff & Hbit). unfold judge.
      destruct (Z.eqb_spec (Z.lor (Z.lor (s0 (syn smc (InData k b))) (s1 (syn smc (InData k b)))) (s2 (syn smc (InData k b)))) 0) as [E|_].
      { apply Z.lor_eq_0_iff in E as [[E0 _]%Z.lor_eq_0_iff _]. apply pairs_full in Ha as [Ha _]. rewrite E0 in Ha. done. }
      rewrite Ha, Hoff, Hbit. cbn [hit fst]. by rewrite flip_back.
    + destruct (code_syndrome smc k b He) as (Hj & _). rewrite Hj. destruct He as [Hk _]. destruct k as [|[|[|]]]; done || lia.
  - intros e e' He He' Hca Hca' Hne p. destruct (hit_syndrome smc e dat (code_of smc r) _ Hok He Hc) as (Hok1 & c1 & Hc1 & Hs1). rewrite Hz, Hcl in Hs1.
    unfold p. destruct (hit e (dat, code_of smc r)) as [dat1 code1]. cbn [fst snd] in *.
    destruct (hit_syndrome smc e' dat1 code1 c1 Hok1 He' Hc1) as (_ & c2 & Hc2 & Hs2). unfold read_page. rewrite Hc2. cbv [mbind option_bind].
    rewrite correct_judge, Hs2, Hs1, two_errors by done. done.
Qed.

(** C30: the code of the NAND flash corrects one error and detects two.  For
    every block of 256 bytes, read with its code: an intact page is accepted; when any
    one bit of the block or of the code has changed, the block comes back as it
    was written; when any two bits that carry information have changed, the
    page is reported as bad and nothing is changed. *)
Theorem ecc_corrects_one_detects_two smc dat : block_ok dat -> ∃ code, nand_calculate_ecc smc dat = Some code ∧
  read_page smc (dat, code) = Some (0, dat) ∧
  (∀ e, in_page e -> read_page smc (hit e (dat, code)) = Some (1, dat)) ∧
  (∀ e e', in_page e -> in_page e' -> carries e -> carries e' -> e ≠ e' ->
     let p := hit e' (hit e (dat, code)) in read_page smc p = Some (- EBADMSG, p.1)).
Proof. apply ecc_page. Qed.
Lemma ecc_corrects_one_detects_two_witness :
  block_ok (seqZ 0 256) ∧ ∃ code, nand_calculate_ecc false (seqZ 0 256) = Some code ∧ read_page false (hit (InData 77 3) (seqZ 0 256, code)) = Some (1, seqZ 0 256).
Proof.
  assert (block_ok (seqZ 0 256)) as Hb.
  { split; [reflexivity|]. apply Forall_forall. intros x Hx. apply elem_of_seqZ in Hx. lia. }
  split; [exact Hb|]. destruct (ecc_corrects_one_detects_two false (seqZ 0 256) Hb) as (code & Hc & _ & H1 & _).
  exists code. split; [exact Hc|]. apply H1. split; lia.
Defined.
