(* ===== verification/Nand.v ===== *)
(** The NAND flash: drivers/mtd/nand/mmsp2.c, the driver of this board, and the
    pages with software error correction of drivers/mtd/nand/nand_base.c that
    it selects.

    Buffers are lists of bytes; a pointer into a buffer is the rest of the list
    from there.  A raw page is what the chip stores: the data and the
    out-of-band bytes. *)

From S2P Require Import Prelude.
From S2P Require Import Hw.
From S2P Require Import Mtdpart.
From S2P Require Import NandEcc.

(** * Pages with software error correction *)

(** struct mtd_ecc_stats: the counters that reading changes. *)
Record ecc_stats := EccStats { corrected : Z; failed : Z }.

(** The layouts of nand_base.c for 8, 16 and 64 out-of-band bytes. *)
Definition nand_oob_8 : list nat := [0; 1; 2]%nat.
Definition nand_oob_16 : list nat := [0; 1; 2; 3; 6; 7]%nat.
Definition nand_oob_64 : list nat := [40; 41; 42; 43; 44; 45; 46; 47; 48; 49; 50; 51; 52; 53; 54; 55; 56; 57; 58; 59; 60; 61; 62; 63]%nat.

Section Pages.
Context (smc : bool) (steps : nat) (eccpos : list nat).

(** [&ecc[i]]: three bytes. *)
Definition code_at (ecc : list Z) : option ecc_code :=
  match ecc with a :: b :: c :: _ => Some (Ecc a b c) | _ => None end.
Definition code_bytes (c : ecc_code) : list Z := [ecc0 c; ecc1 c; ecc2 c].

(** The loop that fills ecc_calc. *)
Fixpoint calc_steps (n : nat) (p : list Z) : option (list Z) :=
  match n with
  | O => Some []
  | S n =>
      c ← nand_calculate_ecc smc p;
      l ← calc_steps n (drop 256 p);
      Some (code_bytes c ++ l)
  end.

(** [chip->oob_poi[eccpos[i]] = ecc_calc[i]] for [i] below [chip->ecc.total]. *)
Fixpoint place_codes (n : nat) (i : nat) (ecc_calc oob : list Z) : option (list Z) :=
  match n with
  | O => Some oob
  | S n =>
      pos ← eccpos !! i;
      c ← ecc_calc !! i;
      _ ← oob !! pos;
      place_codes n (S i) ecc_calc (<[pos := c]> oob)
  end.

(** The raw page that nand_write_page_raw puts on the chip. *)
Definition nand_write_page_swecc (buf oob : list Z) : option (list Z * list Z) :=
  ecc_calc ← calc_steps steps buf;
  oob ← place_codes (3 * steps) 0 ecc_calc oob;
  Some (buf, oob).

(** [ecc_code[i] = chip->oob_poi[eccpos[i]]] *)
Fixpoint gather_codes (n i : nat) (oob : list Z) : option (list Z) :=
  match n with
  | O => Some []
  | S n => pos ← eccpos !! i; c ← oob !! pos; l ← gather_codes n (S i) oob; Some (c :: l)
  end.

(** The loop over the blocks; the result is the buffer from [p] on. *)
Fixpoint correct_steps (n : nat) (p ecc_code ecc_calc : list Z) (st : ecc_stats) : option (list Z * ecc_stats) :=
  match n with
  | O => Some (p, st)
  | S n =>
      read ← code_at ecc_code;
      calc ← code_at ecc_calc;
      '(stat, p) ← nand_correct_data smc p read calc;
      let st := if stat <? 0 then EccStats (corrected st) (u32 (failed st + 1)) else EccStats (u32 (corrected st + stat)) (failed st) in
      '(rest, st) ← correct_steps n (drop 256 p) (drop 3 ecc_code) (drop 3 ecc_calc) st;
      Some (take 256 p ++ rest, st)
  end.

(** [raw] is what read_page_raw brings in. *)
Definition nand_read_page_swecc (raw : list Z * list Z) (st : ecc_stats) : option (list Z * ecc_stats) :=
  let '(buf, oob) := raw in
  ecc_calc ← calc_steps steps buf;
  ecc_code ← gather_codes (3 * steps) 0 oob;
  correct_steps steps buf ecc_code ecc_calc st.
End Pages.

(** * What reading gives back *)

(** An error of block [j] of a raw page. *)
Definition hit_page (eccpos : list nat) (j : nat) (e : error) (raw : list Z * list Z) : list Z * list Z :=
  let '(buf, oob) := raw in
  match e with
  | InData k b => (alter (λ x, flip x b) (256 * j + k)%nat buf, oob)
  | InCode k b => (buf, alter (λ x, flip x b) (nth (3 * j + k)%nat eccpos 0%nat) oob)
  end.

(** At most one error per block, of the blocks from [j] on. *)
Fixpoint hit_blocks (eccpos : list nat) (j : nat) (es : list (option error)) (raw : list Z * list Z) : list Z * list Z :=
  match es with
  | [] => raw
  | o :: es => hit_blocks eccpos (S j) es (match o with Some e => hit_page eccpos j e raw | None => raw end)
  end.

Definition error_count (es : list (option error)) : Z := Z.of_nat (length (omap id es)).

(** ** Blocks of a buffer *)

Lemma alter_concat {A} (f : A -> A) (w : nat) (ls : list (list A)) : ∀ j k l, Forall (λ l, length l = w) ls -> (k < w)%nat -> ls !! j = Some l ->
  alter f (w * j + k)%nat (concat ls) = concat (<[j := alter f k l]> ls).
Proof.
  induction ls as [|l0 ls IH]; intros j k l Hw Hk Hj; [done|]. inversion_clear Hw as [|?? Hl Hls]. destruct j as [|j].
  - injection Hj as ->. cbn. rewrite Nat.mul_0_r. apply alter_app_l. by rewrite Hl.
  - replace (w * S j + k)%nat with (length l0 + (w * j + k))%nat by lia. change (concat (<[S j := alter f k l]> (l0 :: ls))) with (l0 ++ concat (<[j := alter f k l]> ls)).
    rewrite <- IH by done. apply alter_app_r.
Qed.

Lemma calc_prefix smc blk rest : length blk = 256%nat -> nand_calculate_ecc smc (blk ++ rest) = nand_calculate_ecc smc blk.
Proof.
  intros Hl. rewrite !calc_loop. f_equal. revert Hl. generalize 256%nat, 0, (EccRegs 0 0 0). intros n.
  revert blk. induction n as [|n IH]; intros [|x blk] i r Hl; cbn in *; try done. apply IH. lia.
Qed.

Lemma correct_prefix smc blk rest read calc v blk' : nand_correct_data smc blk read calc = Some (v, blk') ->
  nand_correct_data smc (blk ++ rest) read calc = Some (v, blk' ++ rest) ∧ length blk' = length blk.
Proof.
  rewrite !correct_judge. destruct (judge _) as [|k b| |]; [by intros [= <- <-]| |by intros [= <- <-]..].
  unfold flip_bit. destruct (blk !! Z.to_nat k) as [x|] eqn:Hx; [|done]. cbn. intros [= <- <-].
  rewrite (lookup_app_l_Some _ _ _ _ Hx). cbn. rewrite insert_app_l by (by eapply lookup_lt_Some). by rewrite length_insert.
Qed.

(** ** The codes among the out-of-band bytes *)

Section Layout.
Context (eccpos : list nat).

Lemma gather_spec n : ∀ i oob l, gather_codes eccpos n i oob = Some l <->
  length l = n ∧ ∀ m, (m < n)%nat -> ∃ pos x, eccpos !! (i + m)%nat = Some pos ∧ oob !! pos = Some x ∧ l !! m = Some x.
Proof.
  induction n as [|n IH]; intros i oob l; cbn [gather_codes].
  - split; [intros [= <-]; split; [done|lia]|]. intros [Hl _]. by apply nil_length_inv in Hl as ->.
  - split.
    + destruct (eccpos !! i) as [pos|] eqn:Hp; [|done]. cbn. destruct (oob !! pos) as [x|] eqn:Hx; [|done]. cbn.
      destruct (gather_codes eccpos n (S i) oob) as [l'|] eqn:Hg; [|done]. cbn. intros [= <-]. apply IH in Hg as [Hl Hm]. split; [cbn; lia|].
      intros [|m] Hlt; [exists pos, x; by rewrite Nat.add_0_r|]. destruct (Hm m ltac:(lia)) as (pos' & x' & H1 & H2 & H3). exists pos', x'.
      by rewrite Nat.add_succ_r.
    + intros [Hl Hm]. destruct l as [|y l]; [done|]. destruct (Hm 0%nat ltac:(lia)) as (pos & x & Hp & Hx & Hy). rewrite Nat.add_0_r in Hp. injection Hy as ->.
      rewrite Hp. cbn. rewrite Hx. cbn. assert (gather_codes eccpos n (S i) oob = Some l) as ->; [|done]. apply IH. split; [cbn in Hl; lia|].
      intros m Hlt. destruct (Hm (S m) ltac:(lia)) as (pos' & x' & H1 & H2 & H3). exists pos', x'.
      by replace (S i + m)%nat with (i + S m)%nat by lia.
Qed.

Lemma gather_alter f n m oob l : NoDup eccpos -> gather_codes eccpos n 0 oob = Some l -> (m < n)%nat ->
  gather_codes eccpos n 0 (alter f (nth m eccpos 0%nat) oob) = Some (alter f m l).
Proof.
  intros Hnd [Hl Hg]%gather_spec Hm. apply gather_spec. split; [by rewrite length_alter|]. intros m' Hm'.
  destruct (Hg m' Hm') as (pos & x & Hp & Hx & Hy). destruct (Hg m Hm) as (posm & xm & Hpm & Hxm & Hym). cbn in Hp, Hpm.
  rewrite (nth_lookup_Some _ _ _ _ Hpm). exists pos. destruct (decide (m = m')) as [<-|Hne].
  - assert (posm = pos) as -> by congruence. exists (f x). rewrite !list_lookup_alter_eq, Hx, Hy. done.
  - exists x. rewrite !list_lookup_alter_ne; [done|done|]. intros ->. apply Hne. by eapply NoDup_lookup.
Qed.

Lemma place_spec n : ∀ i calc oob, NoDup eccpos -> Forall (λ pos, pos < length oob)%nat eccpos -> (i + n <= length eccpos)%nat -> (i + n <= length calc)%nat ->
  ∃ oob', place_codes eccpos n i calc oob = Some oob' ∧ length oob' = length oob ∧
    (∀ m pos, (m < i)%nat -> eccpos !! m = Some pos -> oob' !! pos = oob !! pos) ∧
    (∀ m pos, (i <= m < i + n)%nat -> eccpos !! m = Some pos -> oob' !! pos = calc !! m).
Proof.
  induction n as [|n IH]; intros i calc oob Hnd Hpos Hle Hlc; cbn [place_codes]; [exists oob; split_and!; try done; lia|].
  destruct (lookup_lt_is_Some_2 eccpos i ltac:(lia)) as [pos Hp]. destruct (lookup_lt_is_Some_2 calc i ltac:(lia)) as [c Hc].
  assert (pos < length oob)%nat as Hlt by (rewrite Forall_lookup in Hpos; by eapply Hpos).
  destruct (lookup_lt_is_Some_2 oob pos Hlt) as [x Hx]. rewrite Hp. cbn. rewrite Hc. cbn. rewrite Hx. cbn.
  destruct (IH (S i) calc (<[pos := c]> oob) Hnd) as (oob' & HP & Hl & Hold & Hnew); [by rewrite length_insert|lia|lia|].
  exists oob'. rewrite length_insert in Hl. split_and!; [done|done|..].
  - intros m p' Hm Hp'. rewrite (Hold m p') by (done || lia). apply list_lookup_insert_ne. intros ->. assert (m = i) by (by eapply NoDup_lookup). lia.
  - intros m p' Hm Hp'. destruct (decide (m = i)) as [->|]; [|by apply Hnew; [lia|]].
    rewrite (Hold i p') by (done || lia). assert (p' = pos) as -> by congruence. by rewrite list_lookup_insert_eq.
Qed.

Lemma place_gather n calc oob : NoDup eccpos -> Forall (λ pos, pos < length oob)%nat eccpos -> (n <= length eccpos)%nat -> length calc = n ->
  ∃ oob', place_codes eccpos n 0 calc oob = Some oob' ∧ gather_codes eccpos n 0 oob' = Some calc.
Proof.
  intros Hnd Hpos Hle Hlc. destruct (place_spec n 0 calc oob Hnd Hpos) as (oob' & HP & Hl & _ & Hnew); [lia|lia|]. exists oob'. split; [done|].
  apply gather_spec. split; [done|]. intros m Hm. destruct (lookup_lt_is_Some_2 eccpos m ltac:(lia)) as [pos Hp].
  destruct (lookup_lt_is_Some_2 calc m ltac:(lia)) as [c Hc]. exists pos, c. by rewrite (Hnew m pos) by (done || lia).
Qed.
End Layout.

(** ** Pages as blocks with their codes *)

Abbreviation page := (list (list Z * ecc_code)).
Definition data_of (ps : page) : list Z := concat (fst <$> ps).
Definition codes_of (ps : page) : list Z := concat ((code_bytes ∘ snd) <$> ps).
Definition hit_one (o : option error) (p : list Z * ecc_code) : list Z * ecc_code := match o with Some e => hit e p | None => p end.

Lemma codes_width (ps : page) : Forall (λ l, length l = 3%nat) ((code_bytes ∘ snd) <$> ps).
Proof. by apply Forall_fmap, Forall_true. Qed.

(** Storing the hit page is hitting the stored page. *)
Lemma hit_page_at eccpos j e p (ps : page) oob : NoDup eccpos -> Forall (λ q, length q.1 = 256%nat) ps -> in_page e -> ps !! j = Some p ->
  gather_codes eccpos (3 * length ps) 0 oob = Some (codes_of ps) ->
  ∃ oob', hit_page eccpos j e (data_of ps, oob) = (data_of (<[j := hit e p]> ps), oob') ∧
    gather_codes eccpos (3 * length ps) 0 oob' = Some (codes_of (<[j := hit e p]> ps)).
Proof.
  intros Hnd Hw He Hj Hg. destruct p as [blk c]. pose proof (lookup_lt_Some _ _ _ Hj) as Hlt. destruct e as [k b|k b]; cbn [hit hit_page].
  - exists oob. destruct He as [Hk Hb]. assert ((fst <$> ps) !! j = Some blk) as Hjb by (by rewrite list_lookup_fmap, Hj).
    unfold data_of. rewrite (alter_concat _ 256 _ j k blk) by (done || by apply Forall_fmap). split; [by rewrite list_fmap_insert|].
    rewrite Hg. f_equal. unfold codes_of. rewrite list_fmap_insert. f_equal. symmetry. apply list_insert_id. by rewrite list_lookup_fmap, Hj.
  - destruct He as [Hk Hb]. eexists. split.
    + f_equal. unfold data_of. rewrite list_fmap_insert. f_equal. symmetry. apply list_insert_id. rewrite list_lookup_fmap, Hj. by destruct k as [|[|]].
    + rewrite (gather_alter _ _ _ _ _ _ Hnd Hg) by lia. f_equal. unfold codes_of.
      rewrite (alter_concat _ 3 _ j k (code_bytes c)) by (done || apply codes_width || by rewrite list_lookup_fmap, Hj).
      rewrite list_fmap_insert. do 2 f_equal. destruct k as [|[|[|]]]; done || lia.
Qed.

Lemma hit_width e (p : list Z * ecc_code) : length (hit e p).1 = length p.1.
Proof. destruct p, e as [k b|[|[|k]] b]; cbn; by rewrite ?length_alter. Qed.

Lemma hit_blocks_at eccpos es : ∀ j (ps : page) oob, NoDup eccpos -> Forall (λ q, length q.1 = 256%nat) ps ->
  Forall (λ o, from_option in_page True o) es -> (j + length es = length ps)%nat -> gather_codes eccpos (3 * length ps) 0 oob = Some (codes_of ps) ->
  let qs := take j ps ++ zip_with hit_one es (drop j ps) in
  ∃ oob', hit_blocks eccpos j es (data_of ps, oob) = (data_of qs, oob') ∧ gather_codes eccpos (3 * length ps) 0 oob' = Some (codes_of qs).
Proof.
  induction es as [|o es IH]; intros j ps oob Hnd Hw Hes Hl Hg qs.
  { exists oob. unfold qs. cbn in *. rewrite firstn_all2, app_nil_r by lia. done. }
  inversion_clear Hes as [|?? Ho Hes']. destruct (lookup_lt_is_Some_2 ps j) as [p Hp]; [cbn in Hl; lia|].
  assert (∃ oob1, match o with Some e => hit_page eccpos j e (data_of ps, oob) | None => (data_of ps, oob) end = (data_of (<[j := hit_one o p]> ps), oob1) ∧
    gather_codes eccpos (3 * length ps) 0 oob1 = Some (codes_of (<[j := hit_one o p]> ps))) as (oob1 & Hh & Hg1).
  { destruct o as [e|]; [by apply hit_page_at|]. exists oob. cbn. by rewrite list_insert_id. }
  cbn [hit_blocks]. rewrite Hh. destruct (IH (S j) (<[j := hit_one o p]> ps) oob1 Hnd) as (oob' & HH & HG).
  - apply Forall_insert; [done|]. rewrite Forall_lookup in Hw. specialize (Hw _ _ Hp). destruct o; cbn; [by rewrite hit_width|done].
  - done.
  - rewrite length_insert. cbn in Hl. lia.
  - by rewrite length_insert.
  - assert (take (S j) (<[j := hit_one o p]> ps) ++ zip_with hit_one es (drop (S j) (<[j := hit_one o p]> ps)) = qs) as Hq.
    { unfold qs. rewrite (drop_S ps p j Hp), drop_insert_lt, (take_S_r _ j (hit_one o p)) by (lia || (apply list_lookup_insert_eq; by eapply lookup_lt_Some)).
      rewrite take_insert_ge by lia. cbn. by rewrite <- app_assoc. }
    rewrite Hq in HH, HG. rewrite length_insert in HG. by exists oob'.
Qed.

Lemma error_count_cons o es : error_count (o :: es) = (if o is Some _ then 1 else 0) + error_count es.
Proof. unfold error_count. destruct o; cbn; lia. Qed.

(** Each block comes back. *)
Lemma correct_pages smc (ps : page) : ∀ es st, Forall (λ p, block_ok p.1 ∧ nand_calculate_ecc smc p.1 = Some p.2) ps -> length es = length ps ->
  Forall (λ o, from_option in_page True o) es -> in_u 32 (corrected st) -> let qs := zip_with hit_one es ps in
  ∃ calc, calc_steps smc (length ps) (data_of qs) = Some calc ∧
    correct_steps smc (length ps) (data_of qs) (codes_of qs) calc st = Some (data_of ps, EccStats (u32 (corrected st + error_count es)) (failed st)).
Proof.
  induction ps as [|p ps IH]; intros [|o es] st Hps Hl Hes Hst qs; try done.
  { exists []. unfold qs, error_count. cbn. rewrite Z.add_0_r. unfold u32. rewrite wrap_id by done. by destruct st. }
  inversion_clear Hps as [|?? [Hb Hc] Hps']. inversion_clear Hes as [|?? Ho Hes']. destruct p as [blk code]. cbn [fst snd] in Hb, Hc.
  set (stat := if o is Some _ then 1 else 0).
  assert (read_page smc (hit_one o (blk, code)) = Some (stat, blk)) as Hread.
  { destruct (ecc_page smc blk Hb) as (code' & Hc' & H0 & H1 & _). assert (code' = code) as -> by congruence. destruct o as [e|]; [by apply H1|done]. }
  unfold qs. cbn [zip_with]. destruct (hit_one o (blk, code)) as [blk' code'] eqn:Hh. unfold read_page in Hread. cbn [fst snd] in Hread.
  destruct (nand_calculate_ecc smc blk') as [c'|] eqn:Hc'; [|done]. cbv [mbind option_bind] in Hread.
  assert (length blk' = 256%nat) as Hw. { destruct Hb as [Hb _]. destruct o as [e|]; cbn [hit_one] in Hh; [|congruence]. pose proof (hit_width e (blk, code)) as Hw. rewrite Hh in Hw. cbn in Hw. lia. }
  set (st1 := EccStats (u32 (corrected st + stat)) (failed st)).
  destruct (IH es st1) as (calc & HC & HR); [done|cbn in Hl; lia|done|apply u32_range|]. set (qs' := zip_with hit_one es ps) in *.
  exists (code_bytes c' ++ calc). change (data_of ((blk', code') :: qs')) with (blk' ++ data_of qs'). change (codes_of ((blk', code') :: qs')) with (code_bytes code' ++ codes_of qs').
  cbn [length calc_steps correct_steps]. rewrite calc_prefix by done. rewrite Hc'. cbv [mbind option_bind]. rewrite drop_app_length' by done. rewrite HC. split; [done|].
  destruct (correct_prefix smc blk' (data_of qs') code' c' stat blk Hread) as [Hcp Hlen].
  replace (code_at (code_bytes code' ++ codes_of qs')) with (Some code') by (by destruct code'). replace (code_at (code_bytes c' ++ calc)) with (Some c') by (by destruct c').
  rewrite Hcp. rewrite drop_app_length', take_app_length' by lia. change (drop 3 (code_bytes code' ++ codes_of qs')) with (codes_of qs'). change (drop 3 (code_bytes c' ++ calc)) with calc.
  assert ((stat <? 0) = false) as -> by (unfold stat; by destruct o). fold st1. rewrite HR. do 2 f_equal. unfold st1. cbn [corrected failed]. rewrite error_count_cons. fold stat.
  unfold u32. rewrite wrap_add_l. by rewrite Z.add_assoc.
Qed.

Lemma calc_pages smc (bs : list (list Z)) : Forall block_ok bs -> ∃ ps : page, bs = fst <$> ps ∧
  Forall (λ p, block_ok p.1 ∧ nand_calculate_ecc smc p.1 = Some p.2) ps ∧ calc_steps smc (length bs) (concat bs) = Some (codes_of ps).
Proof.
  induction 1 as [|b bs Hb Hbs (ps & -> & Hps & Hc)]; [by exists []|]. destruct (ecc_page smc b Hb) as (code & Hcode & _).
  exists ((b, code) :: ps). split_and!; [done|by constructor|]. cbn [length concat calc_steps]. rewrite calc_prefix by apply Hb. rewrite Hcode.
  cbv [mbind option_bind]. rewrite drop_app_length' by (symmetry; apply Hb). by rewrite Hc.
Qed.

(** C31: a page that is written and read with software error correction comes
    back intact when no more than one bit of each block of 256 bytes and its
    code has changed in between, wherever it is, for every page size and every
    layout of the out-of-band bytes that keeps the codes apart; the statistics
    count the corrected bits. *)
Theorem nand_page_survives smc eccpos (blocks : list (list Z)) oob es st :
  Forall block_ok blocks -> NoDup eccpos -> Forall (λ pos, pos < length oob)%nat eccpos -> (3 * length blocks <= length eccpos)%nat ->
  length es = length blocks -> Forall (λ o, from_option in_page True o) es -> in_u 32 (corrected st) ->
  ∃ raw, nand_write_page_swecc smc (length blocks) eccpos (concat blocks) oob = Some raw ∧
    nand_read_page_swecc smc (length blocks) eccpos (hit_blocks eccpos 0 es raw) st =
      Some (concat blocks, EccStats (u32 (corrected st + error_count es)) (failed st)).
Proof.
  intros Hb Hnd Hpos Hle Hl Hes Hst. destruct (calc_pages smc blocks Hb) as (ps & -> & Hps & Hc). rewrite length_fmap in *.
  assert (length (codes_of ps) = 3 * length ps)%nat as Hlc. { unfold codes_of. clear. induction ps as [|p ps IH]; [done|]. cbn [fmap list_fmap concat]. rewrite length_app, IH. cbn. lia. }
  destruct (place_gather eccpos (3 * length ps) (codes_of ps) oob Hnd Hpos Hle Hlc) as (oob1 & Hpl & Hg).
  exists (data_of ps, oob1). unfold nand_write_page_swecc. fold (data_of ps) in *. rewrite Hc. cbv [mbind option_bind]. rewrite Hpl. split; [done|].
  destruct (hit_blocks_at eccpos es 0 ps oob1 Hnd) as (oob2 & Hh & Hg2); [|done|lia|done|].
  { eapply Forall_impl; [exact Hps|]. intros p [[Hw _] _]. done. }
  rewrite drop_0 in *. change (take 0 ps) with (@nil (list Z * ecc_code)) in *. cbn [app] in *. rewrite Hh. destruct (correct_pages smc ps es st Hps Hl Hes Hst) as (calc & HC & HR).
  unfold nand_read_page_swecc. cbv iota beta. rewrite HC. cbv [mbind option_bind]. rewrite Hg2. exact HR.
Qed.

(** * The driver of the board *)

Definition NAND_CMD_NONE : Z := - 1.
Definition NAND_CLE : Z := 0x02.
Definition NAND_READY_DETECT : Z := BIT 15.
Definition NF_IO_START : Z := 0x1c000000.
Definition NF_IO_BASE : Z := io_p2v NF_IO_START.
Definition MEMNANDCTRL : reg := REGW 0xc0003a3a.
Definition NFCMD : reg := REGB (NF_IO_START + 0x10).
Definition NFADDR : reg := REGB (NF_IO_START + 0x18).

Definition partition_info : list mtd_partition :=
  [ Partition "Bootloader" 0x80000 0 MTD_WRITEABLE false;
    Partition "Param" 0x20000 MTDPART_OFS_APPEND 0 false;
    Partition "Kernel" 0x100000 MTDPART_OFS_APPEND 0 false;
    Partition "Filesystem" 0x1800000 MTDPART_OFS_APPEND 0 false;
    Partition "Extend" MTDPART_SIZ_FULL MTDPART_OFS_APPEND 0 false ].

Inductive nand_ecc_mode := NAND_ECC_NONE | NAND_ECC_SOFT | NAND_ECC_HW.

Section Driver.
Context {D : Type} `{Bus D}.

Definition mmsp2_nand_hwcontrol (cmd ctrl : Z) : St D unit :=
  if cmd =? NAND_CMD_NONE then mret tt
  else if tst ctrl NAND_CLE then wr NFCMD cmd else wr NFADDR cmd.

Definition mmsp2_nand_select_chip (chip : Z) : St D unit :=
  v ← rd MEMNANDCTRL;
  let mem := u16 (Z.land v 0xfffc) in
  wr MEMNANDCTRL (Z.lor mem (Z.land chip 3)).

Definition on_bus {A} (m : St D A) : Sf D A := λ d, Some (m d).

(** [while (MEMNANDCTRL & NAND_READY_DETECT) ...] *)
Fixpoint clear_ready (fuel : nat) : Sf D unit :=
  v ← on_bus (rd MEMNANDCTRL);
  if tst v NAND_READY_DETECT then
    match fuel with
    | O => oops
    | S fuel => on_bus (or_reg MEMNANDCTRL NAND_READY_DETECT) ;; clear_ready fuel
    end
  else mret tt.

Definition mmsp2_nand_dev_ready (fuel : nat) : Sf D Z :=
  v ← on_bus (rd MEMNANDCTRL);
  if Z.land v NAND_READY_DETECT =? NAND_READY_DETECT then clear_ready fuel ;; mret 1 else mret 0.
End Driver.

(** The part of struct nand_chip that the driver sets. *)
Record nand_chip (D : Type) := NandChip {
  IO_ADDR_R : Z; IO_ADDR_W : Z; cmd_ctrl : Z -> Z -> St D unit; select_chip : Z -> St D unit; dev_ready : nat -> Sf D Z; ecc_mode : nand_ecc_mode }.
Arguments NandChip {D}. Arguments IO_ADDR_R {D}. Arguments IO_ADDR_W {D}. Arguments cmd_ctrl {D}.
Arguments select_chip {D}. Arguments dev_ready {D}. Arguments ecc_mode {D}.

(** [scan]: what nand_scan returns; [add]: add_mtd_partitions. *)
Definition mmsp2_nand_init {D} `{Bus D} (hardware_ecc : bool) (scan : nand_chip D -> Z) (add : list mtd_partition -> Z) : Z * nand_chip D :=
  let chip := NandChip NF_IO_BASE NF_IO_BASE mmsp2_nand_hwcontrol mmsp2_nand_select_chip mmsp2_nand_dev_ready
    (if hardware_ecc then NAND_ECC_HW else NAND_ECC_SOFT) in
  if negb (scan chip =? 0) then (- ENXIO, chip) else let _ := add partition_info in (0, chip).

(** ** What the driver does to the control register *)

(** The driver clears the ready indication by writing a one to it; the other
    bits are storage. *)
Class NandRegs (D : Type) `{Bus D} := {
  nand_ctrl : D -> Z;
  ctrl_range : ∀ d, in_u 16 (nand_ctrl d);
  ctrl_load : ∀ d, bus_load MEMNANDCTRL d = (nand_ctrl d, d);
  ctrl_store : ∀ v d, in_u 16 v ->
    nand_ctrl (bus_store MEMNANDCTRL v d) = Z.lor (clr v NAND_READY_DETECT) (clr (Z.land (nand_ctrl d) NAND_READY_DETECT) v);
}.

Section DriverOk.
Context {D : Type} `{NandRegs D}.

Lemma rd_ctrl d : rd MEMNANDCTRL d = (nand_ctrl d, d).
Proof. unfold rd. rewrite ctrl_load. unfold MEMNANDCTRL, REGW; cbn [reg_width]. by rewrite wrap_id by apply ctrl_range. Qed.

Lemma wr_ctrl v d : in_u 16 v ->
  nand_ctrl (exec (wr MEMNANDCTRL v) d) = Z.lor (clr v NAND_READY_DETECT) (clr (Z.land (nand_ctrl d) NAND_READY_DETECT) v).
Proof. intros Hv. unfold exec, wr. cbn [snd]. rewrite wrap_id by done. by apply ctrl_store. Qed.

Lemma on_bus_run {A} (m : St D A) d : on_bus m d = Some (eval m d, exec m d).
Proof. unfold on_bus, eval, exec. by destruct (m d). Qed.

Lemma ready_bit x : (Z.land x NAND_READY_DETECT =? NAND_READY_DETECT) = Z.testbit x 15.
Proof.
  unfold NAND_READY_DETECT. destruct (Z.testbit x 15) eqn:Hb.
  - apply Z.eqb_eq, Z.bits_inj'. intros i Hi. rewrite Z.land_spec, BIT_testbit by lia. destruct (Z.eqb_spec 15 i) as [<-|]; [by rewrite Hb|by rewrite andb_false_r].
  - apply Z.eqb_neq. intros He. apply (f_equal (λ y, Z.testbit y 15)) in He. rewrite Z.land_spec, Hb in He. done.
Qed.

(** A ready chip is reported once, and the indication is taken back; nothing
    else changes. *)
Theorem dev_ready_acknowledges fuel d :
  ∃ d', mmsp2_nand_dev_ready (S fuel) d = Some (Z.b2z (Z.testbit (nand_ctrl d) 15), d') ∧
    nand_ctrl d' = clr (nand_ctrl d) NAND_READY_DETECT ∧ (Z.testbit (nand_ctrl d) 15 = false -> d' = d).
Proof.
  unfold mmsp2_nand_dev_ready. erewrite bind_run by (unfold on_bus; rewrite rd_ctrl; reflexivity). rewrite ready_bit.
  destruct (Z.testbit (nand_ctrl d) 15) eqn:Hb.
  - exists (exec (or_reg MEMNANDCTRL NAND_READY_DETECT) d).
    assert (nand_ctrl (exec (or_reg MEMNANDCTRL NAND_READY_DETECT) d) = clr (nand_ctrl d) NAND_READY_DETECT) as Hc.
    { unfold or_reg. rewrite exec_bind. unfold exec at 2, eval. rewrite rd_ctrl. cbn [fst snd].
      rewrite wr_ctrl by (apply lor_in_u; [lia|apply ctrl_range|by apply BIT_in_u]). unfold NAND_READY_DETECT.
      apply Z.bits_inj'. intros i Hi. rewrite Z.lor_spec, !clr_testbit, Z.land_spec, !Z.lor_spec, !BIT_testbit by lia.
      by destruct (Z.testbit (nand_ctrl d) i), (15 =? i). }
    split_and!; [|done|done]. cbn [clear_ready].
    assert (tst (nand_ctrl d) NAND_READY_DETECT = true) as Ht1 by (unfold NAND_READY_DETECT; by rewrite tst_BIT).
    assert (tst (clr (nand_ctrl d) NAND_READY_DETECT) NAND_READY_DETECT = false) as Ht2 by (by apply tst_clr_sub).
    erewrite bind_run; [reflexivity|]. erewrite bind_run by (unfold on_bus; rewrite rd_ctrl; reflexivity). rewrite Ht1.
    erewrite bind_run by apply on_bus_run.
    destruct fuel; cbn [clear_ready]; (erewrite bind_run by (unfold on_bus; rewrite rd_ctrl; reflexivity)); by rewrite Hc, Ht2.
  - exists d. split_and!; [done| |done]. unfold NAND_READY_DETECT. apply Z.bits_inj'. intros i Hi. rewrite clr_testbit, BIT_testbit by lia.
    destruct (Z.eqb_spec 15 i) as [<-|]; [by rewrite Hb|by rewrite andb_true_r].
Qed.

(** Selecting a chip sets the two chip bits and leaves the others, but it also
    takes back a pending ready indication, which it writes back as a one. *)
Theorem select_chip_control chip d : let d' := exec (mmsp2_nand_select_chip chip) d in
  nand_ctrl d' = Z.lor (clr (clr (nand_ctrl d) 3) NAND_READY_DETECT) (Z.land chip 3).
Proof.
  intros d'. unfold d', mmsp2_nand_select_chip. rewrite exec_bind. unfold exec at 2, eval. rewrite rd_ctrl. cbn [fst snd].
  assert (in_u 16 (Z.land (nand_ctrl d) 0xfffc)) as Hm by (apply land_in_u; [lia|apply ctrl_range|lia]).
  assert (in_u 16 (Z.land chip 3)) as H3. { change 3 with (Z.ones 2). rewrite Z.land_ones by lia. pose proof (Z.mod_pos_bound chip (2 ^ 2) ltac:(lia)). unfold in_u. lia. }
  unfold u16. rewrite wrap_id by done. rewrite wr_ctrl by (by apply lor_in_u). unfold NAND_READY_DETECT. pose proof (ctrl_range d) as Hr.
  apply Z.bits_inj'. intros i Hi. rewrite !Z.lor_spec, !clr_testbit, !Z.land_spec, !Z.lor_spec, !Z.land_spec, !BIT_testbit by lia.
  destruct (decide (i < 16)) as [Hlt|Hge].
  - assert (Z.testbit 65532 i = negb (Z.testbit 3 i)) as ->.
    { assert (65532 = clr 65535 3) as -> by reflexivity. rewrite clr_testbit. change 65535 with (Z.ones 16). by rewrite Z.ones_spec_low by lia. }
    destruct (Z.eqb_spec 15 i) as [<-|]; [by destruct (Z.testbit (nand_ctrl d) 15), (Z.testbit chip 15)|].
    by destruct (Z.testbit (nand_ctrl d) i), (Z.testbit chip i), (Z.testbit 3 i).
  - rewrite (testbit_high 16 (nand_ctrl d)), (testbit_high 2 3) by (done || unfold in_u; lia). destruct (Z.eqb_spec 15 i); [lia|]. by rewrite !andb_false_r.
Qed.
End DriverOk.

(** * A page on the board's flash *)

Module NandDemo.
Import FlashRam.
(** A page of 512 bytes with 16 out-of-band bytes: one bit of the second block
    and one of the code of the first are wrong. *)
Definition blocks : list (list Z) := [seqZ 0 256; repeat 255 256].
Definition errors : list (option error) := [Some (InCode 1 6); Some (InData 200 5)].

Lemma nand_page_survives_witness : ∃ raw, nand_write_page_swecc false 2 nand_oob_16 (concat blocks) (repeat 255 16) = Some raw ∧
  nand_read_page_swecc false 2 nand_oob_16 (hit_blocks nand_oob_16 0 errors raw) (EccStats 7 0) = Some (concat blocks, EccStats 9 0).
Proof.
  apply (nand_page_survives false nand_oob_16 blocks (repeat 255 16) errors (EccStats 7 0)).
  - constructor; [split; [reflexivity|]|constructor; [split; [reflexivity|]|constructor]].
    + apply Forall_forall. intros x Hx. apply elem_of_seqZ in Hx. lia.
    + apply Forall_forall. intros x Hx. apply list_elem_of_In, repeat_spec in Hx. lia.
  - apply (bool_decide_unpack _). vm_compute. exact I.
  - apply (bool_decide_unpack _). vm_compute. exact I.
  - cbn. lia.
  - reflexivity.
  - constructor; [split; lia|constructor; [split; lia|constructor]].
  - unfold in_u. cbn. lia.
Defined.

(** The partitions of the board on a flash of 64 megabytes. *)
Definition flash : mtd_info := MtdInfo 1 MTD_WRITEABLE 0x4000000 0x4000 [] (Some (λ a, a =? 0x600000)).

Lemma board_table_follows : follows flash 0 partition_info.
Proof.
  apply follows_cons; [cbn; lia|by right|cbn; lia|cbn; lia|]. apply follows_cons; [cbn; lia|by left|cbn; lia|cbn; lia|].
  apply follows_cons; [cbn; lia|by left|cbn; lia|cbn; lia|]. apply follows_cons; [cbn; lia|by left|cbn; lia|cbn; lia|].
  apply follows_rest; [cbn; lia|done|done].
Qed.

Lemma partitions_isolated_witness :
  ∃ new, add_mtd_partitions 4097 flash partition_info (repeat true 5) [] = Some (0, new ++ []) ∧
    (λ p, (offset p, size p)) <$> reverse new = [(0, 0x80000); (0x80000, 0x20000); (0xa0000, 0x100000); (0x1a0000, 0x1800000); (0x19a0000, 0x2660000)] ∧
    ∀ a, 0 <= a < 0x4000000 -> ∃ p, p ∈ new ∧ inside p a.
Proof.
  destruct (partitions_isolated (D := FlashRam.ram) 4097 flash partition_info []) as (new & Ha & Hl & _ & Hcov & _); [cbn; lia|cbn; lia|cbn; lia|cbn; lia|cbn; lia|exact board_table_follows|].
  exists new. split; [exact Ha|]. split; [rewrite Hl; vm_compute; reflexivity|exact Hcov].
Defined.

(** Only the boot loader is read-only; the last partition ends with the flash. *)
Example board_partitions :
  (λ s, (offset s, size s, writeable s, badblocks s)) <$> from_option snd [] (add_mtd_partitions 4097 flash partition_info (repeat true 5) []) =
  [(0x19a0000, 0x2660000, true, 0); (0x1a0000, 0x1800000, true, 1); (0xa0000, 0x100000, true, 0); (0x80000, 0x20000, true, 0); (0, 0x80000, false, 0)].
Proof. vm_compute. reflexivity. Qed.
End NandDemo.
