(* ===== verification/Dma.v ===== *)
(** drivers/dma/mmsp2.c: the DMA controller driver, on the interrupt layer and
    the platform device table.

    The callbacks of the DMA engine only print, and the driver returns no value
    from most of them; they are not modelled.  What the allocator answers is an
    argument, and what is allocated is part of the state. *)

From S2P Require Import Prelude.
From S2P Require Import Hw.
From S2P Require Import Genirq.
From S2P Require Import Mp2520fIrq.
From S2P Require Import Mp2520fBoard.

Definition DMA_REG_BASE : Z := io_p2v 0xc0000200.
Definition DMA_IO_BASE : Z := io_p2v 0xc0000100.
Definition DMA_MMSP2_MAX_CHANNELS : nat := 16.
(** (unsigned int)(-1), compared with an int. *)
Definition NO_IRQ : Z := - 1.

(** struct mmsp2_dma_chan; kzalloc clears it. *)
Record mmsp2_dma_chan := DmaChan { reg_base : Z; io_base : Z; peripheric : Z }.
(** struct mmsp2_dma_device with the fields of its dma_device that are set. *)
Record mmsp2_dma_device_ := DmaDevice { dma_irq : Z; chancnt : nat; channels : list mmsp2_dma_chan }.

(** The interrupt layer, the driver data of the platform device, and how many
    devices and channels are allocated. *)
Record dma_sys (C H D : Type) := DmaSys { irq_layer : irqsys C H D; dma_drvdata : option mmsp2_dma_device_; live_devices : nat; live_channels : nat }.
Arguments DmaSys {C H D}. Arguments irq_layer {C H D}. Arguments dma_drvdata {C H D}. Arguments live_devices {C H D}. Arguments live_channels {C H D}.

(** [mem]: whether the allocation of each channel succeeds. *)
Fixpoint enumerate_loop (n : nat) (i : nat) (mem : nat -> bool) (l : list mmsp2_dma_chan) : list mmsp2_dma_chan :=
  match n with
  | O => l
  | S n =>
      if mem i then
        let chan := DmaChan 0 0 0 in
        let chan := DmaChan (DMA_REG_BASE + 0x40 * Z.of_nat i) (io_base chan) (peripheric chan) in
        let chan := DmaChan (DMA_IO_BASE + 0x4 * Z.of_nat i) (io_base chan) (peripheric chan) in
        enumerate_loop n (S i) mem (l ++ [chan])
      else l
  end.
Definition enumerate_dma_channels (mem : nat -> bool) (dev : mmsp2_dma_device_) : mmsp2_dma_device_ :=
  let l := enumerate_loop DMA_MMSP2_MAX_CHANNELS 0 mem (channels dev) in
  DmaDevice (dma_irq dev) (length l) l.

Section Dma.
Context {C H D : Type}.
Abbreviation dsys := (dma_sys C H D).
(** The handler mmsp2_dma_irq, and the address of the device as its cookie. *)
Context (mmsp2_dma_irq : H) (cookie : Z) (run_handler : H -> Z -> Z -> Sf (irqsys C H D) Z).

Definition on_irq {A} (m : Sf (irqsys C H D) A) : Sf dsys A := λ s,
  match m (irq_layer s) with Some (x, q) => Some (x, DmaSys q (dma_drvdata s) (live_devices s) (live_channels s)) | None => None end.
Definition kfree_device : Sf dsys unit := fmodify (λ s, DmaSys (irq_layer s) (dma_drvdata s) (pred (live_devices s)) (live_channels s)).

(** [mem_dev], [mem], [mem_irq]: the outcomes of the allocations. *)
Definition mmsp2_dma_probe (mem_dev : bool) (mem : nat -> bool) (mem_irq : bool) (resources : list pres) : Sf dsys Z :=
  if negb mem_dev then mret (- ENOMEM)
  else
    fmodify (λ s, DmaSys (irq_layer s) (dma_drvdata s) (S (live_devices s)) (live_channels s)) ;;
    let device := DmaDevice 0 0 [] in
    let irq := platform_get_irq resources 0 in
    if irq =? NO_IRQ then kfree_device ;; mret (- ENXIO)
    else
      let device := enumerate_dma_channels mem device in
      fmodify (λ s, DmaSys (irq_layer s) (dma_drvdata s) (live_devices s) (live_channels s + length (channels device))) ;;
      ret ← on_irq (request_irq run_handler mem_irq (dma_irq device) (Some mmsp2_dma_irq) 0 cookie);
      if negb (ret =? 0) then
        on_irq (free_irq run_handler (dma_irq device) cookie) ;;
        kfree_device ;; mret ret
      else
        fmodify (λ s, DmaSys (irq_layer s) (Some device) (live_devices s) (live_channels s)) ;;
        mret 0.

Definition mmsp2_dma_remove : Sf dsys Z :=
  fmodify (λ s, DmaSys (irq_layer s) None (live_devices s) (live_channels s)) ;; mret 0.

(** * What probing does *)

(** The channels get the address of the I/O request registers as the one of
    their control registers, and none of their own. *)
Theorem channels_misplaced mem dev : (∀ i, mem i = true) ->
  channels (enumerate_dma_channels mem (DmaDevice dev 0 [])) = (λ i, DmaChan (DMA_IO_BASE + 4 * Z.of_nat i) 0 0) <$> seq 0 16.
Proof. intros Hm. unfold enumerate_dma_channels, DMA_MMSP2_MAX_CHANNELS. cbn [channels enumerate_loop]. by rewrite !Hm. Qed.

(** The line of the DMA controller plays no part: whatever the platform device
    says, even that there is none, the driver requests line 0. *)
Theorem probe_takes_line_0 mem_dev mem mem_irq resources s : platform_get_irq resources 0 ≠ NO_IRQ ->
  mmsp2_dma_probe mem_dev mem mem_irq resources s = mmsp2_dma_probe mem_dev mem mem_irq mmsp2_dma_resources s ∧
  (mem_dev = true -> ∀ r q, request_irq run_handler mem_irq 0 (Some mmsp2_dma_irq) 0 cookie (irq_layer s) = Some (r, q) ->
     r = 0 -> ∃ s', mmsp2_dma_probe mem_dev mem mem_irq resources s = Some (0, s') ∧ irq_layer s' = q).
Proof.
  intros Hn. split.
  - unfold mmsp2_dma_probe. destruct (negb mem_dev); [done|]. cbv zeta. by rewrite (proj2 (Z.eqb_neq _ _) Hn).
  - intros -> r q Hr ->. unfold mmsp2_dma_probe. cbn [negb]. erewrite bind_run by reflexivity. cbv zeta. rewrite (proj2 (Z.eqb_neq _ _) Hn).
    erewrite bind_run by reflexivity. cbv beta. erewrite bind_run; [|unfold on_irq; cbn [irq_layer dma_irq enumerate_dma_channels]; rewrite Hr; reflexivity].
    cbn [Z.eqb negb]. erewrite bind_run by reflexivity. by eexists.
Qed.

(** After a failed request the channels stay allocated. *)
Theorem probe_leaks_channels mem mem_irq resources s r q : platform_get_irq resources 0 ≠ NO_IRQ -> (∀ i, mem i = true) ->
  request_irq run_handler mem_irq 0 (Some mmsp2_dma_irq) 0 cookie (irq_layer s) = Some (r, q) -> r ≠ 0 -> ∀ q', free_irq run_handler 0 cookie q = Some (tt, q') ->
  ∃ s', mmsp2_dma_probe true mem mem_irq resources s = Some (r, s') ∧ live_devices s' = live_devices s ∧ live_channels s' = (live_channels s + 16)%nat.
Proof.
  intros Hn Hm Hr Hne q' Hf. unfold mmsp2_dma_probe. cbn [negb]. erewrite bind_run by reflexivity. cbv zeta. rewrite (proj2 (Z.eqb_neq _ _) Hn).
  erewrite bind_run by reflexivity. cbv beta. erewrite bind_run; [|unfold on_irq; cbn [irq_layer dma_irq enumerate_dma_channels]; rewrite Hr; reflexivity].
  rewrite (proj2 (Z.eqb_neq _ _) Hne). cbn [negb]. erewrite bind_run; [|unfold on_irq; cbn [irq_layer dma_irq enumerate_dma_channels]; rewrite Hf; reflexivity].
  erewrite bind_run by reflexivity. eexists. split; [done|]. cbn. rewrite !Hm. cbn. done.
Qed.
End Dma.
